(* ===== verification/_CoqProject ===== *)
-Q . S2P
Prelude.v
Lru.v
RecencyList.v
Uint256.v
BaseFee.v
BaseFeeProps.v
Lighthouse.v
Types.v
Config.v
Multiplexer.v
Prog.v
Logic.v
Shared.v
PayloadBuilder.v
BuilderSpec.v
Fcu.v
NewPayload.v
Alone.v
Meta.v
Jwt.v
Main.v
Methods.v
Toy.v
AuthProps.v
System.v
Seen.v
Deadlock.v
Isolation.v
Invariant.v
Backed.v
Replies.v
RequestProps.v
Tracing.v
Calls.v
Received.v
Safety.v
Liveness.v
Spec.v
Typing.v
BuilderCoherence.v
Ids.v
Timing.v
ServerProps.v
AloneSpecs.v
Eviction.v
Overlap.v
BuilderProps.v
HandlerProps.v
CacheProps.v
StartupProps.v
