(* ===== verification/Prelude.v ===== *)
(** * Eleel, a multiplexer for Ethereum execution engines: a verification library

    Eleel (src/src/, a Rust server) lets many consensus nodes share one execution engine.
    One of them, the controller, drives the engine through the route [/canonical]; the
    others, the clients, send the same JSON-RPC requests to [/] and are answered from what
    the engine has told the controller.  This library models the whole request path of the
    server and proves what the controller and the clients can rely on.

    ** The program and its model

    Each handler is an [async fn] that locks one of five mutexes, calls the engine, reads
    the clock or sleeps; between two such events any other request may run.  A handler is
    modelled as a program [prog R] (Prog.v): a tree of events with a continuation for every
    answer.  Synchronous code is a pure function in a result type ([result] for [Result],
    [outcome] for code that may panic, Prelude.v).  Two semantics interpret the programs:
    - [run] (Prog.v) executes one request alone, in an environment which answers for the
      engine and says what the other requests did during a sleep;
    - [Sys] (System.v) is the server: any number of requests in flight over one shared
      state, as a step relation; a schedule (a list of labels) is executable.  A request may
      be dropped at any point (its connection is gone) or panic; its mutexes are released
      then, as tokio's guards are.

    The files of the model, and what they translate:
    - Types.v: types.rs (messages, error codes and constructors);
    - Config.v: config.rs (options and defaults, matching modes, networks);
    - Multiplexer.v: multiplexer.rs ([Multiplexer] as the constant [Statics] and the five
      mutexes' [Caches], [Multiplexer_new]) and the state of payload_builder.rs;
    - BaseFee.v: base_fee.rs;
    - PayloadBuilder.v: the operations of payload_builder.rs.  A function [f_locked] is the
      part of [f] that runs under the lock, on the guarded value;
    - Fcu.v: fcu.rs; NewPayload.v: new_payload.rs.  The status part of a handler, from the
      decoded request to the status, is a definition of its own
      ([controller_fcu_status], [client_fcu_status], ...); the two polling loops, which
      the sources write out twice, are [poll_until] of Prog.v;
    - Meta.v: meta.rs; Jwt.v: jwt.rs and the secrets file of config.rs;
    - Main.v: main.rs (dispatch, both endpoints, batches, routes, start-up).

    Code outside the repository is a parameter with documented laws: the lru crate
    ([LruOps], [LruLaws] in Lru.v, implemented by RecencyList.v), 256-bit integers
    (Uint256.v, implemented there), the Lighthouse types and serde (Lighthouse.v and the
    end of the type part of Types.v, [Ext] and [ExtOk]), tokens, hex, TOML and files
    ([JwtOps]), networks ([NetworkOps]) and the connection to the engine ([EngineOps]).
    Toy.v instantiates all of them at once with small concrete types and proves their laws;
    every witness is computed there.

    ** What is proved

    One program logic (Logic.v), parametrised by what an event may answer and do to a ghost
    state, has these instances: the events a handler may perform ([only], Isolation.v), the
    lock discipline (Deadlock.v), a handler among others with an invariant (Shared.v), a
    handler alone (Alone.v), the engine calls a message may still make (Calls.v), and what a
    handler has seen of the builder ([watching], Seen.v).  The invariant of the caches and the
    builder is in Invariant.v, the handlers' specifications in Backed.v, Replies.v and
    Tracing.v, what follows for single steps in Safety.v, where ids and panics come from in
    Ids.v (with what an id stands for, BuilderCoherence.v), the widths of the numbers sent to
    the engine in Typing.v, the rules for the status part of a handler that runs alone in
    AloneSpecs.v.  The theorems:
    - ServerProps.v, for every reachable state of the server: a status a client is told is
      an answer of the engine to the controller for that very block or forkchoice state, or
      a SYNCING, and an id it is told was given to its attributes on its head block together
      with a payload built for them, and is nobody else's (C1, C2, in batches C4); the server
      refines the abstract multiplexer of Spec.v, which has no caches, no mutexes and no clock
      (C3); what the controller is told, its ids too (C5), what is relayed (C6); every cache
      entry, known parent and built payload is traced to an answer (C7); only a build on a
      block which cannot have a child, or with the counter of ids at its end, panics (C8); each
      call of the engine is paid for by a request that asks for it (C9, by the invariant of
      Received.v), and a client never changes what is cached (C10); no deadlock (C11), every
      request comes to an end (C12, by the measure of Liveness.v) and polling ends at its
      deadline (C13); a reply answers its request (C21);
    - Timing.v: a client waits no longer than configured, and the controller never (C14);
    - HandlerProps.v: whole handlers, from the request to the reply, on every branch (C17 to
      C20), and a client that repeats the controller's forkchoiceUpdated (C16);
    - BuilderProps.v: a payload a client gets is one the builder was asked for (C15);
      [register_attributes] refines the relation [registered] of BuilderSpec.v (C22), what
      is built (C23), coherence of ids and payloads under every schedule (C24, by the
      invariant of BuilderCoherence.v), canonical payloads (C25), and how an id outlives its
      payload, from every state and for every size of the caches (C38, by the invariant of
      Eviction.v);
    - BaseFeeProps.v: the base fee is that of EIP-1559 (C26), and when it panics (C27);
    - CacheProps.v: recency (C28), what a single request stores and sees, and two limits of
      the code (C36, C37);
    - AuthProps.v: which tokens are accepted, and that a refused one has no effect (C29 to
      C32);
    - RequestProps.v: decoding of newPayload (C33) and dispatch (the groups of methods are in
      Methods.v);
    - StartupProps.v: a server that starts begins in the state the other theorems start
      from (C34), and its caches never exceed their configured sizes (C35);
    - Overlap.v: how, from every idle state, overlapping newPayload requests of the
      controller lose the engine's last answer (C39).

    ** Conventions and bounds

    Integers are in [Z] with their width written out: [u64_add] wraps or panics as the
    build profile says ([BuildProfile]), saturating and checked operations are theirs.
    Times are in nanoseconds; the clock of a schedule only advances.  The only fuel is that
    of [poll_loop]: [poll_fuel w] rounds for a wait of [w] ms; each round sleeps for 50 ms,
    so the deadline comes first, and C13 shows for every schedule that the fuel is never
    spent.  C14 counts the sleeps of a request only: in it locks and the engine take no time.
    [RecencyList] has the capacity it is given, as the crate's cache has.  What serde
    guarantees of the numbers it reads is the class [SerdeTyped] (Types.v), which only C8
    uses.

    ** What is not modelled

    The HTTP server, the extraction of headers and bodies and the body limit's enforcement
    (axum), the scheduler beyond interleaving (tokio), the command line parser (clap), log
    output (tracing, logging.rs), serde's encoders and the engine's client library beyond
    the laws above.  A call to the engine that was in flight when its request was dropped does
    not enter the history.  Hash and signature checks are the parameters' functions: nothing
    is claimed of cryptography. *)
From stdpp Require Export prelude gmap strings pretty.
From Stdlib Require Export ZArith Lia.

(** * Results, panics and early returns *)

(** Rust's [Result<A, E>]. *)
Inductive result (A E : Type) : Type :=
| Ok (a : A)
| Err (e : E).
Arguments Ok {A E} a.
Arguments Err {A E} e.

(** A synchronous Rust computation returns a value or unwinds with a panic message. *)
Inductive outcome (A : Type) : Type :=
| Done (a : A)
| Panicked (msg : string).
Arguments Done {A} a.
Arguments Panicked {A} msg.

Definition result_bind {A B E} (r : result A E) (f : A → result B E) : result B E :=
  match r with Ok a => f a | Err e => Err e end.

Definition map_err {A E F} (f : E → F) (r : result A E) : result A F :=
  match r with Ok a => Ok a | Err e => Err (f e) end.

Definition result_map {A B E} (f : A → B) (r : result A E) : result B E :=
  match r with Ok a => Ok (f a) | Err e => Err e end.

Definition ok_or {A E} (e : E) (o : option A) : result A E :=
  match o with Some a => Ok a | None => Err e end.

Definition is_ok {A E} (r : result A E) : bool :=
  match r with Ok _ => true | Err _ => false end.

Definition result_ok {A E} (r : result A E) : option A :=
  match r with Ok a => Some a | Err _ => None end.

(** [Option<Result<A, E>>::transpose]. *)
Definition transpose {A E} (o : option (result A E)) : result (option A) E :=
  match o with
  | None => Ok None
  | Some (Ok a) => Ok (Some a)
  | Some (Err e) => Err e
  end.

(** [Result::unwrap] panics on an error. *)
Definition unwrap {A E} (r : result A E) : outcome A :=
  match r with
  | Ok a => Done a
  | Err _ => Panicked "called `Result::unwrap()` on an `Err` value"
  end.

Definition outcome_bind {A B} (o : outcome A) (f : A → outcome B) : outcome B :=
  match o with Done a => f a | Panicked m => Panicked m end.

Declare Scope eleel_scope.
Delimit Scope eleel_scope with eleel.

(** The [?] operator on a [Result]. *)
Notation "'let?' x ':=' r 'in' k" := (result_bind r (fun x => k))
  (at level 10, x pattern, r at level 100, k at level 200,
   format "'[v' 'let?'  x  ':='  r  'in' '/' k ']'") : eleel_scope.
(** Sequencing of computations that may panic. *)
Notation "'do' x ':=' o 'in' k" := (outcome_bind o (fun x => k))
  (at level 10, x pattern, o at level 100, k at level 200,
   format "'[v' 'do'  x  ':='  o  'in' '/' k ']'") : eleel_scope.
Open Scope eleel_scope.

(** [?] on the result of a computation that may panic. *)
Definition outcome_result_bind {A B E} (o : outcome (result A E))
    (f : A → outcome (result B E)) : outcome (result B E) :=
  match o with
  | Done (Ok a) => f a
  | Done (Err e) => Done (Err e)
  | Panicked m => Panicked m
  end.

Notation "'do?' x ':=' o 'in' k" := (outcome_result_bind o (fun x => k))
  (at level 10, x pattern, o at level 100, k at level 200,
   format "'[v' 'do?'  x  ':='  o  'in' '/' k ']'") : eleel_scope.

(** [v[i]] panics out of bounds. *)
Definition index {A} (l : list A) (i : nat) : outcome A :=
  match l !! i with
  | Some a => Done a
  | None => Panicked "index out of bounds"
  end.

(** [Option::unwrap]. *)
Definition unwrap_option {A} (o : option A) : outcome A :=
  match o with
  | Some a => Done a
  | None => Panicked "called `Option::unwrap()` on a `None` value"
  end.

Create HintDb eleel.

(** Case analysis on the first [match] or [if] of the goal or of a hypothesis. *)
Ltac cases := repeat (case_match; simplify_eq/=).

(** Linear arithmetic with division by constants. *)
Ltac div_lia := Z.div_mod_to_equations; lia.

(** An equation between closed terms, by evaluation. *)
Ltac computes := match goal with |- _ = ?b => vm_cast_no_check (@eq_refl _ b) end.

(** * 64-bit integers

    A Rust [u64] is a [Z] in [[0, 2^64)].  [overflow_checks] is the compiler
    flag of that name: with it [+] and [*] panic on overflow, without it
    (release builds) they wrap around. *)

Class BuildProfile := overflow_checks : bool.

Definition two64 : Z := 2 ^ 64.
Definition is_u64 (z : Z) : Prop := (0 ≤ z < two64)%Z.

#[export] Instance is_u64_dec z : Decision (is_u64 z).
Proof. unfold is_u64. apply _. Defined.

Definition u64_add `{BuildProfile} (x y : Z) : outcome Z :=
  if (x + y <? two64)%Z then Done (x + y)%Z
  else if overflow_checks then Panicked "attempt to add with overflow"
  else Done ((x + y) mod two64)%Z.

Definition u64_mul `{BuildProfile} (x y : Z) : outcome Z :=
  if (x * y <? two64)%Z then Done (x * y)%Z
  else if overflow_checks then Panicked "attempt to multiply with overflow"
  else Done ((x * y) mod two64)%Z.

Definition u64_saturating_sub (x y : Z) : Z := Z.max 0 (x - y).

Definition u64_checked_sub (x y : Z) : option Z :=
  if (y <=? x)%Z then Some (x - y)%Z else None.

Definition u64_checked_div (x y : Z) : option Z :=
  if (y =? 0)%Z then None else Some (x / y)%Z.

Lemma u64_add_done `{BuildProfile} x y :
  (x + y < two64)%Z → u64_add x y = Done (x + y)%Z.
Proof. intros Hlt. unfold u64_add. by rewrite (proj2 (Z.ltb_lt _ _) Hlt). Qed.

Lemma u64_add_panics `{BuildProfile} x y m :
  u64_add x y = Panicked m → overflow_checks = true ∧ (two64 ≤ x + y)%Z.
Proof.
  unfold u64_add. destruct (Z.ltb_spec (x + y) two64); [done|].
  destruct overflow_checks; [by split|done].
Qed.

Lemma u64_checked_sub_range x y z :
  is_u64 x → is_u64 y → u64_checked_sub x y = Some z → is_u64 z.
Proof. unfold is_u64, u64_checked_sub. intros. cases. lia. Qed.

Lemma u64_checked_div_range x y z :
  is_u64 x → is_u64 y → u64_checked_div x y = Some z → is_u64 z.
Proof.
  unfold is_u64, u64_checked_div. intros Hx Hy Hz. cases.
  split; [apply Z.div_pos; lia|].
  apply Z.le_lt_trans with x; [apply Z.div_le_upper_bound; nia|lia].
Qed.

(** ** [u64::to_be_bytes] and [u64::from_be_bytes] *)

Fixpoint be_bytes (n : nat) (z : Z) : list Z :=
  match n with
  | O => []
  | S n => be_bytes n (z / 256) ++ [(z mod 256)%Z]
  end.

Definition to_be_bytes (z : Z) : list Z := be_bytes 8 z.

Definition from_be_bytes (bs : list Z) : Z :=
  foldl (λ acc b, (acc * 256 + b)%Z) 0%Z bs.

Lemma from_be_bytes_be_bytes n z :
  from_be_bytes (be_bytes n z) = (z mod 256 ^ Z.of_nat n)%Z.
Proof.
  revert z. induction n as [|n IH]; intros z; [by rewrite Z.mod_1_r|].
  cbn [be_bytes]. unfold from_be_bytes in *. rewrite foldl_app, IH. cbn [foldl].
  rewrite Nat2Z.inj_succ, Z.pow_succ_r by lia.
  rewrite Z.rem_mul_r by (try lia; apply Z.pow_pos_nonneg; lia). lia.
Qed.

Lemma from_to_be_bytes z : is_u64 z → from_be_bytes (to_be_bytes z) = z.
Proof.
  intros Hz. unfold to_be_bytes. rewrite from_be_bytes_be_bytes.
  apply Z.mod_small. exact Hz.
Qed.

Lemma to_be_bytes_inj x y :
  is_u64 x → is_u64 y → to_be_bytes x = to_be_bytes y → x = y.
Proof.
  intros Hx Hy Heq. rewrite <- (from_to_be_bytes x Hx), <- (from_to_be_bytes y Hy).
  by rewrite Heq.
Qed.

(** * Association lists in recency order *)

Section assoc.
Context {K V : Type} `{EqDecision K}.
Implicit Types (k : K) (v : V) (l : list (K * V)).

Fixpoint alookup k l : option V :=
  match l with
  | [] => None
  | (k', v) :: l => if decide (k = k') then Some v else alookup k l
  end.

Definition aremove k l : list (K * V) := filter (λ kv, kv.1 ≠ k) l.

(** The entries once [k] has been used: [k] moves to the front. *)
Definition touch k l : list (K * V) :=
  match alookup k l with
  | Some v => (k, v) :: aremove k l
  | None => l
  end.

(** The entries once [k] has been written in a store of [cap] entries. *)
Definition push_front (cap : nat) k v l : list (K * V) :=
  take cap ((k, v) :: aremove k l).

Lemma alookup_Some_elem k v l : alookup k l = Some v → (k, v) ∈ l.
Proof.
  induction l as [|[k' v'] l IH]; simpl; [done|].
  case_decide; intros; simplify_eq; set_solver.
Qed.

Lemma alookup_elem k v l : NoDup l.*1 → (k, v) ∈ l → alookup k l = Some v.
Proof.
  induction l as [|[k' v'] l IH]; simpl; [set_solver|].
  rewrite NoDup_cons, elem_of_cons. intros [Hk' Hnd] [Heq|Hin]; simplify_eq.
  - by rewrite decide_True.
  - rewrite decide_False; [by apply IH|]. intros ->. apply Hk'.
    apply list_elem_of_fmap. by exists (k', v).
Qed.

Lemma alookup_None k l : alookup k l = None ↔ k ∉ l.*1.
Proof.
  induction l as [|[k' v'] l IH]; simpl; [set_solver|].
  case_decide; set_solver.
Qed.

Lemma alookup_aremove_eq k l : alookup k (aremove k l) = None.
Proof.
  apply alookup_None. rewrite list_elem_of_fmap.
  intros ([k' v'] & -> & [? ?]%list_elem_of_filter). done.
Qed.

Lemma alookup_aremove_ne k k' l : k' ≠ k → alookup k' (aremove k l) = alookup k' l.
Proof.
  intros Hne. induction l as [|[k1 v1] l IH]; [done|].
  unfold aremove in *. rewrite filter_cons. simpl. case_decide; simpl.
  - case_decide; [done|apply IH].
  - rewrite decide_False by naive_solver. apply IH.
Qed.

Lemma alookup_touch k k' l : alookup k' (touch k l) = alookup k' l.
Proof.
  unfold touch. destruct (alookup k l) as [v|] eqn:Hk; [simpl|done].
  case_decide; subst; [done|]. by apply alookup_aremove_ne.
Qed.

Lemma NoDup_fst_sublist (l1 l2 : list (K * V)) :
  l1 `sublist_of` l2 → NoDup l2.*1 → NoDup l1.*1.
Proof.
  intros Hsub Hnd. eapply sublist_NoDup; [exact Hnd|]. by apply fmap_sublist.
Qed.

Lemma NoDup_aremove k l : NoDup l.*1 → NoDup (aremove k l).*1.
Proof. apply NoDup_fst_sublist, sublist_filter. Qed.

Lemma NoDup_cons_aremove k v l : NoDup l.*1 → NoDup ((k, v) :: aremove k l).*1.
Proof.
  intros Hnd. apply NoDup_cons. split; [|by apply NoDup_aremove].
  apply alookup_None, alookup_aremove_eq.
Qed.

Lemma NoDup_touch k l : NoDup l.*1 → NoDup (touch k l).*1.
Proof.
  unfold touch. destruct (alookup k l); [|done]. by apply NoDup_cons_aremove.
Qed.

Lemma length_aremove_elem k v l : alookup k l = Some v → length (aremove k l) < length l.
Proof.
  induction l as [|[k1 v1] l IH]; [done|].
  unfold aremove in *. rewrite filter_cons. simpl. destruct (decide (k = k1)) as [->|Hne].
  - intros _. rewrite decide_False by (intros Hn; by apply Hn).
    pose proof (length_filter (λ kv : K * V, kv.1 ≠ k1) l). lia.
  - intros Hk%IH. rewrite decide_True by done. simpl. lia.
Qed.

Lemma length_touch k l : NoDup l.*1 → length (touch k l) ≤ length l.
Proof.
  intros _. unfold touch. destruct (alookup k l) as [v|] eqn:Hk; [|lia].
  simpl. apply length_aremove_elem in Hk. lia.
Qed.

Lemma NoDup_push_front cap k v l : NoDup l.*1 → NoDup (push_front cap k v l).*1.
Proof.
  intros Hnd. unfold push_front. eapply NoDup_fst_sublist; [apply sublist_take|].
  by apply NoDup_cons_aremove.
Qed.

Lemma alookup_push_front_eq cap k v l :
  0 < cap → alookup k (push_front cap k v l) = Some v.
Proof.
  intros Hcap. unfold push_front. destruct cap; [lia|]. simpl. by rewrite decide_True.
Qed.

Lemma alookup_take_Some n k v l : alookup k (take n l) = Some v → alookup k l = Some v.
Proof.
  revert n. induction l as [|[k1 v1] l IH]; intros [|n]; simpl; try done.
  case_decide; [done|]. apply IH.
Qed.

Lemma alookup_push_front_Some cap k v k' v' l :
  alookup k' (push_front cap k v l) = Some v' →
  (k' = k ∧ v' = v) ∨ (k' ≠ k ∧ alookup k' l = Some v').
Proof.
  intros Hl%alookup_take_Some. simpl in Hl. case_decide as Hk; [naive_solver|].
  right. by rewrite alookup_aremove_ne in Hl.
Qed.

(** A key which has just been used survives the next write. *)
Lemma alookup_push_front_touch cap k v k' v' l :
  2 ≤ cap → k ≠ k' → alookup k l = Some v → alookup k (push_front cap k' v' (touch k l)) = Some v.
Proof.
  intros Hcap Hne Hl. unfold push_front, touch. rewrite Hl. unfold aremove at 1.
  rewrite filter_cons_True by done. destruct cap as [|[|cap]]; [lia..|]. simpl.
  by rewrite decide_False, decide_True.
Qed.

Lemma aremove_absent k l : alookup k l = None → aremove k l = l.
Proof.
  induction l as [|[k1 v1] l IH]; [done|]. unfold aremove in *. simpl.
  case_decide as Hk; [done|]. intros Hl. rewrite filter_cons_True by (simpl; congruence).
  by rewrite IH.
Qed.

(** Writing a new key moves the others back by one. *)
Lemma absent_push_front cap m i k v l :
  alookup k l = None → i ≠ k → i ∉ (take m l).*1 →
  i ∉ (take (S m) (push_front cap k v l)).*1.
Proof.
  intros Hk Hne Hi. unfold push_front. rewrite aremove_absent by done.
  rewrite take_take, Nat.min_comm, <- take_take. intros Hin. simpl take in Hin.
  assert (i ∈ ((k, v) :: take m l).*1) as Hcons.
  { eapply elem_of_sublist; [exact Hin|]. apply fmap_sublist, sublist_take. }
  simpl in Hcons. set_solver.
Qed.

End assoc.
#[export] Hint Resolve NoDup_aremove NoDup_cons_aremove NoDup_touch NoDup_push_front : eleel.
