(* ===== verification/Lru.v ===== *)
(** The interface of the [lru] crate's [LruCache].

    The caches of the multiplexer and of the payload builder are values of that
    crate.  [LruOps] is the part of its interface which the program calls and
    [LruLaws] the documented behaviour the program relies on, stated through
    [lru_iter] ("visits all entries in most-recently used order").  Components are
    verified against the interface; RecencyList.v implements it. *)
From S2P Require Import Prelude.

(** [NonZeroUsize::new]. *)
Definition NonZeroUsize_new (n : Z) : option positive :=
  match n with Zpos p => Some p | _ => None end.

Class LruOps (L : Type → Type → Type) := {
  lru_new {K V} : positive → L K V;
  lru_cap {K V} : L K V → positive;
  lru_iter {K V} : L K V → list (K * V);
  lru_get {K V} `{EqDecision K} : K → L K V → option V * L K V;
  lru_put {K V} `{EqDecision K} : K → V → L K V → L K V;
  lru_contains {K V} `{EqDecision K} : K → L K V → bool;
  (** [get_mut] hands out a borrow of the value, which the caller rewrites with a
      function before it ends; the value read through the borrow is returned. *)
  lru_get_mut {K V} `{EqDecision K} : K → (V → V) → L K V → option V * L K V;
  lru_get_or_insert {K V} `{EqDecision K} : K → (unit → V) → L K V → V * L K V;
}.

Class LruLaws (L : Type → Type → Type) `{LruOps L} : Prop := {
  lru_iter_new {K V} n : lru_iter (lru_new n : L K V) = [];
  lru_cap_new {K V} n : lru_cap (lru_new n : L K V) = n;
  lru_iter_nodup {K V} (c : L K V) : NoDup (lru_iter c).*1;
  lru_iter_bounded {K V} (c : L K V) : length (lru_iter c) ≤ Pos.to_nat (lru_cap c);
  lru_get_value {K V} `{EqDecision K} k (c : L K V) :
    (lru_get k c).1 = alookup k (lru_iter c);
  lru_get_iter {K V} `{EqDecision K} k (c : L K V) :
    lru_iter (lru_get k c).2 = touch k (lru_iter c);
  lru_get_cap {K V} `{EqDecision K} k (c : L K V) :
    lru_cap (lru_get k c).2 = lru_cap c;
  lru_put_iter {K V} `{EqDecision K} k v (c : L K V) :
    lru_iter (lru_put k v c) = push_front (Pos.to_nat (lru_cap c)) k v (lru_iter c);
  lru_put_cap {K V} `{EqDecision K} k v (c : L K V) :
    lru_cap (lru_put k v c) = lru_cap c;
  lru_contains_spec {K V} `{EqDecision K} k (c : L K V) :
    lru_contains k c = bool_decide (is_Some (alookup k (lru_iter c)));
  lru_get_mut_value {K V} `{EqDecision K} k f (c : L K V) :
    (lru_get_mut k f c).1 = alookup k (lru_iter c);
  lru_get_mut_iter {K V} `{EqDecision K} k f (c : L K V) :
    lru_iter (lru_get_mut k f c).2 =
      match alookup k (lru_iter c) with
      | Some v => (k, f v) :: aremove k (lru_iter c)
      | None => lru_iter c
      end;
  lru_get_mut_cap {K V} `{EqDecision K} k f (c : L K V) :
    lru_cap (lru_get_mut k f c).2 = lru_cap c;
  lru_goi_value {K V} `{EqDecision K} k f (c : L K V) :
    (lru_get_or_insert k f c).1 = default (f tt) (alookup k (lru_iter c));
  lru_goi_iter {K V} `{EqDecision K} k f (c : L K V) :
    lru_iter (lru_get_or_insert k f c).2 =
      match alookup k (lru_iter c) with
      | Some _ => touch k (lru_iter c)
      | None => push_front (Pos.to_nat (lru_cap c)) k (f tt) (lru_iter c)
      end;
  lru_goi_cap {K V} `{EqDecision K} k f (c : L K V) :
    lru_cap (lru_get_or_insert k f c).2 = lru_cap c;
}.

(** * What a cache holds, whatever the recency order *)

Section peek.
Context {L : Type → Type → Type} `{LruLaws L} {K V : Type} `{EqDecision K}.
Implicit Types (c : L K V) (k : K) (v : V).

(** The content of a cache as a partial function. *)
Definition lru_peek k c : option V := alookup k (lru_iter c).

Lemma lru_elem_peek k v c : (k, v) ∈ lru_iter c ↔ lru_peek k c = Some v.
Proof.
  split; [apply alookup_elem, lru_iter_nodup|apply alookup_Some_elem].
Qed.

Lemma peek_new k n : lru_peek k (lru_new n : L K V) = None.
Proof. unfold lru_peek. by rewrite lru_iter_new. Qed.

Lemma get_value k c : (lru_get k c).1 = lru_peek k c.
Proof. apply lru_get_value. Qed.

Lemma peek_get k k' c : lru_peek k' (lru_get k c).2 = lru_peek k' c.
Proof. unfold lru_peek. by rewrite lru_get_iter, alookup_touch. Qed.

Lemma peek_put_eq k v c : lru_peek k (lru_put k v c) = Some v.
Proof.
  unfold lru_peek. rewrite lru_put_iter. apply alookup_push_front_eq. lia.
Qed.

Lemma peek_put_Some k v k' v' c :
  lru_peek k' (lru_put k v c) = Some v' →
  (k' = k ∧ v' = v) ∨ (k' ≠ k ∧ lru_peek k' c = Some v').
Proof. unfold lru_peek. rewrite lru_put_iter. apply alookup_push_front_Some. Qed.

Lemma contains_peek k c : lru_contains k c = true ↔ is_Some (lru_peek k c).
Proof. rewrite lru_contains_spec. apply bool_decide_eq_true. Qed.

Lemma get_mut_value k f c : (lru_get_mut k f c).1 = lru_peek k c.
Proof. apply lru_get_mut_value. Qed.

Lemma peek_get_mut k f k' c :
  lru_peek k' (lru_get_mut k f c).2 =
    if decide (k' = k) then f <$> lru_peek k c else lru_peek k' c.
Proof.
  unfold lru_peek. rewrite lru_get_mut_iter.
  destruct (alookup k (lru_iter c)) as [v|] eqn:Hk; simpl; case_decide; subst; try done.
  by apply alookup_aremove_ne.
Qed.

Lemma peek_goi_Some k f k' v' c :
  lru_peek k' (lru_get_or_insert k f c).2 = Some v' →
  (k' = k ∧ lru_peek k c = None ∧ v' = f tt) ∨ lru_peek k' c = Some v'.
Proof.
  unfold lru_peek. rewrite lru_goi_iter. destruct (alookup k (lru_iter c)) eqn:Hk.
  - rewrite alookup_touch. naive_solver.
  - intros [?|?]%alookup_push_front_Some; naive_solver.
Qed.

(** Two caches with the same content and capacity: what reads cannot change. *)
Definition lru_same c1 c2 : Prop :=
  lru_cap c1 = lru_cap c2 ∧ ∀ k, lru_peek k c1 = lru_peek k c2.

#[global] Instance lru_same_equiv : Equivalence lru_same.
Proof. unfold lru_same. split; red; naive_solver congruence. Qed.

#[global] Instance lru_peek_proper : Proper ((=) ==> lru_same ==> (=)) lru_peek.
Proof. intros k ? <- c1 c2 [_ Hc]. apply Hc. Qed.

#[global] Instance lru_contains_proper : Proper ((=) ==> lru_same ==> (=)) (lru_contains (L:=L) (K:=K) (V:=V)).
Proof.
  intros k ? <- c1 c2 [_ Hc]. unfold lru_peek in Hc.
  by rewrite !lru_contains_spec, Hc.
Qed.

Lemma get_same k c : lru_same (lru_get k c).2 c.
Proof. split; [apply lru_get_cap|intros; apply peek_get]. Qed.
End peek.

#[export] Hint Resolve get_same : eleel.
