(* ===== verification/RecencyList.v ===== *)
(** An implementation of the cache interface of Lru.v: a bounded list of entries in
    recency order.  It shows that the laws of the interface are satisfiable and is the
    cache of the concrete runs. *)
From S2P Require Import Prelude Lru.

Definition entries_ok {K V} (cap : positive) (l : list (K * V)) : Prop :=
  NoDup l.*1 ∧ length l ≤ Pos.to_nat cap.

Record RecencyList (K V : Type) := MkRecencyList {
  rl_cap : positive;
  rl_entries : list (K * V);
  rl_ok : entries_ok rl_cap rl_entries;
}.
Arguments MkRecencyList {K V} _ _ _.
Arguments rl_cap {K V} _.
Arguments rl_entries {K V} _.
Arguments rl_ok {K V} _.

Lemma entries_ok_nil {K V} cap : entries_ok cap ([] : list (K * V)).
Proof. split; simpl; [constructor|lia]. Qed.

Section ops.
Context {K V : Type} `{EqDecision K}.
Implicit Types (c : RecencyList K V).

Lemma entries_ok_touch k c : entries_ok (rl_cap c) (touch k (rl_entries c)).
Proof.
  destruct (rl_ok c) as [Hnd Hlen]. split; [by apply NoDup_touch|].
  etrans; [by apply length_touch|done].
Qed.

Lemma entries_ok_push k v c :
  entries_ok (rl_cap c) (push_front (Pos.to_nat (rl_cap c)) k v (rl_entries c)).
Proof.
  destruct (rl_ok c) as [Hnd Hlen]. split; [by apply NoDup_push_front|].
  unfold push_front. rewrite length_take. lia.
Qed.

Definition rl_rewrite (k : K) (f : V → V) (l : list (K * V)) : list (K * V) :=
  match alookup k l with
  | Some v => (k, f v) :: aremove k l
  | None => l
  end.

Lemma entries_ok_rewrite k f c : entries_ok (rl_cap c) (rl_rewrite k f (rl_entries c)).
Proof.
  destruct (rl_ok c) as [Hnd Hlen]. unfold rl_rewrite.
  destruct (alookup k (rl_entries c)) as [v|] eqn:Hk; [|done]. split.
  - by apply NoDup_cons_aremove.
  - simpl. apply length_aremove_elem in Hk. lia.
Qed.

Definition rl_touch k c : RecencyList K V :=
  MkRecencyList (rl_cap c) (touch k (rl_entries c)) (entries_ok_touch k c).

Definition rl_put k v c : RecencyList K V :=
  MkRecencyList (rl_cap c) (push_front (Pos.to_nat (rl_cap c)) k v (rl_entries c))
    (entries_ok_push k v c).

Definition rl_get_mut k f c : RecencyList K V :=
  MkRecencyList (rl_cap c) (rl_rewrite k f (rl_entries c)) (entries_ok_rewrite k f c).

Definition rl_get_or_insert k (f : unit → V) c : V * RecencyList K V :=
  match alookup k (rl_entries c) with
  | Some v => (v, rl_touch k c)
  | None => let v := f tt in (v, rl_put k v c)
  end.
End ops.

#[export] Instance recency_list_ops : LruOps RecencyList := {
  lru_new K V n := MkRecencyList n [] (entries_ok_nil n);
  lru_cap K V := rl_cap;
  lru_iter K V := rl_entries;
  lru_get K V _ k c := (alookup k (rl_entries c), rl_touch k c);
  lru_put K V _ := rl_put;
  lru_contains K V _ k c := bool_decide (is_Some (alookup k (rl_entries c)));
  lru_get_mut K V _ k f c := (alookup k (rl_entries c), rl_get_mut k f c);
  lru_get_or_insert K V _ := rl_get_or_insert;
}.

#[export] Instance recency_list_laws : LruLaws RecencyList.
Proof.
  split; intros; simpl; try done;
    try (by destruct (rl_ok c)); unfold rl_get_or_insert;
    by destruct (alookup k (rl_entries c)).
Qed.
