(* ===== verification/Uint256.v ===== *)
(** The interface of the 256-bit unsigned integers ([Uint256]) of the base fee code.

    [Uint256] is a type of a third-party crate.  The laws state its documented
    arithmetic: sums and products are taken modulo [2^256], a division by zero
    panics, [saturating_sub] stops at zero.  [u256_val] is the mathematical value of a
    number and is used in statements only. *)
From S2P Require Import Prelude.
#[local] Open Scope Z_scope.

Definition two256 : Z := 2 ^ 256.

Class Uint256Ops := {
  Uint256 : Type;
  u256_val : Uint256 → Z;
  u256_ZERO : Uint256;
  u256_from_u64 : Z → Uint256;
  u256_add : Uint256 → Uint256 → Uint256;
  u256_mul : Uint256 → Uint256 → Uint256;
  u256_div : Uint256 → Uint256 → outcome Uint256;
  u256_saturating_sub : Uint256 → Uint256 → Uint256;
  (** [std::cmp::max] at [Uint256]. *)
  u256_max : Uint256 → Uint256 → Uint256;
}.

Class Uint256Laws `{Uint256Ops} : Prop := {
  u256_range x : 0 ≤ u256_val x < two256;
  u256_val_inj x y : u256_val x = u256_val y → x = y;
  u256_val_ZERO : u256_val u256_ZERO = 0;
  u256_val_from_u64 z : is_u64 z → u256_val (u256_from_u64 z) = z;
  u256_val_add x y : u256_val (u256_add x y) = (u256_val x + u256_val y) mod two256;
  u256_val_mul x y : u256_val (u256_mul x y) = (u256_val x * u256_val y) mod two256;
  u256_div_zero x y : u256_val y = 0 → ∃ m, u256_div x y = Panicked m;
  u256_div_done x y :
    u256_val y ≠ 0 → ∃ z, u256_div x y = Done z ∧ u256_val z = u256_val x / u256_val y;
  u256_val_saturating_sub x y :
    u256_val (u256_saturating_sub x y) = Z.max 0 (u256_val x - u256_val y);
  u256_val_max x y : u256_val (u256_max x y) = Z.max (u256_val x) (u256_val y);
}.

(** ** Numbers below [2^256] implement the interface. *)

Definition u256_wf (z : Z) : Prop := (0 <=? z) = true ∧ (z <? two256) = true.

Record U256 := MkU256 { u256_z : Z; u256_ok : u256_wf u256_z }.

Lemma u256_wf_mod z : u256_wf (z mod two256).
Proof.
  pose proof (Z.mod_pos_bound z two256 ltac:(unfold two256; lia)).
  split; [apply Z.leb_le|apply Z.ltb_lt]; lia.
Qed.

Definition u256_mk (z : Z) : U256 := MkU256 (z mod two256) (u256_wf_mod z).

Lemma u256_z_range x : 0 ≤ u256_z x < two256.
Proof. destruct x as [z [Hlo Hhi]]. simpl. lia. Qed.

Lemma u256_z_inj x y : u256_z x = u256_z y → x = y.
Proof.
  destruct x as [x [Hx1 Hx2]], y as [y [Hy1 Hy2]]. simpl. intros ->.
  by rewrite (proof_irrel Hx1 Hy1), (proof_irrel Hx2 Hy2).
Qed.

#[export] Instance u256_eq_dec : EqDecision U256.
Proof.
  intros x y. destruct (decide (u256_z x = u256_z y)) as [Heq|Hne].
  - left. by apply u256_z_inj.
  - right. by intros ->.
Defined.

Definition u256_ops : Uint256Ops := {|
  Uint256 := U256;
  u256_val := u256_z;
  u256_ZERO := u256_mk 0;
  u256_from_u64 := u256_mk;
  u256_add x y := u256_mk (u256_z x + u256_z y);
  u256_mul x y := u256_mk (u256_z x * u256_z y);
  u256_div x y :=
    if u256_z y =? 0 then Panicked "attempt to divide by zero"
    else Done (u256_mk (u256_z x / u256_z y));
  u256_saturating_sub x y := u256_mk (Z.max 0 (u256_z x - u256_z y));
  u256_max x y := u256_mk (Z.max (u256_z x) (u256_z y));
|}.

Lemma u256_laws : @Uint256Laws u256_ops.
Proof.
  assert (two64 < two256) by (unfold two64, two256; lia).
  split; simpl.
  - apply u256_z_range.
  - apply u256_z_inj.
  - done.
  - intros z Hz. apply Z.mod_small. unfold is_u64 in Hz. lia.
  - done.
  - done.
  - intros x y ->. simpl. eauto.
  - intros x y Hy. rewrite (proj2 (Z.eqb_neq _ _) Hy). eexists; split; [done|].
    simpl. apply Z.mod_small.
    pose proof (u256_z_range x). pose proof (u256_z_range y). split.
    + apply Z.div_pos; lia.
    + apply Z.le_lt_trans with (u256_z x); [apply Z.div_le_upper_bound; nia|lia].
  - intros x y. apply Z.mod_small.
    pose proof (u256_z_range x). pose proof (u256_z_range y). lia.
  - intros x y. apply Z.mod_small.
    pose proof (u256_z_range x). pose proof (u256_z_range y). lia.
Qed.
