(* ===== verification/BaseFee.v ===== *)
(** EIP-1559 base fee per gas (src/src/base_fee.rs). *)
From S2P Require Import Prelude Uint256.
#[local] Open Scope Z_scope.

Definition ELASTICITY_MULTIPLIER : Z := 2.
Definition BASE_FEE_MAX_CHANGE_DENOMINATOR : Z := 8.

(** * The code *)

Section code.
Context `{Uint256Ops}.

Definition expected_base_fee_per_gas (parent_base_fee_per_gas : Uint256)
    (parent_gas_used parent_gas_limit : Z) : outcome Uint256 :=
  let parent_gas_target := parent_gas_limit / ELASTICITY_MULTIPLIER in
  if parent_gas_used =? parent_gas_target then Done parent_base_fee_per_gas
  else if parent_gas_target <? parent_gas_used then
    let gas_used_delta := u64_saturating_sub parent_gas_used parent_gas_target in
    do q := u256_div (u256_mul parent_base_fee_per_gas (u256_from_u64 gas_used_delta))
                     (u256_from_u64 parent_gas_target) in
    do q := u256_div q (u256_from_u64 BASE_FEE_MAX_CHANGE_DENOMINATOR) in
    let base_fee_per_gas_delta := u256_max q (u256_from_u64 1) in
    Done (u256_add parent_base_fee_per_gas base_fee_per_gas_delta)
  else
    let gas_used_delta := u64_saturating_sub parent_gas_target parent_gas_used in
    do q := u256_div (u256_mul parent_base_fee_per_gas (u256_from_u64 gas_used_delta))
                     (u256_from_u64 parent_gas_target) in
    do base_fee_per_gas_delta := u256_div q (u256_from_u64 BASE_FEE_MAX_CHANGE_DENOMINATOR) in
    Done (u256_saturating_sub parent_base_fee_per_gas base_fee_per_gas_delta).
End code.

(** * The reference: the formula of the EIP over unbounded integers

    One signed quotient replaces the case distinction of the code: the base fee moves
    by an eighth of itself, scaled by how far the gas used is from the target. *)

Definition eip1559_delta (fee used target : Z) : Z :=
  fee * Z.abs (used - target) / target / 8.

Definition eip1559_base_fee (fee used target : Z) : Z :=
  fee + Z.sgn (used - target) *
        (if target <? used then Z.max 1 (eip1559_delta fee used target)
         else eip1559_delta fee used target).

Section spec.
Lemma eip1559_delta_nonneg fee used target :
  0 ≤ fee → 0 < target → 0 ≤ eip1559_delta fee used target.
Proof.
  intros Hfee Ht. unfold eip1559_delta.
  apply Z.div_pos; [apply Z.div_pos|]; try lia. nia.
Qed.

(** A move of the gas by at most the target moves the fee by at most an eighth. *)
Lemma eip1559_delta_bound fee used target :
  0 ≤ fee → 0 < target → 0 ≤ used ≤ 2 * target →
  eip1559_delta fee used target ≤ fee / 8.
Proof.
  intros Hfee Ht Hu. unfold eip1559_delta. apply Z.div_le_mono; [lia|].
  apply Z.div_le_upper_bound; [lia|]. nia.
Qed.

Lemma eip1559_delta_mono fee u1 u2 target :
  0 ≤ fee → 0 < target → Z.abs (u1 - target) ≤ Z.abs (u2 - target) →
  eip1559_delta fee u1 target ≤ eip1559_delta fee u2 target.
Proof.
  intros Hfee Ht Hu. unfold eip1559_delta.
  apply Z.div_le_mono; [lia|]. apply Z.div_le_mono; [lia|]. nia.
Qed.
End spec.

(** * The code meets the reference *)

Section proofs.
Context `{Uint256Laws}.

Lemma u256_div_u64 x z :
  is_u64 z → z ≠ 0 →
  ∃ q, u256_div x (u256_from_u64 z) = Done q ∧ u256_val q = u256_val x / z.
Proof.
  intros Hz Hne. destruct (u256_div_done x (u256_from_u64 z)) as (q & Hq & Hv).
  - by rewrite u256_val_from_u64.
  - exists q. by rewrite Hv, u256_val_from_u64.
Qed.

Lemma is_u64_const z : 0 ≤ z ≤ 255 → is_u64 z.
Proof. unfold is_u64, two64. lia. Qed.

Lemma two_divisions x t :
  is_u64 t → t ≠ 0 →
  ∃ q q', u256_div x (u256_from_u64 t) = Done q ∧
          u256_div q (u256_from_u64 BASE_FEE_MAX_CHANGE_DENOMINATOR) = Done q'.
Proof.
  intros Ht Hne. destruct (u256_div_u64 x t Ht Hne) as (q & Hq & _).
  destruct (u256_div_u64 q BASE_FEE_MAX_CHANGE_DENOMINATOR) as (q' & Hq' & _);
    [by apply is_u64_const|done|].
  by exists q, q'.
Qed.

(** What the two divisions of the code compute when the product fits. *)
Lemma base_fee_delta_spec fee d target :
  is_u64 d → is_u64 target → 0 < target → u256_val fee * d < two256 →
  ∃ q q', u256_div (u256_mul fee (u256_from_u64 d)) (u256_from_u64 target) = Done q ∧
          u256_div q (u256_from_u64 BASE_FEE_MAX_CHANGE_DENOMINATOR) = Done q' ∧
          u256_val q' = u256_val fee * d / target / 8.
Proof.
  intros Hd Ht Hpos Hfit.
  destruct (u256_div_u64 (u256_mul fee (u256_from_u64 d)) target Ht) as (q & Hq & Hqv); [lia|].
  destruct (u256_div_u64 q BASE_FEE_MAX_CHANGE_DENOMINATOR) as (q' & Hq' & Hqv');
    [by apply is_u64_const|done|].
  exists q, q'. do 2 (split; [done|]).
  rewrite Hqv', Hqv, u256_val_mul, u256_val_from_u64 by done.
  rewrite Z.mod_small; [done|]. pose proof (u256_range fee). unfold is_u64 in Hd. nia.
Qed.

Lemma gas_target_u64 limit : is_u64 limit → is_u64 (limit / ELASTICITY_MULTIPLIER).
Proof. unfold is_u64, ELASTICITY_MULTIPLIER, two64. intros. div_lia. Qed.

(** The result of the code, in both directions of the gas. *)
Lemma expected_base_fee_val fee used limit :
  is_u64 used → is_u64 limit → 2 ≤ limit →
  u256_val fee * Z.abs (used - limit / 2) < two256 →
  ∃ r, expected_base_fee_per_gas fee used limit = Done r ∧
       u256_val r = eip1559_base_fee (u256_val fee) used (limit / 2) mod two256.
Proof.
  intros Hu Hl Hl2 Hfit. pose proof (gas_target_u64 limit Hl) as Ht.
  pose proof (u256_range fee) as Hfee.
  unfold expected_base_fee_per_gas, eip1559_base_fee.
  change ELASTICITY_MULTIPLIER with 2 in *. set (t := limit / 2) in *.
  assert (0 < t) by (unfold t; div_lia).
  destruct (Z.eqb_spec used t) as [->|Hne].
  { exists fee. split; [done|]. rewrite Z.sub_diag, Z.ltb_irrefl. simpl.
    by rewrite Z.add_0_r, Z.mod_small. }
  unfold is_u64, u64_saturating_sub in *.
  destruct (Z.ltb_spec t used) as [Hlt|Hge].
  - rewrite Z.max_r by lia. rewrite Z.abs_eq in Hfit by lia.
    destruct (base_fee_delta_spec fee (used - t) t) as (q & q' & Hq & Hq' & Hv);
      try (unfold is_u64; lia); try done.
    rewrite Hq; simpl; rewrite Hq'; simpl. eexists; split; [done|].
    rewrite u256_val_add, u256_val_max, Hv, u256_val_from_u64 by (by apply is_u64_const).
    rewrite (Z.sgn_pos (used - t)) by lia. unfold eip1559_delta.
    rewrite Z.abs_eq by lia. f_equal. lia.
  - rewrite Z.max_r by lia. rewrite Z.abs_neq in Hfit by lia.
    replace (- (used - t)) with (t - used) in Hfit by lia.
    destruct (base_fee_delta_spec fee (t - used) t) as (q & q' & Hq & Hq' & Hv);
      try (unfold is_u64; lia); try done.
    rewrite Hq; simpl; rewrite Hq'; simpl. eexists; split; [done|].
    rewrite u256_val_saturating_sub, Hv.
    rewrite (Z.sgn_neg (used - t)) by lia.
    pose proof (eip1559_delta_bound (u256_val fee) used t ltac:(lia) ltac:(lia) ltac:(lia)).
    pose proof (eip1559_delta_nonneg (u256_val fee) used t ltac:(lia) ltac:(lia)).
    assert (eip1559_delta (u256_val fee) used t = u256_val fee * (t - used) / t / 8) as <-
      by (unfold eip1559_delta; do 3 f_equal; lia).
    assert (u256_val fee / 8 <= u256_val fee) by div_lia.
    rewrite Z.max_r, Z.mod_small by lia. lia.
Qed.

(** Below [2^192] wei no intermediate of the code leaves 256 bits. *)
Lemma base_fee_fits fee used limit :
  is_u64 used → is_u64 limit → 2 ≤ limit → u256_val fee < 2 ^ 192 →
  u256_val fee * Z.abs (used - limit / 2) < two256 ∧
  0 ≤ eip1559_base_fee (u256_val fee) used (limit / 2) < two256.
Proof.
  intros Hu Hl Hl2 Hfee. pose proof (u256_range fee) as [Hfee0 _].
  unfold is_u64 in *. set (t := limit / 2).
  assert (0 < t < two64) by (unfold t; div_lia).
  assert (Z.abs (used - t) < two64) by lia.
  assert (Hprod : u256_val fee * Z.abs (used - t) < 2 ^ 192 * two64) by nia.
  change (2 ^ 192 * two64) with two256 in Hprod. split; [done|].
  unfold eip1559_base_fee.
  pose proof (eip1559_delta_nonneg (u256_val fee) used t ltac:(lia) ltac:(lia)).
  assert (eip1559_delta (u256_val fee) used t ≤ two256 / 8).
  { unfold eip1559_delta. apply Z.div_le_mono; [lia|].
    apply Z.div_le_upper_bound; [lia|]. nia. }
  assert (2 ^ 192 + 2 + two256 / 8 < two256) by (vm_compute; done).
  destruct (Z.ltb_spec t used) as [Hlt|Hge].
  - rewrite Z.sgn_pos by lia. lia.
  - destruct (decide (used = t)) as [->|Hne]; [rewrite Z.sub_diag; simpl; lia|].
    rewrite Z.sgn_neg by lia.
    pose proof (eip1559_delta_bound (u256_val fee) used t ltac:(lia) ltac:(lia) ltac:(lia)).
    assert (u256_val fee / 8 ≤ u256_val fee) by div_lia. lia.
Qed.

Lemma expected_base_fee_exact fee used limit :
  is_u64 used → is_u64 limit → 2 ≤ limit → u256_val fee < 2 ^ 192 →
  ∃ r, expected_base_fee_per_gas fee used limit = Done r ∧
       u256_val r = eip1559_base_fee (u256_val fee) used (limit / 2).
Proof.
  intros Hu Hl Hl2 Hfee. destruct (base_fee_fits fee used limit) as [Hp Hr]; try done.
  destruct (expected_base_fee_val fee used limit) as (r & Hc & Hv); try done.
  exists r. split; [done|]. by rewrite Hv, Z.mod_small.
Qed.

(** With a positive gas target the code never panics, whatever the fee. *)
Lemma expected_base_fee_total fee used limit :
  is_u64 limit → 2 ≤ limit → ∃ r, expected_base_fee_per_gas fee used limit = Done r.
Proof.
  intros Hl Hl2. pose proof (gas_target_u64 limit Hl) as Ht.
  assert (limit / ELASTICITY_MULTIPLIER ≠ 0) by (unfold ELASTICITY_MULTIPLIER; div_lia).
  unfold expected_base_fee_per_gas. case_match; [by eauto|]. case_match.
  - destruct (two_divisions (u256_mul fee (u256_from_u64 (u64_saturating_sub used
      (limit / ELASTICITY_MULTIPLIER)))) _ Ht) as (q & q' & -> & Hq'); [done|].
    simpl. rewrite Hq'. simpl. eauto.
  - destruct (two_divisions (u256_mul fee (u256_from_u64 (u64_saturating_sub
      (limit / ELASTICITY_MULTIPLIER) used))) _ Ht) as (q & q' & -> & Hq'); [done|].
    simpl. rewrite Hq'. simpl. eauto.
Qed.

(** A zero gas target panics as soon as the parent used any gas. *)
Lemma expected_base_fee_zero_target fee used limit :
  0 ≤ limit < 2 → 0 < used → ∃ m, expected_base_fee_per_gas fee used limit = Panicked m.
Proof.
  intros Hl Hu. unfold expected_base_fee_per_gas.
  assert (limit / ELASTICITY_MULTIPLIER = 0) as ->
    by (unfold ELASTICITY_MULTIPLIER; div_lia).
  rewrite (proj2 (Z.eqb_neq _ _)) by lia. rewrite (proj2 (Z.ltb_lt _ _)) by lia.
  destruct (u256_div_zero (u256_mul fee (u256_from_u64 (u64_saturating_sub used 0)))
    (u256_from_u64 0)) as [m ->]; [by apply u256_val_from_u64, is_u64_const|].
  simpl. eauto.
Qed.
Lemma expected_base_fee_panics_iff fee used limit :
  is_u64 used → is_u64 limit →
  (∃ m, expected_base_fee_per_gas fee used limit = Panicked m) ↔ limit < 2 ∧ 0 < used.
Proof.
  intros Hu Hl. pose proof Hu as [Hu0 _]. pose proof Hl as [Hl0 _]. split.
  - intros [m Hm]. destruct (Z.lt_ge_cases limit 2) as [Hlt|Hge].
    + split; [done|]. destruct (Z.eq_dec used 0) as [->|]; [|lia].
      unfold expected_base_fee_per_gas, ELASTICITY_MULTIPLIER in Hm.
      rewrite (Z.div_small limit 2) in Hm by lia. done.
    + destruct (expected_base_fee_total fee used limit Hl Hge) as [r Hr]. congruence.
  - intros [Hlt Hpos]. by apply expected_base_fee_zero_target.
Qed.
End proofs.
