(* ===== verification/BaseFeeProps.v ===== *)
(** The base fee of a dummy payload against EIP-1559. *)
From S2P Require Import Prelude Uint256 BaseFee.
#[local] Open Scope Z_scope.

Section reference.
(** More gas in the parent never lowers the fee. *)
Lemma eip1559_base_fee_mono fee u1 u2 target :
  0 ≤ fee → 0 < target → 0 ≤ u1 ≤ u2 →
  eip1559_base_fee fee u1 target ≤ eip1559_base_fee fee u2 target.
Proof.
  intros Hfee Ht Hu. unfold eip1559_base_fee.
  pose proof (eip1559_delta_nonneg fee u1 target Hfee Ht).
  pose proof (eip1559_delta_nonneg fee u2 target Hfee Ht).
  pose proof (eip1559_delta_mono fee u1 u2 target Hfee Ht).
  pose proof (eip1559_delta_mono fee u2 u1 target Hfee Ht).
  destruct (Z.ltb_spec target u1), (Z.ltb_spec target u2);
    destruct (Z.sgn_spec (u1 - target)) as [(?&->)|[(?&->)|(?&->)]];
    destruct (Z.sgn_spec (u2 - target)) as [(?&->)|[(?&->)|(?&->)]]; lia.
Qed.

(** A full parent block moves the fee by an eighth, and by one at least when it rises. *)
Lemma eip1559_base_fee_change fee used target :
  0 ≤ fee → 0 < target → 0 ≤ used ≤ 2 * target →
  Z.abs (eip1559_base_fee fee used target - fee) ≤ Z.max 1 (fee / 8).
Proof.
  intros Hfee Ht Hu. unfold eip1559_base_fee.
  pose proof (eip1559_delta_bound fee used target Hfee Ht Hu).
  pose proof (eip1559_delta_nonneg fee used target Hfee Ht).
  destruct (Z.ltb_spec target used);
    destruct (Z.sgn_spec (used - target)) as [(?&->)|[(?&->)|(?&->)]]; lia.
Qed.
End reference.

Section properties.
Context `{Uint256Laws}.

(** C26: for every parent with a positive gas target and a base fee below [2^192] wei, the
    code returns exactly the base fee of EIP-1559: no intermediate product or sum leaves
    256 bits. *)
Theorem base_fee_is_eip1559 fee used limit :
  is_u64 used → is_u64 limit → 2 ≤ limit → u256_val fee < 2 ^ 192 →
  ∃ r, expected_base_fee_per_gas fee used limit = Done r ∧
       u256_val r = eip1559_base_fee (u256_val fee) used (limit / 2).
Proof. apply expected_base_fee_exact. Qed.

(** C27: the code panics exactly when the parent's gas limit is below 2 and the parent used
    gas: the gas target is then zero and is divided by. *)
Theorem base_fee_panics_iff fee used limit :
  is_u64 used → is_u64 limit →
  (∃ m, expected_base_fee_per_gas fee used limit = Panicked m) ↔ limit < 2 ∧ 0 < used.
Proof. apply expected_base_fee_panics_iff. Qed.

(** if the parent did not use more gas than its limit, the fee changes by an eighth at
    most (or by one, when an eighth is less). *)
Theorem base_fee_change_bounded fee used limit r :
  is_u64 used → is_u64 limit → 2 ≤ limit → used ≤ 2 * (limit / 2) → u256_val fee < 2 ^ 192 →
  expected_base_fee_per_gas fee used limit = Done r →
  Z.abs (u256_val r - u256_val fee) ≤ Z.max 1 (u256_val fee / 8).
Proof.
  intros Hu Hl Hl2 Hmax Hfee Hr. pose proof Hu as [Hu0 _].
  destruct (expected_base_fee_exact fee used limit Hu Hl Hl2 Hfee) as (r' & Hr' & Hv).
  assert (r' = r) as -> by congruence. rewrite Hv. pose proof (u256_range fee) as [Hf0 _].
  apply eip1559_base_fee_change; [done| |lia]. div_lia.
Qed.

(** among blocks with the same gas limit and base fee, one that used more gas never has
    a child with a lower base fee. *)
Theorem base_fee_monotone fee used1 used2 limit r1 r2 :
  is_u64 used1 → is_u64 used2 → is_u64 limit → 2 ≤ limit → used1 ≤ used2 →
  u256_val fee < 2 ^ 192 →
  expected_base_fee_per_gas fee used1 limit = Done r1 →
  expected_base_fee_per_gas fee used2 limit = Done r2 → u256_val r1 ≤ u256_val r2.
Proof.
  intros Hu1 Hu2 Hl Hl2 Hle Hfee Hr1 Hr2. pose proof Hu1 as [Hu0 _].
  destruct (expected_base_fee_exact fee used1 limit Hu1 Hl Hl2 Hfee) as (r1' & Hr1' & Hv1).
  destruct (expected_base_fee_exact fee used2 limit Hu2 Hl Hl2 Hfee) as (r2' & Hr2' & Hv2).
  assert (r1' = r1) as -> by congruence. assert (r2' = r2) as -> by congruence.
  rewrite Hv1, Hv2. pose proof (u256_range fee) as [Hf0 _].
  apply eip1559_base_fee_mono; [done| |lia]. div_lia.
Qed.
End properties.

(** * The properties on concrete blocks *)

Section witnesses.
#[local] Existing Instances u256_ops u256_laws.

(** One gwei. *)
Definition gwei : Uint256 := u256_mk 1000000000.

Lemma gas_u64 : is_u64 0 ∧ is_u64 20000000 ∧ is_u64 30000000.
Proof. by split_and!; split. Qed.

Lemma base_fee_is_eip1559_witness :
  ∃ r, expected_base_fee_per_gas gwei 20000000 30000000 = Done r ∧ u256_val r = 1041666666.
Proof.
  destruct gas_u64 as (_ & Hu & Hl).
  refine (base_fee_is_eip1559 gwei 20000000 30000000 Hu Hl _ _); [lia|reflexivity].
Defined.

Lemma base_fee_panics_iff_witness : ∃ m, expected_base_fee_per_gas gwei 20000000 0 = Panicked m.
Proof.
  destruct gas_u64 as (H0 & Hu & _).
  refine (proj2 (base_fee_panics_iff gwei 20000000 0 Hu H0) _). lia.
Defined.

Lemma base_fee_change_bounded_witness :
  Z.abs (1041666666 - 1000000000) ≤ Z.max 1 (1000000000 / 8).
Proof.
  destruct gas_u64 as (_ & Hu & Hl).
  refine (base_fee_change_bounded gwei 20000000 30000000 (u256_mk 1041666666) Hu Hl _ _ _ _);
    [lia|div_lia|reflexivity|computes].
Defined.

Lemma base_fee_monotone_witness : u256_val (u256_mk 875000000) ≤ u256_val (u256_mk 1041666666).
Proof.
  destruct gas_u64 as (H0 & Hu & Hl).
  refine (base_fee_monotone gwei 0 20000000 30000000 (u256_mk 875000000) (u256_mk 1041666666)
            H0 Hu Hl _ _ _ _ _); [lia|lia|reflexivity|computes|computes].
Defined.
End witnesses.
