(* ===== verification/Lighthouse.v ===== *)
(** The code the program calls and does not contain: the Lighthouse crates
    ([execution_layer], [eth2]), [serde_json] and the hash types.

    - [ExtTypes] names the types whose definition is not in the repository.
    - The enums and structs which the program builds or takes apart field by field
      are given with the constructors and fields its code names.
    - [ExtOps] names the functions, [ExtLaws] the documented behaviour relied upon.
    Toy.v holds an implementation of all three. *)
From S2P Require Import Prelude Uint256.

(** * Opaque types *)

Class ExtTypes := {
  ext_uint256 :: Uint256Ops;
  (** [serde_json] *)
  JsonValue : Type;
  SerdeError : Type;
  (** [eth2::types] *)
  Hash256 : Type;
  ExecutionBlockHash : Type;
  Address : Type;
  Bloom : Type;
  VersionedHash : Type;
  Transaction : Type;
  VariableList : Type → Type;
  SszError : Type;
  Withdrawal : Type;
  Withdrawals : Type;
  ExecutionRequests : Type;
  ExecutionPayloadFulu : Type;
  ChainSpec : Type;
  (** [execution_layer] *)
  PayloadAttributes : Type;
  JsonPayloadAttributesV2 : Type;
  JsonPayloadAttributesV3 : Type;
  JsonExecutionPayloadV1 : Type;
  JsonExecutionPayloadV2 : Type;
  JsonExecutionPayloadV3 : Type;
  JsonExecutionPayloadV4 : Type;
  JsonExecutionPayloadV5 : Type;
  JsonExecutionRequests : Type;
  RequestsError : Type;
  VerifyError : Type;
  BlobsBundle : Type;
  JsonBlobsBundleV1 : Type;
  PayloadStatusV1 : Type;
  ForkchoiceUpdatedResponse : Type;
  EngineError : Type;
  ChainId : Type;
  EngineCapabilities : Type;
  EngineCapabilitiesResponse : Type;
  ExecutionBlockHash_eq_dec :: EqDecision ExecutionBlockHash;
  PayloadAttributes_eq_dec :: EqDecision PayloadAttributes;
}.

(** * Enums and structs with the constructors the program names *)

Inductive ForkName := Base | Altair | Bellatrix | Capella | Deneb | Electra | Fulu.

#[export] Instance ForkName_eq_dec : EqDecision ForkName.
Proof. solve_decision. Defined.

(** [Slot::new]. *)
Record Slot := Slot_new { slot_value : Z }.

(** The type [(T,)]. *)
Inductive tuple1 (A : Type) := Tuple1 (a : A).
Arguments Tuple1 {A} a.

Module BellatrixPayload.
Record t `{ExtTypes} := Mk {
  parent_hash : ExecutionBlockHash;
  fee_recipient : Address;
  state_root : Hash256;
  receipts_root : Hash256;
  logs_bloom : Bloom;
  prev_randao : Hash256;
  block_number : Z;
  gas_limit : Z;
  gas_used : Z;
  timestamp : Z;
  extra_data : VariableList Z;
  base_fee_per_gas : Uint256;
  block_hash : ExecutionBlockHash;
  transactions : VariableList Transaction;
}.
Arguments Mk {_}.
End BellatrixPayload.

Module CapellaPayload.
Record t `{ExtTypes} := Mk {
  parent_hash : ExecutionBlockHash;
  fee_recipient : Address;
  state_root : Hash256;
  receipts_root : Hash256;
  logs_bloom : Bloom;
  prev_randao : Hash256;
  block_number : Z;
  gas_limit : Z;
  gas_used : Z;
  timestamp : Z;
  extra_data : VariableList Z;
  base_fee_per_gas : Uint256;
  block_hash : ExecutionBlockHash;
  transactions : VariableList Transaction;
  withdrawals : Withdrawals;
}.
Arguments Mk {_}.
End CapellaPayload.

Module DenebPayload.
Record t `{ExtTypes} := Mk {
  parent_hash : ExecutionBlockHash;
  fee_recipient : Address;
  state_root : Hash256;
  receipts_root : Hash256;
  logs_bloom : Bloom;
  prev_randao : Hash256;
  block_number : Z;
  gas_limit : Z;
  gas_used : Z;
  timestamp : Z;
  extra_data : VariableList Z;
  base_fee_per_gas : Uint256;
  block_hash : ExecutionBlockHash;
  transactions : VariableList Transaction;
  withdrawals : Withdrawals;
  blob_gas_used : Z;
  excess_blob_gas : Z;
}.
Arguments Mk {_}.
End DenebPayload.

Module ElectraPayload.
Record t `{ExtTypes} := Mk {
  parent_hash : ExecutionBlockHash;
  fee_recipient : Address;
  state_root : Hash256;
  receipts_root : Hash256;
  logs_bloom : Bloom;
  prev_randao : Hash256;
  block_number : Z;
  gas_limit : Z;
  gas_used : Z;
  timestamp : Z;
  extra_data : VariableList Z;
  base_fee_per_gas : Uint256;
  block_hash : ExecutionBlockHash;
  transactions : VariableList Transaction;
  withdrawals : Withdrawals;
  blob_gas_used : Z;
  excess_blob_gas : Z;
}.
Arguments Mk {_}.
End ElectraPayload.

Section enums.
Context `{ExtTypes}.

Inductive ExecutionPayload :=
| EP_Bellatrix (p : BellatrixPayload.t)
| EP_Capella (p : CapellaPayload.t)
| EP_Deneb (p : DenebPayload.t)
| EP_Electra (p : ElectraPayload.t)
| EP_Fulu (p : ExecutionPayloadFulu).

Inductive JsonExecutionPayload :=
| JEP_V1 (p : JsonExecutionPayloadV1)
| JEP_V2 (p : JsonExecutionPayloadV2)
| JEP_V3 (p : JsonExecutionPayloadV3)
| JEP_V4 (p : JsonExecutionPayloadV4)
| JEP_V5 (p : JsonExecutionPayloadV5).

Definition ep_fork (p : ExecutionPayload) : ForkName :=
  match p with
  | EP_Bellatrix _ => Bellatrix
  | EP_Capella _ => Capella
  | EP_Deneb _ => Deneb
  | EP_Electra _ => Electra
  | EP_Fulu _ => Fulu
  end.

(** The fork whose payloads a version of the JSON structure carries. *)
Definition jep_fork (p : JsonExecutionPayload) : ForkName :=
  match p with
  | JEP_V1 _ => Bellatrix
  | JEP_V2 _ => Capella
  | JEP_V3 _ => Deneb
  | JEP_V4 _ => Electra
  | JEP_V5 _ => Fulu
  end.

Inductive NewPayloadRequest :=
| NPR_Bellatrix (execution_payload : BellatrixPayload.t)
| NPR_Capella (execution_payload : CapellaPayload.t)
| NPR_Deneb (execution_payload : DenebPayload.t)
    (versioned_hashes : list VersionedHash) (parent_beacon_block_root : Hash256)
| NPR_Electra (execution_payload : ElectraPayload.t)
    (versioned_hashes : list VersionedHash) (parent_beacon_block_root : Hash256)
    (execution_requests : ExecutionRequests).

(** The payload a request carries. *)
Definition npr_payload (r : NewPayloadRequest) : ExecutionPayload :=
  match r with
  | NPR_Bellatrix p => EP_Bellatrix p
  | NPR_Capella p => EP_Capella p
  | NPR_Deneb p _ _ => EP_Deneb p
  | NPR_Electra p _ _ _ => EP_Electra p
  end.

Inductive JsonPayloadStatusV1Status :=
| Valid | Invalid | InvalidBlockHash | Accepted | Syncing.

#[global] Instance JsonPayloadStatusV1Status_eq_dec :
  EqDecision JsonPayloadStatusV1Status.
Proof. solve_decision. Defined.

Record JsonPayloadStatusV1 := MkJsonPayloadStatusV1 {
  status : JsonPayloadStatusV1Status;
  latest_valid_hash : option ExecutionBlockHash;
  validation_error : option string;
}.

(** [PayloadId] is [[u8; 8]], here the list of its bytes. *)
Definition PayloadId : Type := list Z.
Record TransparentJsonPayloadId := MkTransparentJsonPayloadId {
  transparent_payload_id : PayloadId
}.

Record JsonForkchoiceUpdatedV1Response := MkJsonForkchoiceUpdatedV1Response {
  payload_status : JsonPayloadStatusV1;
  payload_id : option TransparentJsonPayloadId;
}.

Inductive JsonPayloadAttributes :=
| JPA_V2 (a : JsonPayloadAttributesV2)
| JPA_V3 (a : JsonPayloadAttributesV3).

Record ForkchoiceState := MkForkchoiceState {
  fcs_head_block_hash : ExecutionBlockHash;
  fcs_safe_block_hash : ExecutionBlockHash;
  fcs_finalized_block_hash : ExecutionBlockHash;
}.

Inductive JsonGetPayloadResponse :=
| JsonGetPayloadResponseV1 (execution_payload : JsonExecutionPayloadV1)
    (block_value : Uint256)
| JsonGetPayloadResponseV2 (execution_payload : JsonExecutionPayloadV2)
    (block_value : Uint256)
| JsonGetPayloadResponseV3 (execution_payload : JsonExecutionPayloadV3)
    (block_value : Uint256) (blobs_bundle : JsonBlobsBundleV1)
    (should_override_builder : bool)
| JsonGetPayloadResponseV4 (execution_payload : JsonExecutionPayloadV4)
    (block_value : Uint256) (blobs_bundle : JsonBlobsBundleV1)
    (should_override_builder : bool) (execution_requests : JsonExecutionRequests).
End enums.

(** * Functions *)

Class ExtOps `{ExtTypes} := {
  (** [serde_json::Value] *)
  json_array : list JsonValue → JsonValue;
  json_number : Z → JsonValue;
  json_get : JsonValue → string → option JsonValue;
  (** [{:?}] and [{}] of the values the messages print *)
  debug_serde_error : SerdeError → string;
  display_serde_error : SerdeError → string;
  debug_block_hash : ExecutionBlockHash → string;
  debug_requests_error : RequestsError → string;
  debug_engine_error : EngineError → string;
  display_fork_name : ForkName → string;
  (** method names of [execution_layer::http] *)
  ENGINE_NEW_PAYLOAD_V1 : string;
  ENGINE_NEW_PAYLOAD_V2 : string;
  ENGINE_NEW_PAYLOAD_V3 : string;
  ENGINE_NEW_PAYLOAD_V4 : string;
  ENGINE_FORKCHOICE_UPDATED_V1 : string;
  ENGINE_FORKCHOICE_UPDATED_V2 : string;
  ENGINE_FORKCHOICE_UPDATED_V3 : string;
  ENGINE_GET_PAYLOAD_V1 : string;
  ENGINE_GET_PAYLOAD_V2 : string;
  ENGINE_GET_PAYLOAD_V3 : string;
  ENGINE_GET_PAYLOAD_V4 : string;
  ENGINE_EXCHANGE_CAPABILITIES : string;
  ENGINE_GET_PAYLOAD_BODIES_BY_HASH_V1 : string;
  ENGINE_GET_PAYLOAD_BODIES_BY_RANGE_V1 : string;
  ENGINE_GET_CLIENT_VERSION_V1 : string;
  ETH_SYNCING : string;
  (** [ChainSpec] *)
  seconds_per_slot : ChainSpec → Z;
  fork_name_at_slot : ChainSpec → Slot → ForkName;
  (** accessors of [ExecutionPayload] *)
  ep_block_hash : ExecutionPayload → ExecutionBlockHash;
  ep_block_number : ExecutionPayload → Z;
  ep_state_root : ExecutionPayload → Hash256;
  ep_base_fee_per_gas : ExecutionPayload → Uint256;
  ep_gas_used : ExecutionPayload → Z;
  ep_gas_limit : ExecutionPayload → Z;
  (** [*payload.block_hash_mut() = hash] *)
  ep_set_block_hash : ExecutionPayload → ExecutionBlockHash → ExecutionPayload;
  (** accessors of [PayloadAttributes]; the last two are [None] where the Rust
      accessor returns an error *)
  pa_timestamp : PayloadAttributes → Z;
  pa_prev_randao : PayloadAttributes → Hash256;
  pa_suggested_fee_recipient : PayloadAttributes → Address;
  pa_withdrawals : PayloadAttributes → option (list Withdrawal);
  pa_parent_beacon_block_root : PayloadAttributes → option Hash256;
  (** conversions ([From], [Into], [TryFrom]) and defaults *)
  ep_from_json : JsonExecutionPayload → ExecutionPayload;
  jep_from_payload : ExecutionPayload → JsonExecutionPayload;
  pa_from_json : JsonPayloadAttributes → PayloadAttributes;
  jps_from_status : PayloadStatusV1 → JsonPayloadStatusV1;
  jfcu_from_response : ForkchoiceUpdatedResponse → JsonForkchoiceUpdatedV1Response;
  execution_requests_try_from : JsonExecutionRequests → result ExecutionRequests RequestsError;
  withdrawals_from : list Withdrawal → Withdrawals;
  blobs_bundle_from : BlobsBundle → JsonBlobsBundleV1;
  chain_id_into : ChainId → Z;
  capabilities_to_response : EngineCapabilities → EngineCapabilitiesResponse;
  Hash256_default : Hash256;
  Bloom_default : Bloom;
  BlobsBundle_default : BlobsBundle;
  ExecutionRequests_default : ExecutionRequests;
  JsonExecutionRequests_default : JsonExecutionRequests;
  ExecutionBlockHash_zero : ExecutionBlockHash;
  KECCAK_EMPTY_LIST_RLP : Hash256;
  (** [VariableList<T, N>] with its type-level bounds as numbers *)
  MaxExtraDataBytes : Z;
  MaxTransactionsPerPayload : Z;
  vl_new {A} : Z → list A → result (VariableList A) SszError;
  vl_contents {A} : VariableList A → list A;
  (** block hashes *)
  verify_payload_block_hash : NewPayloadRequest → result unit VerifyError;
  verify_versioned_hashes : NewPayloadRequest → result unit VerifyError;
  calculate_execution_block_hash :
    ExecutionPayload → option Hash256 → option ExecutionRequests →
    ExecutionBlockHash * Hash256;
}.

(** The method names of the program: the constants and its string literals. *)
Definition method_names `{ExtOps} : list string :=
  [ ENGINE_NEW_PAYLOAD_V1; ENGINE_NEW_PAYLOAD_V2; ENGINE_NEW_PAYLOAD_V3;
    ENGINE_NEW_PAYLOAD_V4; ENGINE_FORKCHOICE_UPDATED_V1; ENGINE_FORKCHOICE_UPDATED_V2;
    ENGINE_FORKCHOICE_UPDATED_V3; ENGINE_GET_PAYLOAD_V1; ENGINE_GET_PAYLOAD_V2;
    ENGINE_GET_PAYLOAD_V3; ENGINE_GET_PAYLOAD_V4; ETH_SYNCING; "eth_chainId";
    ENGINE_EXCHANGE_CAPABILITIES; "engine_getBlobsV1"; "eth_getBlockByNumber";
    "eth_getBlockByHash"; "eth_getLogs"; "eth_call"; "eth_blockNumber";
    ENGINE_GET_PAYLOAD_BODIES_BY_HASH_V1; ENGINE_GET_PAYLOAD_BODIES_BY_RANGE_V1;
    ENGINE_GET_CLIENT_VERSION_V1 ].

Class ExtLaws `{ExtOps} : Prop := {
  ext_uint256_laws :: Uint256Laws;
  method_names_distinct : NoDup method_names;
  (** a conversion keeps the fork of the payload *)
  ep_from_json_fork p : ep_fork (ep_from_json p) = jep_fork p;
  jep_from_payload_fork p : jep_fork (jep_from_payload p) = ep_fork p;
  (** an accessor of the enum reads the field of the variant *)
  ep_block_hash_bellatrix p : ep_block_hash (EP_Bellatrix p) = BellatrixPayload.block_hash p;
  ep_block_hash_capella p : ep_block_hash (EP_Capella p) = CapellaPayload.block_hash p;
  ep_block_hash_deneb p : ep_block_hash (EP_Deneb p) = DenebPayload.block_hash p;
  ep_block_hash_electra p : ep_block_hash (EP_Electra p) = ElectraPayload.block_hash p;
  (** the mutable accessor changes the block hash and nothing else *)
  ep_set_block_hash_fork p h : ep_fork (ep_set_block_hash p h) = ep_fork p;
  ep_block_hash_set p h : ep_block_hash (ep_set_block_hash p h) = h;
  ep_set_block_hash_same p : ep_set_block_hash p (ep_block_hash p) = p;
  ep_set_block_hash_twice p h h' :
    ep_set_block_hash (ep_set_block_hash p h) h' = ep_set_block_hash p h';
  (** [VariableList::new] accepts the lists within the bound *)
  MaxExtraDataBytes_nonneg : (0 ≤ MaxExtraDataBytes)%Z;
  MaxTransactionsPerPayload_nonneg : (0 ≤ MaxTransactionsPerPayload)%Z;
  vl_new_ok {A} max (l : list A) :
    (Z.of_nat (length l) ≤ max)%Z → ∃ v, vl_new max l = Ok v ∧ vl_contents v = l;
  (** attributes of different versions are different values *)
  pa_from_json_V2_V3 a b : pa_from_json (JPA_V2 a) ≠ pa_from_json (JPA_V3 b);
}.
