(* ===== verification/Types.v ===== *)
(** JSON-RPC messages and their constructors (src/src/types.rs), and the serde traits. *)
From S2P Require Import Prelude Uint256 Lru Lighthouse.

(** * Serde *)

Class DeserializeOwned `{ExtTypes} (T : Type) :=
  from_value : JsonValue → result T SerdeError.
Class Serialize `{ExtTypes} (T : Type) :=
  to_value : T → result JsonValue SerdeError.
Arguments from_value {_} T {_} _.

(** * Messages *)

Section messages.
Context `{ExtTypes}.

Record Request := MkRequest {
  req_jsonrpc : string;
  req_method : string;
  req_params : JsonValue;
  req_id : JsonValue;
}.

Inductive Requests :=
| Requests_Single (r : Request)
| Requests_Multiple (rs : list Request).

Inductive ErrorCode :=
| ParseError | InvalidRequest | MethodNotFound | InvalidParams | InternalError
| ServerError | UnknownPayload | InvalidForkChoiceState | InvalidPayloadAttributes
| TooLargeRequest.

#[global] Instance ErrorCode_eq_dec : EqDecision ErrorCode.
Proof. solve_decision. Defined.

Record JsonError := MkJsonError { code : ErrorCode; message : string }.

Record Response := MkResponse {
  resp_jsonrpc : string;
  resp_id : JsonValue;
  resp_result : JsonValue;
}.

Record ErrorResponse := MkErrorResponse {
  err_jsonrpc : string;
  err_id : JsonValue;
  err_error : JsonError;
}.

Inductive MaybeErrorResponse :=
| MER_Ok (r : Response)
| MER_Err (e : ErrorResponse).

Definition MaybeErrorResponse_from (res : result Response ErrorResponse) : MaybeErrorResponse :=
  match res with
  | Ok x => MER_Ok x
  | Err x => MER_Err x
  end.

Inductive Responses :=
| Responses_Single (r : MaybeErrorResponse)
| Responses_Multiple (rs : list MaybeErrorResponse).

Record JsonForkchoiceStateV1 := MkJsonForkchoiceStateV1 {
  head_block_hash : ExecutionBlockHash;
  safe_block_hash : ExecutionBlockHash;
  finalized_block_hash : ExecutionBlockHash;
}.

#[global] Instance JsonForkchoiceStateV1_eq_dec : EqDecision JsonForkchoiceStateV1.
Proof. solve_decision. Defined.

Record QuantityU64 := MkQuantityU64 { value : Z }.
End messages.

(** [#[repr(i32)]] discriminants, the wire form of an error code. *)
Definition ErrorCode_repr (c : ErrorCode) : Z :=
  match c with
  | ParseError => -32700
  | InvalidRequest => -32600
  | MethodNotFound => -32601
  | InvalidParams => -32602
  | InternalError => -32603
  | ServerError => -32000
  | UnknownPayload => -38001
  | InvalidForkChoiceState => -38002
  | InvalidPayloadAttributes => -38003
  | TooLargeRequest => -38004
  end%Z.

Definition ErrorCode_all : list ErrorCode :=
  [ ParseError; InvalidRequest; MethodNotFound; InvalidParams; InternalError; ServerError;
    UnknownPayload; InvalidForkChoiceState; InvalidPayloadAttributes; TooLargeRequest ].

(** [Deserialize_repr]: the variant with the given discriminant. *)
Definition ErrorCode_from_repr (z : Z) : option ErrorCode :=
  list_find (λ c, ErrorCode_repr c = z) ErrorCode_all ≫= λ p, Some p.2.

(** * Everything outside the repository, as one interface *)

Class SerdeOps `{ExtOps} := {
  de_values :: DeserializeOwned (list JsonValue);
  de_versioned_hashes :: DeserializeOwned (list VersionedHash);
  de_hash256 :: DeserializeOwned Hash256;
  de_execution_requests :: DeserializeOwned JsonExecutionRequests;
  de_quantity :: DeserializeOwned QuantityU64;
  de_payload_v1 :: DeserializeOwned JsonExecutionPayloadV1;
  de_payload_v2 :: DeserializeOwned JsonExecutionPayloadV2;
  de_payload_v3 :: DeserializeOwned JsonExecutionPayloadV3;
  de_payload_v4 :: DeserializeOwned JsonExecutionPayloadV4;
  de_fcu_values :: DeserializeOwned (JsonForkchoiceStateV1 * option JsonValue);
  de_fcu_attributes ::
    DeserializeOwned (JsonForkchoiceStateV1 * option JsonPayloadAttributesV2);
  de_attributes_v2 :: DeserializeOwned JsonPayloadAttributesV2;
  de_attributes_v3 :: DeserializeOwned JsonPayloadAttributesV3;
  de_units :: DeserializeOwned (list unit);
  de_capabilities :: DeserializeOwned (tuple1 (list string));
  de_payload_id :: DeserializeOwned (tuple1 TransparentJsonPayloadId);
  ser_bool :: Serialize bool;
  ser_value :: Serialize JsonValue;
  ser_quantity :: Serialize QuantityU64;
  ser_capabilities :: Serialize EngineCapabilitiesResponse;
  ser_status :: Serialize JsonPayloadStatusV1;
  ser_fcu_response :: Serialize JsonForkchoiceUpdatedV1Response;
  ser_get_payload :: Serialize JsonGetPayloadResponse;
}.

Class SerdeLaws `{SerdeOps} : Prop := {
  (** the empty JSON array is the empty vector *)
  de_units_empty : from_value (list unit) (json_array []) = Ok [];
  (** a decoded [u64] has 64 bits *)
  de_quantity_u64 v q : from_value QuantityU64 v = Ok q → is_u64 (value q);
  (** a JSON value serialises to itself *)
  ser_value_id v : to_value (v : JsonValue) = Ok v;
}.

Class Ext := {
  ext_profile :: BuildProfile;
  ext_types :: ExtTypes;
  ext_ops :: ExtOps;
  ext_serde :: SerdeOps;
  Cache : Type → Type → Type;
  ext_lru :: LruOps Cache;
}.

Class ExtOk `{Ext} : Prop := {
  ext_laws :: ExtLaws;
  ext_serde_laws :: SerdeLaws;
  ext_lru_laws :: LruLaws Cache;
}.

(** The [u64] fields of a payload which the program reads. *)
Definition payload_u64 `{Ext} (p : ExecutionPayload) : Prop :=
  is_u64 (ep_block_number p) ∧ is_u64 (ep_gas_used p) ∧ is_u64 (ep_gas_limit p).

(** A payload is decoded into a structure whose number and gas are of type [u64]. *)
Class SerdeTyped `{Ext} : Prop := {
  de_payload_v1_u64 v p :
    from_value JsonExecutionPayloadV1 v = Ok p → payload_u64 (ep_from_json (JEP_V1 p));
  de_payload_v2_u64 v p :
    from_value JsonExecutionPayloadV2 v = Ok p → payload_u64 (ep_from_json (JEP_V2 p));
  de_payload_v3_u64 v p :
    from_value JsonExecutionPayloadV3 v = Ok p → payload_u64 (ep_from_json (JEP_V3 p));
  de_payload_v4_u64 v p :
    from_value JsonExecutionPayloadV4 v = Ok p → payload_u64 (ep_from_json (JEP_V4 p));
}.

(** * Operations *)

Section operations.
Context `{Ext}.

Definition empty_params : JsonValue := json_array [].

Definition JsonForkchoiceStateV1_from (f : ForkchoiceState) : JsonForkchoiceStateV1 :=
  let '(MkForkchoiceState head safe finalized) := f in
  MkJsonForkchoiceStateV1 head safe finalized.

Definition ForkchoiceState_from (j : JsonForkchoiceStateV1) : ForkchoiceState :=
  let '(MkJsonForkchoiceStateV1 head safe finalized) := j in
  MkForkchoiceState head safe finalized.

Definition unsupported_method (id : JsonValue) (method : string) : ErrorResponse :=
  {| err_jsonrpc := "2.0";
     err_id := id;
     err_error := {| code := MethodNotFound;
                     message := "method `" +:+ method +:+ "` not supported" |} |}.

Definition parse_error_generic (id : JsonValue) (message : string) : ErrorResponse :=
  {| err_jsonrpc := "2.0";
     err_id := id;
     err_error := {| code := ParseError; message := message |} |}.

Definition parse_error (id : JsonValue) (error : SerdeError) : ErrorResponse :=
  parse_error_generic id ("parse error: " +:+ debug_serde_error error).

Definition invalid_request (id : JsonValue) (message : string) : ErrorResponse :=
  {| err_jsonrpc := "2.0";
     err_id := id;
     err_error := {| code := InvalidRequest; message := message |} |}.

Definition invalid_payload_attributes (id : JsonValue) (message : string) : ErrorResponse :=
  {| err_jsonrpc := "2.0";
     err_id := id;
     err_error := {| code := InvalidPayloadAttributes; message := message |} |}.

Definition unknown_payload (id : JsonValue) (message : string) : ErrorResponse :=
  {| err_jsonrpc := "2.0";
     err_id := id;
     err_error := {| code := UnknownPayload; message := message |} |}.

(** [Request::parse_as::<T>]. *)
Definition parse_as (T : Type) `{!DeserializeOwned T} (self : Request) :
    result (JsonValue * T) ErrorResponse :=
  let id := req_id self in
  let? params := map_err (parse_error id) (from_value T (req_params self)) in
  Ok (id, params).

(** [Response::new]. *)
Definition Response_new {T : Type} `{!Serialize T} (id : JsonValue) (res : T) :
    result Response ErrorResponse :=
  let? res := map_err (parse_error id) (to_value res) in
  Ok {| resp_jsonrpc := "2.0"; resp_id := id; resp_result := res |}.

(** * Properties *)

(** The id and the protocol version of a reply. *)
Definition reply_id (r : result Response ErrorResponse) : JsonValue :=
  match r with Ok x => resp_id x | Err e => err_id e end.
Definition reply_jsonrpc (r : result Response ErrorResponse) : string :=
  match r with Ok x => resp_jsonrpc x | Err e => err_jsonrpc e end.

(** A reply answers a request when it carries its id and the protocol version. *)
Definition answers (id : JsonValue) (r : result Response ErrorResponse) : Prop :=
  reply_id r = id ∧ reply_jsonrpc r = "2.0".

Lemma Response_new_answers {T} `{!Serialize T} id (res : T) : answers id (Response_new id res).
Proof. unfold Response_new. by destruct (to_value res). Qed.

Lemma unsupported_method_answers id m : answers id (Err (unsupported_method id m)).
Proof. done. Qed.
Lemma parse_error_generic_answers id m : answers id (Err (parse_error_generic id m)).
Proof. done. Qed.
Lemma invalid_request_answers id m : answers id (Err (invalid_request id m)).
Proof. done. Qed.
Lemma invalid_payload_attributes_answers id m :
  answers id (Err (invalid_payload_attributes id m)).
Proof. done. Qed.
Lemma unknown_payload_answers id m : answers id (Err (unknown_payload id m)).
Proof. done. Qed.

Lemma parse_as_Ok (T : Type) `{!DeserializeOwned T} r id params :
  parse_as T r = Ok (id, params) ↔ id = req_id r ∧ from_value T (req_params r) = Ok params.
Proof.
  unfold parse_as. destruct (from_value T (req_params r)); simpl; naive_solver.
Qed.

Lemma parse_as_Err (T : Type) `{!DeserializeOwned T} r e :
  parse_as T r = Err e → err_id e = req_id r ∧ err_jsonrpc e = "2.0".
Proof.
  unfold parse_as. destruct (from_value T (req_params r)); simpl; naive_solver.
Qed.
End operations.

#[export] Hint Resolve Response_new_answers unsupported_method_answers
  parse_error_generic_answers invalid_request_answers invalid_payload_attributes_answers
  unknown_payload_answers : eleel.
