(* ===== verification/Config.v ===== *)
(** Configuration (src/src/config.rs). *)
From S2P Require Import Prelude Uint256 Lru Lighthouse Types.

(** The network presets and the files are outside the repository. *)
Class NetworkOps `{Ext} := {
  Eth2NetworkConfig : Type;
  (** [Eth2NetworkConfig::constant] *)
  network_constant : string → result (option Eth2NetworkConfig) string;
  (** [chain_spec::<E>()] and the genesis time of [genesis_state::<E>(..)] *)
  network_chain_spec : Eth2NetworkConfig → result ChainSpec string;
  network_genesis_time : Eth2NetworkConfig → result (option Z) string;
}.

Inductive FcuMatching := Exact | Loose | HeadOnly.

#[export] Instance FcuMatching_eq_dec : EqDecision FcuMatching.
Proof. solve_decision. Defined.

(** [ValueEnum::value_variants]. *)
Definition FcuMatching_value_variants : list FcuMatching := [Exact; Loose; HeadOnly].

(** [IntoStaticStr] with kebab-case names. *)
Definition FcuMatching_into_str (m : FcuMatching) : string :=
  match m with
  | Exact => "exact"
  | Loose => "loose"
  | HeadOnly => "head-only"
  end.

(** [EnumString]: the variant of the given name. *)
Definition FcuMatching_from_str (s : string) : option FcuMatching :=
  list_find (λ m, FcuMatching_into_str m = s) FcuMatching_value_variants ≫= λ p, Some p.2.

(** [ValueEnum::to_possible_value]: the name and the help text. *)
Definition FcuMatching_to_possible_value (m : FcuMatching) : option (string * string) :=
  let s := FcuMatching_into_str m in
  let pv := match m with
            | Exact => (s, "match head/safe/finalized from controller exactly")
            | Loose => (s, "match head and sanity check safe/finalized")
            | HeadOnly => (s, "match head and ignore safe/finalized (dangerous)")
            end in
  Some pv.

Section config.
Context `{NetworkOps}.

Record Network := MkNetwork { network : Eth2NetworkConfig }.

(** [FromStr for Network]. *)
Definition Network_from_str (s : string) : result Network string :=
  let? constant := network_constant s in
  ok_or ("unknown network: " +:+ s) (MkNetwork <$> constant).

Record Config := MkConfig {
  listen_address : string;
  listen_port : Z;
  ee_url : string;
  ee_jwt_secret : string;
  controller_jwt_secret : string;
  client_jwt_secrets : string;
  new_payload_cache_size : Z;
  fcu_cache_size : Z;
  payload_builder_cache_size : Z;
  payload_builder_extra_data : string;
  justified_block_cache_size : Z;
  finalized_block_cache_size : Z;
  fcu_matching : FcuMatching;
  config_network : Network;
  new_payload_wait_millis : Z;
  new_payload_wait_cutoff : Z;
  fcu_wait_millis : Z;
  body_limit_mb : Z;
}.

(** The defaults of the command line; the three secret paths have none. *)
Definition Config_default (ee_secret controller_secret client_secrets : string)
    (mainnet : Network) : Config := {|
  listen_address := "127.0.0.1";
  listen_port := 8552;
  ee_url := "http://localhost:8551";
  ee_jwt_secret := ee_secret;
  controller_jwt_secret := controller_secret;
  client_jwt_secrets := client_secrets;
  new_payload_cache_size := 64;
  fcu_cache_size := 64;
  payload_builder_cache_size := 8;
  payload_builder_extra_data := "Eleel";
  justified_block_cache_size := 4;
  finalized_block_cache_size := 4;
  fcu_matching := Loose;
  config_network := mainnet;
  new_payload_wait_millis := 2000;
  new_payload_wait_cutoff := 64;
  fcu_wait_millis := 1000;
  body_limit_mb := 128;
|}.
End config.
