(* ===== verification/Multiplexer.v ===== *)
(** The shared state of the server and its construction (src/src/multiplexer.rs, and the
    state half of src/src/payload_builder.rs).

    [Multiplexer] is split in the fields which never change after start-up ([Statics])
    and the five values behind a [tokio::sync::Mutex] ([Caches]); [mutex] names the
    latter. *)
From S2P Require Import Prelude Uint256 Lru Lighthouse Types Config.

Section state.
Context `{NetworkOps}.

(** Information about previously seen canonical payloads. *)
Record PayloadInfo := MkPayloadInfo {
  info_block_number : Z;
  info_state_root : Hash256;
  info_base_fee_per_gas : Uint256;
  info_gas_used : Z;
  info_gas_limit : Z;
}.

Record PayloadBuilder := MkPayloadBuilder {
  next_payload_id : Z;
  payload_attributes : Cache (ExecutionBlockHash * PayloadAttributes) PayloadId;
  payload_info : Cache ExecutionBlockHash PayloadInfo;
  payloads : Cache PayloadId ExecutionPayload;
  extra_data : VariableList Z;
}.

Record NewPayloadCacheEntry := MkNewPayloadCacheEntry {
  entry_status : JsonPayloadStatusV1;
  entry_block_number : Z;
}.

Record Caches := MkCaches {
  fcu_cache : Cache JsonForkchoiceStateV1 JsonPayloadStatusV1;
  new_payload_cache : Cache ExecutionBlockHash NewPayloadCacheEntry;
  justified_block_cache : Cache ExecutionBlockHash unit;
  finalized_block_cache : Cache ExecutionBlockHash unit;
  payload_builder : PayloadBuilder;
}.

Record Statics := MkStatics {
  genesis_time : Z;
  spec : ChainSpec;
  config : Config;
}.

Record Multiplexer := MkMultiplexer { statics : Statics; caches : Caches }.

(** [str::as_bytes]. *)
Definition as_bytes (s : string) : list Z :=
  (λ c, Z.of_nat (Ascii.nat_of_ascii c)) <$> String.list_ascii_of_string s.

(** [PayloadBuilder::new]. *)
Definition PayloadBuilder_new (cache_size : positive) (extra_data_str : string) :
    outcome PayloadBuilder :=
  let extra_data_bytes := as_bytes extra_data_str in
  let len := Z.min (Z.of_nat (length extra_data_bytes)) MaxExtraDataBytes in
  do extra_data := unwrap (vl_new MaxExtraDataBytes (take (Z.to_nat len) extra_data_bytes)) in
  Done {|
    next_payload_id := 0;
    payload_attributes := lru_new cache_size;
    payload_info := lru_new cache_size;
    payloads := lru_new cache_size;
    extra_data := extra_data;
  |}.

(** The connection to the execution engine: whether the secret, the URL and the HTTP
    client could be set up.  The engine itself is the environment of the handlers. *)
Class EngineOps := {
  Auth : Type;
  Url : Type;
  AuthError : Type;
  UrlError : Type;
  HttpError : Type;
  debug_auth_error : AuthError → string;
  debug_url_error : UrlError → string;
  debug_http_error : HttpError → string;
  auth_new_with_path : string → option string → option string → result Auth AuthError;
  url_from_str : string → result Url UrlError;
  http_json_rpc_new_with_auth : Url → Auth → option Z → result unit HttpError;
}.

Context `{EngineOps}.

Definition new_engine (config : Config) : result unit string :=
  let jwt_id := Some "eleel" in
  let jwt_version := None in
  let execution_timeout_multiplier := Some 2%Z in
  let? auth := map_err (λ e, "JWT secret error: " +:+ debug_auth_error e)
                       (auth_new_with_path (ee_jwt_secret config) jwt_id jwt_version) in
  let? url := map_err (λ e, "Invalid EL URL: " +:+ debug_url_error e)
                      (url_from_str (ee_url config)) in
  map_err (λ e, "Error connecting to EL: " +:+ debug_http_error e)
    (http_json_rpc_new_with_auth url auth execution_timeout_multiplier).

(** A panic of [PayloadBuilder_new] would unwind through [new]. *)
Definition lift_builder (o : outcome PayloadBuilder)
    (k : PayloadBuilder → result Multiplexer string) : outcome (result Multiplexer string) :=
  do b := o in Done (k b).

(** [Multiplexer::new]. *)
Definition Multiplexer_new (config : Config) : outcome (result Multiplexer string) :=
  match new_engine config with
  | Err e => Done (Err e)
  | Ok _ =>
  match NonZeroUsize_new (fcu_cache_size config) with
  | None => Done (Err "invalid cache size")
  | Some fcu_size =>
  match NonZeroUsize_new (new_payload_cache_size config) with
  | None => Done (Err "invalid cache size")
  | Some new_payload_size =>
  match NonZeroUsize_new (justified_block_cache_size config) with
  | None => Done (Err "invalid cache size")
  | Some justified_size =>
  match NonZeroUsize_new (justified_block_cache_size config) with
  | None => Done (Err "invalid cache size")
  | Some finalized_size =>
  match NonZeroUsize_new (payload_builder_cache_size config) with
  | None => Done (Err "invalid cache size")
  | Some builder_size =>
    lift_builder (PayloadBuilder_new builder_size (payload_builder_extra_data config))
      (λ payload_builder,
        let? spec := network_chain_spec (network (config_network config)) in
        let? genesis_state := network_genesis_time (network (config_network config)) in
        let? genesis_time := ok_or "no genesis state" genesis_state in
        Ok {|
          statics := {| genesis_time := genesis_time; spec := spec; config := config |};
          caches := {|
            fcu_cache := lru_new fcu_size;
            new_payload_cache := lru_new new_payload_size;
            justified_block_cache := lru_new justified_size;
            finalized_block_cache := lru_new finalized_size;
            payload_builder := payload_builder;
          |};
        |})
  end end end end end end.
End state.

(** * The mutexes and what they guard *)

Inductive mutex := MFcu | MNewPayload | MJustified | MFinalized | MBuilder.

#[export] Instance mutex_eq_dec : EqDecision mutex.
Proof. solve_decision. Defined.

Section guarded.
Context `{NetworkOps}.

Definition guarded (m : mutex) : Type :=
  match m with
  | MFcu => Cache JsonForkchoiceStateV1 JsonPayloadStatusV1
  | MNewPayload => Cache ExecutionBlockHash NewPayloadCacheEntry
  | MJustified | MFinalized => Cache ExecutionBlockHash unit
  | MBuilder => PayloadBuilder
  end.

Definition get_guarded (m : mutex) (cs : Caches) : guarded m :=
  match m with
  | MFcu => fcu_cache cs
  | MNewPayload => new_payload_cache cs
  | MJustified => justified_block_cache cs
  | MFinalized => finalized_block_cache cs
  | MBuilder => payload_builder cs
  end.

Definition set_guarded (m : mutex) : guarded m → Caches → Caches :=
  match m with
  | MFcu => λ v cs, MkCaches v (new_payload_cache cs) (justified_block_cache cs)
                      (finalized_block_cache cs) (payload_builder cs)
  | MNewPayload => λ v cs, MkCaches (fcu_cache cs) v (justified_block_cache cs)
                      (finalized_block_cache cs) (payload_builder cs)
  | MJustified => λ v cs, MkCaches (fcu_cache cs) (new_payload_cache cs) v
                      (finalized_block_cache cs) (payload_builder cs)
  | MFinalized => λ v cs, MkCaches (fcu_cache cs) (new_payload_cache cs)
                      (justified_block_cache cs) v (payload_builder cs)
  | MBuilder => λ v cs, MkCaches (fcu_cache cs) (new_payload_cache cs)
                      (justified_block_cache cs) (finalized_block_cache cs) v
  end.

Lemma get_set_guarded_eq m v cs : get_guarded m (set_guarded m v cs) = v.
Proof. by destruct m. Qed.

Lemma get_set_guarded_ne m m' v cs :
  m ≠ m' → get_guarded m (set_guarded m' v cs) = get_guarded m cs.
Proof. by destruct m, m'. Qed.

Lemma set_get_guarded m cs : set_guarded m (get_guarded m cs) cs = cs.
Proof. by destruct m, cs. Qed.

(** [timestamp_to_slot] of src/src/new_payload.rs, used by two components. *)
Definition timestamp_to_slot (self : Statics) (timestamp : Z) : option Slot :=
  since_genesis ← u64_checked_sub timestamp (genesis_time self);
  slot ← u64_checked_div since_genesis (seconds_per_slot (spec self));
  Some (Slot_new slot).

(** Two states of the server with the same content up to recency. *)
Definition builder_same (b1 b2 : PayloadBuilder) : Prop :=
  next_payload_id b1 = next_payload_id b2 ∧
  lru_same (payload_attributes b1) (payload_attributes b2) ∧
  lru_same (payload_info b1) (payload_info b2) ∧
  lru_same (payloads b1) (payloads b2) ∧
  extra_data b1 = extra_data b2.

Definition guarded_same (m : mutex) : guarded m → guarded m → Prop :=
  match m with
  | MFcu | MNewPayload | MJustified | MFinalized => lru_same
  | MBuilder => builder_same
  end.

(** How many entries the caches behind a mutex may hold. *)
Definition guarded_caps (m : mutex) : guarded m → list positive :=
  match m with
  | MFcu => λ c, [lru_cap c]
  | MNewPayload => λ c, [lru_cap c]
  | MJustified => λ c, [lru_cap c]
  | MFinalized => λ c, [lru_cap c]
  | MBuilder => λ b, [lru_cap (payload_attributes b); lru_cap (payload_info b);
                      lru_cap (payloads b)]
  end.

Definition caches_same (cs1 cs2 : Caches) : Prop :=
  ∀ m, guarded_same m (get_guarded m cs1) (get_guarded m cs2).

Lemma guarded_same_caps m v1 v2 : guarded_same m v1 v2 → guarded_caps m v1 = guarded_caps m v2.
Proof.
  destruct m; simpl; [by intros [-> _]..|]. by intros (_ & [-> _] & [-> _] & [-> _] & _).
Qed.

Context `{!ExtOk}.

#[global] Instance builder_same_equiv : Equivalence builder_same.
Proof.
  unfold builder_same. split.
  - done.
  - intros x y (?&?&?&?&?). do 4 (split; [by symmetry|]). by symmetry.
  - intros x y z (?&?&?&?&?) (?&?&?&?&?). do 4 (split; [by etrans|]). by etrans.
Qed.

#[global] Instance guarded_same_equiv m : Equivalence (guarded_same m).
Proof. destruct m; simpl; apply _. Qed.

#[global] Instance caches_same_equiv : Equivalence caches_same.
Proof.
  unfold caches_same. split.
  - intros x m. reflexivity.
  - intros x y Hxy m. symmetry. apply Hxy.
  - intros x y z Hxy Hyz m. etrans; [apply Hxy|apply Hyz].
Qed.
End guarded.
