(* ===== verification/Prog.v ===== *)
(** The effects of a request handler.

    A handler is an [async fn].  Its model is a program [prog R]: a tree of events
    (locking a mutex, accessing the value behind it, calling the execution engine,
    reading the clock, sleeping), each with a continuation for every answer.  What
    happens between two events of a handler is up to the other handlers; two semantics
    close the program: [run] (this file) executes one request alone, System.v
    interleaves any number of them. *)
From S2P Require Import Prelude Uint256 Lru Lighthouse Types Config Multiplexer.

Section prog.
Context `{Ext}.

(** ** Events

    [EAccess] runs a synchronous piece of code on the value of a locked mutex.
    [ESleepUntil] is the second half of [tokio::time::sleep].  Times are in
    nanoseconds. *)
Inductive ev : Type → Type :=
| ELock (m : mutex) : ev unit
| EUnlock (m : mutex) : ev unit
| EAccess (m : mutex) {A : Type} (f : guarded m → A * guarded m) : ev A
| ENewPayload (r : NewPayloadRequest) : ev (result PayloadStatusV1 EngineError)
| EForkchoiceUpdated (s : ForkchoiceState) (attrs : option PayloadAttributes) :
    ev (result ForkchoiceUpdatedResponse EngineError)
| EChainId (timeout : Z) : ev (result ChainId EngineError)
| ECapabilities (max_age : option Z) : ev (result EngineCapabilities EngineError)
| ERpcRequest (method : string) (params : JsonValue) (timeout : Z) :
    ev (result JsonValue EngineError)
| ENow : ev Z
| ESleepUntil (t : Z) : ev unit.

(** [OutOfFuel] ends a loop whose bound on the number of iterations is spent; the
    loops are shown never to reach it. *)
Inductive prog (R : Type) : Type :=
| Ret (r : R)
| Panic (msg : string)
| OutOfFuel
| Vis {A : Type} (e : ev A) (k : A → prog R).
Arguments Ret {R} r.
Arguments Panic {R} msg.
Arguments OutOfFuel {R}.
Arguments Vis {R A} e k.

Fixpoint bind {A B} (p : prog A) (f : A → prog B) : prog B :=
  match p with
  | Ret a => f a
  | Panic m => Panic m
  | OutOfFuel => OutOfFuel
  | Vis e k => Vis e (λ a, bind (k a) f)
  end.

Definition trigger {A} (e : ev A) : prog A := Vis e Ret.

(** [?] on the result of an awaited computation. *)
Definition bind_result {A B E} (p : prog (result A E)) (f : A → prog (result B E)) :
    prog (result B E) :=
  bind p (λ r, match r with Ok a => f a | Err e => Ret (Err e) end).

(** A synchronous computation that may panic. *)
Definition lift_outcome {A} (o : outcome A) : prog A :=
  match o with Done a => Ret a | Panicked m => Panic m end.

(** [let guard = mutex.lock().await; body] up to the drop of the guard. *)
Definition with_lock {A} (m : mutex) (body : prog A) : prog A :=
  bind (trigger (ELock m)) (λ _,
  bind body (λ a,
  bind (trigger (EUnlock m)) (λ _, Ret a))).

Definition access {A} (m : mutex) (f : guarded m → A * guarded m) : prog A :=
  trigger (EAccess m f).

Definition modify (m : mutex) (f : guarded m → guarded m) : prog unit :=
  access m (λ v, (tt, f v)).

(** [tokio::time::sleep(Duration::from_millis(ms)).await]. *)
Definition sleep_millis (ms : Z) : prog unit :=
  bind (trigger ENow) (λ now, trigger (ESleepUntil (now + ms * 1000000)%Z)).

(** [start.elapsed().as_millis()]. *)
Definition elapsed_millis (start now : Z) : Z := (Z.max 0 (now - start) / 1000000)%Z.

(** The polling loop of the two client handlers:

    [let start = Instant::now();]
    [while start.elapsed().as_millis() < wait_millis {]
    [  if let Some(x) = poll().await { break/return x; }]
    [  tokio::time::sleep(Duration::from_millis(50)).await;]
    [}] *)
Fixpoint poll_loop {A} (fuel : nat) (start wait_millis : Z) (poll : prog (option A)) :
    prog (option A) :=
  match fuel with
  | O => OutOfFuel
  | S fuel =>
    bind (trigger ENow) (λ now,
    if (elapsed_millis start now <? wait_millis)%Z then
      bind poll (λ found,
      match found with
      | Some x => Ret (Some x)
      | None => bind (sleep_millis 50) (λ _, poll_loop fuel start wait_millis poll)
      end)
    else Ret None)
  end.

(** Every round sleeps for 50 ms, so this many rounds outlast the wait. *)
Definition poll_fuel (wait_millis : Z) : nat := S (S (Z.to_nat (wait_millis / 50))).

Definition poll_until {A} (wait_millis : Z) (poll : prog (option A)) : prog (option A) :=
  bind (trigger ENow) (λ start, poll_loop (poll_fuel wait_millis) start wait_millis poll).

(** ** Executing one request alone *)

(** The calls the execution engine has received, with its answers. *)
Inductive ElCall :=
| CallNewPayload (r : NewPayloadRequest) (answer : result PayloadStatusV1 EngineError)
| CallForkchoiceUpdated (s : ForkchoiceState) (attrs : option PayloadAttributes)
    (answer : result ForkchoiceUpdatedResponse EngineError)
| CallChainId (answer : result ChainId EngineError)
| CallCapabilities (answer : result EngineCapabilities EngineError)
| CallRpcRequest (method : string) (params : JsonValue)
    (answer : result JsonValue EngineError).

(** The call an event makes, once it is answered. *)
Definition call_of {A} (e : ev A) : A → option ElCall :=
  match e in ev A return A → option ElCall with
  | ENewPayload r => λ ans, Some (CallNewPayload r ans)
  | EForkchoiceUpdated s attrs => λ ans, Some (CallForkchoiceUpdated s attrs ans)
  | EChainId _ => λ ans, Some (CallChainId ans)
  | ECapabilities _ => λ ans, Some (CallCapabilities ans)
  | ERpcRequest m ps _ => λ ans, Some (CallRpcRequest m ps ans)
  | ELock _ | EUnlock _ | EAccess _ _ | ENow | ESleepUntil _ => λ _, None
  end.

(** The engine answers as a function of the calls so far (latest first);
    [env_latency] is the time an event takes, and [env_others] what the other
    requests did to the shared state by the end of a sleep. *)
Record Env := {
  env_new_payload : list ElCall → NewPayloadRequest → result PayloadStatusV1 EngineError;
  env_forkchoice_updated : list ElCall → ForkchoiceState → option PayloadAttributes →
    result ForkchoiceUpdatedResponse EngineError;
  env_chain_id : list ElCall → result ChainId EngineError;
  env_capabilities : list ElCall → result EngineCapabilities EngineError;
  env_rpc_request : list ElCall → string → JsonValue → result JsonValue EngineError;
  env_latency : Z → Z;
  env_others : Z → Caches → Caches;
}.

Record World := MkWorld {
  w_caches : Caches;
  w_clock : Z;
  w_calls : list ElCall;
}.

Inductive exit (R : Type) :=
| Returned (r : R)
| Unwound (msg : string)
| Exhausted.
Arguments Returned {R} r.
Arguments Unwound {R} msg.
Arguments Exhausted {R}.

Definition call (w : World) (c : ElCall) : World :=
  MkWorld (w_caches w) (w_clock w) (c :: w_calls w).

Definition handle_ev (env : Env) {A} (e : ev A) (w : World) : A * World :=
  match e in ev A return A * World with
  | ELock _ | EUnlock _ => (tt, w)
  | EAccess m f =>
    let '(a, v) := f (get_guarded m (w_caches w)) in
    (a, MkWorld (set_guarded m v (w_caches w)) (w_clock w) (w_calls w))
  | ENewPayload r =>
    let ans := env_new_payload env (w_calls w) r in
    (ans, call w (CallNewPayload r ans))
  | EForkchoiceUpdated s attrs =>
    let ans := env_forkchoice_updated env (w_calls w) s attrs in
    (ans, call w (CallForkchoiceUpdated s attrs ans))
  | EChainId _ =>
    let ans := env_chain_id env (w_calls w) in (ans, call w (CallChainId ans))
  | ECapabilities _ =>
    let ans := env_capabilities env (w_calls w) in (ans, call w (CallCapabilities ans))
  | ERpcRequest m ps _ =>
    let ans := env_rpc_request env (w_calls w) m ps in
    (ans, call w (CallRpcRequest m ps ans))
  | ENow => (w_clock w, w)
  | ESleepUntil t =>
    let now := Z.max t (w_clock w) in
    (tt, MkWorld (env_others env now (w_caches w)) now (w_calls w))
  end.

Definition tick (env : Env) (w : World) : World :=
  MkWorld (w_caches w) (w_clock w + Z.max 0 (env_latency env (w_clock w)))%Z (w_calls w).

Fixpoint run {R} (env : Env) (p : prog R) (w : World) : exit R * World :=
  match p with
  | Ret r => (Returned r, w)
  | Panic m => (Unwound m, w)
  | OutOfFuel => (Exhausted, w)
  | Vis e k => let '(a, w') := handle_ev env e w in run env (k a) (tick env w')
  end.

(** The first part of a sequence has returned. *)
Lemma bind_Ret {A B} (a : A) (f : A → prog B) : bind (Ret a) f = f a.
Proof. done. Qed.

Lemma bind_result_Ok {A B E} (a : A) (f : A → prog (result B E)) :
  bind_result (Ret (Ok a)) f = f a.
Proof. done. Qed.

Lemma lift_outcome_Done {A} (a : A) : lift_outcome (Done a) = Ret a.
Proof. done. Qed.

End prog.
Arguments poll_fuel : simpl never.
Arguments Ret {_ R} r.
Arguments Panic {_ R} msg.
Arguments OutOfFuel {_ R}.
Arguments Vis {_ R A} e k.
Arguments Returned {R} r.
Arguments Unwound {R} msg.
Arguments Exhausted {R}.

Declare Scope prog_scope.
Delimit Scope prog_scope with prog.
(** [let x = p.await;] *)
Notation "'let!' x ':=' p 'in' q" := (bind p (fun x => q))
  (at level 10, x pattern, p at level 100, q at level 200,
   format "'[v' 'let!'  x  ':='  p  'in' '/' q ']'") : prog_scope.
(** [let x = p.await?;] *)
Notation "'let!?' x ':=' p 'in' q" := (bind_result p (fun x => q))
  (at level 10, x pattern, p at level 100, q at level 200,
   format "'[v' 'let!?'  x  ':='  p  'in' '/' q ']'") : prog_scope.
Open Scope prog_scope.
