(* ===== verification/Logic.v ===== *)
(** A program logic for handlers.

    An [EvSpec S] says, for an event issued in a ghost state [s : S], which answers and
    ghost states are possible afterwards, and what must hold for the event to be
    allowed.  [wp] lifts it to programs.  The instances:
    - [any_answer P]: every event satisfies [P], and any answer may come back;
    - [lock_order] (used in Deadlock.v): the ghost state is the list of locks held;
    - [shared role I] (Shared.v): the ghost state is what is known of the history of engine
      calls and of the clock, and [I] is an invariant of the shared caches that every access
      may rely on and has to preserve, whatever the other requests do in between;
    - [alone env] (Alone.v): the state of a single request in a given environment;
    - [calls] (Calls.v): the requests for which the engine has not been called yet. *)
From S2P Require Import Prelude Uint256 Lru Lighthouse Types Config Multiplexer Prog.

Section logic.
Context `{Ext}.

Record EvSpec (S : Type) := MkEvSpec {
  ev_spec {A} : ev A → S → (A → S → Prop) → Prop;
  ev_spec_mono {A} (e : ev A) s (K K' : A → S → Prop) :
    (∀ a s', K a s' → K' a s') → ev_spec e s K → ev_spec e s K';
}.
Arguments ev_spec {S} _ {A}.
Arguments ev_spec_mono {S} _ {A}.

Fixpoint wp {S R} (σ : EvSpec S) (p : prog R) (s : S) (Q : exit R → S → Prop) : Prop :=
  match p with
  | Ret r => Q (Returned r) s
  | Panic m => Q (Unwound m) s
  | OutOfFuel => Q Exhausted s
  | Vis e k => ev_spec σ e s (λ a s', wp σ (k a) s' Q)
  end.

(** The post-condition of the first half of a sequence. *)
Definition then_post {A B S} (N : A → S → Prop) (Q : exit B → S → Prop) (x : exit A) (s : S) :
    Prop :=
  match x with
  | Returned a => N a s
  | Unwound m => Q (Unwound m) s
  | Exhausted => Q Exhausted s
  end.

Section rules.
Context {S : Type} (σ : EvSpec S).

Lemma wp_mono {R} (p : prog R) s (Q Q' : exit R → S → Prop) :
  wp σ p s Q → (∀ x s', Q x s' → Q' x s') → wp σ p s Q'.
Proof.
  intros Hwp HQ. revert s Hwp. induction p as [r|m| |X e k IH]; intros s; simpl; auto.
  apply ev_spec_mono. intros a s'. apply IH.
Qed.

Lemma wp_bind {A B} (p : prog A) (f : A → prog B) s (Q : exit B → S → Prop) :
  wp σ p s (then_post (λ a s', wp σ (f a) s' Q) Q) → wp σ (bind p f) s Q.
Proof.
  revert s. induction p as [r|m| |X e k IH]; intros s; simpl; auto.
  apply ev_spec_mono. intros a s'. apply IH.
Qed.

Lemma wp_trigger {A} (e : ev A) s (Q : exit A → S → Prop) :
  ev_spec σ e s (λ a s', Q (Returned a) s') → wp σ (trigger e) s Q.
Proof. done. Qed.

(** A loop whose body keeps [J] until it finds something. *)
Lemma wp_poll_loop {A} (J : S → Prop) (poll : prog (option A)) start wait fuel s
    (Q : exit (option A) → S → Prop) :
  (∀ s, J s → ev_spec σ ENow s (λ _ s', J s')) →
  (∀ t s, J s → ev_spec σ (ESleepUntil t) s (λ _ s', J s')) →
  (∀ s, J s → wp σ poll s
                (then_post (λ o s', match o with
                                    | Some a => Q (Returned (Some a)) s'
                                    | None => J s'
                                    end) Q)) →
  (∀ s, J s → Q (Returned None) s ∧ Q Exhausted s) →
  J s → wp σ (poll_loop fuel start wait poll) s Q.
Proof.
  intros Hnow Hsleep Hpoll Hend. revert s.
  induction fuel as [|fuel IH]; intros s Hs; simpl; [by apply Hend|].
  eapply ev_spec_mono; [|by apply Hnow]. intros now s1 Hs1. simpl.
  case_match; simpl; [|by apply Hend].
  apply wp_bind. eapply wp_mono; [by apply Hpoll|].
  intros [[a|]|m|] s2 Hs2; simpl in *; auto.
  eapply ev_spec_mono; [|by apply Hnow]. intros now2 s3 Hs3. simpl.
  eapply ev_spec_mono; [|by apply Hsleep]. intros [] s4 Hs4. by apply IH.
Qed.
End rules.

(** ** Every event of a program *)

Program Definition any_answer (P : ∀ A, ev A → Prop) : EvSpec unit := {|
  ev_spec A e s K := P A e ∧ ∀ a, K a tt;
|}.
Next Obligation. naive_solver. Qed.

(** The result of a program, when it returns one. *)
Definition returns {R S} (Φ : R → Prop) (x : exit R) (_ : S) : Prop :=
  match x with Returned r => Φ r | _ => True end.

(** Every event of [p] satisfies [P], and so does its result [Φ]. *)
Definition always {R} (P : ∀ A, ev A → Prop) (p : prog R) (Φ : R → Prop) : Prop :=
  wp (any_answer P) p tt (returns Φ).

Section any_answer.
Context (P : ∀ A, ev A → Prop).

Lemma any_with_lock {A} m (body : prog A) (Φ : A → Prop) :
  P _ (ELock m) → P _ (EUnlock m) →
  always P body Φ →
  always P (with_lock m body) Φ.
Proof.
  intros Hl Hu Hbody. split; [done|]. intros []. simpl. apply wp_bind.
  eapply wp_mono; [exact Hbody|]. intros x s' Hx. destruct s', x as [a|msg|]; simpl in *; done.
Qed.

Lemma any_access {A} m (f : guarded m → A * guarded m) (Φ : A → Prop) :
  P _ (EAccess m f) → (∀ a, Φ a) →
  always P (access m f) Φ.
Proof. intros Hf HΦ. split; [done|]. intros a. apply HΦ. Qed.

Lemma any_trigger {A} (e : ev A) (Φ : A → Prop) :
  P _ e → (∀ a, Φ a) → always P (trigger e) Φ.
Proof. intros He HΦ. split; [done|]. intros a. apply HΦ. Qed.

Lemma any_bind {A B} (p : prog A) (f : A → prog B) (Ψ : A → Prop) (Φ : B → Prop) :
  always P p Ψ →
  (∀ a, Ψ a → always P (f a) Φ) →
  always P (bind p f) Φ.
Proof.
  unfold always. intros Hp Hf. apply wp_bind. eapply wp_mono; [exact Hp|].
  intros [a|m|] [] Ha; simpl in *; auto.
Qed.

Lemma any_bind_result {A B E} (p : prog (result A E)) (f : A → prog (result B E))
    (Ψ : result A E → Prop) (Φ : result B E → Prop) :
  always P p Ψ →
  (∀ a, Ψ (Ok a) → always P (f a) Φ) →
  (∀ e, Ψ (Err e) → Φ (Err e)) →
  always P (bind_result p f) Φ.
Proof.
  intros Hp Hf He. eapply any_bind; [exact Hp|]. intros [a|e] Ha; [auto|].
  apply He, Ha.
Qed.

Lemma any_poll_until {A} wait (poll : prog (option A)) (Φ : option A → Prop) :
  P _ ENow → (∀ t, P _ (ESleepUntil t)) → Φ None →
  always P poll Φ →
  always P (poll_until wait poll) Φ.
Proof.
  intros Hnow Hsleep HNone Hpoll. apply wp_bind, wp_trigger. split; [done|].
  intros start. apply wp_poll_loop with (J := λ _, True); simpl; auto.
  intros [] _. eapply wp_mono; [exact Hpoll|]. by intros [[a|]|m|] [].
Qed.

Lemma any_lift_outcome {A} (o : outcome A) (Φ : A → Prop) :
  (∀ a, o = Done a → Φ a) → always P (lift_outcome o) Φ.
Proof. unfold always. destruct o; simpl; auto. Qed.
End any_answer.

(** ** Programs all of whose events are of one kind *)

Definition only {R} (P : ∀ A, ev A → Prop) (p : prog R) : Prop := always P p (λ _, True).

Section only.
Context (P : ∀ A, ev A → Prop).

Lemma only_bind {A B} (p : prog A) (f : A → prog B) :
  only P p → (∀ a, only P (f a)) → only P (bind p f).
Proof. intros Hp Hf. eapply any_bind; [exact Hp|]. intros a _. apply Hf. Qed.

Lemma only_bind_result {A B E} (p : prog (result A E)) (f : A → prog (result B E)) :
  only P p → (∀ a, only P (f a)) → only P (bind_result p f).
Proof. intros Hp Hf. apply only_bind; [done|]. by intros [a|e]. Qed.

Lemma only_with_lock {A} m (p : prog A) :
  P _ (ELock m) → P _ (EUnlock m) → only P p → only P (with_lock m p).
Proof. apply any_with_lock. Qed.

Lemma only_trigger {A} (e : ev A) : P _ e → only P (trigger e).
Proof. intros He. by apply any_trigger. Qed.

Lemma only_lift_outcome {A} (o : outcome A) : only P (lift_outcome o).
Proof. by apply any_lift_outcome. Qed.

Lemma only_poll_until {A} wait (p : prog (option A)) :
  P _ ENow → (∀ t, P _ (ESleepUntil t)) → only P p → only P (poll_until wait p).
Proof. intros Hnow Hsleep Hp. by apply any_poll_until. Qed.
End only.

(** ** Lock discipline

    Locks are taken in increasing rank and released in reverse order, a guarded value
    is accessed under its lock, and no lock is held while a handler waits for the
    engine or sleeps. *)
Definition mutex_rank (m : mutex) : nat :=
  match m with
  | MFcu => 0 | MNewPayload => 1 | MJustified => 2 | MFinalized => 3 | MBuilder => 4
  end.

Definition lock_order_spec {A} (e : ev A) (held : list mutex) :
    (A → list mutex → Prop) → Prop :=
  match e in ev A return (A → list mutex → Prop) → Prop with
  | ELock m => λ K, Forall (λ m', mutex_rank m' < mutex_rank m) held ∧ K tt (m :: held)
  | EUnlock m => λ K, ∃ rest, held = m :: rest ∧ K tt rest
  | EAccess m f => λ K, m ∈ held ∧ ∀ a, K a held
  | ENow => λ K, ∀ a, K a held
  | ENewPayload _ | EForkchoiceUpdated _ _ | EChainId _ | ECapabilities _
  | ERpcRequest _ _ _ | ESleepUntil _ => λ K, held = [] ∧ ∀ a, K a held
  end.

Program Definition lock_order : EvSpec (list mutex) := {|
  ev_spec A e held K := lock_order_spec e held K;
|}.
Next Obligation. intros A e held K K' HK. destruct e; simpl; naive_solver. Qed.

(** A program run with the locks [held] ends with the same locks; a panic unwinds
    whatever is held. *)
Definition keeps_locks {R} (held : list mutex) (x : exit R) (held' : list mutex) : Prop :=
  match x with
  | Returned _ => held' = held
  | Unwound _ => True
  | Exhausted => held' = []
  end.

Definition disciplined {R} (held : list mutex) (p : prog R) : Prop :=
  wp lock_order p held (keeps_locks held).

Lemma disciplined_ret {R} held (r : R) : disciplined held (Ret r).
Proof. done. Qed.

Lemma disciplined_bind {A B} held (p : prog A) (f : A → prog B) :
  disciplined held p → (∀ a, disciplined held (f a)) → disciplined held (bind p f).
Proof.
  intros Hp Hf. apply wp_bind. eapply wp_mono; [exact Hp|].
  intros [a|m|] held'; simpl; [intros ->; apply Hf|done..].
Qed.

Lemma disciplined_bind_result {A B E} held (p : prog (result A E))
    (f : A → prog (result B E)) :
  disciplined held p → (∀ a, disciplined held (f a)) → disciplined held (bind_result p f).
Proof. intros Hp Hf. apply disciplined_bind; [done|]. intros [a|e]; [apply Hf|done]. Qed.

Lemma disciplined_with_lock {A} held m (body : prog A) :
  Forall (λ m', mutex_rank m' < mutex_rank m) held →
  disciplined (m :: held) body → disciplined held (with_lock m body).
Proof.
  intros Hrank Hbody. split; [done|]. simpl. apply wp_bind.
  eapply wp_mono; [exact Hbody|]. intros [a|msg|] held'; simpl; [|done..].
  intros ->. by exists held.
Qed.

Lemma disciplined_access {A} held m (f : guarded m → A * guarded m) :
  m ∈ held → disciplined held (access m f).
Proof. by split. Qed.

Lemma disciplined_lift_outcome {A} held (o : outcome A) : disciplined held (lift_outcome o).
Proof. by destruct o. Qed.

Lemma disciplined_poll_until {A} wait (poll : prog (option A)) :
  disciplined [] poll → disciplined [] (poll_until wait poll).
Proof.
  intros Hpoll. apply wp_bind, wp_trigger. intros start.
  apply wp_poll_loop with (J := λ held, held = []); simpl; try naive_solver.
  intros held ->. eapply wp_mono; [exact Hpoll|]. by intros [[a|]|m|].
Qed.
End logic.
Arguments ev_spec {_ S} _ {A}.
Arguments ev_spec_mono {_ S} _ {A}.

(** Goes through a program whose events are of the kind by definition. *)
Ltac only_steps :=
  repeat first
    [ done
    | apply only_lift_outcome
    | apply only_trigger; done
    | apply only_with_lock; [done|done|]
    | apply only_poll_until; [done|done|]
    | apply only_bind_result; [|intros]
    | apply only_bind; [|intros]
    | case_match ].

#[export] Hint Resolve disciplined_ret disciplined_bind disciplined_bind_result
  disciplined_with_lock disciplined_access disciplined_lift_outcome
  disciplined_poll_until : locks.
