(* ===== verification/Shared.v ===== *)
(** An instance of the program logic: handlers which share the caches with any
    number of other requests.

    The ghost state [known] of a handler is a lower bound of what has happened: a
    suffix of the history of engine calls and a time which has passed.  Between two of
    its events the history may grow, the clock advance and the caches change, within
    the invariant [I]. *)
From S2P Require Import Prelude Uint256 Lru Lighthouse Types Config Multiplexer Prog Logic.

(** Which endpoint a request came in by. *)
Inductive Role := RClient | RController.

Section shared.
Context `{Ext}.

Definition Hist : Type := list (Role * ElCall).

Record known := Known { k_hist : Hist; k_now : Z }.

Definition known_le (k k' : known) : Prop :=
  k_hist k `suffix_of` k_hist k' ∧ (k_now k ≤ k_now k')%Z.

#[global] Instance known_le_preorder : PreOrder known_le.
Proof.
  split.
  - intros k. split; [done|lia].
  - intros k1 k2 k3 [? ?] [? ?]. split; [by etrans|lia].
Qed.

(** [P] stays true as the history grows. *)
Definition stable (P : known → Prop) : Prop := ∀ k k', known_le k k' → P k → P k'.

Definition record_call (role : Role) (c : ElCall) (k : known) : known :=
  Known ((role, c) :: k_hist k) (k_now k).

Lemma record_call_le role c k : known_le k (record_call role c k).
Proof. split; simpl; [by apply suffix_cons_r|lia]. Qed.

(** An engine call: the invariant must survive the new entry of the history. *)
Definition el_call_spec (role : Role) (I : Caches → Hist → Prop) (c : ElCall) (k : known)
    (K : known → Prop) : Prop :=
  (∀ cs, I cs (k_hist k) → I cs ((role, c) :: k_hist k)) ∧ K (record_call role c k).

Definition shared_spec (role : Role) (I : Caches → Hist → Prop) {A} (e : ev A) (k : known) :
    (A → known → Prop) → Prop :=
  match e in ev A return (A → known → Prop) → Prop with
  | ELock _ | EUnlock _ => λ K, ∀ k', known_le k k' → K tt k'
  | EAccess m f => λ K, ∀ k' cs, known_le k k' → I cs (k_hist k') →
      I (set_guarded m (f (get_guarded m cs)).2 cs) (k_hist k') ∧
      K (f (get_guarded m cs)).1 k'
  | ENewPayload r => λ K, ∀ k' ans, known_le k k' →
      el_call_spec role I (CallNewPayload r ans) k' (K ans)
  | EForkchoiceUpdated s attrs => λ K, ∀ k' ans, known_le k k' →
      el_call_spec role I (CallForkchoiceUpdated s attrs ans) k' (K ans)
  | EChainId _ => λ K, ∀ k' ans, known_le k k' →
      el_call_spec role I (CallChainId ans) k' (K ans)
  | ECapabilities _ => λ K, ∀ k' ans, known_le k k' →
      el_call_spec role I (CallCapabilities ans) k' (K ans)
  | ERpcRequest m ps _ => λ K, ∀ k' ans, known_le k k' →
      el_call_spec role I (CallRpcRequest m ps ans) k' (K ans)
  | ENow => λ K, ∀ k', known_le k k' → K (k_now k') k'
  | ESleepUntil t => λ K, ∀ k', known_le k k' → (t ≤ k_now k')%Z → K tt k'
  end.

Program Definition shared (role : Role) (I : Caches → Hist → Prop) : EvSpec known := {|
  ev_spec A e k K := shared_spec role I e k K;
|}.
Next Obligation.
  intros role I A e k K K' HK. destruct e; simpl; unfold el_call_spec; naive_solver.
Qed.

Section rules.
Context (role : Role) (I : Caches → Hist → Prop).

(** What a handler knows only grows. *)
Lemma shared_known_le {R} (p : prog R) k (Q : exit R → known → Prop) :
  wp (shared role I) p k Q →
  wp (shared role I) p k (λ x k', known_le k k' ∧ Q x k').
Proof.
  revert k. induction p as [r|m| |X e c IH]; intros k; simpl; [done..|].
  intros He.
  assert (Hcont : ∀ a k1 k2, known_le k k1 → known_le k1 k2 →
    wp (shared role I) (c a) k2 Q →
    wp (shared role I) (c a) k2 (λ x k', known_le k k' ∧ Q x k')).
  { intros a k1 k2 Hk1 Hk2 Hc. eapply wp_mono; [apply IH, Hc|].
    intros x k3 [Hk3 Hx]. split; [|exact Hx]. by do 2 (etrans; [done|]). }
  destruct e; simpl in *; unfold el_call_spec in *.
  all: intros k'; specialize (He k').
  3: { intros cs Hk HI. destruct (He cs Hk HI) as [HI' Hc]. split; [done|].
       by eapply Hcont. }
  1, 2, 8: intros Hk; by eapply Hcont, He.
  6: intros Hk Ht; by eapply Hcont, He.
  all: intros ans Hk; destruct (He ans Hk) as [HI' Hc]; split; [done|].
  all: eapply Hcont; [done|apply record_call_le|done].
Qed.

Lemma shared_with_lock {A} m (body : prog A) k (Q : exit A → known → Prop) :
  (∀ k', known_le k k' →
     wp (shared role I) body k'
       (then_post (λ a k1, ∀ k2, known_le k1 k2 → Q (Returned a) k2) Q)) →
  wp (shared role I) (with_lock m body) k Q.
Proof.
  intros Hbody k' Hk. simpl. apply wp_bind. eapply wp_mono; [by apply Hbody|].
  by intros [a|msg|] k1 Hx.
Qed.

Lemma shared_access {A} m (f : guarded m → A * guarded m) k (Q : exit A → known → Prop) :
  (∀ k' cs, known_le k k' → I cs (k_hist k') →
     I (set_guarded m (f (get_guarded m cs)).2 cs) (k_hist k') ∧
     Q (Returned (f (get_guarded m cs)).1) k') →
  wp (shared role I) (access m f) k Q.
Proof. done. Qed.

(** A lock, one access and the unlock. *)
Lemma shared_locked {A} m (f : guarded m → A * guarded m) k (Q : exit A → known → Prop) :
  (∀ k1 k2 cs, known_le k k1 → known_le k1 k2 → I cs (k_hist k1) →
     I (set_guarded m (f (get_guarded m cs)).2 cs) (k_hist k1) ∧
     Q (Returned (f (get_guarded m cs)).1) k2) →
  wp (shared role I) (with_lock m (access m f)) k Q.
Proof.
  intros Hf. apply shared_with_lock. intros k0 Hk0. apply shared_access.
  intros k1 cs Hk1 HI. assert (known_le k k1) by (by etrans).
  split; [by eapply (Hf k1 k1)|]. intros k2 Hk2. by eapply (Hf k1 k2).
Qed.

Lemma shared_bind {A B} (p : prog A) (f : A → prog B) k (N : A → known → Prop)
    (Q : exit B → known → Prop) :
  wp (shared role I) p k (then_post N Q) →
  (∀ a k', known_le k k' → N a k' → wp (shared role I) (f a) k' Q) →
  wp (shared role I) (bind p f) k Q.
Proof.
  intros Hp Hf. apply wp_bind. eapply wp_mono; [by apply shared_known_le|].
  intros [a|m|] k' [Hle Hx]; simpl in *; auto.
Qed.

(** ** The polling loop ends by its deadline, within its fuel *)

Lemma shared_poll_loop {A} (J : known → Prop) (poll : prog (option A)) start wait
    (Q : exit (option A) → known → Prop) :
  stable J →
  (∀ k, J k → wp (shared role I) poll k
                (then_post (λ o k', match o with
                                    | Some a => Q (Returned (Some a)) k'
                                    | None => True
                                    end) Q)) →
  (∀ k, J k → Q (Returned None) k) →
  ∀ fuel d k, J k → 0 < fuel → (0 ≤ d)%Z → (start + 50000000 * d ≤ k_now k)%Z →
    (wait ≤ 50 * (d + Z.of_nat fuel - 1))%Z →
    wp (shared role I) (poll_loop fuel start wait poll) k Q.
Proof.
  intros HJ Hpoll HNone. induction fuel as [|fuel IH]; intros d k Hk Hf Hd Hstart Hwait; [lia|].
  simpl. intros k1 Hk1. simpl. destruct (Z.ltb_spec (elapsed_millis start (k_now k1)) wait)
    as [Hlt|Hge]; simpl; [|apply HNone, (HJ k); done].
  unfold elapsed_millis in Hlt.
  assert (HJ1 : J k1) by (by eapply HJ). destruct Hk1 as [Hsuf1 Hnow1].
  eapply shared_bind; [by apply Hpoll|].
  intros [a|] k2 Hk2 Hx; [exact Hx|].
  intros k3 Hk3 k4 Hk4 Ht. simpl.
  assert (HJ4 : J k4) by (apply (HJ k1); [do 2 (etrans; [done|])|]; done).
  destruct Hk2 as [_ ?], Hk3 as [_ ?].
  assert (50 * d ≤ Z.max 0 (k_now k1 - start) / 1000000)%Z
    by (apply Z.div_le_lower_bound; lia).
  apply IH with (d := (d + 1)%Z); try done; lia.
Qed.

Lemma shared_poll_until {A} (J : known → Prop) (poll : prog (option A)) wait k
    (Q : exit (option A) → known → Prop) :
  stable J →
  (∀ k, J k → wp (shared role I) poll k
                (then_post (λ o k', match o with
                                    | Some a => Q (Returned (Some a)) k'
                                    | None => True
                                    end) Q)) →
  (∀ k, J k → Q (Returned None) k) →
  J k → wp (shared role I) (poll_until wait poll) k Q.
Proof.
  intros HJ Hpoll HNone Hk. apply wp_bind, wp_trigger. intros k1 Hk1.
  apply shared_poll_loop with (J := J) (d := 0%Z); try done.
  - by eapply HJ.
  - unfold poll_fuel. lia.
  - lia.
  - unfold poll_fuel. destruct (Z.le_gt_cases wait 0); [lia|].
    rewrite !Nat2Z.inj_succ, Z2Nat.id by (apply Z.div_pos; lia). div_lia.
Qed.
End rules.
End shared.
