(* ===== verification/PayloadBuilder.v ===== *)
(** The dummy payload builder (src/src/payload_builder.rs). *)
From S2P Require Import Prelude Uint256 BaseFee Lru Lighthouse Types Config Multiplexer.
From S2P Require Import Prog.

Section code.
Context `{NetworkOps}.
Variable self : Statics.

(** The fields which every fork's payload is built from. *)
Definition build_payload (builder_extra_data : VariableList Z) (slot : Slot)
    (parent_hash : ExecutionBlockHash) (pa : PayloadAttributes) (parent_info : PayloadInfo) :
    outcome (result ExecutionPayload string) :=
  let timestamp := pa_timestamp pa in
  let parent_beacon_block_root := pa_parent_beacon_block_root pa in
  do block_number := u64_add (info_block_number parent_info) 1 in
  let fee_recipient := pa_suggested_fee_recipient pa in
  let prev_randao := pa_prev_randao pa in
  let gas_limit := 30000000%Z in
  let fork_name := fork_name_at_slot (spec self) slot in
  do transactions := unwrap (vl_new MaxTransactionsPerPayload ([] : list Transaction)) in
  let state_root := info_state_root parent_info in
  let receipts_root := KECCAK_EMPTY_LIST_RLP in
  let logs_bloom := Bloom_default in
  let gas_used := 0%Z in
  let extra_data := builder_extra_data in
  do base_fee_per_gas := expected_base_fee_per_gas (info_base_fee_per_gas parent_info)
                           (info_gas_used parent_info) (info_gas_limit parent_info) in
  let blob_gas_used := 0%Z in
  let excess_blob_gas := 0%Z in
  let block_hash := ExecutionBlockHash_zero in
  let withdrawals := ok_or "no withdrawals" (withdrawals_from <$> pa_withdrawals pa) in
  do? payload := Done
    match fork_name with
    | Bellatrix => Ok (EP_Bellatrix (BellatrixPayload.Mk parent_hash fee_recipient state_root
        receipts_root logs_bloom prev_randao block_number gas_limit gas_used timestamp
        extra_data base_fee_per_gas block_hash transactions))
    | Capella =>
      let? withdrawals := withdrawals in
      Ok (EP_Capella (CapellaPayload.Mk parent_hash fee_recipient state_root
        receipts_root logs_bloom prev_randao block_number gas_limit gas_used timestamp
        extra_data base_fee_per_gas block_hash transactions withdrawals))
    | Deneb =>
      let? withdrawals := withdrawals in
      Ok (EP_Deneb (DenebPayload.Mk parent_hash fee_recipient state_root
        receipts_root logs_bloom prev_randao block_number gas_limit gas_used timestamp
        extra_data base_fee_per_gas block_hash transactions withdrawals
        blob_gas_used excess_blob_gas))
    | Electra =>
      let? withdrawals := withdrawals in
      Ok (EP_Electra (ElectraPayload.Mk parent_hash fee_recipient state_root
        receipts_root logs_bloom prev_randao block_number gas_limit gas_used timestamp
        extra_data base_fee_per_gas block_hash transactions withdrawals
        blob_gas_used excess_blob_gas))
    | Fulu => Err "Fulu not supported"
    | Base | Altair => Err ("invalid fork: " +:+ display_fork_name fork_name)
    end in
  let execution_requests :=
    match fork_name with
    | Base | Altair | Bellatrix | Capella | Deneb => None
    | Electra => Some ExecutionRequests_default
    | Fulu => None
    end in
  let '(block_hash, _) :=
    calculate_execution_block_hash payload parent_beacon_block_root execution_requests in
  Done (Ok (ep_set_block_hash payload block_hash)).

(** The body of [register_attributes] under the builder's lock. *)
Definition register_attributes_locked (slot : Slot) (parent_hash : ExecutionBlockHash)
    (pa : PayloadAttributes) (builder : PayloadBuilder) :
    outcome (result PayloadId string) * PayloadBuilder :=
  let attributes_key := (parent_hash, pa) in
  (* Return early if payload already known/built. *)
  let '(known, attributes) := lru_get attributes_key (payload_attributes builder) in
  let builder := MkPayloadBuilder (next_payload_id builder) attributes
                   (payload_info builder) (payloads builder) (extra_data builder) in
  match known with
  | Some id => (Done (Ok id), builder)
  | None =>
  (* Check that the head block is known. *)
  let '(info, infos) := lru_get parent_hash (payload_info builder) in
  let builder := MkPayloadBuilder (next_payload_id builder) (payload_attributes builder)
                   infos (payloads builder) (extra_data builder) in
  match info with
  | None => (Done (Err ("unknown parent: " +:+ debug_block_hash parent_hash)), builder)
  | Some parent_info =>
  (* Allocate a payload ID. *)
  let id := to_be_bytes (next_payload_id builder) in
  (* Build. *)
  match build_payload (extra_data builder) slot parent_hash pa parent_info with
  | Panicked m => (Panicked m, builder)
  | Done (Err message) => (Done (Err message), builder)
  | Done (Ok payload) =>
    let attributes := lru_put attributes_key id (payload_attributes builder) in
    let payloads := lru_put id payload (payloads builder) in
    match u64_add (next_payload_id builder) 1 with
    | Panicked m =>
      (Panicked m, MkPayloadBuilder (next_payload_id builder) attributes
                     (payload_info builder) payloads (extra_data builder))
    | Done next =>
      (Done (Ok id), MkPayloadBuilder next attributes
                       (payload_info builder) payloads (extra_data builder))
    end
  end
  end
  end.

Definition register_attributes (parent_hash : ExecutionBlockHash) (pa : PayloadAttributes) :
    prog (result PayloadId string) :=
  let timestamp := pa_timestamp pa in
  match timestamp_to_slot self timestamp with
  | None => Ret (Err ("invalid timestamp " +:+ pretty timestamp))
  | Some slot =>
    with_lock MBuilder
      (let! res := access MBuilder (register_attributes_locked slot parent_hash pa) in
       lift_outcome res)
  end.

Definition get_existing_payload_id_locked (key : ExecutionBlockHash * PayloadAttributes)
    (builder : PayloadBuilder) : option PayloadId * PayloadBuilder :=
  let '(id, attributes) := lru_get key (payload_attributes builder) in
  (id, MkPayloadBuilder (next_payload_id builder) attributes (payload_info builder)
         (payloads builder) (extra_data builder)).

Definition get_existing_payload_id (parent_hash : ExecutionBlockHash)
    (pa : PayloadAttributes) : prog (result PayloadId string) :=
  let! id := with_lock MBuilder
               (access MBuilder (get_existing_payload_id_locked (parent_hash, pa))) in
  Ret (ok_or ("no payload ID known for parent " +:+ debug_block_hash parent_hash) id).

Definition payload_info_of (payload : ExecutionPayload) : PayloadInfo := {|
  info_block_number := ep_block_number payload;
  info_state_root := ep_state_root payload;
  info_base_fee_per_gas := ep_base_fee_per_gas payload;
  info_gas_used := ep_gas_used payload;
  info_gas_limit := ep_gas_limit payload;
|}.

Definition register_canonical_payload_locked (payload : ExecutionPayload)
    (builder : PayloadBuilder) : PayloadBuilder :=
  let '(_, infos) := lru_get_or_insert (ep_block_hash payload) (λ _, payload_info_of payload)
                       (payload_info builder) in
  MkPayloadBuilder (next_payload_id builder) (payload_attributes builder) infos
    (payloads builder) (extra_data builder).

Definition register_canonical_payload (payload : ExecutionPayload)
    (st : JsonPayloadStatusV1Status) : prog unit :=
  if bool_decide (st = Invalid) || bool_decide (st = InvalidBlockHash) then Ret tt
  else with_lock MBuilder (modify MBuilder (register_canonical_payload_locked payload)).

Definition get_payload_locked (payload_id : PayloadId) (builder : PayloadBuilder) :
    option ExecutionPayload * PayloadBuilder :=
  let '(payload, payloads) := lru_get payload_id (payloads builder) in
  (payload, MkPayloadBuilder (next_payload_id builder) (payload_attributes builder)
              (payload_info builder) payloads (extra_data builder)).

Definition get_payload (payload_id : PayloadId) : prog (result ExecutionPayload string) :=
  let! payload := with_lock MBuilder (access MBuilder (get_payload_locked payload_id)) in
  Ret (ok_or ("unknown payload ID: " +:+ pretty (from_be_bytes payload_id)) payload).

(** The response structure for a payload; [JEP_V5] panics in the handler. *)
Definition get_payload_response (json_payload : JsonExecutionPayload) :
    outcome JsonGetPayloadResponse :=
  let block_value := u256_ZERO in
  match json_payload with
  | JEP_V1 execution_payload => Done (JsonGetPayloadResponseV1 execution_payload block_value)
  | JEP_V2 execution_payload => Done (JsonGetPayloadResponseV2 execution_payload block_value)
  | JEP_V3 execution_payload =>
    let blobs_bundle := blobs_bundle_from BlobsBundle_default in
    let should_override_builder := false in
    Done (JsonGetPayloadResponseV3 execution_payload block_value blobs_bundle
            should_override_builder)
  | JEP_V4 execution_payload =>
    let blobs_bundle := blobs_bundle_from BlobsBundle_default in
    let should_override_builder := false in
    let execution_requests := JsonExecutionRequests_default in
    Done (JsonGetPayloadResponseV4 execution_payload block_value blobs_bundle
            should_override_builder execution_requests)
  | JEP_V5 _ => Panicked "Fulu not supported"
  end.

Definition handle_get_payload (request : Request) : prog (result Response ErrorResponse) :=
  let!? (id, Tuple1 payload_id) :=
    Ret (parse_as (tuple1 TransparentJsonPayloadId) request) in
  let! payload := get_payload (transparent_payload_id payload_id) in
  match payload with
  | Err message => Ret (Err (unknown_payload id message))
  | Ok payload =>
    let! response := lift_outcome (get_payload_response (jep_from_payload payload)) in
    Ret (Response_new id response)
  end.
End code.
