(* ===== verification/BuilderSpec.v ===== *)
(** What an operation of the payload builder does, branch by branch: an abstract
    specification of [register_attributes] as a relation, which the code implements, and
    the shape of the payloads it builds. *)
From S2P Require Import Prelude Uint256 BaseFee Lru Lighthouse Types Config Multiplexer.
From S2P Require Import Prog PayloadBuilder.

Section spec.
Context `{NetworkOps}.
Variable self : Statics.

(** The fields of a payload which every fork has and which the program fills in. *)
Record Header := MkHeader {
  hd_parent_hash : ExecutionBlockHash;
  hd_fee_recipient : Address;
  hd_state_root : Hash256;
  hd_receipts_root : Hash256;
  hd_logs_bloom : Bloom;
  hd_prev_randao : Hash256;
  hd_block_number : Z;
  hd_gas_limit : Z;
  hd_gas_used : Z;
  hd_timestamp : Z;
  hd_extra_data : VariableList Z;
  hd_base_fee_per_gas : Uint256;
  hd_transactions : VariableList Transaction;
}.

Definition header_of (p : ExecutionPayload) : option Header :=
  match p with
  | EP_Bellatrix p =>
    let '(BellatrixPayload.Mk parent fee_recipient state_root receipts bloom randao number limit used
            timestamp extra base_fee _ txs) := p in
    Some (MkHeader parent fee_recipient state_root receipts bloom randao number limit used
            timestamp extra base_fee txs)
  | EP_Capella p =>
    let '(CapellaPayload.Mk parent fee_recipient state_root receipts bloom randao number limit used
            timestamp extra base_fee _ txs _) := p in
    Some (MkHeader parent fee_recipient state_root receipts bloom randao number limit used
            timestamp extra base_fee txs)
  | EP_Deneb p =>
    let '(DenebPayload.Mk parent fee_recipient state_root receipts bloom randao number limit used
            timestamp extra base_fee _ txs _ _ _) := p in
    Some (MkHeader parent fee_recipient state_root receipts bloom randao number limit used
            timestamp extra base_fee txs)
  | EP_Electra p =>
    let '(ElectraPayload.Mk parent fee_recipient state_root receipts bloom randao number limit used
            timestamp extra base_fee _ txs _ _ _) := p in
    Some (MkHeader parent fee_recipient state_root receipts bloom randao number limit used
            timestamp extra base_fee txs)
  | EP_Fulu _ => None
  end.

(** The withdrawals of a payload, for the forks which have them. *)
Definition withdrawals_of (p : ExecutionPayload) : option Withdrawals :=
  match p with
  | EP_Bellatrix _ | EP_Fulu _ => None
  | EP_Capella p => Some (CapellaPayload.withdrawals p)
  | EP_Deneb p => Some (DenebPayload.withdrawals p)
  | EP_Electra p => Some (ElectraPayload.withdrawals p)
  end.

(** The blob gas of a payload: used and excess. *)
Definition blob_gas_of (p : ExecutionPayload) : option (Z * Z) :=
  match p with
  | EP_Bellatrix _ | EP_Capella _ | EP_Fulu _ => None
  | EP_Deneb p => Some (DenebPayload.blob_gas_used p, DenebPayload.excess_blob_gas p)
  | EP_Electra p => Some (ElectraPayload.blob_gas_used p, ElectraPayload.excess_blob_gas p)
  end.

(** [p] is an empty child of the block [parent], as the attributes [pa] ask for; its
    block hash is the hash of its content. *)
Record built (extra : VariableList Z) (slot : Slot) (parent : ExecutionBlockHash)
    (pa : PayloadAttributes) (info : PayloadInfo) (p : ExecutionPayload) : Prop := MkBuilt {
  built_fork : ep_fork p = fork_name_at_slot (spec self) slot;
  built_header : ∃ number base_fee txs,
    u64_add (info_block_number info) 1 = Done number ∧
    expected_base_fee_per_gas (info_base_fee_per_gas info) (info_gas_used info)
      (info_gas_limit info) = Done base_fee ∧
    vl_contents txs = [] ∧
    ∃ unsealed, p = ep_set_block_hash unsealed (ep_block_hash p) ∧
      header_of unsealed = Some (MkHeader parent (pa_suggested_fee_recipient pa)
        (info_state_root info) KECCAK_EMPTY_LIST_RLP Bloom_default (pa_prev_randao pa) number
        30000000 0 (pa_timestamp pa) extra base_fee txs) ∧
      blob_gas_of unsealed = (if decide (ep_fork p = Deneb ∨ ep_fork p = Electra)
                              then Some (0, 0)%Z else None) ∧
      (ep_fork p ≠ Bellatrix → withdrawals_of unsealed = withdrawals_from <$> pa_withdrawals pa) ∧
      ep_block_hash p =
        (calculate_execution_block_hash unsealed (pa_parent_beacon_block_root pa)
           (if decide (ep_fork p = Electra) then Some ExecutionRequests_default else None)).1;
}.

(** [p] is a payload which [register_attributes] builds for [key], on a parent whose
    information is [known]. *)
Definition built_for (known : ExecutionBlockHash → PayloadInfo → Prop) (extra : VariableList Z)
    (key : ExecutionBlockHash * PayloadAttributes) (p : ExecutionPayload) : Prop :=
  ∃ slot info, timestamp_to_slot self (pa_timestamp key.2) = Some slot ∧ known key.1 info ∧
    built extra slot key.1 key.2 info p.

Context `{!ExtOk}.

Lemma no_transactions : ∃ v : VariableList Transaction,
  vl_new MaxTransactionsPerPayload [] = Ok v ∧ vl_contents v = [].
Proof. apply vl_new_ok. apply MaxTransactionsPerPayload_nonneg. Qed.

Lemma build_payload_built extra slot parent pa info p :
  build_payload self extra slot parent pa info = Done (Ok p) →
  built extra slot parent pa info p.
Proof.
  unfold build_payload. destruct (no_transactions) as (txs & -> & Htxs).
  destruct (u64_add _ _) as [number|] eqn:Hn; simpl; [|done].
  destruct (expected_base_fee_per_gas _ _ _) as [fee|] eqn:Hf; simpl; [|done].
  destruct (fork_name_at_slot (spec self) slot) eqn:Hfork; simpl; try done;
    try (destruct (pa_withdrawals pa) as [ws|] eqn:Hw; simpl; [|done]).
  all: destruct (calculate_execution_block_hash _ _ _) as [h x] eqn:Hh; intros [= <-].
  all: split; [by rewrite ep_set_block_hash_fork|].
  all: exists number, fee, txs; split_and!; [done..|].
  all: eexists; split_and!; rewrite ?ep_block_hash_set, ?ep_set_block_hash_fork; try done.
  all: simpl; rewrite ?Hh; try done.
  all: by rewrite ?Hw.
Qed.

(** What may panic when a payload is built. *)
Lemma build_payload_panics extra slot parent pa info m :
  build_payload self extra slot parent pa info = Panicked m →
  overflow_checks = true ∧ (two64 ≤ info_block_number info + 1)%Z ∨
  ∃ m, expected_base_fee_per_gas (info_base_fee_per_gas info) (info_gas_used info)
         (info_gas_limit info) = Panicked m.
Proof.
  unfold build_payload. destruct (no_transactions) as (txs & -> & Htxs).
  destruct (u64_add _ _) as [number|msg] eqn:Hn; simpl; [|intros _; left; by eapply u64_add_panics].
  destruct (expected_base_fee_per_gas _ _ _) as [fee|msg]; simpl; [|by right; eauto].
  destruct (fork_name_at_slot (spec self) slot); simpl; try done;
    try (destruct (pa_withdrawals pa); simpl; [|done]); by destruct (calculate_execution_block_hash _ _ _).
Qed.

(** The outcome of [register_attributes] under the lock: the attributes were known; the
    parent is not; the payload is refused, or its construction panics; or a payload is
    built under a fresh id. *)
Inductive registered (slot : Slot) (parent : ExecutionBlockHash) (pa : PayloadAttributes)
    (b : PayloadBuilder) : outcome (result PayloadId string) → PayloadBuilder → Prop :=
| reg_known i b' :
    lru_peek (parent, pa) (payload_attributes b) = Some i →
    builder_same b' b →
    registered slot parent pa b (Done (Ok i)) b'
| reg_unknown_parent b' :
    lru_peek (parent, pa) (payload_attributes b) = None →
    lru_peek parent (payload_info b) = None →
    builder_same b' b →
    registered slot parent pa b (Done (Err ("unknown parent: " +:+ debug_block_hash parent))) b'
| reg_not_built info o b' :
    lru_peek (parent, pa) (payload_attributes b) = None →
    lru_peek parent (payload_info b) = Some info →
    build_payload self (extra_data b) slot parent pa info = o →
    (∀ p, o ≠ Done (Ok p)) →
    builder_same b' b →
    registered slot parent pa b
      (match o with
       | Panicked m => Panicked m
       | Done (Err m) => Done (Err m)
       | Done (Ok p) => Done (Ok [])
       end) b'
| reg_built info p o b' :
    lru_peek (parent, pa) (payload_attributes b) = None →
    lru_peek parent (payload_info b) = Some info →
    build_payload self (extra_data b) slot parent pa info = Done (Ok p) →
    u64_add (next_payload_id b) 1 = o →
    next_payload_id b' = (match o with Done n => n | Panicked _ => next_payload_id b end) →
    lru_cap (payload_attributes b') = lru_cap (payload_attributes b) →
    lru_iter (payload_attributes b') =
      push_front (Pos.to_nat (lru_cap (payload_attributes b))) (parent, pa)
        (to_be_bytes (next_payload_id b)) (lru_iter (payload_attributes b)) →
    lru_same (payload_info b') (payload_info b) →
    payloads b' = lru_put (to_be_bytes (next_payload_id b)) p (payloads b) →
    extra_data b' = extra_data b →
    registered slot parent pa b
      (match o with
       | Done _ => Done (Ok (to_be_bytes (next_payload_id b)))
       | Panicked m => Panicked m
       end) b'.

Lemma register_attributes_registered slot parent pa b :
  registered slot parent pa b (register_attributes_locked self slot parent pa b).1
    (register_attributes_locked self slot parent pa b).2.
Proof.
  unfold register_attributes_locked.
  pose proof (get_value (parent, pa) (payload_attributes b)) as Hk.
  pose proof (get_same (parent, pa) (payload_attributes b)) as Hsame.
  pose proof (lru_get_iter (parent, pa) (payload_attributes b)) as Hiter.
  destruct (lru_get (parent, pa) (payload_attributes b)) as [known attributes].
  simpl in *. subst known.
  destruct (lru_peek (parent, pa) (payload_attributes b)) as [i|] eqn:Hpk; simpl.
  { by apply reg_known. }
  pose proof (get_value parent (payload_info b)) as Hi.
  pose proof (get_same parent (payload_info b)) as Hisame.
  destruct (lru_get parent (payload_info b)) as [info infos]. simpl in *. subst info.
  destruct (lru_peek parent (payload_info b)) as [info|] eqn:Hpi; simpl.
  2: { by apply reg_unknown_parent. }
  assert (Hb : ∀ c, lru_same c (payload_attributes b) →
    builder_same (MkPayloadBuilder (next_payload_id b) c infos (payloads b) (extra_data b)) b).
  { intros c Hc. by split_and!. }
  destruct (build_payload self (extra_data b) slot parent pa info) as [[p|m]|m] eqn:Hbuild;
    simpl.
  2, 3: by eapply (reg_not_built _ _ _ _ info _ _ Hpk Hpi Hbuild); [|by apply Hb].
  assert (Hit : lru_iter (lru_put (parent, pa) (to_be_bytes (next_payload_id b)) attributes) =
    push_front (Pos.to_nat (lru_cap (payload_attributes b))) (parent, pa)
      (to_be_bytes (next_payload_id b)) (lru_iter (payload_attributes b))).
  { destruct Hsame as [Hcap _]. unfold PayloadId in *. rewrite lru_put_iter, Hcap, Hiter.
    unfold lru_peek in Hpk. unfold touch. by rewrite Hpk. }
  assert (Hcap : lru_cap (lru_put (parent, pa) (to_be_bytes (next_payload_id b)) attributes) =
    lru_cap (payload_attributes b)) by (destruct Hsame; unfold PayloadId in *; by rewrite lru_put_cap).
  pose proof (reg_built slot parent pa b info p) as Hreg.
  destruct (u64_add (next_payload_id b) 1) as [next|m] eqn:Hadd; simpl;
    by apply (Hreg _ _ Hpk Hpi Hbuild eq_refl).
Qed.

(** An id which [register_attributes] returns is known for the attributes afterwards. *)
Lemma registered_id slot parent pa b b' i :
  registered slot parent pa b (Done (Ok i)) b' →
  lru_peek (parent, pa) (payload_attributes b') = Some i.
Proof.
  intros Hreg. inversion Hreg as [i' b1 Hk Hs|b1|info o' b1 _ _ _ Hno _ Ho
    |info p o' b1 _ _ _ _ _ _ Hattrs]; subst; simplify_eq.
  - destruct Hs as (_ & [_ ->] & _). done.
  - destruct o' as [[p|m]|m]; [by destruct (Hno p)|done..].
  - destruct o'; simplify_eq. unfold lru_peek. rewrite Hattrs.
    apply alookup_push_front_eq. lia.
Qed.

Lemma built_not_fulu extra slot parent pa info p :
  built extra slot parent pa info p → ep_fork p ≠ Fulu.
Proof.
  intros [_ (n & fee & txs & _ & _ & _ & unsealed & -> & Hhd & _)].
  rewrite ep_set_block_hash_fork. by destruct unsealed.
Qed.

Lemma built_for_mono (K K' : ExecutionBlockHash → PayloadInfo → Prop) extra key p :
  (∀ bh info, K bh info → K' bh info) → built_for K extra key p → built_for K' extra key p.
Proof. intros HK (slot & info & ? & ? & ?). exists slot, info. eauto. Qed.

End spec.
