(* ===== verification/Fcu.v ===== *)
(** The forkchoiceUpdated handlers (src/src/fcu.rs). *)
From S2P Require Import Prelude Uint256 Lru Lighthouse Types Config Multiplexer Prog.
From S2P Require Import PayloadBuilder.

Section code.
Context `{NetworkOps}.
Variable self : Statics.

Definition is_definite (st : JsonPayloadStatusV1) : bool :=
  match status st with
  | Valid | Invalid | InvalidBlockHash => true
  | Accepted | Syncing => false
  end.

(** The SYNCING status that is sent when nothing is known. *)
Definition synthetic_syncing : JsonPayloadStatusV1 := {|
  status := Syncing;
  latest_valid_hash := None;
  validation_error := None;
|}.

(** [iter().find_map(..)]: the most recently used entry with the same head. *)
Definition find_head (fcu : JsonForkchoiceStateV1)
    (cache : Cache JsonForkchoiceStateV1 JsonPayloadStatusV1) : option JsonPayloadStatusV1 :=
  snd <$> find (λ entry, bool_decide (head_block_hash entry.1 = head_block_hash fcu))
            (lru_iter cache).

(** The lookup under the lock of the fcU cache; only [Exact] touches the recency. *)
Definition lookup_fcu (fcu : JsonForkchoiceStateV1)
    (cache : Cache JsonForkchoiceStateV1 JsonPayloadStatusV1) :
    option JsonPayloadStatusV1 * Cache JsonForkchoiceStateV1 JsonPayloadStatusV1 :=
  match fcu_matching (config self) with
  | Exact => lru_get fcu cache
  | Loose | HeadOnly => (find_head fcu cache, cache)
  end.

Definition get_cached_fcu (fcu : JsonForkchoiceStateV1) (definite_only : bool) :
    prog (option JsonPayloadStatusV1) :=
  with_lock MFcu
    (let! existing_status := access MFcu (lookup_fcu fcu) in
     match existing_status with
     | None => Ret None
     | Some existing_status =>
       let! just_and_fin_ok :=
         match fcu_matching (config self) with
         | Exact | HeadOnly => Ret true
         | Loose =>
           let! justified :=
             with_lock MJustified (access MJustified
               (λ cache, (lru_contains (safe_block_hash fcu) cache, cache))) in
           if justified then
             with_lock MFinalized (access MFinalized
               (λ cache, (lru_contains (finalized_block_hash fcu) cache, cache)))
           else Ret false
         end in
       let definite_enough := negb definite_only || is_definite existing_status in
       Ret (if just_and_fin_ok && definite_enough then Some existing_status else None)
     end).

(** The update of the fcU cache with the engine's answer; [true] when it was stored. *)
Definition update_fcu_cache (fcu : JsonForkchoiceStateV1) (new_status : JsonPayloadStatusV1)
    (cache : Cache JsonForkchoiceStateV1 JsonPayloadStatusV1) :
    bool * Cache JsonForkchoiceStateV1 JsonPayloadStatusV1 :=
  let overwrite existing_status :=
    if is_definite existing_status then existing_status else new_status in
  match lru_get_mut fcu overwrite cache with
  | (Some existing_status, cache) => (negb (is_definite existing_status), cache)
  | (None, cache) => (true, lru_put fcu new_status cache)
  end.

(** [json_payload_attributes.map(serde_json::from_value).transpose()
    .map_err(..)?.map(..)]. *)
Definition parse_attributes (T : Type) `{!DeserializeOwned T} (id : JsonValue)
    (wrap : T → JsonPayloadAttributes) (json : option JsonValue) :
    result (option JsonPayloadAttributes) ErrorResponse :=
  let? attributes :=
    map_err (λ e, parse_error_generic id ("invalid payload attributes: " +:+ display_serde_error e))
      (transpose (from_value T <$> json)) in
  Ok (wrap <$> attributes).

(** The controller's status: from the cache, or from the engine and then cached. *)
Definition controller_fcu_status (id : JsonValue) (fcu : JsonForkchoiceStateV1) :
    prog (result JsonPayloadStatusV1 ErrorResponse) :=
  let! cached := get_cached_fcu fcu true in
  match cached with
  | Some st => Ret (Ok st)
  | None =>
    (* Do not send payload attributes to the EL (for now). *)
    let! response := trigger (EForkchoiceUpdated (ForkchoiceState_from fcu) None) in
    match response with
    | Ok response =>
      let json_response := jfcu_from_response response in
      let st := status (payload_status json_response) in
      let! cached := with_lock MFcu
        (access MFcu (update_fcu_cache fcu (payload_status json_response))) in
      let! _ :=
        if cached && bool_decide (st = Valid) then
          let! _ := with_lock MJustified
            (modify MJustified (lru_put (safe_block_hash fcu) tt)) in
          with_lock MFinalized
            (modify MFinalized (lru_put (finalized_block_hash fcu) tt))
        else Ret tt in
      Ret (Ok (payload_status json_response))
    | Err e =>
      Ret (Err (invalid_request id "forkchoice update failed: see eleel logs"))
    end
  end.

Definition handle_controller_fcu (request : Request) : prog (result Response ErrorResponse) :=
  let method_name := req_method request in
  let!? (id, (fcu, json_payload_attributes)) :=
    Ret (parse_as (JsonForkchoiceStateV1 * option JsonValue) request) in
  let head_hash := head_block_hash fcu in
  let!? opt_payload_attributes :=
    Ret (if String.eqb method_name ENGINE_FORKCHOICE_UPDATED_V2
         then parse_attributes JsonPayloadAttributesV2 id JPA_V2 json_payload_attributes
         else parse_attributes JsonPayloadAttributesV3 id JPA_V3 json_payload_attributes) in
  let!? payload_status := controller_fcu_status id fcu in
  let!? payload_id :=
    match opt_payload_attributes with
    | Some payload_attributes =>
      let! registered := register_attributes self head_hash (pa_from_json payload_attributes) in
      match registered with
      | Ok payload_id => Ret (Ok (Some (MkTransparentJsonPayloadId payload_id)))
      | Err message => Ret (Err (invalid_payload_attributes id message))
      end
    | None => Ret (Ok None)
    end in
  let response := {| payload_status := payload_status; payload_id := payload_id |} in
  Ret (Response_new id response).

(** The client's status: a definite one if it appears within the wait, else whatever is
    cached, else a synthetic SYNCING. *)
Definition client_fcu_status (fcu : JsonForkchoiceStateV1) : prog JsonPayloadStatusV1 :=
  let! definite_payload_status :=
    poll_until (fcu_wait_millis (config self)) (get_cached_fcu fcu true) in
  match definite_payload_status with
  | Some definite_status => Ret definite_status
  | None =>
    let! cached := get_cached_fcu fcu false in
    match cached with
    | Some payload_status => Ret payload_status
    | None => Ret synthetic_syncing
    end
  end.

Definition handle_fcu (request : Request) : prog (result Response ErrorResponse) :=
  let!? (id, (fcu, opt_payload_attributes)) :=
    Ret (parse_as (JsonForkchoiceStateV1 * option JsonPayloadAttributesV2) request) in
  let head_hash := head_block_hash fcu in
  let! payload_status := client_fcu_status fcu in
  let! payload_id :=
    match opt_payload_attributes with
    | Some payload_attributes =>
      let! existing :=
        get_existing_payload_id head_hash (pa_from_json (JPA_V2 payload_attributes)) in
      match existing with
      | Ok payload_id => Ret (Some (MkTransparentJsonPayloadId payload_id))
      | Err message => Ret None
      end
    | None => Ret None
    end in
  let response := {| payload_status := payload_status; payload_id := payload_id |} in
  Ret (Response_new id response).
End code.
