(* ===== verification/NewPayload.v ===== *)
(** The newPayload handlers (src/src/new_payload.rs). *)
From S2P Require Import Prelude Uint256 Lru Lighthouse Types Config Multiplexer Prog.
From S2P Require Import PayloadBuilder Fcu.

Section code.
Context `{NetworkOps}.
Variable self : Statics.

(** The decoded parts of a request. *)
Record DecodedPayload := MkDecodedPayload {
  dec_id : JsonValue;
  dec_payload : JsonExecutionPayload;
  dec_versioned_hashes : option (list VersionedHash);
  dec_parent_beacon_block_root : option Hash256;
  dec_execution_requests : option ExecutionRequests;
}.

(** [serde_json::from_value(params[i].clone()).map_err(..)?]. *)
Definition from_param (T : Type) `{!DeserializeOwned T} (id : JsonValue)
    (params : list JsonValue) (i : nat) : outcome (result T ErrorResponse) :=
  do v := index params i in
  Done (map_err (parse_error id) (from_value T v)).

Definition decode_extra_params (id : JsonValue) (method : string) (params : list JsonValue) :
    outcome (result (option (list VersionedHash) * option Hash256 * option ExecutionRequests)
                    ErrorResponse) :=
  if String.eqb method ENGINE_NEW_PAYLOAD_V4 then
    if negb (Nat.eqb (length params) 4) then
      Done (Err (parse_error_generic id "wrong number of parameters for newPayloadV3"))
    else
      do? versioned_hashes := from_param (list VersionedHash) id params 1 in
      do? parent_beacon_block_root := from_param Hash256 id params 2 in
      do? json_execution_requests := from_param JsonExecutionRequests id params 3 in
      do? execution_requests := Done
        (map_err (λ e, parse_error_generic id
                         ("invalid execution requests: " +:+ debug_requests_error e))
           (execution_requests_try_from json_execution_requests)) in
      Done (Ok (Some versioned_hashes, Some parent_beacon_block_root, Some execution_requests))
  else if String.eqb method ENGINE_NEW_PAYLOAD_V3 then
    if negb (Nat.eqb (length params) 3) then
      Done (Err (parse_error_generic id "wrong number of parameters for newPayloadV3"))
    else
      do? versioned_hashes := from_param (list VersionedHash) id params 1 in
      do? parent_beacon_block_root := from_param Hash256 id params 2 in
      Done (Ok (Some versioned_hashes, Some parent_beacon_block_root, None))
  else if Nat.eqb (length params) 1 then Done (Ok (None, None, None))
  else
    Done (Err (parse_error_generic id
      ("wrong number of parameters for " +:+ method +:+ ": " +:+ pretty (length params)))).

(** The JSON structure the payload is read as. *)
Definition decode_payload (method : string) (fork_name : ForkName) (payload_json : JsonValue) :
    result JsonExecutionPayload SerdeError :=
  if String.eqb method ENGINE_NEW_PAYLOAD_V1 || bool_decide (fork_name = Bellatrix) then
    result_map JEP_V1 (from_value JsonExecutionPayloadV1 payload_json)
  else if String.eqb method ENGINE_NEW_PAYLOAD_V2 || bool_decide (fork_name = Capella) then
    result_map JEP_V2 (from_value JsonExecutionPayloadV2 payload_json)
  else if String.eqb method ENGINE_NEW_PAYLOAD_V3 || bool_decide (fork_name = Deneb) then
    result_map JEP_V3 (from_value JsonExecutionPayloadV3 payload_json)
  else
    result_map JEP_V4 (from_value JsonExecutionPayloadV4 payload_json).

Definition decode_new_payload (request : Request) :
    outcome (result DecodedPayload ErrorResponse) :=
  let method := req_method request in
  do? (id, params) := Done (parse_as (list JsonValue) request) in
  do? (versioned_hashes, parent_beacon_block_root, execution_requests) :=
    decode_extra_params id method params in
  do payload_json := index params 0 in
  do? quantity := Done
    match json_get payload_json "timestamp" with
    | Some timestamp_json =>
      map_err (parse_error id) (from_value QuantityU64 timestamp_json)
    | None => Err (parse_error_generic id "timestamp value missing")
    end in
  let timestamp := value quantity in
  do? slot := Done
    (ok_or (parse_error_generic id ("invalid timestamp: " +:+ pretty timestamp))
       (timestamp_to_slot self timestamp)) in
  let fork_name := fork_name_at_slot (spec self) slot in
  do? payload := Done
    (map_err (parse_error id) (decode_payload method fork_name payload_json)) in
  Done (Ok {|
    dec_id := id;
    dec_payload := payload;
    dec_versioned_hashes := versioned_hashes;
    dec_parent_beacon_block_root := parent_beacon_block_root;
    dec_execution_requests := execution_requests;
  |}).

Definition new_payload_request_from_parts (execution_payload : ExecutionPayload)
    (versioned_hashes : option (list VersionedHash))
    (parent_beacon_block_root : option Hash256)
    (execution_requests : option ExecutionRequests) : outcome NewPayloadRequest :=
  match execution_payload with
  | EP_Bellatrix execution_payload => Done (NPR_Bellatrix execution_payload)
  | EP_Capella execution_payload => Done (NPR_Capella execution_payload)
  | EP_Deneb execution_payload =>
    Done (NPR_Deneb execution_payload (default [] versioned_hashes)
            (default Hash256_default parent_beacon_block_root))
  | EP_Electra execution_payload =>
    do execution_requests := unwrap_option execution_requests in
    Done (NPR_Electra execution_payload (default [] versioned_hashes)
            (default Hash256_default parent_beacon_block_root) execution_requests)
  | EP_Fulu _ => Panicked "not yet implemented: Fulu"
  end.

Definition get_cached_payload_status_locked (execution_block_hash : ExecutionBlockHash)
    (definite_only : bool) (cache : Cache ExecutionBlockHash NewPayloadCacheEntry) :
    option JsonPayloadStatusV1 * Cache ExecutionBlockHash NewPayloadCacheEntry :=
  let '(existing, cache) := lru_get execution_block_hash cache in
  (match existing with
   | Some existing =>
     if negb definite_only || is_definite (entry_status existing)
     then Some (entry_status existing) else None
   | None => None
   end, cache).

Definition get_cached_payload_status (execution_block_hash : ExecutionBlockHash)
    (definite_only : bool) : prog (option JsonPayloadStatusV1) :=
  with_lock MNewPayload (access MNewPayload
    (get_cached_payload_status_locked execution_block_hash definite_only)).

(** [iter().map(|(_, entry)| entry.block_number).max().unwrap_or(0)]. *)
Definition highest_block_number (cache : Cache ExecutionBlockHash NewPayloadCacheEntry) : Z :=
  match (λ entry, entry_block_number entry.2) <$> lru_iter cache with
  | [] => 0%Z
  | n :: ns => foldl Z.max n ns
  end.

Definition highest_cached_payload_number : prog Z :=
  with_lock MNewPayload (access MNewPayload (λ cache, (highest_block_number cache, cache))).

Definition is_recent_payload (block_number : Z) : prog bool :=
  let! highest := highest_cached_payload_number in
  let cutoff := u64_saturating_sub highest (new_payload_wait_cutoff (config self)) in
  Ret (cutoff <=? block_number)%Z.

(** The controller's status: a cached definite one, or the engine's, which is cached
    and registered with the payload builder. *)
Definition controller_new_payload_status (id : JsonValue)
    (execution_payload : ExecutionPayload) (request : NewPayloadRequest) :
    prog (result JsonPayloadStatusV1 ErrorResponse) :=
  let block_hash := ep_block_hash execution_payload in
  let block_number := ep_block_number execution_payload in
  let! cached := get_cached_payload_status block_hash true in
  match cached with
  | Some st => Ret (Ok st)
  | None =>
    (* Send payload to the real EL. *)
    let! answer := trigger (ENewPayload request) in
    match answer with
    | Ok st =>
      let json_status := jps_from_status st in
      (* Update newPayload cache. *)
      let! _ := with_lock MNewPayload (modify MNewPayload
        (lru_put block_hash {| entry_status := json_status;
                               entry_block_number := block_number |})) in
      (* Update payload builder. *)
      let! _ := register_canonical_payload execution_payload (status json_status) in
      Ret (Ok json_status)
    | Err e =>
      Ret (Err (invalid_request id "payload verification failed: see eleel logs"))
    end
  end.

Definition handle_controller_new_payload (request : Request) :
    prog (result Response ErrorResponse) :=
  let!? decoded := lift_outcome (decode_new_payload request) in
  let id := dec_id decoded in
  let execution_payload := ep_from_json (dec_payload decoded) in
  let! new_payload_request := lift_outcome
    (new_payload_request_from_parts execution_payload (dec_versioned_hashes decoded)
       (dec_parent_beacon_block_root decoded) (dec_execution_requests decoded)) in
  let!? st := controller_new_payload_status id execution_payload new_payload_request in
  Ret (Response_new id st).

(** The status of a client's payload once its block hash is verified. *)
Definition client_new_payload_status (id : JsonValue) (block_hash : ExecutionBlockHash)
    (block_number : Z) (request : NewPayloadRequest) :
    prog (result JsonPayloadStatusV1 ErrorResponse) :=
  let! is_recent := is_recent_payload block_number in
  let! waited :=
    if is_recent then
      poll_until (new_payload_wait_millis (config self))
        (get_cached_payload_status block_hash true)
    else Ret None in
  match waited with
  | Some st => Ret (Ok st)
  | None =>
    (* Try again to get any status from the cache, or fall back on a SYNCING response. *)
    let! cached := get_cached_payload_status block_hash false in
    match cached with
    | Some st => Ret (Ok st)
    | None =>
      match verify_versioned_hashes request with
      | Err e => Ret (Err (invalid_request id "incorrect versioned hashes"))
      | Ok _ => Ret (Ok synthetic_syncing)
      end
    end
  end.

Definition handle_new_payload (request : Request) : prog (result Response ErrorResponse) :=
  let!? decoded := lift_outcome (decode_new_payload request) in
  let id := dec_id decoded in
  let execution_payload := ep_from_json (dec_payload decoded) in
  let block_hash := ep_block_hash execution_payload in
  let block_number := ep_block_number execution_payload in
  let! new_payload_request := lift_outcome
    (new_payload_request_from_parts execution_payload (dec_versioned_hashes decoded)
       (dec_parent_beacon_block_root decoded) (dec_execution_requests decoded)) in
  (* Check block hash prior to keying cache. *)
  match verify_payload_block_hash new_payload_request with
  | Err e =>
    Ret (Err (invalid_request id ("incorrect block hash " +:+ debug_block_hash block_hash)))
  | Ok _ =>
    let!? st := client_new_payload_status id block_hash block_number new_payload_request in
    Ret (Response_new id st)
  end.
End code.

(** * Decoding never panics, and a decoded request of the four methods makes a
      [NewPayloadRequest] for the payload it carries *)

Section proofs.
Context `{ExtOk} `{!NetworkOps}.
Variable self : Statics.

Lemma index_lt {A} (l : list A) i : i < length l → ∃ a, index l i = Done a.
Proof. intros [a Ha]%lookup_lt_is_Some. exists a. unfold index. by rewrite Ha. Qed.

Lemma from_param_total (T : Type) `{!DeserializeOwned T} id ps i :
  i < length ps → ∃ x, from_param T id ps i = Done x.
Proof. intros [v Hv]%index_lt. unfold from_param. rewrite Hv. simpl. eauto. Qed.

Lemma decode_extra_params_total id m ps :
  ∃ x, decode_extra_params id m ps = Done x ∧
       ∀ y, x = Ok y → 0 < length ps ∧ (m = ENGINE_NEW_PAYLOAD_V4 → is_Some y.2).
Proof.
  unfold decode_extra_params. destruct (String.eqb_spec m ENGINE_NEW_PAYLOAD_V4) as [Hm|Hm];
    [|destruct (String.eqb_spec m ENGINE_NEW_PAYLOAD_V3) as [Hm3|Hm3]].
  - destruct (Nat.eqb_spec (length ps) 4) as [Hl|Hl]; simpl; [|eexists; split; [done|done]].
    destruct (from_param_total (list VersionedHash) id ps 1) as [[x1|e1] ->]; [lia|simpl..|];
      [|eexists; split; done].
    destruct (from_param_total Hash256 id ps 2) as [[x2|e2] ->]; [lia|simpl..|];
      [|eexists; split; done].
    destruct (from_param_total JsonExecutionRequests id ps 3) as [[x3|e3] ->]; [lia|simpl..|];
      [|eexists; split; done].
    destruct (execution_requests_try_from x3); simpl; eexists; (split; [done|]); [|done].
    intros y [= <-]. split; [lia|done].
  - destruct (Nat.eqb_spec (length ps) 3) as [Hl|Hl]; simpl; [|eexists; split; [done|done]].
    destruct (from_param_total (list VersionedHash) id ps 1) as [[x1|e1] ->]; [lia|simpl..|];
      [|eexists; split; done].
    destruct (from_param_total Hash256 id ps 2) as [[x2|e2] ->]; [lia|simpl..|];
      [|eexists; split; done].
    eexists; split; [done|]. intros y [= <-]. split; [lia|done].
  - destruct (Nat.eqb_spec (length ps) 1) as [Hl|Hl]; simpl; eexists; (split; [done|]); [|done].
    intros y [= <-]. split; [lia|done].
Qed.

Lemma decode_new_payload_total r : ∃ x, decode_new_payload self r = Done x.
Proof.
  unfold decode_new_payload. destruct (parse_as _ _) as [[id ps]|e]; simpl; [|eauto].
  destruct (decode_extra_params_total id (req_method r) ps) as ([[[a b] c]|e] & -> & Hx);
    simpl; [|eauto].
  destruct (Hx _ eq_refl) as [Hlen _]. destruct (index_lt ps 0 Hlen) as [v ->]. simpl.
  destruct (json_get _ _); simpl; [|eauto].
  destruct (from_value QuantityU64 _); simpl; [|eauto].
  destruct (timestamp_to_slot _ _); simpl; [|eauto].
  destruct (decode_payload _ _ _); simpl; eauto.
Qed.

(** The version the payload is read as: never V5, and V4 only for the V4 method when
    the method is one of the four. *)
Lemma decode_payload_version m fork v p :
  decode_payload m fork v = Ok p →
  jep_fork p ≠ Fulu ∧
  (jep_fork p = Electra →
   m ≠ ENGINE_NEW_PAYLOAD_V1 ∧ m ≠ ENGINE_NEW_PAYLOAD_V2 ∧ m ≠ ENGINE_NEW_PAYLOAD_V3).
Proof.
  unfold decode_payload, result_map.
  destruct (String.eqb_spec m ENGINE_NEW_PAYLOAD_V1);
  destruct (String.eqb_spec m ENGINE_NEW_PAYLOAD_V2);
  destruct (String.eqb_spec m ENGINE_NEW_PAYLOAD_V3);
  repeat case_bool_decide; simpl; intros Hp; case_match; by simplify_eq/=.
Qed.

Lemma decode_new_payload_Ok r d :
  decode_new_payload self r = Done (Ok d) →
  jep_fork (dec_payload d) ≠ Fulu ∧
  (jep_fork (dec_payload d) = Electra →
   req_method r ≠ ENGINE_NEW_PAYLOAD_V1 ∧ req_method r ≠ ENGINE_NEW_PAYLOAD_V2 ∧
   req_method r ≠ ENGINE_NEW_PAYLOAD_V3) ∧
  (req_method r = ENGINE_NEW_PAYLOAD_V4 → is_Some (dec_execution_requests d)).
Proof.
  unfold decode_new_payload. intros Hd.
  destruct (parse_as _ _) as [[id ps]|e]; simpl in Hd; [|done].
  destruct (decode_extra_params_total id (req_method r) ps) as ([[[a b] c]|e] & Hx & Hy);
    rewrite Hx in Hd; simpl in Hd; [|done].
  destruct (Hy _ eq_refl) as [_ Hc].
  destruct (index ps 0); simpl in Hd; [|done].
  destruct (json_get _ _); simpl in Hd; [|done].
  destruct (from_value QuantityU64 _); simpl in Hd; [|done].
  destruct (timestamp_to_slot _ _); simpl in Hd; [|done].
  destruct (decode_payload _ _ _) eqn:Hp; simpl in Hd; [|done]. simplify_eq. simpl.
  apply decode_payload_version in Hp as [? ?]. by split_and!.
Qed.

Lemma new_payload_request_payload ep vh root reqs npr :
  new_payload_request_from_parts ep vh root reqs = Done npr → npr_payload npr = ep.
Proof.
  unfold new_payload_request_from_parts, unwrap_option.
  destruct ep; intros; simplify_eq/=; try done. destruct reqs; simplify_eq/=. done.
Qed.

Definition new_payload_methods : list string :=
  [ENGINE_NEW_PAYLOAD_V1; ENGINE_NEW_PAYLOAD_V2; ENGINE_NEW_PAYLOAD_V3; ENGINE_NEW_PAYLOAD_V4].

Lemma new_payload_request_total r d :
  req_method r ∈ new_payload_methods → decode_new_payload self r = Done (Ok d) →
  ∃ npr, new_payload_request_from_parts (ep_from_json (dec_payload d))
           (dec_versioned_hashes d) (dec_parent_beacon_block_root d)
           (dec_execution_requests d) = Done npr.
Proof.
  intros Hm (Hfulu & Hel & Hreq)%decode_new_payload_Ok.
  pose proof (ep_from_json_fork (dec_payload d)) as Hfork.
  unfold new_payload_request_from_parts, unwrap_option.
  destruct (ep_from_json (dec_payload d)) as [p|p|p|p|p]; simpl in Hfork; try (by eauto).
  destruct Hreq as [reqs ->]; [|by eauto]. destruct Hel as (?&?&?); [done|].
  unfold new_payload_methods in Hm. set_solver.
Qed.
End proofs.
