(* ===== verification/Alone.v ===== *)
(** An instance of the program logic: one request which runs alone, in a given
    environment.  It computes with [run], and specifies the reads of the caches by pure
    functions. *)
From S2P Require Import Prelude Uint256 Lru Lighthouse Types Config Multiplexer Prog Logic.
From S2P Require Import PayloadBuilder Fcu NewPayload.

Section alone.
Context `{Ext}.
Variable env : Env.

Program Definition alone : EvSpec World := {|
  ev_spec A e w K := let r := handle_ev env e w in K r.1 (tick env r.2);
|}.
Next Obligation. intros A e w K K' HK. apply HK. Qed.

(** The logic and the interpreter agree. *)
Lemma alone_run {R} (p : prog R) w (Q : exit R → World → Prop) :
  wp alone p w Q ↔ Q (run env p w).1 (run env p w).2.
Proof.
  revert w. induction p as [r|m| |X e k IH]; intros w; simpl; [done..|].
  destruct (handle_ev env e w) as [a w']. simpl. apply IH.
Qed.

(** [w'] is [w] with the caches [cs], some time later. *)
Definition later (w : World) (cs : Caches) (w' : World) : Prop :=
  w_caches w' = cs ∧ w_calls w' = w_calls w ∧ (w_clock w ≤ w_clock w')%Z.

Lemma later_tick w : later w (w_caches w) (tick env w).
Proof. unfold later, tick. simpl. split_and!; [done..|lia]. Qed.

Lemma alone_now w (Q : exit Z → World → Prop) :
  (∀ w', later w (w_caches w) w' → Q (Returned (w_clock w)) w') →
  wp alone (trigger ENow) w Q.
Proof. intros HQ. apply HQ, later_tick. Qed.

(** A lock, one access and the unlock. *)
Lemma alone_with_lock {A} m (body : prog A) w (Q : exit A → World → Prop) :
  (∀ w1, later w (w_caches w) w1 →
     wp alone body w1 (then_post (λ a w2, ∀ w3, later w2 (w_caches w2) w3 → Q (Returned a) w3)
                         Q)) →
  wp alone (with_lock m body) w Q.
Proof.
  intros Hbody. unfold with_lock. simpl. apply wp_bind.
  eapply wp_mono; [apply Hbody, later_tick|]. intros [a|msg|] w2 Hx; simpl in *; [|done..].
  apply Hx, later_tick.
Qed.

Lemma alone_access {A} m (f : guarded m → A * guarded m) w (Q : exit A → World → Prop) :
  (∀ w', later w (set_guarded m (f (get_guarded m (w_caches w))).2 (w_caches w)) w' →
     Q (Returned (f (get_guarded m (w_caches w))).1) w') →
  wp alone (access m f) w Q.
Proof.
  intros HQ. unfold access. simpl. specialize (HQ (tick env (MkWorld (set_guarded m
    (f (get_guarded m (w_caches w))).2 (w_caches w)) (w_clock w) (w_calls w)))).
  destruct (f (get_guarded m (w_caches w))) as [a v]. apply HQ.
  unfold later, tick. simpl. split_and!; [done..|lia].
Qed.

Lemma alone_locked {A} m (f : guarded m → A * guarded m) w (Q : exit A → World → Prop) :
  (∀ w', later w (set_guarded m (f (get_guarded m (w_caches w))).2 (w_caches w)) w' →
     Q (Returned (f (get_guarded m (w_caches w))).1) w') →
  wp alone (with_lock m (access m f)) w Q.
Proof.
  intros HQ. apply alone_with_lock. intros w1 Hw1. apply alone_access. intros w2 Hw2 w3 Hw3.
  destruct Hw1 as (Hc1 & Hk1 & Ht1). rewrite Hc1 in *. apply HQ.
  destruct Hw2 as (Hc2 & Hk2 & Ht2), Hw3 as (Hc3 & Hk3 & Ht3).
  unfold later. rewrite Hc3, Hk3, Hk2. split_and!; [done..|lia].
Qed.

(** A poll that succeeds, or that is not made because the time is up, ends the loop
    before it sleeps. *)
Lemma alone_poll_until {A} wait (poll : prog (option A)) w (Q : exit (option A) → World → Prop) :
  (∀ w1, later w (w_caches w) w1 →
     Q (Returned None) w1 ∧
     wp alone poll w1
       (then_post (λ o w2, match o with Some a => Q (Returned (Some a)) w2 | None => False end)
          Q)) →
  wp alone (poll_until wait poll) w Q.
Proof.
  intros Hpoll. apply wp_bind. apply alone_now. intros w1 Hw1.
  unfold poll_fuel. cbn [then_post poll_loop]. apply wp_bind. apply alone_now.
  intros w2 Hw2. simpl.
  assert (Hw : later w (w_caches w) w2).
  { destruct Hw1 as (Hc1 & Hk1 & Ht1), Hw2 as (Hc2 & Hk2 & Ht2).
    split_and!; [congruence..|lia]. }
  destruct (Hpoll w2 Hw) as [Hend Hp]. case_match; [|exact Hend].
  apply wp_bind. eapply wp_mono; [exact Hp|]. by intros [[a|]|m|] w3 Hx.
Qed.
End alone.

(** * The lookups as functions of the caches *)

Section lookups.
Context `{NetworkOps}.
Variable self : Statics.
Variable env : Env.

(** The check of the justified and finalized hashes. *)
Definition just_and_fin_cached (fcu : JsonForkchoiceStateV1) (cs : Caches) : bool :=
  match fcu_matching (config self) with
  | Exact | HeadOnly => true
  | Loose => lru_contains (safe_block_hash fcu) (justified_block_cache cs) &&
             lru_contains (finalized_block_hash fcu) (finalized_block_cache cs)
  end.

(** [get_cached_fcu] on a snapshot of the caches. *)
Definition cached_fcu (fcu : JsonForkchoiceStateV1) (definite_only : bool) (cs : Caches) :
    option JsonPayloadStatusV1 * Caches :=
  let r := lookup_fcu self fcu (fcu_cache cs) in
  (match r.1 with
   | Some st =>
     if just_and_fin_cached fcu cs && (negb definite_only || is_definite st)
     then Some st else None
   | None => None
   end, set_guarded MFcu r.2 cs).

Definition cached_status (bh : ExecutionBlockHash) (definite_only : bool) (cs : Caches) :
    option JsonPayloadStatusV1 * Caches :=
  let r := get_cached_payload_status_locked bh definite_only (new_payload_cache cs) in
  (r.1, set_guarded MNewPayload r.2 cs).

(** A test leaves the caches as they are. *)
Lemma alone_test {A} m (f : guarded m → A) w (Q : exit A → World → Prop) :
  (∀ w', later w (w_caches w) w' → Q (Returned (f (get_guarded m (w_caches w)))) w') →
  wp (alone env) (with_lock m (access m (λ v, (f v, v)))) w Q.
Proof. intros HQ. apply alone_locked. simpl. by rewrite set_get_guarded. Qed.

Lemma alone_just_and_fin fcu w (Q : exit bool → World → Prop) :
  (∀ w', later w (w_caches w) w' → Q (Returned (just_and_fin_cached fcu (w_caches w))) w') →
  wp (alone env)
    (match fcu_matching (config self) with
     | Exact | HeadOnly => Ret true
     | Loose =>
       let! justified :=
         with_lock MJustified (access MJustified
           (λ cache, (lru_contains (safe_block_hash fcu) cache, cache))) in
       if justified then
         with_lock MFinalized (access MFinalized
           (λ cache, (lru_contains (finalized_block_hash fcu) cache, cache)))
       else Ret false
     end) w Q.
Proof.
  intros HQ. unfold just_and_fin_cached in HQ.
  assert (Hself : later w (w_caches w) w) by (split_and!; [done..|lia]).
  destruct (fcu_matching (config self)); [by apply HQ| |by apply HQ].
  apply wp_bind, alone_test. intros w1 Hw1. cbn [then_post get_guarded].
  destruct (lru_contains (safe_block_hash fcu) (justified_block_cache (w_caches w)));
    simpl in HQ; [|by apply HQ].
  apply alone_test. intros w2 Hw2. cbn [get_guarded]. destruct Hw1 as (Hc & Hk & Ht). rewrite Hc in *.
  apply HQ. destruct Hw2 as (? & ? & ?). split_and!; [done|congruence|lia].
Qed.

Lemma alone_get_cached_fcu fcu d w (Q : exit (option JsonPayloadStatusV1) → World → Prop) :
  (∀ w', later w (cached_fcu fcu d (w_caches w)).2 w' →
     Q (Returned (cached_fcu fcu d (w_caches w)).1) w') →
  wp (alone env) (get_cached_fcu self fcu d) w Q.
Proof.
  intros HQ. unfold cached_fcu in HQ. simpl in HQ.
  apply alone_with_lock. intros w1 (Hc1 & Hk1 & Ht1).
  apply wp_bind, alone_access. rewrite Hc1. simpl. intros w2 (Hc2 & Hk2 & Ht2). simpl.
  destruct (lookup_fcu self fcu (fcu_cache (w_caches w))) as [[st|] c]; simpl in *.
  - apply wp_bind, alone_just_and_fin. intros w3 (Hc3 & Hk3 & Ht3).
    assert (just_and_fin_cached fcu (w_caches w2) = just_and_fin_cached fcu (w_caches w)) as ->
      by (rewrite Hc2; done).
    simpl. intros w4 (Hc4 & Hk4 & Ht4). apply HQ. split_and!; [congruence..|lia].
  - intros w3 (Hc3 & Hk3 & Ht3). apply HQ. split_and!; [congruence..|lia].
Qed.

Lemma alone_get_cached_status bh d w (Q : exit (option JsonPayloadStatusV1) → World → Prop) :
  (∀ w', later w (cached_status bh d (w_caches w)).2 w' →
     Q (Returned (cached_status bh d (w_caches w)).1) w') →
  wp (alone env) (get_cached_payload_status bh d) w Q.
Proof. intros HQ. by apply alone_locked. Qed.

(** ** What a lookup finds *)

Context `{!ExtOk}.

Lemma cached_status_value bh d cs :
  (cached_status bh d cs).1 =
    match lru_peek bh (new_payload_cache cs) with
    | Some e => if negb d || is_definite (entry_status e) then Some (entry_status e) else None
    | None => None
    end.
Proof.
  unfold cached_status, get_cached_payload_status_locked.
  pose proof (get_value bh (new_payload_cache cs)) as Hv.
  destruct (lru_get bh (new_payload_cache cs)) as [o c]. simpl in *. by subst.
Qed.

(** The first entry of the recency order is found in every mode. *)
Lemma find_head_first fcu st l (c : Cache JsonForkchoiceStateV1 JsonPayloadStatusV1) :
  lru_iter c = (fcu, st) :: l → find_head fcu c = Some st.
Proof.
  intros Hc. unfold find_head. rewrite Hc. simpl. by rewrite bool_decide_eq_true_2.
Qed.

Lemma lookup_fcu_first fcu st l (c : Cache JsonForkchoiceStateV1 JsonPayloadStatusV1) :
  lru_iter c = (fcu, st) :: l → (lookup_fcu self fcu c).1 = Some st.
Proof.
  intros Hc. unfold lookup_fcu. destruct (fcu_matching (config self)); simpl;
    [|by eapply find_head_first..].
  rewrite get_value. unfold lru_peek. rewrite Hc. simpl. by rewrite decide_True.
Qed.

(** Updating the fcU cache puts the entry first. *)
Lemma update_fcu_cache_first fcu st (c : Cache JsonForkchoiceStateV1 JsonPayloadStatusV1) :
  ∃ l, lru_iter (update_fcu_cache fcu st c).2 =
       (fcu, match lru_peek fcu c with
             | Some old => if is_definite old then old else st
             | None => st
             end) :: l.
Proof.
  unfold update_fcu_cache.
  set (ow := λ old, if is_definite old then old else st).
  pose proof (get_mut_value fcu ow c) as Hv. pose proof (lru_get_mut_iter fcu ow c) as Hi.
  unfold lru_peek in *.
  destruct (lru_get_mut fcu ow c) as [o c']. simpl in *. subst o.
  destruct (alookup fcu (lru_iter c)) as [old|] eqn:Ho; simpl.
  - eauto.
  - rewrite lru_put_iter. unfold push_front.
    pose proof (Pos2Nat.is_pos (lru_cap c')). destruct (Pos.to_nat _); [lia|]. simpl. eauto.
Qed.
End lookups.
