(* ===== verification/Meta.v ===== *)
(** Meta methods about the execution engine itself (src/src/meta.rs). *)
From S2P Require Import Prelude Uint256 Lru Lighthouse Types Config Multiplexer Prog.

Section code.
Context `{Ext}.

(** Timeouts, in milliseconds. *)
Definition secs (s : Z) : Z := (s * 1000)%Z.

Definition handle_syncing (request : Request) : prog (result Response ErrorResponse) :=
  let!? (id, _) := Ret (parse_as (list unit) request) in
  Ret (Response_new id false).

Definition handle_chain_id (request : Request) : prog (result Response ErrorResponse) :=
  let!? (id, _) := Ret (parse_as (list unit) request) in
  let timeout := secs 1 in
  let! chain_id := trigger (EChainId timeout) in
  let!? chain_id :=
    Ret (map_err (λ e, parse_error_generic id (debug_engine_error e)) chain_id) in
  let result := {| value := chain_id_into chain_id |} in
  Ret (Response_new id result).

Definition handle_engine_capabilities (request : Request) :
    prog (result Response ErrorResponse) :=
  let!? (id, Tuple1 _cl_capabilities) := Ret (parse_as (tuple1 (list string)) request) in
  let max_age := secs (15 * 60) in
  let! engine_capabilities := trigger (ECapabilities (Some max_age)) in
  let!? engine_capabilities :=
    Ret (map_err (λ e, parse_error_generic id (debug_engine_error e)) engine_capabilities) in
  Ret (Response_new id (capabilities_to_response engine_capabilities)).

Definition proxy_directly (request : Request) : prog (result Response ErrorResponse) :=
  let id := req_id request in
  let timeout := secs 12 in
  let! answer := trigger (ERpcRequest (req_method request) (req_params request) timeout) in
  let!? answer :=
    Ret (map_err (λ e, parse_error_generic id (debug_engine_error e)) answer) in
  Ret (Response_new id answer).
End code.
