(* ===== verification/Jwt.v ===== *)
(** JWT authentication with several secrets (src/src/jwt.rs and the secrets file of
    src/src/config.rs). *)
From S2P Require Import Prelude.

(** * Outside the repository: the [jwt], [hmac], [hex] and [toml] crates, files, and the
      iteration order of a [HashMap] *)

Class JwtOps := {
  Secret : Type;
  UnverifiedToken : Type;
  VerifiedToken : Type;
  JwtError : Type;
  display_jwt_error : JwtError → string;
  parse_unverified : string → result UnverifiedToken JwtError;
  (** the claims of a parsed token: [iat], [id], [clv] *)
  token_iat : UnverifiedToken → Z;
  token_id : UnverifiedToken → option string;
  token_clv : UnverifiedToken → option string;
  (** [verify_with_key] of a string and of a parsed token *)
  str_verify_with_key : string → Secret → result VerifiedToken JwtError;
  token_verify_with_key : UnverifiedToken → Secret → result VerifiedToken JwtError;
  (** errors with the texts the program prints: [{}] and [{:?}] *)
  HexError : Type;
  display_hex_error : HexError → string;
  debug_hex_error : HexError → string;
  LengthError : Type;
  display_length_error : LengthError → string;
  IoError : Type;
  display_io_error : IoError → string;
  TomlError : Type;
  display_toml_error : TomlError → string;
  hex_decode : string → result (list Z) HexError;
  new_from_slice : list Z → result Secret LengthError;
  read_to_string : string → result string IoError;
  toml_from_str : string → result (gmap string string) TomlError;
  (** the entries of a [HashMap] in its iteration order *)
  hashmap_iter {V} : gmap string V → list (string * V);
}.

Class JwtLaws `{JwtOps} : Prop := {
  (** verifying a string parses it and verifies the parsed token *)
  str_verify_parse t s :
    str_verify_with_key t s =
      match parse_unverified t with
      | Ok u => token_verify_with_key u s
      | Err e => Err e
      end;
  hashmap_iter_entries {V} (m : gmap string V) : hashmap_iter m ≡ₚ map_to_list m;
}.

(** * The code *)

Section code.
Context `{JwtOps}.

Record Claims := MkClaims { iat : Z; id : option string; clv : option string }.

Definition claims (t : UnverifiedToken) : Claims :=
  {| iat := token_iat t; id := token_id t; clv := token_clv t |}.

Record KeyCollection := MkKeyCollection { secrets : gmap string Secret }.

Definition convert_err (e : JwtError) : string :=
  "JWT verification error: " +:+ display_jwt_error e.

Definition verify_single_token (token : string) (secret : Secret) :
    result VerifiedToken string :=
  map_err convert_err (str_verify_with_key token secret).

Definition verify_parsed_token (token : UnverifiedToken) (secret : Secret) :
    result VerifiedToken string :=
  map_err convert_err (token_verify_with_key token secret).

Definition jwt_secret_from_path (path : string) : result Secret string :=
  map_err (λ e, "Invalid JWT secret at path " +:+ path +:+ ": " +:+ e)
    (let? hex_secret := map_err display_io_error (read_to_string path) in
     let? byte_secret := map_err display_hex_error (hex_decode hex_secret) in
     map_err display_length_error (new_from_slice byte_secret)).

(** [for (id, secret) in &self.secrets { if let Ok(token) = .. { return Ok(token) } }]. *)
Fixpoint try_secrets (token : string) (entries : list (string * Secret)) :
    option VerifiedToken :=
  match entries with
  | [] => None
  | (_, secret) :: entries =>
    match verify_single_token token secret with
    | Ok token => Some token
    | Err _ => try_secrets token entries
    end
  end.

(** [KeyCollection::verify]. *)
Definition verify (self : KeyCollection) (token : string) : result VerifiedToken string :=
  let? parsed_token := map_err convert_err (parse_unverified token) in
  let secret := id (claims parsed_token) ≫= λ id, secrets self !! id in
  match secret with
  | Some secret => verify_parsed_token parsed_token secret
  | None =>
    match try_secrets token (hashmap_iter (secrets self)) with
    | Some token => Ok token
    | None => Err "No matching JWT secret found"
    end
  end.

(** [ClientJwtSecrets::from_file]. *)
Definition ClientJwtSecrets_from_file (path : string) : result (gmap string string) string :=
  let? secrets_str := map_err
    (λ e, "IO error reading secrets from " +:+ path +:+ ": " +:+ display_io_error e)
    (read_to_string path) in
  map_err (λ e, "Parse error reading secrets from " +:+ path +:+ ": " +:+ display_toml_error e)
    (toml_from_str secrets_str).

Fixpoint load_secrets (raw : list (string * string)) (acc : gmap string Secret) :
    result (gmap string Secret) string :=
  match raw with
  | [] => Ok acc
  | (id, hex_secret) :: raw =>
    let? byte_secret :=
      map_err (λ e, "Invalid JWT secret: " +:+ debug_hex_error e) (hex_decode hex_secret) in
    let? secret :=
      map_err (λ e, "Invalid JWT secret: " +:+ display_length_error e)
        (new_from_slice byte_secret) in
    load_secrets raw (<[id := secret]> acc)
  end.

(** [KeyCollection::load]. *)
Definition load (path : string) : result KeyCollection string :=
  let? raw := ClientJwtSecrets_from_file path in
  let? secrets := load_secrets (hashmap_iter raw) ∅ in
  Ok {| secrets := secrets |}.
End code.

(** * Properties *)

Section proofs.
Context `{JwtLaws}.

(** The secret a hex string denotes. *)
Definition decode_secret (hex_secret : string) : option Secret :=
  match hex_decode hex_secret with
  | Ok bytes => result_ok (new_from_slice bytes)
  | Err _ => None
  end.

Lemma try_secrets_Some token entries t :
  try_secrets token entries = Some t →
  ∃ i s, (i, s) ∈ entries ∧ verify_single_token token s = Ok t.
Proof.
  induction entries as [|[i s] entries IH]; simpl; [done|].
  destruct (verify_single_token token s) as [t'|e] eqn:Hv; intros Ht; simplify_eq.
  - exists i, s. split; [by left|done].
  - destruct (IH Ht) as (i' & s' & ? & ?). exists i', s'. split; [by right|done].
Qed.

Lemma try_secrets_None token entries :
  try_secrets token entries = None ↔
  ∀ i s, (i, s) ∈ entries → is_ok (verify_single_token token s) = false.
Proof.
  induction entries as [|[i s] entries IH]; simpl.
  - split; [|done]. intros _ i s Hin. by apply not_elem_of_nil in Hin.
  - destruct (verify_single_token token s) as [t|e] eqn:Hv.
    + split; [done|]. intros Hall. specialize (Hall i s (list_elem_of_here _ _)).
      by rewrite Hv in Hall.
    + rewrite IH. split; intros Hall i' s'.
      * intros [[= -> ->]|Hin]%elem_of_cons; [by rewrite Hv|by eapply Hall].
      * intros Hin. eapply Hall. by right.
Qed.

Lemma elem_of_hashmap_iter {V} (m : gmap string V) i v :
  (i, v) ∈ hashmap_iter m ↔ m !! i = Some v.
Proof. by rewrite hashmap_iter_entries, elem_of_map_to_list. Qed.

Lemma verify_single_parsed token u s :
  parse_unverified token = Ok u → verify_single_token token s = verify_parsed_token u s.
Proof.
  intros Hu. unfold verify_single_token, verify_parsed_token.
  by rewrite str_verify_parse, Hu.
Qed.

Lemma load_secrets_lookup raw acc out :
  NoDup raw.*1 → load_secrets raw acc = Ok out →
  ∀ i, out !! i = match alookup i raw with
                  | Some hex => decode_secret hex
                  | None => acc !! i
                  end.
Proof.
  revert acc. induction raw as [|[i0 hex] raw IH]; intros acc Hnd Hload i; simpl in *.
  { by simplify_eq. }
  apply NoDup_cons in Hnd as [Hi0 Hnd].
  destruct (hex_decode hex) as [bytes|e] eqn:Hhex; simpl in Hload; [|done].
  destruct (new_from_slice bytes) as [s|e] eqn:Hs; simpl in Hload; [|done].
  rewrite (IH _ Hnd Hload). unfold decode_secret. case_decide as Hi; subst.
  - rewrite (proj2 (alookup_None i0 raw)) by done.
    rewrite lookup_insert_eq, Hhex. simpl. by rewrite Hs.
  - destruct (alookup i raw); [done|]. by rewrite lookup_insert_ne by congruence.
Qed.

Lemma load_secrets_Ok raw acc :
  (∀ i hex, (i, hex) ∈ raw → is_Some (decode_secret hex)) →
  ∃ out, load_secrets raw acc = Ok out.
Proof.
  revert acc. induction raw as [|[i0 hex] raw IH]; intros acc Hall; simpl; [eauto|].
  destruct (Hall i0 hex) as [s Hs]; [by left|]. unfold decode_secret in Hs.
  destruct (hex_decode hex) as [bytes|e]; simpl; [|done].
  destruct (new_from_slice bytes); simpl in *; [|done].
  apply IH. intros. eapply Hall. by right.
Qed.

Lemma load_secrets_valid raw acc out i hex :
  load_secrets raw acc = Ok out → (i, hex) ∈ raw → decode_secret hex ≠ None.
Proof.
  revert acc. induction raw as [|[i0 hex0] raw IH]; intros acc Hload Hin; simpl in *.
  { by apply not_elem_of_nil in Hin. }
  destruct (hex_decode hex0) as [bytes|e] eqn:Hhex; simpl in Hload; [|done].
  destruct (new_from_slice bytes) as [s|e] eqn:Hs; simpl in Hload; [|done].
  apply elem_of_cons in Hin as [[= -> ->]|Hin]; [|by eapply IH].
  unfold decode_secret. by rewrite Hhex, Hs.
Qed.
End proofs.
