(* ===== verification/Main.v ===== *)
(** Start-up, authentication and dispatch (src/src/main.rs). *)
From S2P Require Import Prelude Uint256 Lru Lighthouse Types Config Multiplexer Prog.
From S2P Require Import PayloadBuilder Fcu NewPayload Meta Jwt.

Definition MEGABYTE : Z := 1024 * 1024.

Section code.
Context `{NetworkOps} `{JwtOps}.

(** The arms of the two [match request.method.as_str()]: they name the same methods
    and differ in the handlers of the first two. *)
Definition is_forkchoice_updated (method : string) : bool :=
  String.eqb method ENGINE_FORKCHOICE_UPDATED_V1 || String.eqb method ENGINE_FORKCHOICE_UPDATED_V2
  || String.eqb method ENGINE_FORKCHOICE_UPDATED_V3.

Definition is_new_payload (method : string) : bool :=
  String.eqb method ENGINE_NEW_PAYLOAD_V1 || String.eqb method ENGINE_NEW_PAYLOAD_V2
  || String.eqb method ENGINE_NEW_PAYLOAD_V3 || String.eqb method ENGINE_NEW_PAYLOAD_V4.

Definition is_proxied (method : string) : bool :=
  String.eqb method "engine_getBlobsV1" || String.eqb method "eth_getBlockByNumber"
  || String.eqb method "eth_getBlockByHash" || String.eqb method "eth_getLogs"
  || String.eqb method "eth_call" || String.eqb method "eth_blockNumber"
  || String.eqb method ENGINE_GET_PAYLOAD_BODIES_BY_HASH_V1
  || String.eqb method ENGINE_GET_PAYLOAD_BODIES_BY_RANGE_V1
  || String.eqb method ENGINE_GET_CLIENT_VERSION_V1.

Definition is_get_payload (method : string) : bool :=
  String.eqb method ENGINE_GET_PAYLOAD_V1 || String.eqb method ENGINE_GET_PAYLOAD_V2
  || String.eqb method ENGINE_GET_PAYLOAD_V3 || String.eqb method ENGINE_GET_PAYLOAD_V4.

Definition process_client_request (multiplexer : Statics) (request : Request) :
    prog (result Response ErrorResponse) :=
  let method := req_method request in
  if is_forkchoice_updated method then handle_fcu multiplexer request
  else if is_new_payload method then handle_new_payload multiplexer request
  else if String.eqb method ETH_SYNCING then handle_syncing request
  else if String.eqb method "eth_chainId" then handle_chain_id request
  else if String.eqb method ENGINE_EXCHANGE_CAPABILITIES then handle_engine_capabilities request
  else if is_proxied method then proxy_directly request
  else if is_get_payload method then handle_get_payload request
  else Ret (Err (unsupported_method (req_id request) method)).

Definition process_controller_request (multiplexer : Statics) (request : Request) :
    prog (result Response ErrorResponse) :=
  let method := req_method request in
  if is_forkchoice_updated method then handle_controller_fcu multiplexer request
  else if is_new_payload method then handle_controller_new_payload multiplexer request
  else if String.eqb method ETH_SYNCING then handle_syncing request
  else if String.eqb method "eth_chainId" then handle_chain_id request
  else if String.eqb method ENGINE_EXCHANGE_CAPABILITIES then handle_engine_capabilities request
  else if is_proxied method then proxy_directly request
  else if is_get_payload method then handle_get_payload request
  else Ret (Err (unsupported_method (req_id request) method)).

(** The part of [AppState] that never changes; the caches are the shared state. *)
Record AppState := MkAppState {
  controller_jwt : Secret;
  client_jwt_collection : KeyCollection;
  multiplexer : Statics;
}.

Fixpoint process_client_requests (multiplexer : Statics) (requests : list Request)
    (results : list MaybeErrorResponse) : prog (list MaybeErrorResponse) :=
  match requests with
  | [] => Ret results
  | request :: requests =>
    let! res := process_client_request multiplexer request in
    process_client_requests multiplexer requests (results ++ [MaybeErrorResponse_from res])
  end.

(** [maybe_requests] is what the JSON extractor made of the body: the requests, or the
    text of the rejection. *)
Definition handle_client_json_rpc (state : AppState) (jwt_token_str : string)
    (maybe_requests : result Requests string) : prog Responses :=
  match verify (client_jwt_collection state) jwt_token_str with
  | Err e => Ret (Responses_Single (MER_Err (parse_error_generic (json_number 0) e)))
  | Ok _ =>
    match maybe_requests with
    | Err body_text =>
      Ret (Responses_Single (MER_Err (parse_error_generic (json_number 0) body_text)))
    | Ok (Requests_Single request) =>
      let! res := process_client_request (multiplexer state) request in
      Ret (Responses_Single (MaybeErrorResponse_from res))
    | Ok (Requests_Multiple requests) =>
      let! results := process_client_requests (multiplexer state) requests [] in
      Ret (Responses_Multiple results)
    end
  end.

Definition handle_controller_json_rpc (state : AppState) (jwt_token_str : string)
    (maybe_request : result Request string) : prog (result Response ErrorResponse) :=
  match verify_single_token jwt_token_str (controller_jwt state) with
  | Err e => Ret (Err (parse_error_generic (json_number 0) e))
  | Ok _ =>
    let!? request :=
      Ret (map_err (parse_error_generic (json_number 0)) maybe_request) in
    process_controller_request (multiplexer state) request
  end.

(** ** The routes *)

Inductive HttpRequest :=
| PostRoot (jwt_token_str : string) (body : result Requests string)
| PostCanonical (jwt_token_str : string) (body : result Request string)
| GetHealth.

Inductive HttpReply :=
| ClientReply (r : Responses)
| ControllerReply (r : result Response ErrorResponse)
| StatusOk.

Definition handle_health : prog HttpReply := Ret StatusOk.

Definition route (state : AppState) (r : HttpRequest) : prog HttpReply :=
  match r with
  | PostRoot token body =>
    let! r := handle_client_json_rpc state token body in Ret (ClientReply r)
  | PostCanonical token body =>
    let! r := handle_controller_json_rpc state token body in Ret (ControllerReply r)
  | GetHealth => handle_health
  end.

(** ** Start-up: every failure is an [unwrap] *)

Context `{EngineOps}.

Record Server := MkServer {
  server_state : AppState;
  server_caches : Caches;
  server_body_limit : Z;
}.

Definition main (config : Config) : outcome Server :=
  do controller_jwt_secret := unwrap (jwt_secret_from_path (controller_jwt_secret config)) in
  do client_jwt_collection := unwrap (load (client_jwt_secrets config)) in
  do multiplexer := Multiplexer_new config in
  do multiplexer := unwrap multiplexer in
  do body_limit := u64_mul (body_limit_mb config) MEGABYTE in
  Done {|
    server_state := {|
      controller_jwt := controller_jwt_secret;
      client_jwt_collection := client_jwt_collection;
      multiplexer := statics multiplexer;
    |};
    server_caches := caches multiplexer;
    server_body_limit := body_limit;
  |}.
End code.
