(* ===== verification/Methods.v ===== *)
(** The method names of the two dispatch tables of src/src/main.rs, grouped by handler,
    and that the groups are apart. *)
From S2P Require Import Prelude Uint256 Lru Lighthouse Types Config Multiplexer Prog.
From S2P Require Import PayloadBuilder Fcu NewPayload Meta Jwt Main.

Section methods.
Context `{ExtOk} `{!NetworkOps}.

Definition forkchoice_methods : list string :=
  [ENGINE_FORKCHOICE_UPDATED_V1; ENGINE_FORKCHOICE_UPDATED_V2; ENGINE_FORKCHOICE_UPDATED_V3].
Definition get_payload_methods : list string :=
  [ENGINE_GET_PAYLOAD_V1; ENGINE_GET_PAYLOAD_V2; ENGINE_GET_PAYLOAD_V3; ENGINE_GET_PAYLOAD_V4].
Definition meta_methods : list string :=
  [ETH_SYNCING; "eth_chainId"; ENGINE_EXCHANGE_CAPABILITIES].
Definition proxied_methods : list string :=
  ["engine_getBlobsV1"; "eth_getBlockByNumber"; "eth_getBlockByHash"; "eth_getLogs"; "eth_call";
   "eth_blockNumber"; ENGINE_GET_PAYLOAD_BODIES_BY_HASH_V1;
   ENGINE_GET_PAYLOAD_BODIES_BY_RANGE_V1; ENGINE_GET_CLIENT_VERSION_V1].

Lemma method_names_split :
  method_names = new_payload_methods ++ forkchoice_methods ++ get_payload_methods ++
                 meta_methods ++ proxied_methods.
Proof. done. Qed.

Lemma is_new_payload_spec m : is_new_payload m = true ↔ m ∈ new_payload_methods.
Proof.
  unfold is_new_payload, new_payload_methods. rewrite !orb_true_iff, !String.eqb_eq.
  set_solver.
Qed.

Lemma is_forkchoice_updated_spec m : is_forkchoice_updated m = true ↔ m ∈ forkchoice_methods.
Proof.
  unfold is_forkchoice_updated, forkchoice_methods. rewrite !orb_true_iff, !String.eqb_eq.
  set_solver.
Qed.

Lemma is_get_payload_spec m : is_get_payload m = true ↔ m ∈ get_payload_methods.
Proof.
  unfold is_get_payload, get_payload_methods. rewrite !orb_true_iff, !String.eqb_eq.
  set_solver.
Qed.

Lemma is_proxied_spec m : is_proxied m = true ↔ m ∈ proxied_methods.
Proof.
  unfold is_proxied, proxied_methods. rewrite !orb_true_iff, !String.eqb_eq, !elem_of_cons.
  rewrite elem_of_nil. tauto.
Qed.

Lemma forkchoice_not_new_payload m : is_forkchoice_updated m = true → is_new_payload m = false.
Proof.
  intros Hf%is_forkchoice_updated_spec. apply not_true_iff_false. intros Hn%is_new_payload_spec.
  pose proof method_names_distinct as Hnd. rewrite method_names_split in Hnd.
  apply NoDup_app in Hnd as (_ & Hnp & _). apply (Hnp _ Hn), elem_of_app. by left.
Qed.

(** The methods with a handler of its own for each endpoint. *)
Lemma driving_apart m :
  is_forkchoice_updated m = true ∨ is_new_payload m = true → is_get_payload m = false.
Proof.
  intros Hm. pose proof method_names_distinct as Hnd. rewrite method_names_split in Hnd.
  apply NoDup_app in Hnd as (_ & Hnp & Hnd). apply NoDup_app in Hnd as (_ & Hfcu & _).
  apply not_true_iff_false. intros Hg%is_get_payload_spec.
  destruct Hm as [Hf%is_forkchoice_updated_spec|Hn%is_new_payload_spec].
  - apply (Hfcu _ Hf), elem_of_app. by left.
  - apply (Hnp _ Hn), elem_of_app. right. apply elem_of_app. by left.
Qed.

(** The methods which are answered by the engine or with a constant. *)
Lemma relayed_apart m :
  m ∈ meta_methods ++ proxied_methods →
  is_forkchoice_updated m = false ∧ is_new_payload m = false ∧ is_get_payload m = false.
Proof.
  intros Hm. pose proof method_names_distinct as Hnd. rewrite method_names_split in Hnd.
  apply NoDup_app in Hnd as (_ & Hnp & Hnd). apply NoDup_app in Hnd as (_ & Hfcu & Hnd).
  apply NoDup_app in Hnd as (_ & Hget & _).
  split_and!; apply not_true_iff_false.
  - intros Hf%is_forkchoice_updated_spec. apply (Hfcu _ Hf), elem_of_app. by right.
  - intros Hn%is_new_payload_spec. apply (Hnp _ Hn). by do 2 (apply elem_of_app; right).
  - intros Hg%is_get_payload_spec. by apply (Hget _ Hg).
Qed.

Lemma meta_not_proxied m : m ∈ meta_methods → is_proxied m = false.
Proof.
  intros Hm. apply not_true_iff_false. rewrite is_proxied_spec.
  pose proof method_names_distinct as Hnd. rewrite method_names_split in Hnd.
  do 3 (apply NoDup_app in Hnd as (_ & _ & Hnd)). apply NoDup_app in Hnd as (_ & Hd & _).
  by apply Hd.
Qed.

Lemma meta_methods_distinct : NoDup meta_methods.
Proof.
  pose proof method_names_distinct as Hnd. rewrite method_names_split in Hnd.
  do 3 (apply NoDup_app in Hnd as (_ & _ & Hnd)). by apply NoDup_app in Hnd as (Hd & _ & _).
Qed.
(** The two dispatch tables differ in the handlers of the first two groups alone. *)
Lemma same_dispatch self r :
  is_forkchoice_updated (req_method r) = false → is_new_payload (req_method r) = false →
  process_client_request self r = process_controller_request self r.
Proof. intros Hf Hn. unfold process_client_request, process_controller_request. by rewrite Hf, Hn. Qed.
End methods.
