(* ===== verification/Toy.v ===== *)
(** A small concrete instance of everything outside the repository: JSON, hashes, payloads,
    tokens and a network with an empty chain behind it.  It shows that the laws the
    development assumes can hold together, and it is what the concrete runs execute on. *)
From Stdlib Require Import Ascii.
From S2P Require Import Prelude Lru RecencyList Uint256 Lighthouse Types Config Multiplexer.
From S2P Require Import Prog PayloadBuilder Fcu NewPayload Meta Jwt Main.
#[local] Open Scope Z_scope.

Inductive toy_json :=
| TNull
| TBool (b : bool)
| TNum (z : Z)
| TStr (s : string)
| TArr (l : list toy_json)
| TObj (l : list (string * toy_json)).

(** The JSON form of a payload, for every fork. *)
Record toy_payload := ToyPayload {
  tp_parent : Z;
  tp_hash : Z;
  tp_number : Z;
  tp_timestamp : Z;
  tp_gas_used : Z;
  tp_gas_limit : Z;
  tp_base_fee : U256;
}.

Record toy_attributes := ToyAttributes {
  ta_timestamp : Z;
  ta_randao : Z;
  ta_recipient : Z;
  ta_withdrawals : list Z;
  ta_root : option Z;
}.

#[local] Instance toy_attributes_eq_dec : EqDecision toy_attributes.
Proof. solve_decision. Defined.

Definition toy_types : ExtTypes := {|
  ext_uint256 := u256_ops;
  JsonValue := toy_json;
  SerdeError := string;
  Hash256 := Z;
  ExecutionBlockHash := Z;
  Address := Z;
  Bloom := unit;
  VersionedHash := Z;
  Transaction := Z;
  VariableList := λ A, list A;
  SszError := unit;
  Withdrawal := Z;
  Withdrawals := list Z;
  ExecutionRequests := Z;
  ExecutionPayloadFulu := Z;
  ChainSpec := Z * ForkName;
  PayloadAttributes := toy_attributes;
  JsonPayloadAttributesV2 := toy_attributes;
  JsonPayloadAttributesV3 := toy_attributes;
  JsonExecutionPayloadV1 := toy_payload;
  JsonExecutionPayloadV2 := toy_payload;
  JsonExecutionPayloadV3 := toy_payload;
  JsonExecutionPayloadV4 := toy_payload;
  JsonExecutionPayloadV5 := Z;
  JsonExecutionRequests := Z;
  RequestsError := unit;
  VerifyError := unit;
  BlobsBundle := unit;
  JsonBlobsBundleV1 := unit;
  PayloadStatusV1 := JsonPayloadStatusV1Status;
  ForkchoiceUpdatedResponse := JsonPayloadStatusV1Status;
  EngineError := string;
  ChainId := Z;
  EngineCapabilities := list string;
  EngineCapabilitiesResponse := list string;
  ExecutionBlockHash_eq_dec := Z.eq_dec;
  PayloadAttributes_eq_dec := toy_attributes_eq_dec;
|}.
#[local] Existing Instance toy_types.

(** ** Payloads *)

Definition toy_ep_of (fork : ForkName) (p : toy_payload) : ExecutionPayload :=
  let '(ToyPayload parent hash number time used limit fee) := p in
  match fork with
  | Capella =>
    EP_Capella (CapellaPayload.Mk parent 0 0 0 tt 0 number limit used time [] fee hash [] [])
  | Deneb =>
    EP_Deneb (DenebPayload.Mk parent 0 0 0 tt 0 number limit used time [] fee hash [] [] 0 0)
  | Electra =>
    EP_Electra (ElectraPayload.Mk parent 0 0 0 tt 0 number limit used time [] fee hash [] [] 0 0)
  | _ =>
    EP_Bellatrix (BellatrixPayload.Mk parent 0 0 0 tt 0 number limit used time [] fee hash [])
  end.

(** What the accessors read: hash, number, state root, base fee, gas used, gas limit,
    parent, timestamp. *)
Definition toy_json_of (p : ExecutionPayload) : toy_payload :=
  match p with
  | EP_Bellatrix p => ToyPayload (BellatrixPayload.parent_hash p) (BellatrixPayload.block_hash p)
      (BellatrixPayload.block_number p) (BellatrixPayload.timestamp p)
      (BellatrixPayload.gas_used p) (BellatrixPayload.gas_limit p)
      (BellatrixPayload.base_fee_per_gas p)
  | EP_Capella p => ToyPayload (CapellaPayload.parent_hash p) (CapellaPayload.block_hash p)
      (CapellaPayload.block_number p) (CapellaPayload.timestamp p)
      (CapellaPayload.gas_used p) (CapellaPayload.gas_limit p)
      (CapellaPayload.base_fee_per_gas p)
  | EP_Deneb p => ToyPayload (DenebPayload.parent_hash p) (DenebPayload.block_hash p)
      (DenebPayload.block_number p) (DenebPayload.timestamp p)
      (DenebPayload.gas_used p) (DenebPayload.gas_limit p)
      (DenebPayload.base_fee_per_gas p)
  | EP_Electra p => ToyPayload (ElectraPayload.parent_hash p) (ElectraPayload.block_hash p)
      (ElectraPayload.block_number p) (ElectraPayload.timestamp p)
      (ElectraPayload.gas_used p) (ElectraPayload.gas_limit p)
      (ElectraPayload.base_fee_per_gas p)
  | EP_Fulu h => ToyPayload 0 h 0 0 0 0 (u256_mk 0)
  end.

Definition toy_state_root (p : ExecutionPayload) : Z :=
  match p with
  | EP_Bellatrix p => BellatrixPayload.state_root p
  | EP_Capella p => CapellaPayload.state_root p
  | EP_Deneb p => DenebPayload.state_root p
  | EP_Electra p => ElectraPayload.state_root p
  | EP_Fulu _ => 0
  end.

Definition toy_set_block_hash (p : ExecutionPayload) (h : Z) : ExecutionPayload :=
  match p with
  | EP_Bellatrix p =>
    let '(BellatrixPayload.Mk a b c d e f g i j k l m _ n) := p in
    EP_Bellatrix (BellatrixPayload.Mk a b c d e f g i j k l m h n)
  | EP_Capella p =>
    let '(CapellaPayload.Mk a b c d e f g i j k l m _ n o) := p in
    EP_Capella (CapellaPayload.Mk a b c d e f g i j k l m h n o)
  | EP_Deneb p =>
    let '(DenebPayload.Mk a b c d e f g i j k l m _ n o q r) := p in
    EP_Deneb (DenebPayload.Mk a b c d e f g i j k l m h n o q r)
  | EP_Electra p =>
    let '(ElectraPayload.Mk a b c d e f g i j k l m _ n o q r) := p in
    EP_Electra (ElectraPayload.Mk a b c d e f g i j k l m h n o q r)
  | EP_Fulu _ => EP_Fulu h
  end.

(** The hash of a block: its number, its parent and its fork. *)
Definition toy_hash (p : ExecutionPayload) : Z :=
  let p := toy_json_of p in (1000 * tp_number p + tp_parent p mod 1000)%Z.

Definition toy_debug_hash (h : Z) : string := pretty h.

(** [toy_fork_name] is only printed. *)
Definition toy_fork_name (f : ForkName) : string :=
  match f with
  | Base => "base" | Altair => "altair" | Bellatrix => "bellatrix" | Capella => "capella"
  | Deneb => "deneb" | Electra => "electra" | Fulu => "fulu"
  end.

#[local] Instance toy_ops : ExtOps := {|
  json_array l := TArr l;
  json_number z := TNum z;
  json_get v k := match v with TObj l => alookup k l | _ => None end;
  debug_serde_error e := e;
  display_serde_error e := e;
  debug_block_hash := toy_debug_hash;
  debug_requests_error _ := "requests";
  debug_engine_error e := e;
  display_fork_name := toy_fork_name;
  ENGINE_NEW_PAYLOAD_V1 := "engine_newPayloadV1";
  ENGINE_NEW_PAYLOAD_V2 := "engine_newPayloadV2";
  ENGINE_NEW_PAYLOAD_V3 := "engine_newPayloadV3";
  ENGINE_NEW_PAYLOAD_V4 := "engine_newPayloadV4";
  ENGINE_FORKCHOICE_UPDATED_V1 := "engine_forkchoiceUpdatedV1";
  ENGINE_FORKCHOICE_UPDATED_V2 := "engine_forkchoiceUpdatedV2";
  ENGINE_FORKCHOICE_UPDATED_V3 := "engine_forkchoiceUpdatedV3";
  ENGINE_GET_PAYLOAD_V1 := "engine_getPayloadV1";
  ENGINE_GET_PAYLOAD_V2 := "engine_getPayloadV2";
  ENGINE_GET_PAYLOAD_V3 := "engine_getPayloadV3";
  ENGINE_GET_PAYLOAD_V4 := "engine_getPayloadV4";
  ENGINE_EXCHANGE_CAPABILITIES := "engine_exchangeCapabilities";
  ENGINE_GET_PAYLOAD_BODIES_BY_HASH_V1 := "engine_getPayloadBodiesByHashV1";
  ENGINE_GET_PAYLOAD_BODIES_BY_RANGE_V1 := "engine_getPayloadBodiesByRangeV1";
  ENGINE_GET_CLIENT_VERSION_V1 := "engine_getClientVersionV1";
  ETH_SYNCING := "eth_syncing";
  seconds_per_slot s := s.1;
  fork_name_at_slot s _ := s.2;
  ep_block_hash p := tp_hash (toy_json_of p);
  ep_block_number p := tp_number (toy_json_of p);
  ep_state_root := toy_state_root;
  ep_base_fee_per_gas p := tp_base_fee (toy_json_of p);
  ep_gas_used p := tp_gas_used (toy_json_of p);
  ep_gas_limit p := tp_gas_limit (toy_json_of p);
  ep_set_block_hash := toy_set_block_hash;
  pa_timestamp := ta_timestamp;
  pa_prev_randao := ta_randao;
  pa_suggested_fee_recipient := ta_recipient;
  pa_withdrawals a := Some (ta_withdrawals a);
  pa_parent_beacon_block_root := ta_root;
  ep_from_json j :=
    match j with
    | JEP_V1 p => toy_ep_of Bellatrix p
    | JEP_V2 p => toy_ep_of Capella p
    | JEP_V3 p => toy_ep_of Deneb p
    | JEP_V4 p => toy_ep_of Electra p
    | JEP_V5 h => EP_Fulu h
    end;
  jep_from_payload p :=
    match p with
    | EP_Bellatrix _ => JEP_V1 (toy_json_of p)
    | EP_Capella _ => JEP_V2 (toy_json_of p)
    | EP_Deneb _ => JEP_V3 (toy_json_of p)
    | EP_Electra _ => JEP_V4 (toy_json_of p)
    | EP_Fulu h => JEP_V5 h
    end;
  pa_from_json j :=
    match j with
    | JPA_V2 a =>
      ToyAttributes (ta_timestamp a) (ta_randao a) (ta_recipient a) (ta_withdrawals a) None
    | JPA_V3 a =>
      ToyAttributes (ta_timestamp a) (ta_randao a) (ta_recipient a) (ta_withdrawals a)
        (Some (default 0 (ta_root a)))
    end;
  jps_from_status st := MkJsonPayloadStatusV1 st None None;
  jfcu_from_response st :=
    MkJsonForkchoiceUpdatedV1Response (MkJsonPayloadStatusV1 st None None) None;
  execution_requests_try_from r := Ok r;
  withdrawals_from ws := ws;
  blobs_bundle_from b := b;
  chain_id_into c := c;
  capabilities_to_response c := c;
  Hash256_default := 0;
  Bloom_default := tt;
  BlobsBundle_default := tt;
  ExecutionRequests_default := 0;
  JsonExecutionRequests_default := 0;
  ExecutionBlockHash_zero := 0;
  KECCAK_EMPTY_LIST_RLP := 77;
  MaxExtraDataBytes := 32;
  MaxTransactionsPerPayload := 1048576;
  vl_new A max l := if Z.of_nat (length l) <=? max then Ok l else Err tt;
  vl_contents A l := l;
  verify_payload_block_hash r :=
    if toy_hash (npr_payload r) =? tp_hash (toy_json_of (npr_payload r)) then Ok tt else Err tt;
  verify_versioned_hashes _ := Ok tt;
  calculate_execution_block_hash p _ _ := (toy_hash p, 0);
|}.

Lemma toy_laws : ExtLaws.
Proof.
  split.
  - apply u256_laws.
  - by apply (bool_decide_unpack _); vm_compute.
  - by intros [[]|[]|[]|[]|].
  - by intros [].
  - done.
  - done.
  - done.
  - done.
  - by intros [[]|[]|[]|[]|] h.
  - by intros [[]|[]|[]|[]|] h.
  - by intros [[]|[]|[]|[]|].
  - by intros [[]|[]|[]|[]|] h h'.
  - done.
  - done.
  - intros A max l Hl. exists l. simpl. by rewrite (proj2 (Z.leb_le _ _) Hl).
  - done.
Qed.
#[local] Existing Instance toy_laws.

(** ** JSON *)

Definition toy_nums (l : list toy_json) : result (list Z) string :=
  foldr (λ v acc, match v, acc with
                  | TNum z, Ok l => Ok (z :: l)
                  | _, _ => Err "expected numbers"
                  end) (Ok []) l.

Definition toy_read_payload (v : toy_json) : result toy_payload string :=
  match json_get v "hash", json_get v "parent", json_get v "number", json_get v "timestamp" with
  | Some (TNum hash), Some (TNum parent), Some (TNum number), Some (TNum time) =>
    let limit := match json_get v "gasLimit" with Some (TNum limit) => limit | _ => 30000000 end in
    if decide (is_u64 number ∧ is_u64 limit) then
      Ok (ToyPayload parent hash number time 15000000 limit (u256_mk 1000000000))
    else Err "out of range"
  | _, _, _, _ => Err "invalid payload"
  end.

Definition toy_read_attributes (v : toy_json) : result toy_attributes string :=
  match json_get v "timestamp", json_get v "root" with
  | Some (TNum time), Some (TNum root) => Ok (ToyAttributes time 5 6 [] (Some root))
  | Some (TNum time), None => Ok (ToyAttributes time 5 6 [] None)
  | _, _ => Err "invalid attributes"
  end.

Definition toy_read_fcu {T} (attrs : toy_json → result T string) (v : toy_json) :
    result (JsonForkchoiceStateV1 * option T) string :=
  match v with
  | TArr [TArr [TNum head; TNum safe; TNum fin]; TNull] =>
    Ok (MkJsonForkchoiceStateV1 head safe fin, None)
  | TArr [TArr [TNum head; TNum safe; TNum fin]; a] =>
    match attrs a with
    | Ok a => Ok (MkJsonForkchoiceStateV1 head safe fin, Some a)
    | Err e => Err e
    end
  | _ => Err "invalid forkchoice state"
  end.

Definition toy_status_number (st : JsonPayloadStatusV1Status) : Z :=
  match st with
  | Valid => 0 | Invalid => 1 | InvalidBlockHash => 2 | Accepted => 3 | Syncing => 4
  end.

Definition toy_write_payload (p : toy_payload) : toy_json :=
  TObj [("hash", TNum (tp_hash p)); ("parent", TNum (tp_parent p));
        ("number", TNum (tp_number p)); ("timestamp", TNum (tp_timestamp p));
        ("baseFee", TNum (u256_z (tp_base_fee p)))].

#[local] Instance toy_serde : SerdeOps := {|
  de_values v := match v with TArr l => Ok l | _ => Err "expected an array" end;
  de_versioned_hashes v := match v with TArr l => toy_nums l | _ => Err "expected an array" end;
  de_hash256 v := match v with TNum z => Ok z | _ => Err "expected a number" end;
  de_execution_requests v := match v with TNum z => Ok z | _ => Err "expected a number" end;
  de_quantity v :=
    match v with
    | TNum z => if decide (is_u64 z) then Ok (MkQuantityU64 z) else Err "out of range"
    | _ => Err "expected a number"
    end;
  de_payload_v1 := toy_read_payload;
  de_payload_v2 := toy_read_payload;
  de_payload_v3 := toy_read_payload;
  de_payload_v4 := toy_read_payload;
  de_fcu_values := toy_read_fcu (λ v, Ok v);
  de_fcu_attributes := toy_read_fcu toy_read_attributes;
  de_attributes_v2 := toy_read_attributes;
  de_attributes_v3 := toy_read_attributes;
  de_units v := match v with TArr [] => Ok [] | _ => Err "expected no parameters" end;
  de_capabilities v :=
    match v with TArr [TArr l] => Ok (Tuple1 []) | _ => Err "expected a list" end;
  de_payload_id v :=
    match v with
    | TArr [TArr l] =>
      match toy_nums l with
      | Ok l => Ok (Tuple1 (MkTransparentJsonPayloadId l))
      | Err e => Err e
      end
    | _ => Err "expected a payload id"
    end;
  ser_bool b := Ok (TBool b);
  ser_value v := Ok v;
  ser_quantity q := Ok (TNum (value q));
  ser_capabilities l := Ok (TArr (TStr <$> l));
  ser_status st := Ok (TObj [("status", TNum (toy_status_number (status st)))]);
  ser_fcu_response r :=
    Ok (TObj [("status", TNum (toy_status_number (status (payload_status r))));
              ("payloadId", match payload_id r with
                            | Some i => TArr (TNum <$> transparent_payload_id i)
                            | None => TNull
                            end)]);
  ser_get_payload r :=
    Ok match r with
       | JsonGetPayloadResponseV1 p _ | JsonGetPayloadResponseV2 p _
       | JsonGetPayloadResponseV3 p _ _ _ | JsonGetPayloadResponseV4 p _ _ _ _ =>
         toy_write_payload p
       end;
|}.

Lemma toy_serde_laws : SerdeLaws.
Proof.
  split; [done| |done]. intros v q Hq. unfold from_value, de_quantity, toy_serde in Hq.
  destruct v; try done. by case_decide; simplify_eq/=.
Qed.

(** A release build, with the recency list as its cache. *)
#[local] Instance toy_ext : Ext := {|
  ext_profile := false;
  ext_types := toy_types;
  ext_ops := toy_ops;
  ext_serde := toy_serde;
  Cache := RecencyList;
  ext_lru := recency_list_ops;
|}.

#[local] Instance toy_ext_ok : ExtOk.
Proof. split; [apply toy_laws|apply toy_serde_laws|apply recency_list_laws]. Qed.

Lemma toy_read_payload_u64 v p :
  toy_read_payload v = Ok p →
  is_u64 (tp_number p) ∧ is_u64 (tp_gas_used p) ∧ is_u64 (tp_gas_limit p).
Proof.
  unfold toy_read_payload. intros Hp. repeat (case_match; simplify_eq/=; try done);
    destruct_and?; by split_and!.
Qed.

#[local] Instance toy_serde_typed : SerdeTyped.
Proof.
  split; intros v p Hp; apply toy_read_payload_u64 in Hp;
    by destruct p as [? ? ? ? ? ? ?].
Qed.

(** ** The network, the engine and the tokens *)

#[local] Instance toy_network : NetworkOps := {|
  Eth2NetworkConfig := unit;
  network_constant s := Ok (if String.eqb s "mainnet" then Some tt else None);
  network_chain_spec _ := Ok (12, Capella);
  network_genesis_time _ := Ok (Some 1000);
|}.

#[local] Instance toy_engine : EngineOps := {|
  Auth := string;
  Url := string;
  AuthError := string;
  UrlError := string;
  HttpError := string;
  debug_auth_error e := e;
  debug_url_error e := e;
  debug_http_error e := e;
  auth_new_with_path path _ _ := if String.eqb path "" then Err "no path" else Ok path;
  url_from_str s := if String.eqb s "" then Err "no url" else Ok s;
  http_json_rpc_new_with_auth _ _ _ := Ok tt;
|}.

(** A token is its signature, after the id of its key and a colon where it names one. *)
Fixpoint toy_split (s acc : string) : option (string * string) :=
  match s with
  | EmptyString => None
  | String ":"%char s => Some (acc, s)
  | String c s => toy_split s (acc +:+ String c EmptyString)
  end.

Definition toy_token (s : string) : option string * string :=
  match toy_split s "" with
  | Some (i, sig) => (Some i, sig)
  | None => (None, s)
  end.

Definition toy_verify (t : option string * string) (secret : list Z) :
    result (option string * string) string :=
  if decide (as_bytes t.2 = secret) then Ok t else Err "invalid signature".

#[local] Instance toy_jwt : JwtOps := {|
  Secret := list Z;
  UnverifiedToken := option string * string;
  VerifiedToken := option string * string;
  JwtError := string;
  display_jwt_error e := e;
  parse_unverified s := if String.eqb s "" then Err "empty token" else Ok (toy_token s);
  token_iat _ := 0;
  token_id t := t.1;
  token_clv _ := None;
  str_verify_with_key s secret :=
    if String.eqb s "" then Err "empty token" else toy_verify (toy_token s) secret;
  token_verify_with_key t secret := toy_verify t secret;
  HexError := string;
  display_hex_error e := e;
  debug_hex_error e := e;
  LengthError := string;
  display_length_error e := e;
  IoError := string;
  display_io_error e := e;
  TomlError := string;
  display_toml_error e := e;
  hex_decode s := Ok (as_bytes s);
  new_from_slice bytes := Ok bytes;
  read_to_string path := if String.eqb path "" then Err "no such file" else Ok path;
  toml_from_str s :=
    if String.eqb s "clients" then Ok (<["alice" := "alpha"]> (<["bob" := "beta"]> ∅))
    else Err "not a table";
  hashmap_iter V m := map_to_list m;
|}.

#[local] Instance toy_jwt_laws : JwtLaws.
Proof.
  split; [|done]. intros t s. simpl. by destruct (String.eqb t "").
Qed.

(** ** A configuration and the state it starts with *)

Definition toy_config : Config :=
  Config_default "ee.jwt" "controller" "clients" {| network := tt |}.

Definition toy_statics : Statics :=
  {| genesis_time := 1000; spec := (12, Capella); config := toy_config |}.

Definition toy_builder : PayloadBuilder := {|
  next_payload_id := 0;
  payload_attributes := lru_new 8;
  payload_info := lru_new 8;
  payloads := lru_new 8;
  extra_data := as_bytes "Eleel";
|}.

Definition toy_caches : Caches := {|
  fcu_cache := lru_new 64;
  new_payload_cache := lru_new 64;
  justified_block_cache := lru_new 4;
  finalized_block_cache := lru_new 4;
  payload_builder := toy_builder;
|}.

Definition toy_clients : KeyCollection :=
  {| secrets := <["alice" := as_bytes "alpha"]> (<["bob" := as_bytes "beta"]> ∅) |}.

Definition toy_state : AppState := {|
  controller_jwt := as_bytes "controller";
  client_jwt_collection := toy_clients;
  multiplexer := toy_statics;
|}.

(** An engine which accepts everything, instantly. *)
Definition toy_env : Env := {|
  env_new_payload _ _ := Ok Valid;
  env_forkchoice_updated _ _ _ := Ok Valid;
  env_chain_id _ := Ok 1;
  env_capabilities _ := Ok [];
  env_rpc_request _ _ _ := Ok TNull;
  env_latency _ := 0;
  env_others _ cs := cs;
|}.

Definition toy_world : World := MkWorld toy_caches 0 [].

(** Requests for block 7, a child of block 6. *)
Definition toy_block (number : Z) : toy_json :=
  TObj [("hash", TNum (1000 * number + (number - 1)));  ("parent", TNum (number - 1));
        ("number", TNum number); ("timestamp", TNum (1000 + 12 * number))].

Definition toy_new_payload : Request :=
  MkRequest "2.0" "engine_newPayloadV2" (TArr [toy_block 7]) (TNum 1).

Definition toy_fcu_state : JsonForkchoiceStateV1 := MkJsonForkchoiceStateV1 7006 5004 3002.

Definition toy_fcu : Request :=
  MkRequest "2.0" "engine_forkchoiceUpdatedV2"
    (TArr [TArr [TNum 7006; TNum 5004; TNum 3002]; TNull]) (TNum 2).

(** Whether a schedule can be executed, and the state it leads to, are computed. *)
Definition toy_client (r : Request) : HttpRequest := PostRoot "alice:alpha" (Ok (Requests_Single r)).
Definition toy_controller (r : Request) : HttpRequest := PostCanonical "controller" (Ok r).

Definition toy_chain_id : Request := MkRequest "2.0" "eth_chainId" (TArr []) (TNum 3).

(** The payload of block 7. *)
Definition toy_parent : ExecutionPayload :=
  toy_ep_of Capella (ToyPayload 6 7006 7 1084 15000000 30000000 (u256_mk 1000000000)).

Definition toy_npr : NewPayloadRequest :=
  match toy_parent with
  | EP_Capella p => NPR_Capella p
  | EP_Bellatrix p => NPR_Bellatrix p
  | EP_Deneb p => NPR_Deneb p [] 0
  | EP_Electra p => NPR_Electra p [] 0 0
  | EP_Fulu _ => NPR_Bellatrix (BellatrixPayload.Mk 0 0 0 0 tt 0 0 0 0 0 [] (u256_mk 0) 0 [])
  end.

(** [Import ToyInstances] in a section makes the instance the implicit one there. *)
Module ToyInstances.
#[export] Existing Instances toy_attributes_eq_dec toy_types toy_ops toy_laws toy_serde toy_ext
  toy_ext_ok toy_serde_typed toy_network toy_engine toy_jwt toy_jwt_laws.
End ToyInstances.
