(* ===== verification/AuthProps.v ===== *)
(** Authentication: which tokens are accepted, with which secrets, and what a refused
    request can do. *)
From S2P Require Import Prelude Uint256 BaseFee Lru RecencyList Lighthouse Types Config.
From S2P Require Import Multiplexer Prog Logic Shared PayloadBuilder Fcu NewPayload Meta Jwt.
From S2P Require Import Main Toy.

Section collection.
Context `{JwtLaws}.

(** No secret of the collection accepts the token. *)
Definition no_secret_accepts (keys : KeyCollection) (token : string) : Prop :=
  ∀ i s, secrets keys !! i = Some s → is_ok (verify_single_token token s) = false.

(** The fallback over all secrets. *)
Lemma try_all_Some keys token t :
  try_secrets token (hashmap_iter (secrets keys)) = Some t →
  ∃ i s, secrets keys !! i = Some s ∧ verify_single_token token s = Ok t.
Proof.
  intros (i & s & Hin & Hv)%try_secrets_Some. exists i, s.
  by rewrite elem_of_hashmap_iter in Hin.
Qed.

Lemma try_all_None keys token :
  try_secrets token (hashmap_iter (secrets keys)) = None ↔ no_secret_accepts keys token.
Proof.
  rewrite try_secrets_None. unfold no_secret_accepts.
  setoid_rewrite elem_of_hashmap_iter. done.
Qed.

Lemma no_secret_refused keys token :
  no_secret_accepts keys token → ∃ e, verify keys token = Err e.
Proof.
  intros Hno. unfold verify.
  destruct (parse_unverified token) as [u|e] eqn:Hu; simpl; [|by eexists].
  destruct (token_id u ≫= λ i, secrets keys !! i) as [s|] eqn:Hs.
  - apply bind_Some in Hs as (i & _ & Hs). specialize (Hno i s Hs).
    rewrite (verify_single_parsed token u s Hu) in Hno.
    destruct (verify_parsed_token u s); [done|by eexists].
  - apply try_all_None in Hno as ->. by eexists.
Qed.
End collection.

Section properties.
Context `{JwtLaws}.

(** C29: an accepted client token is accepted by one of the configured secrets: whichever way
    the secret was found, and in whatever order the secrets were tried. *)
Theorem verify_sound keys token t :
  verify keys token = Ok t →
  ∃ i s, secrets keys !! i = Some s ∧ verify_single_token token s = Ok t.
Proof.
  unfold verify. intros Hv.
  destruct (parse_unverified token) as [u|e] eqn:Hu; simpl in Hv; [|done].
  destruct (token_id u ≫= λ i, secrets keys !! i) as [s|] eqn:Hs.
  - apply bind_Some in Hs as (i & _ & Hs). exists i, s. split; [done|].
    by rewrite (verify_single_parsed token u s Hu).
  - destruct (try_secrets _ _) as [t'|] eqn:Ht; simplify_eq. by apply try_all_Some.
Qed.

(** C30: which secrets are tried.  A token whose id names a configured secret is checked with
    that secret alone, even if another one would accept it; any other token is accepted
    exactly when some secret accepts it. *)
Theorem verify_selects keys token u :
  parse_unverified token = Ok u →
  match token_id u ≫= λ i, secrets keys !! i with
  | Some s => verify keys token = verify_single_token token s
  | None => is_ok (verify keys token) = true ↔
            ∃ i s, secrets keys !! i = Some s ∧ is_ok (verify_single_token token s) = true
  end.
Proof.
  intros Hu. unfold verify. rewrite Hu. simpl.
  destruct (token_id u ≫= λ i, secrets keys !! i) as [s|].
  { by rewrite (verify_single_parsed token u s Hu). }
  destruct (try_secrets token (hashmap_iter (secrets keys))) as [t|] eqn:Ht; simpl.
  - split; [|done]. intros _. apply try_all_Some in Ht as (i & s & Hs & Hv). exists i, s.
    by rewrite Hv.
  - apply try_all_None in Ht. split; [done|]. intros (i & s & Hs & Hv).
    by rewrite (Ht i s Hs) in Hv.
Qed.

(** C31: loading the secrets file: it succeeds exactly when the file is a table whose every
    entry is a valid secret, and the collection then maps each key id to the secret its
    entry denotes, and nothing else. *)
Theorem load_spec path :
  match ClientJwtSecrets_from_file path with
  | Err e => load path = Err e
  | Ok raw =>
    (is_ok (load path) = true ↔ ∀ i hex, raw !! i = Some hex → is_Some (decode_secret hex)) ∧
    ∀ keys, load path = Ok keys → ∀ i, secrets keys !! i = raw !! i ≫= decode_secret
  end.
Proof.
  unfold load. destruct (ClientJwtSecrets_from_file path) as [raw|e]; simpl; [|done].
  assert (Hnd : NoDup (hashmap_iter raw).*1).
  { rewrite hashmap_iter_entries. apply NoDup_fst_map_to_list. }
  assert (Hlook : ∀ i, alookup i (hashmap_iter raw) = raw !! i).
  { intros i. destruct (raw !! i) as [hex|] eqn:Hi.
    - apply alookup_elem; [done|]. by apply elem_of_hashmap_iter.
    - apply alookup_None. intros Hin. apply list_elem_of_fmap in Hin as ([i' hex] & -> & Hin).
      apply elem_of_hashmap_iter in Hin. simpl in Hi. congruence. }
  assert (Hall : ∀ out, load_secrets (hashmap_iter raw) ∅ = Ok out →
    ∀ i, out !! i = raw !! i ≫= decode_secret).
  { intros out Hout i. rewrite (load_secrets_lookup _ _ _ Hnd Hout), Hlook.
    destruct (raw !! i); [done|]. by rewrite lookup_empty. }
  destruct (load_secrets (hashmap_iter raw) ∅) as [out|e] eqn:Hload; simpl.
  - split; [|intros keys [= <-]; by apply Hall]. split; [|done]. intros _ i hex Hi.
    specialize (Hall out eq_refl i). rewrite Hi in Hall. simpl in Hall.
    destruct (decode_secret hex) eqn:Hd; [by eexists|].
    exfalso. apply (load_secrets_valid _ _ _ _ _ Hload (proj2 (elem_of_hashmap_iter raw i hex) Hi)).
    exact Hd.
  - split; [|done]. split; [done|]. intros Hvalid.
    destruct (load_secrets_Ok (hashmap_iter raw) ∅) as [out Hout]; [|congruence].
    intros i hex Hin. by apply (Hvalid i), elem_of_hashmap_iter.
Qed.
End properties.

Section refusal.
Context `{Ext} `{!NetworkOps} `{JwtLaws}.

(** C32: a request whose token no secret of its endpoint accepts does nothing: its handler
    has finished before any event, whatever the body, and the reply is a parse error with
    id 0. *)
Theorem refused_request_has_no_effect state token :
  (no_secret_accepts (client_jwt_collection state) token →
   ∃ msg, ∀ body, route state (PostRoot token body) =
     Ret (ClientReply (Responses_Single (MER_Err
       (MkErrorResponse "2.0" (json_number 0) (MkJsonError ParseError msg)))))) ∧
  (is_ok (verify_single_token token (controller_jwt state)) = false →
   ∃ msg, ∀ body, route state (PostCanonical token body) =
     Ret (ControllerReply (Err
       (MkErrorResponse "2.0" (json_number 0) (MkJsonError ParseError msg))))).
Proof.
  split.
  - intros [e He]%no_secret_refused. exists e. intros body. simpl.
    unfold handle_client_json_rpc. by rewrite He.
  - intros Hno. simpl. unfold handle_controller_json_rpc.
    destruct (verify_single_token token (controller_jwt state)) as [t|e]; [done|].
    by exists e.
Qed.
End refusal.

Section witnesses.
Import ToyInstances.

Lemma toy_lookup i s :
  secrets toy_clients !! i = Some s → s = as_bytes "alpha" ∨ s = as_bytes "beta".
Proof.
  simpl. intros [[_ <-]|[_ [[_ <-]|[_ Hs]]%lookup_insert_Some]]%lookup_insert_Some; auto.
  by rewrite lookup_empty in Hs.
Qed.

Lemma verify_sound_witness :
  ∃ i s, secrets toy_clients !! i = Some s ∧
    verify_single_token "bob:beta" s = Ok (Some "bob", "beta").
Proof.
  refine (verify_sound toy_clients "bob:beta" (Some "bob", "beta") _). computes.
Defined.

(** Alice's signature under Bob's name is refused. *)
Lemma verify_selects_witness :
  verify toy_clients "bob:alpha" = verify_single_token "bob:alpha" (as_bytes "beta").
Proof.
  assert (Hu : parse_unverified "bob:alpha" = Ok (Some "bob", "alpha")) by computes.
  pose proof (verify_selects toy_clients "bob:alpha" _ Hu) as Hv.
  assert (Hs : token_id (Some "bob", "alpha") ≫= (λ i, secrets toy_clients !! i) =
    Some (as_bytes "beta")) by computes.
  rewrite Hs in Hv. exact Hv.
Defined.

Lemma load_spec_witness :
  ∃ keys, load "clients" = Ok keys ∧ secrets keys !! "alice" = Some (as_bytes "alpha").
Proof.
  pose proof (load_spec "clients") as Hl.
  assert (Hraw : ClientJwtSecrets_from_file "clients" =
    Ok (<["alice" := "alpha"]> (<["bob" := "beta"]> ∅))) by computes.
  assert (Hk : load "clients" = Ok toy_clients) by computes.
  rewrite Hraw in Hl. destruct Hl as [_ Hl]. exists toy_clients. split; [exact Hk|].
  rewrite (Hl _ Hk). computes.
Defined.

Lemma refused_request_has_no_effect_witness :
  ∃ msg, ∀ body, route toy_state (PostRoot "carol:gamma" body) =
    Ret (ClientReply (Responses_Single (MER_Err
      (MkErrorResponse "2.0" (TNum 0) (MkJsonError ParseError msg))))).
Proof.
  refine (proj1 (refused_request_has_no_effect toy_state "carol:gamma") _).
  intros i s [->| ->]%toy_lookup; reflexivity.
Defined.
End witnesses.
