(* ===== verification/System.v ===== *)
(** The server: any number of requests in flight over one shared state.

    A [Sys] holds the caches, who holds which mutex, the clock, the history of engine
    calls and the handlers of the requests received so far.  One labelled step receives a
    request, lets time pass, lets one handler perform its next event, or drops a handler
    at whatever point it has reached (its connection is gone); [apply_label] executes a
    step, so that a schedule can be run.  A blocked lock cannot step, a sleep only steps
    once its time has come, and the engine may answer anything.

    The second half proves the logic sound for every schedule. *)
From S2P Require Import Prelude Uint256 Lru Lighthouse Types Config Multiplexer Prog Logic.
From S2P Require Import Shared PayloadBuilder Fcu NewPayload Meta Jwt Main.

Section system.
Context `{NetworkOps} `{JwtOps}.

Inductive Answer :=
| NoAnswer
| AnsNewPayload (a : result PayloadStatusV1 EngineError)
| AnsForkchoiceUpdated (a : result ForkchoiceUpdatedResponse EngineError)
| AnsChainId (a : result ChainId EngineError)
| AnsCapabilities (a : result EngineCapabilities EngineError)
| AnsRpcRequest (a : result JsonValue EngineError).

Definition role_of (r : HttpRequest) : Role :=
  match r with
  | PostRoot _ _ | GetHealth => RClient
  | PostCanonical _ _ => RController
  end.

Record Task := MkTask { task_request : HttpRequest; task_prog : prog HttpReply }.

(** What the events of a handler read and write. *)
Record Mem := MkMem {
  mem_caches : Caches;
  mem_locks : mutex → option nat;
  mem_clock : Z;
  mem_hist : Hist;
}.

Record Sys := MkSys { sys_mem : Mem; sys_tasks : gmap nat Task }.

Definition set_lock (m : mutex) (o : option nat) (locks : mutex → option nat) :
    mutex → option nat :=
  λ m', if decide (m' = m) then o else locks m'.

(** Unwinding, and dropping the future of a task, drops the guards it holds. *)
Definition drop_guards (t : nat) (locks : mutex → option nat) : mutex → option nat :=
  λ m, if decide (locks m = Some t) then None else locks m.

Definition mem_call (role : Role) (c : ElCall) (s : Mem) : Mem :=
  MkMem (mem_caches s) (mem_locks s) (mem_clock s) ((role, c) :: mem_hist s).

Definition apply_ev {A} (e : ev A) (t : nat) (role : Role) (ans : Answer) (s : Mem) :
    option (A * Mem) :=
  match e in ev A return option (A * Mem) with
  | ELock m =>
    match mem_locks s m with
    | None => Some (tt, MkMem (mem_caches s) (set_lock m (Some t) (mem_locks s))
                          (mem_clock s) (mem_hist s))
    | Some _ => None
    end
  | EUnlock m =>
    if decide (mem_locks s m = Some t) then
      Some (tt, MkMem (mem_caches s) (set_lock m None (mem_locks s))
                  (mem_clock s) (mem_hist s))
    else None
  | EAccess m f =>
    if decide (mem_locks s m = Some t) then
      let r := f (get_guarded m (mem_caches s)) in
      Some (r.1, MkMem (set_guarded m r.2 (mem_caches s)) (mem_locks s)
                   (mem_clock s) (mem_hist s))
    else None
  | ENewPayload r =>
    match ans with
    | AnsNewPayload a => Some (a, mem_call role (CallNewPayload r a) s)
    | _ => None
    end
  | EForkchoiceUpdated st attrs =>
    match ans with
    | AnsForkchoiceUpdated a => Some (a, mem_call role (CallForkchoiceUpdated st attrs a) s)
    | _ => None
    end
  | EChainId _ =>
    match ans with
    | AnsChainId a => Some (a, mem_call role (CallChainId a) s)
    | _ => None
    end
  | ECapabilities _ =>
    match ans with
    | AnsCapabilities a => Some (a, mem_call role (CallCapabilities a) s)
    | _ => None
    end
  | ERpcRequest m ps _ =>
    match ans with
    | AnsRpcRequest a => Some (a, mem_call role (CallRpcRequest m ps a) s)
    | _ => None
    end
  | ENow => Some (mem_clock s, s)
  | ESleepUntil d => if decide (d ≤ mem_clock s)%Z then Some (tt, s) else None
  end.

(** The history records every call, with its answer, and nothing else. *)
Lemma apply_ev_hist {A} (e : ev A) t role ans s a s' :
  apply_ev e t role ans s = Some (a, s') →
  mem_hist s' = match call_of e a with
                | Some c => (role, c) :: mem_hist s
                | None => mem_hist s
                end.
Proof. destruct e; simpl; intros Hev; cases; by simplify_eq. Qed.

Inductive label :=
| LReceive (t : nat) (r : HttpRequest)
| LTick (d : Z)
| LRun (t : nat) (ans : Answer)
| LCancel (t : nat).

Definition apply_prog (p : prog HttpReply) (t : nat) (role : Role) (ans : Answer) (s : Mem) :
    option (prog HttpReply * Mem) :=
  match p with
  | Ret _ | OutOfFuel => None
  | Panic m =>
    Some (Panic m, MkMem (mem_caches s) (drop_guards t (mem_locks s)) (mem_clock s) (mem_hist s))
  | Vis e k => '(a, s') ← apply_ev e t role ans s; Some (k a, s')
  end.

Definition apply_label (state : AppState) (l : label) (s : Sys) : option Sys :=
  match l with
  | LReceive t r =>
    match sys_tasks s !! t with
    | None => Some (MkSys (sys_mem s) (<[t := MkTask r (route state r)]> (sys_tasks s)))
    | Some _ => None
    end
  | LTick d =>
    if decide (0 ≤ d)%Z then
      let m := sys_mem s in
      Some (MkSys (MkMem (mem_caches m) (mem_locks m) (mem_clock m + d) (mem_hist m))
              (sys_tasks s))
    else None
  | LRun t ans =>
    task ← sys_tasks s !! t;
    '(p, m) ← apply_prog (task_prog task) t (role_of (task_request task)) ans (sys_mem s);
    Some (MkSys m (<[t := MkTask (task_request task) p]> (sys_tasks s)))
  | LCancel t =>
    _ ← sys_tasks s !! t;
    let m := sys_mem s in
    Some (MkSys (MkMem (mem_caches m) (drop_guards t (mem_locks m)) (mem_clock m) (mem_hist m))
            (delete t (sys_tasks s)))
  end.

Definition sys_step (state : AppState) (s s' : Sys) : Prop :=
  ∃ l, apply_label state l s = Some s'.

Definition sys_init (cs : Caches) (now : Z) : Sys :=
  MkSys (MkMem cs (λ _, None) now []) ∅.

(** States reached from the caches [cs] by some schedule. *)
Definition reachable (state : AppState) (cs : Caches) (s : Sys) : Prop :=
  ∃ now, rtc (sys_step state) (sys_init cs now) s.

(** Executing a schedule. *)
Fixpoint run_labels (state : AppState) (ls : list label) (s : Sys) : option Sys :=
  match ls with
  | [] => Some s
  | l :: ls => s' ← apply_label state l s; run_labels state ls s'
  end.

Lemma run_labels_nsteps state ls s s' :
  run_labels state ls s = Some s' → nsteps (sys_step state) (length ls) s s'.
Proof.
  revert s. induction ls as [|l ls IH]; intros s; simpl; [intros [= ->]; constructor|].
  destruct (apply_label state l s) as [s1|] eqn:Hl; simpl; [|done].
  intros Hrun. econstructor; [by exists l|by apply IH].
Qed.

(** A task which runs alone: [n] scheduler turns, the engine giving [ans]. *)
Definition turns (t : nat) (ans : Answer) (n : nat) : list label := replicate n (LRun t ans).

(** * Soundness of the shared-state logic *)

Definition mem_known (s : Mem) : known := Known (mem_hist s) (mem_clock s).

Section soundness.
Context (state : AppState) (I : Caches → Hist → Prop)
        (Φ : HttpRequest → exit HttpReply → known → Prop).

Definition task_ok (k : known) (task : Task) : Prop :=
  ∃ k0, known_le k0 k ∧
    wp (shared (role_of (task_request task)) I) (task_prog task) k0 (Φ (task_request task)).

Definition sys_ok (s : Sys) : Prop :=
  I (mem_caches (sys_mem s)) (mem_hist (sys_mem s)) ∧
  map_Forall (λ _, task_ok (mem_known (sys_mem s))) (sys_tasks s).

Lemma task_ok_le k k' task : known_le k k' → task_ok k task → task_ok k' task.
Proof. intros Hle (k0 & Hk0 & Hwp). exists k0. split; [by etrans|done]. Qed.

Lemma shared_ev_sound {A} (e : ev A) t role ans s a s' k K :
  apply_ev e t role ans s = Some (a, s') →
  known_le k (mem_known s) → I (mem_caches s) (mem_hist s) →
  shared_spec role I e k K →
  I (mem_caches s') (mem_hist s') ∧ known_le (mem_known s) (mem_known s') ∧
  ∃ k', known_le k' (mem_known s') ∧ K a k'.
Proof.
  intros Hev Hk HI Hspec.
  assert (Hrec : ∀ c, known_le (mem_known s) (mem_known (mem_call role c s)))
    by (intros c; apply (record_call_le role c)).
  destruct e; simpl in *; unfold el_call_spec in *; cases; simplify_eq/=.
  all: try (edestruct (Hspec (mem_known s)) as [HI' HK]; [exact Hk|];
    split; [by apply HI'|]; split; [apply Hrec|]; eexists; split; [|exact HK]; done).
  3: { destruct (Hspec (mem_known s) (mem_caches s) Hk HI) as [HI' HK].
       split; [done|]. split; [reflexivity|]. exists (mem_known s). by split. }
  all: split; [done|]; split; [reflexivity|].
  all: exists (mem_known s) || exists (mem_known s'); split; [reflexivity|].
  all: by apply (Hspec (mem_known _)).
Qed.

Hypothesis routes_ok : ∀ r k, wp (shared (role_of r) I) (route state r) k (Φ r).

Lemma sys_ok_step s s' : sys_ok s → sys_step state s s' → sys_ok s'.
Proof.
  intros [HI Htasks] [l Hl]. destruct l as [t r|d|t ans|t]; simpl in Hl.
  - cases. split; [done|]. apply map_Forall_insert_2; [|done].
    exists (mem_known (sys_mem s)). split; [done|]. apply routes_ok.
  - cases. split; [done|]. eapply map_Forall_impl; [exact Htasks|].
    intros i task. apply task_ok_le. split; simpl; [done|lia].
  - apply bind_Some in Hl as (task & Ht & Hl).
    apply bind_Some in Hl as ([p m] & Hp & [= <-]).
    pose proof (map_Forall_lookup_1 _ _ _ _ Htasks Ht) as (k0 & Hk0 & Hwp).
    destruct (task_prog task) as [r|msg| |X e c]; simpl in *; [done| |done|].
    + injection Hp as <- <-. split; [done|]. apply map_Forall_insert_2; [|done].
      by exists k0.
    + apply bind_Some in Hp as ([a m'] & He & [= <- <-]).
      destruct (shared_ev_sound _ _ _ _ _ _ _ _ _ He Hk0 HI Hwp)
        as (HI' & Hle & k' & Hk' & HK).
      split; [done|]. apply map_Forall_insert_2.
      * by exists k'.
      * eapply map_Forall_impl; [exact Htasks|]. intros i task'. by apply task_ok_le.
  - apply bind_Some in Hl as (task & Ht & [= <-]). split; [done|]. by apply map_Forall_delete.
Qed.

Lemma shared_sound cs s :
  I cs [] → reachable state cs s →
  I (mem_caches (sys_mem s)) (mem_hist (sys_mem s)) ∧
  ∀ t task, sys_tasks s !! t = Some task →
    ∃ k, known_le k (mem_known (sys_mem s)) ∧
         wp (shared (role_of (task_request task)) I) (task_prog task) k
            (Φ (task_request task)).
Proof.
  intros Hcs [now Hr]. assert (Hok : sys_ok s).
  { eapply (rtc_ind_r (λ s, sys_ok s)); [|intros; by eapply sys_ok_step|exact Hr].
    split; [done|]. apply map_Forall_empty. }
  destruct Hok as [HI Htasks]. split; [done|].
  intros t task Ht. exact (map_Forall_lookup_1 _ _ _ _ Htasks Ht).
Qed.
End soundness.
End system.
