(* ===== verification/Seen.v ===== *)
(** What a handler has seen of the payload builder.

    [watching σ] adds to an instance of the program logic the states in which the handler
    itself has left the builder.  Other requests may change the builder afterwards; that it
    was in such a state at some point of the schedule stays true.  So a reply can be traced to
    the builder's state at an earlier time. *)
From S2P Require Import Prelude Uint256 Lru Lighthouse Types Config Multiplexer Prog Logic.
From S2P Require Import Shared PayloadBuilder Fcu NewPayload Meta Jwt Main System.

(** * The logic *)

Section logic.
Context `{NetworkOps}.

Definition see (m : mutex) : guarded m → list PayloadBuilder → list PayloadBuilder :=
  match m with
  | MBuilder => λ b seen, b :: seen
  | MFcu | MNewPayload | MJustified | MFinalized => λ _ seen, seen
  end.

(** The event answers [a] and leaves the builders [seen']. *)
Definition sees {A} (e : ev A) (seen : list PayloadBuilder) :
    A → list PayloadBuilder → Prop :=
  match e in ev A return A → list PayloadBuilder → Prop with
  | EAccess m f => λ a seen', ∃ v, a = (f v).1 ∧ seen' = see m (f v).2 seen
  | ELock _ | EUnlock _ => λ _ seen', seen' = seen
  | ENewPayload _ => λ _ seen', seen' = seen
  | EForkchoiceUpdated _ _ => λ _ seen', seen' = seen
  | EChainId _ => λ _ seen', seen' = seen
  | ECapabilities _ => λ _ seen', seen' = seen
  | ERpcRequest _ _ _ => λ _ seen', seen' = seen
  | ENow => λ _ seen', seen' = seen
  | ESleepUntil _ => λ _ seen', seen' = seen
  end.

Program Definition seeing : EvSpec (list PayloadBuilder) := {|
  ev_spec A e seen K := ∀ a seen', sees e seen a seen' → K a seen';
|}.
Next Obligation. naive_solver. Qed.

Program Definition watching {S} (σ : EvSpec S) : EvSpec (S * list PayloadBuilder) := {|
  ev_spec A e s K :=
    ev_spec σ e s.1 (λ a s', ∀ seen', sees e s.2 a seen' → K a (s', seen'));
|}.
Next Obligation.
  intros S σ A e s K K' HK. apply ev_spec_mono. intros a s' Hs seen' Hsees. by apply HK, Hs.
Qed.

(** A program satisfies both. *)
Lemma wp_watching {S R} (σ : EvSpec S) (p : prog R) s seen (Q : exit R → S → Prop)
    (Q' : exit R → list PayloadBuilder → Prop) :
  wp σ p s Q → wp seeing p seen Q' →
  wp (watching σ) p (s, seen) (λ x s', Q x s'.1 ∧ Q' x s'.2).
Proof.
  revert s seen. induction p as [r|m| |X e k IH]; intros s seen; simpl; [done..|].
  intros Hσ Hseen. eapply ev_spec_mono; [|exact Hσ]. intros a s' Hk seen' Hsees.
  apply IH; [exact Hk|]. by apply Hseen.
Qed.

Lemma seeing_True {R} (p : prog R) seen : wp seeing p seen (λ _ _, True).
Proof. revert seen. induction p as [r|m| |X e k IH]; intros seen; simpl; [done..|]. eauto. Qed.

Lemma wp_unwatched {S R} (σ : EvSpec S) (p : prog R) s seen (Q : exit R → S → Prop) :
  wp σ p s Q → wp (watching σ) p (s, seen) (λ x s', Q x s'.1).
Proof.
  intros Hp. eapply wp_mono; [exact (wp_watching σ p s seen Q _ Hp (seeing_True p seen))|].
  by intros x s' [HQ _].
Qed.

Lemma seeing_with_lock {A} m (body : prog A) seen (Q : exit A → list PayloadBuilder → Prop) :
  wp seeing body seen Q → wp seeing (with_lock m body) seen Q.
Proof.
  intros Hbody [] s1 ->. simpl. apply wp_bind. eapply wp_mono; [exact Hbody|].
  intros [a|msg|] s2 Hx; [|done..]. intros [] s3 ->. exact Hx.
Qed.

Lemma seeing_access {A} m (f : guarded m → A * guarded m) seen
    (Q : exit A → list PayloadBuilder → Prop) :
  (∀ v, Q (Returned (f v).1) (see m (f v).2 seen)) → wp seeing (access m f) seen Q.
Proof. intros HQ a s (v & -> & ->). apply HQ. Qed.
End logic.

(** * Soundness *)

Section soundness.
Context `{NetworkOps} `{JwtOps}.
Variable state : AppState.

(** The builder was in the state [b] on the way of the [n] steps to [s]. *)
Definition past (cs : Caches) (now : Z) (n : nat) (s : Sys) (b : PayloadBuilder) : Prop :=
  ∃ m k s0, m + k = n ∧ nsteps (sys_step state) m (sys_init cs now) s0 ∧
    nsteps (sys_step state) k s0 s ∧ payload_builder (mem_caches (sys_mem s0)) = b.

Lemma past_step cs now n s s' b :
  sys_step state s s' → past cs now n s b → past cs now (S n) s' b.
Proof.
  intros Hs (m & k & s0 & <- & Hm & Hk & Hb). exists m, (S k), s0.
  split_and!; [lia|done| |done]. by eapply nsteps_r.
Qed.

Lemma past_now cs now n s :
  nsteps (sys_step state) n (sys_init cs now) s →
  past cs now n s (payload_builder (mem_caches (sys_mem s))).
Proof. intros Hn. exists n, 0, s. split_and!; [lia|done|constructor|done]. Qed.

Lemma apply_ev_sees {A} (e : ev A) t role ans s a s' seen :
  apply_ev e t role ans s = Some (a, s') →
  ∃ seen', sees e seen a seen' ∧
    (seen' = seen ∨ seen' = payload_builder (mem_caches s') :: seen).
Proof.
  intros He. destruct e as [m|m|m X f| | | | | | |]; simpl in *; cases; simplify_eq;
    try (exists seen; split; [done|by left]).
  eexists. split; [by eexists|]. destruct m; simpl; auto.
Qed.

Context (I : Caches → Hist → Prop)
        (Φ : HttpRequest → exit HttpReply → known * list PayloadBuilder → Prop).

Definition task_watched (cs : Caches) (now : Z) (n : nat) (s : Sys) (task : Task) : Prop :=
  ∃ k seen, known_le k (mem_known (sys_mem s)) ∧ Forall (past cs now n s) seen ∧
    wp (watching (shared (role_of (task_request task)) I)) (task_prog task) (k, seen)
       (Φ (task_request task)).

Lemma task_watched_step cs now n s s' task :
  sys_step state s s' → known_le (mem_known (sys_mem s)) (mem_known (sys_mem s')) →
  task_watched cs now n s task → task_watched cs now (S n) s' task.
Proof.
  intros Hs Hle (k & seen & Hk & Hseen & Hwp). exists k, seen.
  split_and!; [by etrans| |done]. eapply Forall_impl; [exact Hseen|].
  intros b. by apply past_step.
Qed.

Hypothesis routes_watched : ∀ r k,
  wp (watching (shared (role_of r) I)) (route state r) (k, []) (Φ r).

Definition sys_watched (cs : Caches) (now : Z) (n : nat) (s : Sys) : Prop :=
  I (mem_caches (sys_mem s)) (mem_hist (sys_mem s)) ∧
  map_Forall (λ _, task_watched cs now n s) (sys_tasks s).

Lemma sys_watched_step cs now n s s' :
  nsteps (sys_step state) n (sys_init cs now) s → sys_watched cs now n s →
  sys_step state s s' → sys_watched cs now (S n) s'.
Proof.
  intros Hn [HI Htasks] Hstep. pose proof Hstep as [l Hl].
  assert (Hothers : known_le (mem_known (sys_mem s)) (mem_known (sys_mem s')) →
    map_Forall (λ _, task_watched cs now (S n) s') (sys_tasks s)).
  { intros Hle. eapply map_Forall_impl; [exact Htasks|]. intros i task.
    by apply task_watched_step. }
  destruct l as [t r|d|t ans|t]; simpl in Hl.
  - cases. split; [done|]. apply map_Forall_insert_2; [|by apply Hothers].
    exists (mem_known (sys_mem s)), []. split_and!; [done|constructor|apply routes_watched].
  - cases. split; [done|]. apply Hothers. split; simpl; [done|lia].
  - apply bind_Some in Hl as (task & Ht & Hl).
    apply bind_Some in Hl as ([p m] & Hp & [= <-]).
    pose proof (map_Forall_lookup_1 _ _ _ _ Htasks Ht) as (k0 & seen & Hk0 & Hseen & Hwp).
    assert (Hpast : ∀ s', sys_step state s s' → Forall (past cs now (S n) s') seen).
    { intros s1 Hs1. eapply Forall_impl; [exact Hseen|]. intros b. by apply past_step. }
    destruct (task_prog task) as [r|msg| |X e c]; simpl in *; [done| |done|].
    + injection Hp as <- <-. split; [done|]. apply map_Forall_insert_2; [|by apply Hothers].
      exists k0, seen. split_and!; [done|by apply Hpast|done].
    + apply bind_Some in Hp as ([a m'] & He & [= <- <-]).
      destruct (shared_ev_sound _ _ _ _ _ _ _ _ _ _ He Hk0 HI Hwp)
        as (HI' & Hle & k' & Hk' & HK).
      destruct (apply_ev_sees e t _ ans _ a m' seen He) as (seen' & Hsees & Hseen').
      split; [done|]. apply map_Forall_insert_2; [|by apply Hothers].
      exists k', seen'. split_and!; [done| |by apply HK].
      destruct Hseen' as [->| ->]; [by apply Hpast|]. constructor; [|by apply Hpast].
      eapply (past_now _ _ _ (MkSys m' _)). by eapply nsteps_r.
  - apply bind_Some in Hl as (task & Ht & [= <-]). split; [done|].
    apply map_Forall_delete. by apply Hothers.
Qed.

(** In every state each task satisfies its specification, and the builder was in each of
    the states the task has seen. *)
Lemma watching_sound cs now n s :
  I cs [] → nsteps (sys_step state) n (sys_init cs now) s →
  ∀ t task, sys_tasks s !! t = Some task → task_watched cs now n s task.
Proof.
  intros Hcs Hn. assert (Hok : sys_watched cs now n s).
  { revert s Hn. induction n as [|n IH]; intros s Hn.
    - inversion Hn; subst. split; [done|]. apply map_Forall_empty.
    - apply nsteps_inv_r in Hn as (s1 & Hn & Hs). eapply sys_watched_step; [|by apply IH|]; done. }
  intros t task. apply Hok.
Qed.
End soundness.
