(* ===== verification/Deadlock.v ===== *)
(** Lock discipline of every handler, and the absence of deadlocks it gives. *)
From S2P Require Import Prelude Uint256 Lru Lighthouse Types Config Multiplexer Prog Logic.
From S2P Require Import Shared PayloadBuilder Fcu NewPayload Meta Jwt Main System.

(** * Every handler follows the discipline *)

Ltac solve_rank := repeat constructor; simpl; lia.
Ltac locks :=
  repeat first
    [ done
    | apply disciplined_lift_outcome
    | apply disciplined_with_lock; [solve_rank|]
    | apply disciplined_access; set_solver
    | apply disciplined_poll_until
    | apply disciplined_bind_result; [|intros]
    | apply disciplined_bind; [|intros]
    | case_match ].

Section handlers.
Context `{NetworkOps} `{JwtOps}.
Variable self : Statics.

Lemma register_attributes_locks h pa : disciplined [] (register_attributes self h pa).
Proof. unfold register_attributes. locks. Qed.

Lemma get_existing_payload_id_locks h pa : disciplined [] (get_existing_payload_id h pa).
Proof. unfold get_existing_payload_id. locks. Qed.

Lemma register_canonical_payload_locks p st :
  disciplined [] (register_canonical_payload p st).
Proof. unfold register_canonical_payload, modify. locks. Qed.

Lemma get_cached_fcu_locks fcu d : disciplined [] (get_cached_fcu self fcu d).
Proof. unfold get_cached_fcu. locks. Qed.

Lemma get_cached_payload_status_locks h d : disciplined [] (get_cached_payload_status h d).
Proof. unfold get_cached_payload_status. locks. Qed.

(** A call of the engine, with no lock held. *)
Lemma trigger_locks {A} (e : ev A) :
  (∀ K, (∀ a, K a []) → lock_order_spec e [] K) → disciplined [] (trigger e).
Proof. intros He. by apply He. Qed.

Lemma controller_fcu_status_locks id fcu :
  disciplined [] (controller_fcu_status self id fcu).
Proof.
  unfold controller_fcu_status, modify.
  apply disciplined_bind; [apply get_cached_fcu_locks|]. intros [st|]; [done|].
  apply disciplined_bind; [apply trigger_locks; by split|]. intros. locks.
Qed.

Lemma handle_controller_fcu_locks r : disciplined [] (handle_controller_fcu self r).
Proof.
  unfold handle_controller_fcu. apply disciplined_bind_result; [done|].
  intros [id [fcu attrs]]. apply disciplined_bind_result; [done|]. intros opt.
  apply disciplined_bind_result; [apply controller_fcu_status_locks|]. intros st.
  apply disciplined_bind_result; [|done]. destruct opt; [|done].
  apply disciplined_bind; [apply register_attributes_locks|]. intros. locks.
Qed.

Lemma handle_fcu_locks r : disciplined [] (handle_fcu self r).
Proof.
  unfold handle_fcu, client_fcu_status. apply disciplined_bind_result; [done|].
  intros [id [fcu attrs]]. apply disciplined_bind.
  - apply disciplined_bind; [apply disciplined_poll_until, get_cached_fcu_locks|].
    intros [st|]; [done|]. apply disciplined_bind; [apply get_cached_fcu_locks|].
    intros. locks.
  - intros st. apply disciplined_bind; [|done]. destruct attrs; [|done].
    apply disciplined_bind; [apply get_existing_payload_id_locks|]. intros. locks.
Qed.

Lemma handle_controller_new_payload_locks r :
  disciplined [] (handle_controller_new_payload self r).
Proof.
  unfold handle_controller_new_payload, controller_new_payload_status, modify.
  apply disciplined_bind_result; [apply disciplined_lift_outcome|]. intros d.
  apply disciplined_bind; [apply disciplined_lift_outcome|]. intros npr.
  apply disciplined_bind_result; [|done].
  apply disciplined_bind; [apply get_cached_payload_status_locks|]. intros [st|]; [done|].
  apply disciplined_bind; [apply trigger_locks; by split|]. intros [st|e]; [|done].
  apply disciplined_bind; [locks|]. intros _.
  apply disciplined_bind; [apply register_canonical_payload_locks|done].
Qed.

Lemma handle_new_payload_locks r : disciplined [] (handle_new_payload self r).
Proof.
  unfold handle_new_payload, client_new_payload_status, is_recent_payload,
    highest_cached_payload_number.
  apply disciplined_bind_result; [apply disciplined_lift_outcome|]. intros d.
  apply disciplined_bind; [apply disciplined_lift_outcome|]. intros npr.
  case_match; [|done]. apply disciplined_bind_result; [|done].
  apply disciplined_bind; [locks|]. intros recent.
  apply disciplined_bind.
  - destruct recent; [|done]. apply disciplined_poll_until, get_cached_payload_status_locks.
  - intros [st|]; [done|].
    apply disciplined_bind; [apply get_cached_payload_status_locks|]. intros. locks.
Qed.

Lemma handle_get_payload_locks r : disciplined [] (handle_get_payload r).
Proof. unfold handle_get_payload, get_payload. locks. Qed.

Lemma meta_locks r :
  disciplined [] (handle_syncing r) ∧ disciplined [] (handle_chain_id r) ∧
  disciplined [] (handle_engine_capabilities r) ∧ disciplined [] (proxy_directly r).
Proof.
  unfold handle_syncing, handle_chain_id, handle_engine_capabilities, proxy_directly.
  split_and!; repeat first
    [ done
    | apply disciplined_bind_result; [|intros]
    | apply disciplined_bind; [apply trigger_locks; by split|intros]
    | case_match ].
Qed.

Lemma process_client_request_locks r : disciplined [] (process_client_request self r).
Proof.
  destruct (meta_locks r) as (?&?&?&?). unfold process_client_request.
  repeat case_match; auto using handle_fcu_locks, handle_new_payload_locks,
    handle_get_payload_locks; done.
Qed.

Lemma process_controller_request_locks r : disciplined [] (process_controller_request self r).
Proof.
  destruct (meta_locks r) as (?&?&?&?). unfold process_controller_request.
  repeat case_match; auto using handle_controller_fcu_locks,
    handle_controller_new_payload_locks, handle_get_payload_locks; done.
Qed.

Lemma process_client_requests_locks rs acc :
  disciplined [] (process_client_requests self rs acc).
Proof.
  revert acc. induction rs as [|r rs IH]; intros acc; simpl; [done|].
  apply disciplined_bind; [apply process_client_request_locks|]. intros. apply IH.
Qed.
End handlers.

Section routes.
Context `{NetworkOps} `{JwtOps}.

Lemma route_locks state r : disciplined [] (route state r).
Proof.
  destruct r as [token body|token body|]; simpl; [..|done].
  - apply disciplined_bind; [|done]. unfold handle_client_json_rpc.
    case_match; [|done]. case_match; [|done]. case_match.
    + apply disciplined_bind; [apply process_client_request_locks|done].
    + apply disciplined_bind; [apply process_client_requests_locks|done].
  - apply disciplined_bind; [|done]. unfold handle_controller_json_rpc.
    case_match; [|done]. apply disciplined_bind_result; [done|].
    intros. apply process_controller_request_locks.
Qed.

(** * The discipline, at the level of the whole server *)

(** The locks a task holds are those its remaining program accounts for. *)
Definition locks_ok (locks : mutex → option nat) (t : nat) (task : Task) : Prop :=
  match task_prog task with
  | Panic _ => True
  | p => ∃ held, wp lock_order p held (keeps_locks []) ∧ NoDup held ∧
                 ∀ m, locks m = Some t ↔ m ∈ held
  end.

Definition sys_locks_ok (s : Sys) : Prop :=
  (∀ t task, sys_tasks s !! t = Some task → locks_ok (mem_locks (sys_mem s)) t task) ∧
  (∀ m t, mem_locks (sys_mem s) m = Some t → is_Some (sys_tasks s !! t)).

(** A step of task [t] only changes what [t] holds. *)
Definition locks_frame (t : nat) (locks locks' : mutex → option nat) : Prop :=
  ∀ t' m, t' ≠ t → (locks' m = Some t' ↔ locks m = Some t').

Lemma locks_ok_frame t t' locks locks' task :
  locks_frame t locks locks' → t' ≠ t → locks_ok locks t' task → locks_ok locks' t' task.
Proof.
  intros Hf Hne. unfold locks_ok.
  destruct (task_prog task); try done; intros (held & Hwp & Hnd & Hheld); exists held;
    (do 2 (split; [done|])); intros m; by rewrite (Hf t' m Hne).
Qed.

Lemma locks_ok_intro {locks t r p} held :
  wp lock_order p held (keeps_locks []) → NoDup held → (∀ m, locks m = Some t ↔ m ∈ held) →
  locks_ok locks t (MkTask r p).
Proof. intros. destruct p; simpl; try done; by exists held. Qed.

(** One event of a disciplined task. *)
Lemma lock_ev_sound {A} (e : ev A) t role ans s a s' held K :
  apply_ev e t role ans s = Some (a, s') →
  NoDup held → (∀ m, mem_locks s m = Some t ↔ m ∈ held) →
  lock_order_spec e held K →
  locks_frame t (mem_locks s) (mem_locks s') ∧
  ∃ held', NoDup held' ∧ (∀ m, mem_locks s' m = Some t ↔ m ∈ held') ∧ K a held'.
Proof.
  intros Hev Hnd Hheld Hspec. unfold locks_frame.
  destruct e; simpl in *; cases; simplify_eq/=; unfold set_lock;
    try (destruct Hspec as [-> HK]; split; [done|]; exists []; by split_and!).
  - destruct Hspec as [Hrank HK]. split.
    { intros t' m' Hne. destruct (decide (m' = m)); subst; intuition congruence. }
    exists (m :: held). split_and!; [|..|done].
    + apply NoDup_cons. split; [|done]. intros Hin. apply Hheld in Hin. congruence.
    + intros m'. rewrite elem_of_cons, <- Hheld.
      destruct (decide (m' = m)); intuition congruence.
  - destruct Hspec as (rest & -> & HK). apply NoDup_cons in Hnd as [Hm Hnd]. split.
    { intros t' m' Hne. destruct (decide (m' = m)); subst; intuition congruence. }
    exists rest. split_and!; [done| |done].
    intros m'. specialize (Hheld m'). rewrite elem_of_cons in Hheld.
    destruct (decide (m' = m)); subst; intuition congruence.
  - destruct Hspec as [Hm HK]. split; [done|]. exists held. by split_and!.
  - split; [done|]. exists held. by split_and!.
Qed.

Lemma drop_guards_frame t locks : locks_frame t locks (drop_guards t locks).
Proof. intros t' m Hne. unfold drop_guards. case_decide; naive_solver. Qed.

Lemma sys_locks_ok_run state t ans s s' :
  sys_locks_ok s → apply_label state (LRun t ans) s = Some s' → sys_locks_ok s'.
Proof.
  intros [Htasks Hown] Hl. simpl in Hl.
  apply bind_Some in Hl as (task & Ht & Hl).
  apply bind_Some in Hl as ([p m] & Hp & [= <-]).
  assert (Hstep : locks_frame t (mem_locks (sys_mem s)) (mem_locks m) ∧
                  locks_ok (mem_locks m) t (MkTask (task_request task) p)).
  { specialize (Htasks t task Ht). unfold locks_ok in Htasks.
    destruct (task_prog task) as [r|msg| |X e c]; simpl in Hp; [done| |done|].
    - injection Hp as <- <-. split; [apply drop_guards_frame|done].
    - apply bind_Some in Hp as ([a m'] & He & [= <- <-]).
      destruct Htasks as (held & Hwp & Hnd & Hheld).
      destruct (lock_ev_sound _ _ _ _ _ _ _ _ _ He Hnd Hheld Hwp)
        as (Hf & held' & Hnd' & Hheld' & HK).
      split; [done|]. by apply (locks_ok_intro held'). }
  destruct Hstep as [Hf Hok]. split; simpl.
  - intros t' task'. destruct (decide (t' = t)) as [->|Hne].
    + rewrite lookup_insert_eq. intros [= <-]. done.
    + rewrite lookup_insert_ne by done. intros Ht'.
      eapply locks_ok_frame; [exact Hf|done|]. by apply Htasks.
  - intros m' t' Hm'. destruct (decide (t' = t)) as [->|Hne].
    + by rewrite lookup_insert_eq.
    + rewrite lookup_insert_ne by done. eapply Hown, Hf; done.
Qed.

Lemma sys_locks_ok_cancel state t s s' :
  sys_locks_ok s → apply_label state (LCancel t) s = Some s' → sys_locks_ok s'.
Proof.
  intros [Htasks Hown] Hl. simpl in Hl. apply bind_Some in Hl as (task & Ht & [= <-]).
  split; simpl.
  - intros t' task' [Hne Ht']%lookup_delete_Some. eapply locks_ok_frame;
      [apply drop_guards_frame|done|]. by apply Htasks.
  - intros m t' Hm. assert (Hne : t' ≠ t) by (unfold drop_guards in Hm; by case_decide; congruence).
    rewrite lookup_delete_ne by done. apply (Hown m). by apply (drop_guards_frame t).
Qed.

Lemma sys_locks_ok_step state s s' :
  sys_locks_ok s → sys_step state s s' → sys_locks_ok s'.
Proof.
  intros Hok [l Hl]. destruct l as [t r|d|t ans|t].
  - destruct Hok as [Htasks Hown]. simpl in Hl. cases. split; simpl.
    + intros t' task'. destruct (decide (t' = t)) as [->|Hne].
      * rewrite lookup_insert_eq. intros [= <-].
        apply (locks_ok_intro []); [apply route_locks|constructor|].
        intros m. split; [|by intros ?%not_elem_of_nil].
        intros [task Ht]%Hown. congruence.
      * rewrite lookup_insert_ne by done. apply Htasks.
    + intros m t' [task Ht']%Hown. destruct (decide (t' = t)) as [->|Hne].
      * by rewrite lookup_insert_eq.
      * rewrite lookup_insert_ne by done. by exists task.
  - destruct Hok as [Htasks Hown]. simpl in Hl. by cases.
  - by eapply sys_locks_ok_run.
  - by eapply sys_locks_ok_cancel.
Qed.

Lemma reachable_locks_ok state cs s : reachable state cs s → sys_locks_ok s.
Proof.
  intros [now Hr]. eapply (rtc_ind_r (λ s, sys_locks_ok s)); [|intros; by eapply sys_locks_ok_step|exact Hr].
  split; simpl; [by intros t task ?%lookup_empty_Some|done].
Qed.

(** * The holder of the highest lock can always move *)

Definition held_by (s : Sys) (m : mutex) (t : nat) : Prop :=
  mem_locks (sys_mem s) m = Some t.

(** Among the mutexes that are held there is one of highest rank. *)
Lemma highest_held (locks : mutex → option nat) m0 t0 :
  locks m0 = Some t0 →
  ∃ m t, locks m = Some t ∧ ∀ m', mutex_rank m < mutex_rank m' → locks m' = None.
Proof.
  intros Hm0.
  destruct (locks MBuilder) as [t|] eqn:H4.
  { exists MBuilder, t. split; [done|]. intros []; simpl; lia. }
  destruct (locks MFinalized) as [t|] eqn:H3.
  { exists MFinalized, t. split; [done|]. intros []; simpl; try lia. done. }
  destruct (locks MJustified) as [t|] eqn:H2.
  { exists MJustified, t. split; [done|]. intros []; simpl; try lia; done. }
  destruct (locks MNewPayload) as [t|] eqn:H1'.
  { exists MNewPayload, t. split; [done|]. intros []; simpl; try lia; done. }
  exists m0, t0. split; [done|]. intros []; destruct m0; simpl; try lia; congruence.
Qed.

Lemma holder_can_run state cs s m t :
  reachable state cs s → held_by s m t →
  ∃ m' t' s', held_by s m' t' ∧ apply_label state (LRun t' NoAnswer) s = Some s'.
Proof.
  intros [Htasks Hown]%reachable_locks_ok Hm. unfold held_by in *.
  destruct (highest_held _ _ _ Hm) as (m1 & t1 & Hm1 & Hmax). exists m1, t1.
  destruct (Hown _ _ Hm1) as [task Ht1]. pose proof (Htasks _ _ Ht1) as Hok.
  unfold locks_ok in Hok. simpl. rewrite Ht1. simpl.
  destruct (task_prog task) as [r|msg| |X e c]; simpl in *.
  - destruct Hok as (held & Hwp & _ & Hheld). simpl in Hwp. subst.
    by apply Hheld, not_elem_of_nil in Hm1.
  - by eexists.
  - destruct Hok as (held & Hwp & _ & Hheld). simpl in Hwp. subst.
    by apply Hheld, not_elem_of_nil in Hm1.
  - destruct Hok as (held & Hwp & _ & Hheld). apply Hheld in Hm1 as Hin.
    destruct e; simpl in *; try (destruct Hwp as [-> _]; by apply not_elem_of_nil in Hin).
    + destruct Hwp as [Hrank _]. rewrite Forall_forall in Hrank.
      rewrite (Hmax _ (Hrank _ Hin)). simpl. eauto.
    + destruct Hwp as (rest & -> & _). rewrite decide_True by (apply Hheld; by left).
      simpl. eauto.
    + destruct Hwp as [Hin' _]. rewrite decide_True by (by apply Hheld). simpl. eauto.
    + simpl. eauto.
Qed.
End routes.
