(* ===== verification/Isolation.v ===== *)
(** What clients can and cannot do, and that every reply answers its request.

    The statements hold for every sequence of answers: they do not depend on the state,
    on the engine or on the other requests. *)
From S2P Require Import Prelude Uint256 Lru Lighthouse Types Config Multiplexer Prog Logic.
From S2P Require Import BaseFee Shared PayloadBuilder BuilderSpec Fcu NewPayload Meta Jwt Main.

(** * Events a client's request may perform: it never sends a newPayload or a
      forkchoiceUpdated to the engine, proxies the listed methods only, and leaves the
      content of every cache as it is. *)
Definition client_event `{Ext} (A : Type) (e : ev A) : Prop :=
  match e with
  | ENewPayload _ | EForkchoiceUpdated _ _ => False
  | ERpcRequest method _ _ => is_proxied method = true
  | EAccess m f => ∀ v, guarded_same m (f v).2 v
  | _ => True
  end.

(** What the requests may do to the payload builder: the two operations of the controller,
    and reads. *)
Inductive builder_step `{NetworkOps} (self : Statics) : PayloadBuilder → PayloadBuilder → Prop :=
| builder_registers slot parent pa b :
    timestamp_to_slot self (pa_timestamp pa) = Some slot →
    builder_step self b (register_attributes_locked self slot parent pa b).2
| builder_learns payload b :
    builder_step self b (register_canonical_payload_locked payload b)
| builder_reads b b' : builder_same b' b → builder_step self b b'.

(** Events of a controller's request: no payload attributes reach the engine, the
    builder changes by its own operations, and no cache changes its capacity. *)
Definition controller_event `{NetworkOps} (self : Statics) (A : Type) (e : ev A) : Prop :=
  match e with
  | EForkchoiceUpdated _ attrs => attrs = None
  | ERpcRequest method _ _ => is_proxied method = true
  | EAccess m f =>
    (∀ cs, builder_step self (payload_builder cs)
             (payload_builder (set_guarded m (f (get_guarded m cs)).2 cs))) ∧
    ∀ v, guarded_caps m (f v).2 = guarded_caps m v
  | _ => True
  end.

Section events.
Context `{ExtOk} `{!NetworkOps}.
Variable self : Statics.

Lemma controller_read m A (f : guarded m → A * guarded m) :
  (∀ v, guarded_same m (f v).2 v) → controller_event self A (EAccess m f).
Proof.
  intros Hf. split; [|intros v; by apply guarded_same_caps].
  intros cs. apply builder_reads. destruct m; [reflexivity..|]. apply (Hf (payload_builder cs)).
Qed.

Lemma controller_other m A (f : guarded m → A * guarded m) :
  m ≠ MBuilder → (∀ v, guarded_caps m (f v).2 = guarded_caps m v) →
  controller_event self A (EAccess m f).
Proof. intros Hm Hf. split; [|done]. intros cs. apply builder_reads. by destruct m. Qed.

Lemma register_attributes_caps slot parent pa b :
  guarded_caps MBuilder (register_attributes_locked self slot parent pa b).2 =
  guarded_caps MBuilder b.
Proof.
  pose proof (register_attributes_registered self slot parent pa b) as Hreg.
  destruct Hreg as [i b' _ Hs|b' _ _ Hs|info o b' _ _ _ _ Hs
    |info p o b' _ _ _ _ _ Hcap _ [Hinfo _] Hpay _]; [by apply (guarded_same_caps MBuilder)..|].
  unfold guarded_caps, PayloadId in *. by rewrite Hcap, Hinfo, Hpay, lru_put_cap.
Qed.

Lemma register_canonical_caps payload b :
  guarded_caps MBuilder (register_canonical_payload_locked payload b) = guarded_caps MBuilder b.
Proof.
  unfold register_canonical_payload_locked.
  pose proof (lru_goi_cap (ep_block_hash payload) (λ _ : unit, payload_info_of payload)
    (payload_info b)) as Hcap.
  destruct (lru_get_or_insert _ _ _) as [v infos]. simpl in *. by rewrite Hcap.
Qed.

Lemma update_fcu_cache_caps fcu st c :
  guarded_caps MFcu (update_fcu_cache fcu st c).2 = guarded_caps MFcu c.
Proof.
  unfold update_fcu_cache.
  pose proof (lru_get_mut_cap fcu (λ old, if is_definite old then old else st) c) as Hcap.
  destruct (lru_get_mut _ _ c) as [[old|] c']; simpl in *; by rewrite ?lru_put_cap, Hcap.
Qed.

(** A write of one entry. *)
Lemma put_caps {K V} `{EqDecision K} (k : K) (v : V) (c : Cache K V) :
  [lru_cap (lru_put k v c)] = [lru_cap c].
Proof. by rewrite lru_put_cap. Qed.
End events.

Section handlers.
Context `{ExtOk} `{!NetworkOps}.
Variable self : Statics.
Variable P : ∀ A, ev A → Prop.

(** Both kinds of events include locking, time, reading and the harmless calls. *)
Hypothesis P_lock : ∀ m, P _ (ELock m).
Hypothesis P_unlock : ∀ m, P _ (EUnlock m).
Hypothesis P_now : P _ ENow.
Hypothesis P_sleep : ∀ t, P _ (ESleepUntil t).
Hypothesis P_read : ∀ m A (f : guarded m → A * guarded m),
  (∀ v, guarded_same m (f v).2 v) → P _ (EAccess m f).
Hypothesis P_chain_id : ∀ t, P _ (EChainId t).
Hypothesis P_capabilities : ∀ t, P _ (ECapabilities t).
Hypothesis P_proxied : ∀ m ps t, is_proxied m = true → P _ (ERpcRequest m ps t).

(** The outcome of a step that may end the handler with an error for [id]. *)
Definition errors_answer {A} (id : JsonValue) (r : result A ErrorResponse) : Prop :=
  match r with Ok _ => True | Err e => answers id (Err e) end.

Lemma always_read {A} m (f : guarded m → A * guarded m) :
  (∀ v, guarded_same m (f v).2 v) →
  always P (with_lock m (access m f)) (λ _, True).
Proof. intros Hf. apply any_with_lock; auto. apply any_access; auto. Qed.

Lemma always_pure {R} (r : R) (Φ : R → Prop) : Φ r → always P (Ret r) Φ.
Proof. done. Qed.

(** Parsing errors answer the request. *)
Lemma always_parse (T : Type) `{!DeserializeOwned T} r :
  always P (Ret (parse_as T r))
    (λ x, match x with Ok (id, _) => id = req_id r | Err e => answers (req_id r) (Err e) end).
Proof.
  apply always_pure. destruct (parse_as T r) as [[id ps]|e] eqn:He.
  - by apply parse_as_Ok in He as [-> _].
  - by apply parse_as_Err in He.
Qed.

(** ** Reads *)

Lemma get_same_builder (b b' : PayloadBuilder) :
  next_payload_id b' = next_payload_id b → extra_data b' = extra_data b →
  lru_same (payload_attributes b') (payload_attributes b) →
  lru_same (payload_info b') (payload_info b) →
  lru_same (payloads b') (payloads b) → builder_same b' b.
Proof. intros. by do 4 (split; [done|]). Qed.

Lemma always_get_existing_payload_id h pa :
  always P (get_existing_payload_id h pa) (λ _, True).
Proof.
  eapply any_bind; [|by intros]. apply always_read. intros b.
  unfold get_existing_payload_id_locked. simpl. pose proof (get_same (h, pa) (payload_attributes b)).
  destruct (lru_get _ _); simpl in *. by apply get_same_builder.
Qed.

Lemma always_get_payload i : always P (get_payload i) (λ _, True).
Proof.
  eapply any_bind; [|by intros]. apply always_read. intros b.
  unfold get_payload_locked. simpl. pose proof (get_same i (payloads b)).
  destruct (lru_get _ _); simpl in *. by apply get_same_builder.
Qed.

Lemma always_get_cached_payload_status h d :
  always P (get_cached_payload_status h d) (λ _, True).
Proof.
  apply always_read. intros c. unfold get_cached_payload_status_locked.
  pose proof (get_same h c). by destruct (lru_get h c).
Qed.

Lemma always_is_recent n : always P (is_recent_payload self n) (λ _, True).
Proof. eapply any_bind; [by apply always_read|by intros]. Qed.

Lemma lookup_fcu_same fcu c : lru_same (lookup_fcu self fcu c).2 c.
Proof. unfold lookup_fcu. case_match; simpl; try reflexivity. apply get_same. Qed.

Lemma always_get_cached_fcu fcu d : always P (get_cached_fcu self fcu d) (λ _, True).
Proof.
  apply any_with_lock; auto. eapply any_bind with (Ψ := λ _, True).
  { apply any_access; [|done]. apply P_read. intros c. apply lookup_fcu_same. }
  intros [st|] _; [|done]. eapply any_bind with (Ψ := λ _, True); [|done].
  case_match; [done| |done].
  eapply any_bind; [by apply always_read|]. intros [] _; [by apply always_read|done].
Qed.

(** ** Handlers shared by the two endpoints *)

Lemma handle_get_payload_always r : always P (handle_get_payload r) (answers (req_id r)).
Proof.
  eapply any_bind_result; [apply always_parse| |done]. intros [id [pid]] ->.
  eapply any_bind; [apply always_get_payload|]. intros [p|e] _; [|done].
  eapply any_bind with (Ψ := λ _, True); [by apply any_lift_outcome|].
  intros resp _. apply always_pure, Response_new_answers.
Qed.

Lemma handle_syncing_always r : always P (handle_syncing r) (answers (req_id r)).
Proof.
  eapply any_bind_result; [apply always_parse| |done]. intros [id ps] ->.
  apply always_pure, Response_new_answers.
Qed.

(** The engine's answer, or an error for the request. *)
Lemma always_map_err {A} id (x : result A EngineError) :
  always P (Ret (map_err (λ e, parse_error_generic id (debug_engine_error e)) x))
    (errors_answer id).
Proof. by destruct x. Qed.

Lemma handle_chain_id_always r : always P (handle_chain_id r) (answers (req_id r)).
Proof.
  eapply any_bind_result; [apply always_parse| |done]. intros [id ps] ->.
  eapply any_bind with (Ψ := λ _, True); [by apply any_trigger|]. intros x _.
  eapply any_bind_result; [apply always_map_err| |done]. intros y _.
  apply always_pure, Response_new_answers.
Qed.

Lemma handle_engine_capabilities_always r :
  always P (handle_engine_capabilities r) (answers (req_id r)).
Proof.
  eapply any_bind_result; [apply always_parse| |done]. intros [id [ps]] ->.
  eapply any_bind with (Ψ := λ _, True); [by apply any_trigger|]. intros x _.
  eapply any_bind_result; [apply always_map_err| |done]. intros y _.
  apply always_pure, Response_new_answers.
Qed.

Lemma proxy_directly_always r :
  is_proxied (req_method r) = true → always P (proxy_directly r) (answers (req_id r)).
Proof.
  intros Hm. eapply any_bind with (Ψ := λ _, True); [by apply any_trigger; auto|]. intros x _.
  eapply any_bind_result; [apply always_map_err| |done]. intros y _.
  apply always_pure, Response_new_answers.
Qed.

(** ** The client's handlers *)

Lemma handle_fcu_always r : always P (handle_fcu self r) (answers (req_id r)).
Proof.
  eapply any_bind_result; [apply always_parse| |done]. intros [id [fcu attrs]] ->.
  eapply any_bind with (Ψ := λ _, True).
  - eapply any_bind with (Ψ := λ _, True);
      [apply any_poll_until; auto using always_get_cached_fcu|].
    intros [st|] _; [done|]. eapply any_bind; [apply always_get_cached_fcu|].
    by intros [st|] _.
  - intros st _. eapply any_bind with (Ψ := λ _, True).
    + destruct attrs; [|done]. eapply any_bind; [apply always_get_existing_payload_id|].
      by intros [i|e] _.
    + intros i _. apply always_pure, Response_new_answers.
Qed.

Lemma decode_extra_params_err id m ps e :
  decode_extra_params id m ps = Done (Err e) → answers id (Err e).
Proof.
  unfold decode_extra_params, from_param, parse_error. intros Hd.
  repeat (case_match; simplify_eq/=; try done); unfold outcome_bind, outcome_result_bind, map_err in *;
    by cases.
Qed.

Lemma decode_new_payload_id r x :
  decode_new_payload self r = Done x →
  match x with
  | Ok d => dec_id d = req_id r
  | Err e => answers (req_id r) (Err e)
  end.
Proof.
  unfold decode_new_payload. intros Hd.
  destruct (parse_as (list JsonValue) r) as [[id ps]|e] eqn:Hp; simpl in Hd;
    [|simplify_eq; by apply parse_as_Err in Hp].
  apply parse_as_Ok in Hp as [-> _].
  destruct (decode_extra_params (req_id r) (req_method r) ps) as [[[[a b] c]|e]|m] eqn:Hx;
    simpl in Hd; [|simplify_eq; by eapply decode_extra_params_err|done].
  destruct (index ps 0); simpl in Hd; [|done].
  destruct (json_get _ _); simpl in Hd; [|by simplify_eq].
  destruct (from_value QuantityU64 _); simpl in Hd; [|by simplify_eq].
  destruct (timestamp_to_slot _ _); simpl in Hd; [|by simplify_eq].
  destruct (decode_payload _ _ _); simpl in Hd; by simplify_eq.
Qed.

Lemma always_decode r :
  always P (lift_outcome (decode_new_payload self r))
    (λ x, match x with Ok d => dec_id d = req_id r | Err e => answers (req_id r) (Err e) end).
Proof. apply any_lift_outcome. intros x. apply decode_new_payload_id. Qed.

Lemma handle_new_payload_always r : always P (handle_new_payload self r) (answers (req_id r)).
Proof.
  eapply any_bind_result; [apply always_decode| |done]. intros d Hd.
  eapply any_bind with (Ψ := λ _, True); [by apply any_lift_outcome|]. intros npr _.
  case_match; [|apply always_pure; by rewrite Hd].
  eapply any_bind_result with (Ψ := errors_answer (dec_id d)); [| |by rewrite Hd].
  - eapply any_bind; [apply always_is_recent|]. intros recent _.
    eapply any_bind with (Ψ := λ _, True).
    + destruct recent; [|done]. apply any_poll_until; auto.
      apply always_get_cached_payload_status.
    + intros [st|] _; [done|]. eapply any_bind; [apply always_get_cached_payload_status|].
      intros [st|] _; [done|]. by case_match.
  - intros st _. apply always_pure. rewrite Hd. apply Response_new_answers.
Qed.
End handlers.

(** Discharges the hypotheses of the section for one of the two kinds of events. *)
Ltac events := intros; first [by apply controller_read|simpl; by auto].

Section requests.
Context `{ExtOk} `{!NetworkOps} `{JwtOps}.
Variable self : Statics.

Lemma process_client_request_always r :
  always client_event (process_client_request self r) (answers (req_id r)).
Proof.
  unfold process_client_request.
  repeat case_match; [apply handle_fcu_always|apply handle_new_payload_always
    |apply handle_syncing_always|apply handle_chain_id_always
    |apply handle_engine_capabilities_always|apply proxy_directly_always
    |apply handle_get_payload_always|done]; events.
Qed.

(** The replies to a batch, request by request. *)
Definition batch_answered (rs : list Request) (out : list MaybeErrorResponse) : Prop :=
  Forall2 (λ r x, ∃ reply, x = MaybeErrorResponse_from reply ∧ answers (req_id r) reply) rs out.

Lemma process_client_requests_always done_rs rs acc :
  batch_answered done_rs acc →
  always client_event (process_client_requests self rs acc) (batch_answered (done_rs ++ rs)).
Proof.
  revert done_rs acc. induction rs as [|r rs IH]; intros done_rs acc Hacc; simpl.
  { apply always_pure. by rewrite app_nil_r. }
  eapply any_bind; [apply process_client_request_always|]. intros reply Hreply.
  replace (done_rs ++ r :: rs) with ((done_rs ++ [r]) ++ rs) by (by rewrite <- app_assoc).
  apply IH. apply Forall2_app; [done|]. constructor; [|constructor]. by exists reply.
Qed.

Lemma register_attributes_always h pa :
  always (controller_event self) (register_attributes self h pa) (λ _, True).
Proof.
  unfold register_attributes. case_match; [|done].
  apply any_with_lock; [done..|]. eapply any_bind with (Ψ := λ _, True).
  - apply any_access; [|done].
    split; [intros cs; by apply builder_registers|apply register_attributes_caps].
  - intros. by apply any_lift_outcome.
Qed.

(** A write to a cache other than the builder. *)
Lemma controller_writes {A} m (f : guarded m → A * guarded m) :
  m ≠ MBuilder → (∀ v, guarded_caps m (f v).2 = guarded_caps m v) →
  always (controller_event self) (with_lock m (access m f)) (λ _, True).
Proof.
  intros Hm Hf. apply any_with_lock; [done..|]. apply any_access; [by apply controller_other|done].
Qed.

Lemma controller_fcu_status_always id fcu :
  always (controller_event self) (controller_fcu_status self id fcu) (errors_answer id).
Proof.
  eapply any_bind; [apply always_get_cached_fcu; events|]. intros [st|] _; [done|].
  eapply any_bind with (Ψ := λ _, True); [by apply any_trigger|]. intros [resp|e] _; [|done].
  eapply any_bind; [apply controller_writes; [done|apply update_fcu_cache_caps]|].
  intros cached _.
  eapply any_bind with (Ψ := λ _, True); [|done]. case_match; [|done].
  eapply any_bind; [apply controller_writes; [done|by intros; apply put_caps]|].
  intros _ _. apply controller_writes; [done|by intros; apply put_caps].
Qed.

Lemma parse_attributes_err T `{!DeserializeOwned T} id wrap json e :
  parse_attributes T id wrap json = Err e → answers id (Err e).
Proof.
  unfold parse_attributes, transpose. intros Hp.
  destruct (from_value T <$> json) as [[]|]; simplify_eq/=; done.
Qed.

Lemma handle_controller_fcu_always r :
  always (controller_event self) (handle_controller_fcu self r) (answers (req_id r)).
Proof.
  eapply any_bind_result; [apply always_parse| |done]. intros [id [fcu json]] ->.
  eapply any_bind_result with (Ψ := errors_answer (req_id r)); [| |done].
  { apply always_pure. unfold errors_answer.
    destruct (String.eqb _ _); destruct (parse_attributes _ _ _ _) eqn:Hp; try done;
      revert Hp; apply parse_attributes_err. }
  intros attrs _. eapply any_bind_result; [apply controller_fcu_status_always| |done].
  intros st _. eapply any_bind_result with (Ψ := errors_answer (req_id r)); [| |done].
  - destruct attrs; [|done]. eapply any_bind; [apply register_attributes_always|].
    by intros [i|e] _.
  - intros i _. apply always_pure, Response_new_answers.
Qed.

Lemma handle_controller_new_payload_always r :
  always (controller_event self) (handle_controller_new_payload self r) (answers (req_id r)).
Proof.
  eapply any_bind_result; [apply always_decode| |done]. intros d Hd.
  eapply any_bind with (Ψ := λ _, True); [by apply any_lift_outcome|]. intros npr _.
  eapply any_bind_result with (Ψ := errors_answer (dec_id d)); [| |by rewrite Hd].
  - eapply any_bind; [apply always_get_cached_payload_status; events|].
    intros [st|] _; [done|].
    eapply any_bind with (Ψ := λ _, True); [by apply any_trigger|]. intros [st|e] _; [|done].
    eapply any_bind; [apply controller_writes; [done|by intros; apply put_caps]|].
    intros _ _.
    eapply any_bind with (Ψ := λ _, True); [|done].
    unfold register_canonical_payload. case_match; [done|].
    apply any_with_lock; [done..|]. apply any_access; [|done].
    split; [intros cs; apply builder_learns|apply register_canonical_caps].
  - intros st _. apply always_pure. rewrite Hd. apply Response_new_answers.
Qed.

Lemma process_controller_request_always r :
  always (controller_event self) (process_controller_request self r) (answers (req_id r)).
Proof.
  unfold process_controller_request.
  repeat case_match; [apply handle_controller_fcu_always
    |apply handle_controller_new_payload_always
    |apply handle_syncing_always|apply handle_chain_id_always
    |apply handle_engine_capabilities_always|apply proxy_directly_always
    |apply handle_get_payload_always|done]; events.
Qed.

End requests.

Section endpoints.
Context `{ExtOk} `{!NetworkOps} `{JwtOps}.

(** A reply of the client endpoint against the request body: one reply per request in
    the order of the batch, or a single parse error with id 0 when the token or the
    body is refused. *)
Definition client_reply_ok (authenticated : bool) (body : result Requests string)
    (out : Responses) : Prop :=
  match (if authenticated then body else Err "unauthenticated"), out with
  | Ok (Requests_Single r), Responses_Single x =>
    ∃ reply, x = MaybeErrorResponse_from reply ∧ answers (req_id r) reply
  | Ok (Requests_Multiple rs), Responses_Multiple out => batch_answered rs out
  | Err _, Responses_Single (MER_Err e) =>
    answers (json_number 0) (Err e) ∧ code (err_error e) = ParseError
  | _, _ => False
  end.

Lemma handle_client_json_rpc_always state token body :
  always client_event (handle_client_json_rpc state token body)
    (client_reply_ok (is_ok (verify (client_jwt_collection state) token)) body).
Proof.
  unfold handle_client_json_rpc. destruct (verify _ _); [|done].
  destruct body as [[r|rs]|e]; [..|done].
  - eapply any_bind; [apply process_client_request_always|]. intros reply Hr.
    apply always_pure. by exists reply.
  - eapply any_bind; [apply (process_client_requests_always _ [])|].
    + constructor.
    + intros out Hout. by apply always_pure.
Qed.

(** The controller's endpoint takes one request. *)
Definition controller_reply_ok (authenticated : bool) (body : result Request string)
    (out : result Response ErrorResponse) : Prop :=
  match (if authenticated then body else Err "unauthenticated") with
  | Ok r => answers (req_id r) out
  | Err _ =>
    match out with
    | Ok _ => False
    | Err e => answers (json_number 0) (Err e) ∧ code (err_error e) = ParseError
    end
  end.

Lemma handle_controller_json_rpc_always state token body :
  always (controller_event (multiplexer state)) (handle_controller_json_rpc state token body)
    (controller_reply_ok (is_ok (verify_single_token token (controller_jwt state))) body).
Proof.
  unfold handle_controller_json_rpc. destruct (verify_single_token _ _); [|done].
  destruct body as [r|e]; [|done]. apply process_controller_request_always.
Qed.
End endpoints.
