(* ===== verification/Invariant.v ===== *)
(** The invariant of the shared caches, kept by every handler under every interleaving,
    and what it says about the replies.

    Every entry of a cache is traced back to an answer the engine gave to the controller:
    the history of engine calls is the evidence. *)
From S2P Require Import Prelude Uint256 BaseFee Lru Lighthouse Types Config Multiplexer.
From S2P Require Import Prog Logic Shared PayloadBuilder BuilderSpec Fcu NewPayload Meta Jwt Main.
From S2P Require Import Isolation.

Section invariant.
Context `{Ext} `{!NetworkOps}.
Variable self : Statics.

(** The engine answered a newPayload of the controller for block [bh] with [st]. *)
Definition backed_status (h : Hist) (bh : ExecutionBlockHash) (st : JsonPayloadStatusV1) :
    Prop :=
  ∃ req a, (RController, CallNewPayload req (Ok a)) ∈ h ∧
           ep_block_hash (npr_payload req) = bh ∧ st = jps_from_status a.

(** The engine answered a newPayload of the controller for block [bh] with the status of
    [e], and the payload has the number of [e]. *)
Definition backed_entry (h : Hist) (bh : ExecutionBlockHash) (e : NewPayloadCacheEntry) : Prop :=
  ∃ req a, (RController, CallNewPayload req (Ok a)) ∈ h ∧
           ep_block_hash (npr_payload req) = bh ∧ entry_status e = jps_from_status a ∧
           entry_block_number e = ep_block_number (npr_payload req).

Lemma backed_entry_status h bh e : backed_entry h bh e → backed_status h bh (entry_status e).
Proof. intros (req & a & ? & ? & ? & _). by exists req, a. Qed.

(** The engine answered a forkchoiceUpdated of the controller for [fcu]. *)
Definition fcu_answer (h : Hist) (fcu : JsonForkchoiceStateV1)
    (resp : ForkchoiceUpdatedResponse) : Prop :=
  (RController, CallForkchoiceUpdated (ForkchoiceState_from fcu) None (Ok resp)) ∈ h.

Definition backed_fcu (h : Hist) (fcu : JsonForkchoiceStateV1) (st : JsonPayloadStatusV1) :
    Prop :=
  ∃ resp, fcu_answer h fcu resp ∧ st = payload_status (jfcu_from_response resp).

(** A VALID forkchoiceUpdated of the controller named [bh] as its safe (finalized) block. *)
Definition valid_fcu_with (h : Hist) (field : JsonForkchoiceStateV1 → ExecutionBlockHash)
    (bh : ExecutionBlockHash) : Prop :=
  ∃ fcu st, backed_fcu h fcu st ∧ status st = Valid ∧ field fcu = bh.

(** The engine did not reject the payload of block [bh], whose information is [info]. *)
Definition backed_info (h : Hist) (bh : ExecutionBlockHash) (info : PayloadInfo) : Prop :=
  ∃ req a, (RController, CallNewPayload req (Ok a)) ∈ h ∧
           ep_block_hash (npr_payload req) = bh ∧ info = payload_info_of (npr_payload req) ∧
           status (jps_from_status a) ≠ Invalid ∧
           status (jps_from_status a) ≠ InvalidBlockHash.

(** [p] is a payload the builder made: an empty child, as some attributes ask for, of a
    block the engine did not reject. *)
Definition dummy (h : Hist) (p : ExecutionPayload) : Prop :=
  ∃ extra key, built_for self (backed_info h) extra key p.

(** A payload was built for [key], a parent and the attributes of its child. *)
Definition promised (h : Hist) (key : ExecutionBlockHash * PayloadAttributes) : Prop :=
  ∃ extra p, built_for self (backed_info h) extra key p.

Definition drives_engine (c : ElCall) : bool :=
  match c with
  | CallNewPayload _ _ | CallForkchoiceUpdated _ _ _ => true
  | _ => false
  end.

Record Inv (cs : Caches) (h : Hist) : Prop := MkInv {
  (** only the controller drives the engine *)
  inv_drive role c : (role, c) ∈ h → drives_engine c = true → role = RController;
  inv_new_payload bh e :
    lru_peek bh (new_payload_cache cs) = Some e → backed_entry h bh e;
  inv_fcu fcu st : lru_peek fcu (fcu_cache cs) = Some st → backed_fcu h fcu st;
  inv_justified bh :
    is_Some (lru_peek bh (justified_block_cache cs)) → valid_fcu_with h safe_block_hash bh;
  inv_finalized bh :
    is_Some (lru_peek bh (finalized_block_cache cs)) →
    valid_fcu_with h finalized_block_hash bh;
  inv_payload_info bh info :
    lru_peek bh (payload_info (payload_builder cs)) = Some info → backed_info h bh info;
  inv_attributes key i :
    lru_peek key (payload_attributes (payload_builder cs)) = Some i → promised h key;
  inv_payloads i p : lru_peek i (payloads (payload_builder cs)) = Some p → dummy h p;
}.

(** ** The evidence survives *)

Lemma backed_status_mono h h' bh st :
  h `suffix_of` h' → backed_status h bh st → backed_status h' bh st.
Proof.
  intros [l ->] (req & a & Hin & ?). exists req, a. split; [|done].
  apply elem_of_app. by right.
Qed.

Lemma backed_entry_mono h h' bh e :
  h `suffix_of` h' → backed_entry h bh e → backed_entry h' bh e.
Proof.
  intros [l ->] (req & a & Hin & ?). exists req, a. split; [|done].
  apply elem_of_app. by right.
Qed.

Lemma backed_fcu_mono h h' fcu st :
  h `suffix_of` h' → backed_fcu h fcu st → backed_fcu h' fcu st.
Proof.
  intros [l ->] (resp & Hin & ?). exists resp. split; [|done]. apply elem_of_app. by right.
Qed.

Lemma valid_fcu_with_mono h h' field bh :
  h `suffix_of` h' → valid_fcu_with h field bh → valid_fcu_with h' field bh.
Proof.
  intros Hs (fcu & st & Hb & ?). exists fcu, st. split; [|done]. by eapply backed_fcu_mono.
Qed.

Lemma backed_info_mono h h' bh info :
  h `suffix_of` h' → backed_info h bh info → backed_info h' bh info.
Proof.
  intros [l ->] (req & a & Hin & ?). exists req, a. split; [|done].
  apply elem_of_app. by right.
Qed.

Lemma dummy_mono h h' p : h `suffix_of` h' → dummy h p → dummy h' p.
Proof.
  intros Hs (extra & key & Hp). exists extra, key. eapply built_for_mono; [|exact Hp].
  intros bh info. by apply backed_info_mono.
Qed.

Lemma promised_mono h h' key : h `suffix_of` h' → promised h key → promised h' key.
Proof.
  intros Hs (extra & p & Hp). exists extra, p. eapply built_for_mono; [|exact Hp].
  intros bh info. by apply backed_info_mono.
Qed.

Lemma Inv_call role c cs h :
  (drives_engine c = true → role = RController) → Inv cs h → Inv cs ((role, c) :: h).
Proof.
  intros Hc [Hd Hn Hf Hj Hfi Hi Ha Hp].
  assert (Hs : h `suffix_of` (role, c) :: h) by (by apply suffix_cons_r).
  split; [|intros; eauto using backed_entry_mono, backed_fcu_mono, valid_fcu_with_mono,
    backed_info_mono, promised_mono, dummy_mono..].
  intros role' c' [[= -> ->]|Hin]%elem_of_cons; eauto.
Qed.

Context `{!ExtOk}.

Lemma dummy_not_fulu h p : dummy h p → ep_fork p ≠ Fulu.
Proof. intros (extra & key & slot & info & _ & _ & Hb). by eapply built_not_fulu. Qed.

(** The caches of a server that has just started. *)
Record fresh (cs : Caches) : Prop := MkFresh {
  fresh_fcu k : lru_peek k (fcu_cache cs) = None;
  fresh_new_payload k : lru_peek k (new_payload_cache cs) = None;
  fresh_justified k : lru_peek k (justified_block_cache cs) = None;
  fresh_finalized k : lru_peek k (finalized_block_cache cs) = None;
  fresh_attributes k : lru_peek k (payload_attributes (payload_builder cs)) = None;
  fresh_payload_info k : lru_peek k (payload_info (payload_builder cs)) = None;
  fresh_payloads k : lru_peek k (payloads (payload_builder cs)) = None;
}.

Lemma Inv_fresh cs : fresh cs → Inv cs [].
Proof.
  intros [Hf Hn Hj Hfi Ha Hi Hp]. split.
  - by intros role c ?%not_elem_of_nil.
  - intros bh e. by rewrite Hn.
  - intros f st. by rewrite Hf.
  - intros bh. rewrite Hj. by intros [].
  - intros bh. rewrite Hfi. by intros [].
  - intros bh info. by rewrite Hi.
  - intros key i. by rewrite Ha.
  - intros i p. by rewrite Hp.
Qed.

(** Reading leaves the invariant alone. *)
Lemma Inv_same m v cs h :
  guarded_same m v (get_guarded m cs) → Inv cs h → Inv (set_guarded m v cs) h.
Proof.
  intros Hv [Hd Hn Hf Hj Hfi Hi Ha Hp].
  destruct m; simpl in *; [destruct Hv as [_ Hv]..|destruct Hv as (_ & [_ Hv0] & [_ Hv1] & [_ Hv2] & _)];
    split; simpl; try done.
  - intros fcu st. rewrite Hv. apply Hf.
  - intros bh e. rewrite Hv. apply Hn.
  - intros bh. rewrite Hv. apply Hj.
  - intros bh. rewrite Hv. apply Hfi.
  - intros bh info. rewrite Hv1. apply Hi.
  - intros key i. rewrite Hv0. apply Ha.
  - intros i p. rewrite Hv2. apply Hp.
Qed.
End invariant.
