(* ===== verification/Backed.v ===== *)
(** Every handler keeps the invariant of Invariant.v under any interleaving, ends within
    its fuel, and replies with statuses the engine has given to the controller.  It
    panics only where the payload builder does. *)
From S2P Require Import Prelude Uint256 BaseFee Lru Lighthouse Types Config Multiplexer.
From S2P Require Import Prog Logic Shared PayloadBuilder Fcu NewPayload Meta Jwt Main.
From S2P Require Import Methods Isolation Invariant.

Section specs.
Context `{Ext} `{!NetworkOps}.
Variable self : Statics.

(** The evidence behind a forkchoiceUpdated status, by matching mode. *)
Definition fcu_matched (h : Hist) (fcu : JsonForkchoiceStateV1) (st : JsonPayloadStatusV1) :
    Prop :=
  match fcu_matching (config self) with
  | Exact => backed_fcu h fcu st
  | HeadOnly => ∃ fcu', head_block_hash fcu' = head_block_hash fcu ∧ backed_fcu h fcu' st
  | Loose =>
    (∃ fcu', head_block_hash fcu' = head_block_hash fcu ∧ backed_fcu h fcu' st) ∧
    valid_fcu_with h safe_block_hash (safe_block_hash fcu) ∧
    valid_fcu_with h finalized_block_hash (finalized_block_hash fcu)
  end.

(** A client's newPayload reply: its payload has the hash it claims, and the status is the
    engine's answer to the controller for the same block, or the synthetic SYNCING for a
    payload whose versioned hashes are right, too. *)
Definition new_payload_reply (r : Request) (x : result Response ErrorResponse) (h : Hist) :
    Prop :=
  ∀ resp, x = Ok resp →
    ∃ d npr st, decode_new_payload self r = Done (Ok d) ∧
      new_payload_request_from_parts (ep_from_json (dec_payload d)) (dec_versioned_hashes d)
        (dec_parent_beacon_block_root d) (dec_execution_requests d) = Done npr ∧
      is_ok (verify_payload_block_hash npr) = true ∧
      Response_new (req_id r) st = Ok resp ∧
      (st = synthetic_syncing ∧ is_ok (verify_versioned_hashes npr) = true ∨
       backed_status h (ep_block_hash (ep_from_json (dec_payload d))) st).

(** If a reply carries an id, a payload was built, on the head of the forkchoice state, for the
    attributes of the request.  That the id is the one it is stored under: Ids.v. *)
Definition id_promised (h : Hist) (head : ExecutionBlockHash) (attrs : option PayloadAttributes)
    (pid : option TransparentJsonPayloadId) : Prop :=
  ∀ i, pid = Some i → ∃ pa, attrs = Some pa ∧ promised self h (head, pa).

(** Building a child of [head] may panic: with overflow checks, or because the base fee of
    an accepted payload cannot be computed. *)
Definition build_panics (h : Hist) (head : ExecutionBlockHash) : Prop :=
  overflow_checks = true ∨
  ∃ info m, backed_info h head info ∧
    expected_base_fee_per_gas (info_base_fee_per_gas info) (info_gas_used info)
      (info_gas_limit info) = Panicked m.

(** A client's forkchoiceUpdated reply. *)
Definition fcu_reply (r : Request) (x : result Response ErrorResponse) (h : Hist) : Prop :=
  ∀ resp, x = Ok resp →
    ∃ fcu attrs st pid,
      parse_as (JsonForkchoiceStateV1 * option JsonPayloadAttributesV2) r =
        Ok (req_id r, (fcu, attrs)) ∧
      Response_new (req_id r) {| payload_status := st; payload_id := pid |} = Ok resp ∧
      (st = synthetic_syncing ∨ fcu_matched h fcu st) ∧
      id_promised h (head_block_hash fcu) ((λ a, pa_from_json (JPA_V2 a)) <$> attrs) pid.

(** The reply to a method which is relayed: the engine's answer to a call for it by this
    endpoint.  A proxied method goes to the engine with the same name and parameters, and
    its result comes back unchanged under the id of the request. *)
Definition relayed (role : Role) (r : Request) (x : result Response ErrorResponse) (h : Hist) :
    Prop :=
  (is_proxied (req_method r) = true →
   ∃ ans, (role, CallRpcRequest (req_method r) (req_params r) ans) ∈ h ∧
     x = match ans with
         | Ok v => Ok (MkResponse "2.0" (req_id r) v)
         | Err e => Err (parse_error_generic (req_id r) (debug_engine_error e))
         end) ∧
  (req_method r = "eth_chainId" → ∀ resp, x = Ok resp →
   ∃ c, (role, CallChainId (Ok c)) ∈ h ∧
        Response_new (req_id r) (MkQuantityU64 (chain_id_into c)) = Ok resp) ∧
  (req_method r = ENGINE_EXCHANGE_CAPABILITIES → ∀ resp, x = Ok resp →
   ∃ c, (role, CallCapabilities (Ok c)) ∈ h ∧
        Response_new (req_id r) (capabilities_to_response c) = Ok resp) ∧
  (req_method r = ETH_SYNCING → ∀ resp, x = Ok resp → Response_new (req_id r) false = Ok resp).

(** The reply to a getPayload: one of the builder's payloads, found under the id the
    request names, in the structure of its fork. *)
Definition get_payload_reply (r : Request) (x : result Response ErrorResponse) (h : Hist) :
    Prop :=
  ∀ resp, x = Ok resp →
    ∃ i p response, parse_as (tuple1 TransparentJsonPayloadId) r =
        Ok (req_id r, Tuple1 (MkTransparentJsonPayloadId i)) ∧
      dummy self h p ∧ get_payload_response (jep_from_payload p) = Done response ∧
      Response_new (req_id r) response = Ok resp.

(** The reply to a method which both endpoints handle alike. *)
Definition common_reply (role : Role) (r : Request) (x : result Response ErrorResponse)
    (h : Hist) : Prop :=
  relayed role r x h ∧ (is_get_payload (req_method r) = true → get_payload_reply r x h).

Definition client_reply (r : Request) (x : result Response ErrorResponse) (h : Hist) : Prop :=
  (is_forkchoice_updated (req_method r) = true → fcu_reply r x h) ∧
  (is_forkchoice_updated (req_method r) = false → is_new_payload (req_method r) = true →
   new_payload_reply r x h) ∧
  common_reply RClient r x h.

(** The controller's newPayload reply: an answer of the engine to a newPayload for the
    block. *)
Definition controller_new_payload_reply (r : Request) (x : result Response ErrorResponse)
    (h : Hist) : Prop :=
  ∀ resp, x = Ok resp →
    ∃ d st, decode_new_payload self r = Done (Ok d) ∧ Response_new (req_id r) st = Ok resp ∧
      backed_status h (ep_block_hash (ep_from_json (dec_payload d))) st.

(** The attributes of the controller's forkchoiceUpdated. *)
Definition controller_attributes (r : Request) (json : option JsonValue) :
    result (option JsonPayloadAttributes) ErrorResponse :=
  if String.eqb (req_method r) ENGINE_FORKCHOICE_UPDATED_V2
  then parse_attributes JsonPayloadAttributesV2 (req_id r) JPA_V2 json
  else parse_attributes JsonPayloadAttributesV3 (req_id r) JPA_V3 json.

(** The controller's forkchoiceUpdated reply: the engine's answer for the state, or a
    definite cached one by the matching mode; with attributes it names a payload. *)
Definition controller_fcu_reply (r : Request) (x : result Response ErrorResponse) (h : Hist) :
    Prop :=
  ∀ resp, x = Ok resp →
    ∃ fcu json attrs st pid,
      parse_as (JsonForkchoiceStateV1 * option JsonValue) r = Ok (req_id r, (fcu, json)) ∧
      controller_attributes r json = Ok attrs ∧
      Response_new (req_id r) {| payload_status := st; payload_id := pid |} = Ok resp ∧
      (fcu_matched h fcu st ∧ is_definite st = true ∨ backed_fcu h fcu st) ∧
      (is_Some attrs ↔ is_Some pid) ∧
      id_promised h (head_block_hash fcu) (pa_from_json <$> attrs) pid.

(** Only a forkchoiceUpdated with attributes may panic. *)
Definition controller_panics (r : Request) (h : Hist) : Prop :=
  is_forkchoice_updated (req_method r) = true ∧
  ∃ fcu json a, parse_as (JsonForkchoiceStateV1 * option JsonValue) r =
                  Ok (req_id r, (fcu, json)) ∧
    controller_attributes r json = Ok (Some a) ∧ build_panics h (head_block_hash fcu).

Definition controller_reply (r : Request) (x : result Response ErrorResponse) (h : Hist) : Prop :=
  (is_forkchoice_updated (req_method r) = true → controller_fcu_reply r x h) ∧
  (is_forkchoice_updated (req_method r) = false → is_new_payload (req_method r) = true →
   controller_new_payload_reply r x h) ∧
  common_reply RController r x h.

Lemma call_in_mono (c : Role * ElCall) h h' : h `suffix_of` h' → c ∈ h → c ∈ h'.
Proof. intros [l ->] Hc. apply elem_of_app. by right. Qed.

Lemma relayed_mono role r x h h' : h `suffix_of` h' → relayed role r x h → relayed role r x h'.
Proof.
  intros Hs (Hp & Hi & Hc & Hy). split_and!; [..|done].
  - intros Hm. destruct (Hp Hm) as (ans & ? & ?). eauto using call_in_mono.
  - intros Hm resp Hx. destruct (Hi Hm resp Hx) as (c & ? & ?). eauto using call_in_mono.
  - intros Hm resp Hx. destruct (Hc Hm resp Hx) as (c & ? & ?). eauto using call_in_mono.
Qed.

Lemma common_reply_mono role r x h h' :
  h `suffix_of` h' → common_reply role r x h → common_reply role r x h'.
Proof.
  intros Hs [Hrel Hget]. split; [by eapply relayed_mono|]. intros Hm resp Hx.
  destruct (Hget Hm resp Hx) as (i & p & response & ? & ? & ? & ?).
  exists i, p, response. split_and!; [done| |done..]. by eapply dummy_mono.
Qed.

Lemma fcu_matched_mono h h' fcu st :
  h `suffix_of` h' → fcu_matched h fcu st → fcu_matched h' fcu st.
Proof.
  intros Hs. unfold fcu_matched. case_match.
  - by apply backed_fcu_mono.
  - intros ((f & ? & ?) & ? & ?). split; [|by eauto using valid_fcu_with_mono].
    exists f. split; [done|]. by eapply backed_fcu_mono.
  - intros (f & ? & ?). exists f. split; [done|]. by eapply backed_fcu_mono.
Qed.

Lemma id_promised_mono h h' head attrs pid :
  h `suffix_of` h' → id_promised h head attrs pid → id_promised h' head attrs pid.
Proof.
  intros Hs Hid i Hi. destruct (Hid i Hi) as (pa & -> & Hp). exists pa.
  split; [done|]. by eapply promised_mono.
Qed.

Lemma client_reply_mono r h h' x :
  h `suffix_of` h' → client_reply r x h → client_reply r x h'.
Proof.
  intros Hs (Hf & Hn & Hrel). split_and!; [..|by eapply common_reply_mono].
  - intros Hm resp Hx. destruct (Hf Hm resp Hx) as (fcu & attrs & st & pid & ? & ? & Hst & ?).
    exists fcu, attrs, st, pid. split_and!; [done..| |by eapply id_promised_mono].
    destruct Hst; [by left|right]. by eapply fcu_matched_mono.
  - intros Hm1 Hm2 resp Hx. destruct (Hn Hm1 Hm2 resp Hx) as (d & npr & st & ? & ? & ? & ? & Hst).
    exists d, npr, st. split_and!; [done..|].
    destruct Hst; [by left|right]. by eapply backed_status_mono.
Qed.

Lemma controller_panics_mono r h h' :
  h `suffix_of` h' → controller_panics r h → controller_panics r h'.
Proof.
  intros Hs (Hm & fcu & json & a & ? & ? & Hb). split; [done|]. exists fcu, json, a.
  split_and!; [done..|]. destruct Hb as [?|(info & m & Hi & ?)]; [by left|right].
  exists info, m. split; [by eapply backed_info_mono|done].
Qed.

Lemma controller_reply_mono r h h' x :
  h `suffix_of` h' → controller_reply r x h → controller_reply r x h'.
Proof.
  intros Hs (Hf & Hn & Hrel). split_and!; [..|by eapply common_reply_mono].
  - intros Hm resp Hx.
    destruct (Hf Hm resp Hx) as (fcu & json & attrs & st & pid & ? & ? & ? & Hst & ? & ?).
    exists fcu, json, attrs, st, pid. split_and!; [done..| |done|by eapply id_promised_mono].
    destruct Hst as [[? ?]|?]; [left; split; [by eapply fcu_matched_mono|done]|right].
    by eapply backed_fcu_mono.
  - intros Hm1 Hm2 resp Hx. destruct (Hn Hm1 Hm2 resp Hx) as (d & st & ? & ? & Hst).
    exists d, st. split_and!; [done..|]. by eapply backed_status_mono.
Qed.

(** The post-condition of a handler: it returns something that satisfies [Φ], or
    unwinds where [panics] allows it; it does not run out of fuel. *)
Definition settles {R} (panics : Hist → Prop) (Φ : R → Hist → Prop) (x : exit R) (k : known) :
    Prop :=
  match x with
  | Returned r => Φ r (k_hist k)
  | Unwound _ => panics (k_hist k)
  | Exhausted => False
  end.

(** The handler does not panic. *)
Definition never (h : Hist) : Prop := False.

(** What a cached status guarantees: the evidence, and that it is definite if asked. *)
Definition found {A} (definite_only : bool) (is_def : A → bool) (backed : Hist → A → Prop)
    (o : option A) (h : Hist) : Prop :=
  ∀ st, o = Some st → backed h st ∧ (definite_only = true → is_def st = true).
End specs.

Section handlers.
Context `{ExtOk} `{!NetworkOps} `{JwtOps}.
Variable self : Statics.
Variable role : Role.

(** ** Reads *)

Lemma shared_read {A} m (f : guarded m → A * guarded m) k (Q : exit A → known → Prop) :
  (∀ v, guarded_same m (f v).2 v) →
  (∀ k1 k2 cs, known_le k k1 → known_le k1 k2 → Inv self cs (k_hist k1) →
     Q (Returned (f (get_guarded m cs)).1) k2) →
  wp (shared role (Inv self)) (with_lock m (access m f)) k Q.
Proof.
  intros Hf HQ. apply shared_locked. intros k1 k2 cs Hk1 Hk2 HI.
  split; [by apply Inv_same|by eapply HQ].
Qed.

Lemma get_cached_payload_status_spec bh d k :
  wp (shared role (Inv self)) (get_cached_payload_status bh d) k
    (settles never (found d is_definite (λ h st, backed_status h bh st))).
Proof.
  apply shared_read.
  - intros c. unfold get_cached_payload_status_locked. pose proof (get_same bh c).
    by destruct (lru_get bh c).
  - intros k1 k2 cs Hk1 [Hk2 _] HI st. unfold get_cached_payload_status_locked. simpl.
    pose proof (get_value bh (new_payload_cache cs)) as Hv.
    destruct (lru_get bh (new_payload_cache cs)) as [o c']. simpl in *. subst o.
    destruct (lru_peek bh (new_payload_cache cs)) as [e|] eqn:He; [|done].
    intros Hst. case_match eqn:Hd; simplify_eq. split.
    + eapply backed_status_mono; [done|]. by eapply backed_entry_status, inv_new_payload.
    + intros ->. done.
Qed.

Lemma find_head_Some fcu (c : Cache JsonForkchoiceStateV1 JsonPayloadStatusV1) st :
  find_head fcu c = Some st →
  ∃ fcu', head_block_hash fcu' = head_block_hash fcu ∧ lru_peek fcu' c = Some st.
Proof.
  unfold find_head. intros Hf. apply fmap_Some in Hf as ([fcu' st'] & Hf & ->).
  apply find_some in Hf as [Hin Hhead]. apply bool_decide_eq_true in Hhead.
  exists fcu'. split; [done|]. by apply lru_elem_peek, list_elem_of_In.
Qed.

(** What the lookup under the first lock of [get_cached_fcu] yields. *)
Definition looked_up (h : Hist) (fcu : JsonForkchoiceStateV1) (st : JsonPayloadStatusV1) :
    Prop :=
  match fcu_matching (config self) with
  | Exact => backed_fcu h fcu st
  | Loose | HeadOnly =>
    ∃ fcu', head_block_hash fcu' = head_block_hash fcu ∧ backed_fcu h fcu' st
  end.

Lemma lookup_fcu_backed fcu cs h st :
  Inv self cs h → (lookup_fcu self fcu (fcu_cache cs)).1 = Some st → looked_up h fcu st.
Proof.
  intros HI. unfold lookup_fcu, looked_up.
  case_match; simpl; [rewrite get_value; apply (inv_fcu _ _ _ HI)|..];
    intros (fcu' & Hh & Hp)%find_head_Some; exists fcu'; (split; [done|]);
    by apply (inv_fcu _ _ _ HI).
Qed.

(** A test of one of the block caches, positive only with evidence. *)
Lemma contains_spec m field bh k
    (f : guarded m → bool * guarded m) :
  (∀ v, guarded_same m (f v).2 v) →
  (∀ cs h, Inv self cs h → (f (get_guarded m cs)).1 = true → valid_fcu_with h field bh) →
  wp (shared role (Inv self)) (with_lock m (access m f)) k
    (settles never (λ b h, b = true → valid_fcu_with h field bh)).
Proof.
  intros Hsame Hf. apply shared_read; [done|]. intros k1 k2 cs Hk1 [Hk2 _] HI. simpl.
  intros Hb. eapply valid_fcu_with_mono; [done|]. by eapply Hf.
Qed.

Lemma looked_up_mono h h' fcu st :
  h `suffix_of` h' → looked_up h fcu st → looked_up h' fcu st.
Proof.
  intros Hs. unfold looked_up. case_match; [by apply backed_fcu_mono|..];
    intros (f & ? & ?); exists f; (split; [done|]); by eapply backed_fcu_mono.
Qed.

(** The check of the justified and finalized caches. *)
Definition just_and_fin (fcu : JsonForkchoiceStateV1) (h : Hist) : Prop :=
  match fcu_matching (config self) with
  | Exact | HeadOnly => True
  | Loose => valid_fcu_with h safe_block_hash (safe_block_hash fcu) ∧
             valid_fcu_with h finalized_block_hash (finalized_block_hash fcu)
  end.

Lemma looked_up_matched fcu h st :
  looked_up h fcu st → just_and_fin fcu h → fcu_matched self h fcu st.
Proof. unfold looked_up, just_and_fin, fcu_matched. by case_match. Qed.

Lemma get_cached_fcu_spec fcu d k :
  wp (shared role (Inv self)) (get_cached_fcu self fcu d) k
    (settles never (found d is_definite (λ h st, fcu_matched self h fcu st))).
Proof.
  apply shared_with_lock. intros k0 Hk0.
  eapply shared_bind with (N := λ o k1, ∀ st, o = Some st → looked_up (k_hist k1) fcu st).
  { apply shared_access. intros k1 cs Hk1 HI. split; [by apply Inv_same, HI; apply lookup_fcu_same|].
    simpl. intros st. by apply lookup_fcu_backed. }
  intros [st|] k1 Hk1 Hst; [|done]. specialize (Hst st eq_refl).
  eapply shared_bind with (N := λ b k2, b = true → just_and_fin fcu (k_hist k2)).
  { unfold just_and_fin. destruct (fcu_matching (config self)); [done| |done].
    eapply shared_bind with (N := λ b k2, b = true →
      valid_fcu_with (k_hist k2) safe_block_hash (safe_block_hash fcu)).
    - eapply wp_mono.
      + apply (contains_spec MJustified safe_block_hash (safe_block_hash fcu)); [done|].
        intros cs h HI Hc. by apply (inv_justified _ _ _ HI), contains_peek.
      + by intros [b|m|].
    - intros [] k2 Hk2 Hj; [|done]. specialize (Hj eq_refl).
      eapply wp_mono; [apply shared_known_le|].
      + apply (contains_spec MFinalized finalized_block_hash (finalized_block_hash fcu)); [done|].
        intros cs h HI Hc. by apply (inv_finalized _ _ _ HI), contains_peek.
      + intros [b|m|] k3 [[Hk3 _] Hb]; [|done..]. simpl. intros ->. split; [|by apply Hb].
        by eapply valid_fcu_with_mono. }
  intros b k2 [Hk2 _] Hb. simpl. intros k3 [Hk3 _] st'.
  destruct b; simpl; [|done]. specialize (Hb eq_refl). intros Heq.
  case_match eqn:Hdef; simplify_eq. split; [|by intros ->].
  eapply fcu_matched_mono; [done|]. apply looked_up_matched; [|done].
  by eapply looked_up_mono.
Qed.

(** ** Sequencing *)

Lemma settles_weaken {R} (P P' : Hist → Prop) (Φ Φ' : R → Hist → Prop) p k :
  wp (shared role (Inv self)) p k (settles P Φ) → (∀ h, P h → P' h) → (∀ r h, Φ r h → Φ' r h) →
  wp (shared role (Inv self)) p k (settles P' Φ').
Proof.
  intros Hp HP HΦ. eapply wp_mono; [exact Hp|]. intros [r|m|] k'; simpl; auto.
Qed.

Lemma settles_bind {A B} (P : Hist → Prop) (N : A → Hist → Prop) (Φ : B → Hist → Prop)
    (p : prog A) (f : A → prog B) k :
  wp (shared role (Inv self)) p k (settles P N) →
  (∀ a k', known_le k k' → N a (k_hist k') → wp (shared role (Inv self)) (f a) k' (settles P Φ)) →
  wp (shared role (Inv self)) (bind p f) k (settles P Φ).
Proof.
  intros Hp Hf. eapply shared_bind with (N := λ a k', N a (k_hist k')); [|exact Hf].
  eapply wp_mono; [exact Hp|]. by intros [a|m|] k'.
Qed.

Lemma settles_bind_result {A B E} (P : Hist → Prop) (N : result A E → Hist → Prop)
    (Φ : result B E → Hist → Prop) (p : prog (result A E)) (f : A → prog (result B E)) k :
  wp (shared role (Inv self)) p k (settles P N) →
  (∀ a k', known_le k k' → N (Ok a) (k_hist k') →
     wp (shared role (Inv self)) (f a) k' (settles P Φ)) →
  (∀ e h, N (Err e) h → Φ (Err e) h) →
  wp (shared role (Inv self)) (bind_result p f) k (settles P Φ).
Proof.
  intros Hp Hf He. eapply settles_bind; [exact Hp|]. intros [a|e] k' Hle HN; [auto|].
  by apply He.
Qed.

Lemma settles_poll_until {A} (P : Hist → Prop) (Φ : option A → Hist → Prop)
    (poll : prog (option A)) wait k :
  (∀ k, wp (shared role (Inv self)) poll k
          (settles P (λ o h, match o with Some a => Φ (Some a) h | None => True end))) →
  (∀ h, Φ None h) →
  wp (shared role (Inv self)) (poll_until wait poll) k (settles P Φ).
Proof.
  intros Hpoll HNone. apply shared_poll_until with (J := λ _, True); try done.
  intros k' _. apply HNone.
Qed.

(** A panic is allowed where the post-condition says so. *)
Lemma settles_lift_outcome {A} (P : Hist → Prop) (Φ : A → Hist → Prop) (o : outcome A) k :
  (∀ a, o = Done a → Φ a (k_hist k)) → (∀ m, o = Panicked m → P (k_hist k)) →
  wp (shared role (Inv self)) (lift_outcome o) k (settles P Φ).
Proof. intros Ho Hp. destruct o as [a|m]; simpl; [auto|]. by apply (Hp m). Qed.

(** A call which does not drive the engine. *)
Lemma settles_call {A} (P : Hist → Prop) (Φ : A → Hist → Prop) (e : ev A) k :
  match e with EChainId _ | ECapabilities _ | ERpcRequest _ _ _ => True | _ => False end →
  (∀ a c h, call_of e a = Some c → (role, c) ∈ h → Φ a h) →
  wp (shared role (Inv self)) (trigger e) k (settles P Φ).
Proof.
  destruct e; simpl; try done; intros _ HΦ k' ans Hk;
    (split; [intros cs; by apply Inv_call|eapply HΦ; [done|by left]]).
Qed.

(** A write that keeps the invariant. *)
Lemma settles_locked {A} (P : Hist → Prop) (Φ : A → Hist → Prop) m (f : guarded m → A * guarded m) k :
  (∀ k' cs, known_le k k' → Inv self cs (k_hist k') →
     Inv self (set_guarded m (f (get_guarded m cs)).2 cs) (k_hist k') ∧
     ∀ h, k_hist k' `suffix_of` h → Φ (f (get_guarded m cs)).1 h) →
  wp (shared role (Inv self)) (with_lock m (access m f)) k (settles P Φ).
Proof.
  intros Hf. apply shared_locked. intros k1 k2 cs Hk1 [Hk2 _] HI.
  destruct (Hf k1 cs Hk1 HI) as [HI' HΦ]. split; [done|]. by apply HΦ.
Qed.
End handlers.
