(* ===== verification/Replies.v ===== *)
(** The handlers and the routes against the specifications of Backed.v, and the
    invariant of every reachable state of the server. *)
From S2P Require Import Prelude Uint256 BaseFee Lru Lighthouse Types Config Multiplexer.
From S2P Require Import Prog Logic Shared PayloadBuilder BuilderSpec Fcu NewPayload Meta.
From S2P Require Import Jwt Main Methods System Isolation Invariant Backed.

Section common.
Context `{ExtOk} `{!NetworkOps} `{JwtOps}.
Variable self : Statics.
Variable role : Role.

(** Nothing is claimed about the reply. *)
Definition any_reply {R} (r : R) (h : Hist) : Prop := True.

Lemma settles_read {A} (P : Hist → Prop) (Φ : A → Hist → Prop) m (f : guarded m → A * guarded m) k :
  (∀ v, guarded_same m (f v).2 v) →
  (∀ cs h h', Inv self cs h → h `suffix_of` h' → Φ (f (get_guarded m cs)).1 h') →
  wp (shared role (Inv self)) (with_lock m (access m f)) k (settles P Φ).
Proof.
  intros Hf HΦ. apply settles_locked. intros k' cs Hk HI. split; [by apply Inv_same|].
  intros h. by apply HΦ.
Qed.

Lemma get_existing_payload_id_spec bh pa k :
  wp (shared role (Inv self)) (get_existing_payload_id bh pa) k
    (settles never (λ r h, ∀ i, r = Ok i → promised self h (bh, pa))).
Proof.
  eapply settles_bind with (N := λ o h, ∀ i, o = Some i → promised self h (bh, pa)).
  - apply settles_read.
    + intros b. unfold get_existing_payload_id_locked. simpl.
      pose proof (get_same (bh, pa) (payload_attributes b)).
      destruct (lru_get _ _); simpl in *. by apply get_same_builder.
    + intros cs h h' HI Hh i. unfold get_existing_payload_id_locked. simpl.
      pose proof (get_value (bh, pa) (payload_attributes (payload_builder cs))) as Hv.
      destruct (lru_get _ _) as [o c]. simpl in *. subst o. intros Hp.
      eapply promised_mono; [exact Hh|]. by apply (inv_attributes _ _ _ HI _ i).
  - intros [i|] k' _ Hi; simpl; [|done]. intros j [= <-]. by apply (Hi i).
Qed.

Lemma get_payload_spec i k :
  wp (shared role (Inv self)) (get_payload i) k
    (settles never (λ r h, ∀ p, r = Ok p → dummy self h p)).
Proof.
  eapply settles_bind with (N := λ o h, ∀ p, o = Some p → dummy self h p).
  - apply settles_read.
    + intros b. unfold get_payload_locked. simpl. pose proof (get_same i (payloads b)).
      destruct (lru_get _ _); simpl in *. by apply get_same_builder.
    + intros cs h h' HI Hh p. unfold get_payload_locked. simpl.
      pose proof (get_value i (payloads (payload_builder cs))) as Hv.
      destruct (lru_get _ _) as [o c]. simpl in *. subst o. intros Hp.
      eapply dummy_mono; [exact Hh|]. by apply (inv_payloads _ _ _ HI i).
  - intros [p|] k' _ Hp; simpl; [|done]. intros q [= <-]. by apply Hp.
Qed.

Lemma get_payload_response_done j :
  jep_fork j ≠ Fulu → ∃ resp, get_payload_response j = Done resp.
Proof. destruct j; simpl; eauto. done. Qed.

Lemma handle_get_payload_spec r k :
  wp (shared role (Inv self)) (handle_get_payload r) k
    (settles never (get_payload_reply self r)).
Proof.
  unfold handle_get_payload. destruct (parse_as _ r) as [[id [[i]]]|e] eqn:Hr; [|done].
  pose proof Hr as [-> _]%parse_as_Ok. rewrite bind_result_Ok.
  eapply settles_bind; [apply get_payload_spec|].
  intros [p|e] k2 _ Hp; [|done]. specialize (Hp p eq_refl).
  destruct (get_payload_response_done (jep_from_payload p)) as [response Hresp].
  { rewrite jep_from_payload_fork. by eapply dummy_not_fulu. }
  rewrite Hresp, lift_outcome_Done, bind_Ret. intros resp Hx. by exists i, p, response.
Qed.

(** ** The relayed methods *)

Lemma handle_syncing_spec r k :
  wp (shared role (Inv self)) (handle_syncing r) k
    (settles never (λ x _, ∀ resp, x = Ok resp → Response_new (req_id r) false = Ok resp)).
Proof.
  unfold handle_syncing. destruct (parse_as _ r) as [[id ps]|e] eqn:Hp; [|done].
  apply parse_as_Ok in Hp as [-> _]. intros resp Hresp. exact Hresp.
Qed.

Lemma handle_chain_id_spec r k :
  wp (shared role (Inv self)) (handle_chain_id r) k
    (settles never (λ x h, ∀ resp, x = Ok resp → ∃ c, (role, CallChainId (Ok c)) ∈ h ∧
       Response_new (req_id r) (MkQuantityU64 (chain_id_into c)) = Ok resp)).
Proof.
  unfold handle_chain_id. destruct (parse_as _ r) as [[id ps]|e] eqn:Hp; [|done].
  apply parse_as_Ok in Hp as [-> _]. rewrite bind_result_Ok.
  eapply settles_bind with (N := λ ans h, (role, CallChainId ans) ∈ h).
  { apply settles_call; [done|]. by intros ans c h [= <-]. }
  intros [c|e] k2 _ Hc; simpl; [|done]. intros resp Hresp. by exists c.
Qed.

Lemma handle_engine_capabilities_spec r k :
  wp (shared role (Inv self)) (handle_engine_capabilities r) k
    (settles never (λ x h, ∀ resp, x = Ok resp → ∃ c, (role, CallCapabilities (Ok c)) ∈ h ∧
       Response_new (req_id r) (capabilities_to_response c) = Ok resp)).
Proof.
  unfold handle_engine_capabilities.
  destruct (parse_as _ r) as [[id [ps]]|e] eqn:Hp; [|done].
  apply parse_as_Ok in Hp as [-> _]. rewrite bind_result_Ok.
  eapply settles_bind with (N := λ ans h, (role, CallCapabilities ans) ∈ h).
  { apply settles_call; [done|]. by intros ans c h [= <-]. }
  intros [c|e] k2 _ Hc; simpl; [|done]. intros resp Hresp. by exists c.
Qed.

Lemma proxy_directly_spec r k :
  wp (shared role (Inv self)) (proxy_directly r) k
    (settles never (λ x h,
       ∃ ans, (role, CallRpcRequest (req_method r) (req_params r) ans) ∈ h ∧
         x = match ans with
             | Ok v => Ok (MkResponse "2.0" (req_id r) v)
             | Err e => Err (parse_error_generic (req_id r) (debug_engine_error e))
             end)).
Proof.
  eapply settles_bind with
    (N := λ ans h, (role, CallRpcRequest (req_method r) (req_params r) ans) ∈ h).
  { apply settles_call; [done|]. by intros ans c h [= <-]. }
  intros [v|e] k2 _ Hans; simpl; eexists; (split; [exact Hans|]); [|done].
  unfold Response_new. by rewrite ser_value_id.
Qed.

Lemma relayed_other r x h :
  req_method r ∉ meta_methods ++ proxied_methods → relayed role r x h.
Proof.
  rewrite elem_of_app, <- is_proxied_spec. unfold meta_methods. rewrite !elem_of_cons.
  unfold relayed. naive_solver.
Qed.

Lemma common_relayed r x h :
  req_method r ∈ meta_methods ++ proxied_methods → relayed role r x h →
  common_reply self role r x h.
Proof. intros (_ & _ & Hg)%relayed_apart Hrel. split; [done|by rewrite Hg]. Qed.

Lemma common_other r x h :
  req_method r ∉ meta_methods ++ proxied_methods → is_get_payload (req_method r) = false →
  common_reply self role r x h.
Proof. intros Hm Hg. split; [by apply relayed_other|by rewrite Hg]. Qed.

(** What the two dispatch tables share. *)
Lemma common_spec r k :
  is_forkchoice_updated (req_method r) = false → is_new_payload (req_method r) = false →
  wp (shared role (Inv self)) (process_client_request self r) k 
    (settles never (common_reply self role r)).
Proof.
  intros Hf Hn. unfold process_client_request. rewrite Hf, Hn.
  pose proof meta_methods_distinct as Hd. unfold meta_methods in Hd.
  rewrite !NoDup_cons, !not_elem_of_cons in Hd. destruct Hd as ((?&?&_)&(?&_)&_).
  assert (Hmeta : req_method r ∈ meta_methods → is_proxied (req_method r) = false)
    by apply meta_not_proxied.
  assert (Hin : req_method r ∈ meta_methods → req_method r ∈ meta_methods ++ proxied_methods)
    by (intros; apply elem_of_app; by left).
  unfold meta_methods in Hmeta, Hin. rewrite !elem_of_cons in Hmeta, Hin.
  destruct (String.eqb_spec (req_method r) ETH_SYNCING) as [Hm|Hm1].
  { eapply settles_weaken; [apply handle_syncing_spec|done|]. intros x h Hx.
    apply common_relayed; [auto|]. unfold relayed. rewrite Hmeta, Hm by auto. by split_and!. }
  destruct (String.eqb_spec (req_method r) "eth_chainId") as [Hm|Hm2].
  { eapply settles_weaken; [apply handle_chain_id_spec|done|]. intros x h Hx.
    apply common_relayed; [auto|]. unfold relayed. rewrite Hmeta, Hm by auto. by split_and!. }
  destruct (String.eqb_spec (req_method r) ENGINE_EXCHANGE_CAPABILITIES) as [Hm|Hm3].
  { eapply settles_weaken; [apply handle_engine_capabilities_spec|done|]. intros x h Hx.
    apply common_relayed; [auto|]. unfold relayed. rewrite Hmeta, Hm by auto.
    split_and!; congruence || done. }
  destruct (is_proxied (req_method r)) eqn:Hp.
  { eapply settles_weaken; [apply proxy_directly_spec|done|]. intros x h Hx.
    apply common_relayed; [apply elem_of_app; right; by apply is_proxied_spec|].
    by split_and!. }
  assert (Hother : ∀ x h, relayed role r x h).
  { intros x h. unfold relayed. rewrite Hp. by split_and!. }
  destruct (is_get_payload (req_method r)) eqn:Hg.
  - eapply settles_weaken; [by apply handle_get_payload_spec|done|]. intros x h Hx. by split.
  - split; [by apply Hother|by rewrite Hg].
Qed.

(** ** The client's handlers *)

Lemma client_fcu_status_spec fcu k :
  wp (shared role (Inv self)) (client_fcu_status self fcu) k
    (settles never (λ st h, st = synthetic_syncing ∨ fcu_matched self h fcu st)).
Proof.
  assert (Hget : ∀ d k, wp (shared role (Inv self)) (get_cached_fcu self fcu d) k
    (settles never (λ o h, match o with
                           | Some st => fcu_matched self h fcu st
                           | None => True
                           end))).
  { intros d k'. eapply settles_weaken; [apply get_cached_fcu_spec|done|].
    intros [st|] h Hf; [|done]. by apply Hf. }
  eapply settles_bind with (N := λ o h, match o with
                                        | Some st => fcu_matched self h fcu st
                                        | None => True
                                        end).
  - by apply settles_poll_until.
  - intros [st|] k1 _ Hst; [by right|]. eapply settles_bind; [apply Hget|].
    intros [st|] k2 _ Hst'; [by right|by left].
Qed.

Lemma handle_fcu_spec r k :
  wp (shared role (Inv self)) (handle_fcu self r) k (settles never (fcu_reply self r)).
Proof.
  unfold handle_fcu. destruct (parse_as _ r) as [[id [fcu attrs]]|e] eqn:Hp; [|done].
  pose proof Hp as [-> _]%parse_as_Ok. rewrite bind_result_Ok.
  eapply settles_bind with (N := λ st h, st = synthetic_syncing ∨ fcu_matched self h fcu st).
  { apply client_fcu_status_spec. }
  intros st k1 _ Hst. eapply settles_bind with
    (N := λ pid h, id_promised self h (head_block_hash fcu)
                     ((λ a, pa_from_json (JPA_V2 a)) <$> attrs) pid).
  - destruct attrs as [a|]; [|done].
    eapply settles_bind; [apply get_existing_payload_id_spec|].
    intros [i|e] k2 _ Hi; [|done]. intros j [= <-]. eexists. split; [done|]. by eapply Hi.
  - intros pid k2 [Hk2 _] Hid resp Hresp. exists fcu, attrs, st, pid.
    split_and!; [done..| |exact Hid].
    destruct Hst as [Hst|Hst]; [by left|right]. by eapply fcu_matched_mono.
Qed.

Lemma client_new_payload_status_spec id bh n npr k :
  wp (shared role (Inv self)) (client_new_payload_status self id bh n npr) k
    (settles never (λ x h, ∀ st, x = Ok st →
       st = synthetic_syncing ∧ is_ok (verify_versioned_hashes npr) = true ∨
       backed_status h bh st)).
Proof.
  assert (Hget : ∀ d k, wp (shared role (Inv self)) (get_cached_payload_status bh d) k
    (settles never (λ o h, match o with Some st => backed_status h bh st | None => True end))).
  { intros d k'. eapply settles_weaken; [apply (get_cached_payload_status_spec)|done|].
    intros [st|] h Hf; [|done]. by apply Hf. }
  eapply settles_bind with (N := any_reply).
  { eapply settles_bind with (N := any_reply); [|done]. by apply settles_read. }
  intros recent k1 _ _.
  eapply settles_bind with
    (N := λ o h, match o with Some st => backed_status h bh st | None => True end).
  - destruct recent; [|done]. by apply settles_poll_until.
  - intros [st|] k2 _ Hst; [intros ? [= <-]; by right|].
    eapply settles_bind; [apply Hget|].
    intros [st|] k3 _ Hst'; [intros ? [= <-]; by right|].
    destruct (verify_versioned_hashes npr); simpl; [|done]. intros ? [= <-]. by left.
Qed.

Lemma handle_new_payload_spec r k :
  is_new_payload (req_method r) = true →
  wp (shared role (Inv self)) (handle_new_payload self r) k (settles never (new_payload_reply self r)).
Proof.
  intros Hm%is_new_payload_spec. unfold handle_new_payload.
  destruct (decode_new_payload_total self r) as [[d|e] Hd];
    rewrite Hd, lift_outcome_Done, ?bind_result_Ok; [|done].
  destruct (new_payload_request_total self r d Hm Hd) as [npr Hnpr]. rewrite Hnpr.
  rewrite lift_outcome_Done, bind_Ret.
  pose proof (decode_new_payload_id self r _ Hd) as Hid. simpl in Hid.
  destruct (verify_payload_block_hash npr) as [u|e] eqn:Hv; [|done].
  eapply settles_bind_result; [apply client_new_payload_status_spec| |done].
  intros st k1 _ Hst resp Hresp. exists d, npr, st. rewrite Hid in Hresp. rewrite Hv.
  split_and!; [done..|].
  by apply Hst.
Qed.

End common.

Section client.
Context `{ExtOk} `{!NetworkOps} `{JwtOps}.
Variable self : Statics.

(** Nothing is said of a method with a handler of its own. *)
Lemma common_driving role r x h :
  is_forkchoice_updated (req_method r) = true ∨ is_new_payload (req_method r) = true →
  common_reply self role r x h.
Proof.
  intros Hm. apply common_other; [|by apply driving_apart].
  intros (? & ? & ?)%relayed_apart. destruct Hm; congruence.
Qed.

Lemma process_client_request_spec r k :
  wp (shared RClient (Inv self)) (process_client_request self r) k
    (settles never (client_reply self r)).
Proof.
  destruct (is_forkchoice_updated (req_method r)) eqn:Hf.
  { unfold process_client_request. rewrite Hf.
    eapply settles_weaken; [apply handle_fcu_spec|done|]. intros x h Hx.
    split_and!; [done|by rewrite Hf|apply common_driving; auto]. }
  destruct (is_new_payload (req_method r)) eqn:Hn.
  { unfold process_client_request. rewrite Hf, Hn.
    eapply settles_weaken; [by apply handle_new_payload_spec|done|]. intros x h Hx.
    split_and!; [by rewrite Hf|done|apply common_driving; auto]. }
  eapply settles_weaken; [by apply common_spec|done|]. intros x h Hx.
  by split_and!; rewrite ?Hf, ?Hn.
Qed.
End client.

(** ** The client's endpoint *)

Section batches.
Context `{ExtOk} `{!NetworkOps} `{JwtOps}.
Variable self : Statics.

Definition batch_reply (rs : list Request) (out : list MaybeErrorResponse) (h : Hist) : Prop :=
  Forall2 (λ r x, ∃ reply, x = MaybeErrorResponse_from reply ∧ client_reply self r reply h)
    rs out.

Lemma batch_reply_mono rs out h h' :
  h `suffix_of` h' → batch_reply rs out h → batch_reply rs out h'.
Proof.
  intros Hs Hall. eapply Forall2_impl; [exact Hall|]. intros r x (reply & ? & ?).
  exists reply. split; [done|]. by eapply client_reply_mono.
Qed.

Lemma process_client_requests_spec rs done_rs acc k :
  batch_reply done_rs acc (k_hist k) →
  wp (shared RClient (Inv self)) (process_client_requests self rs acc) k
    (settles never (batch_reply (done_rs ++ rs))).
Proof.
  revert done_rs acc k. induction rs as [|r rs IH]; intros done_rs acc k Hacc.
  { by rewrite app_nil_r. }
  eapply settles_bind; [apply process_client_request_spec|]. intros reply k1 [Hk1 _] Hreply.
  replace (done_rs ++ r :: rs) with ((done_rs ++ [r]) ++ rs) by (by rewrite <- app_assoc).
  apply IH. apply Forall2_app; [by eapply batch_reply_mono|].
  constructor; [|constructor]. by exists reply.
Qed.
End batches.

Section routes.
Context `{ExtOk} `{!NetworkOps} `{JwtOps}.
Variable state : AppState.

(** What the replies of an authenticated client are traced to. *)
Definition client_traced (token : string) (body : result Requests string) (out : Responses)
    (h : Hist) : Prop :=
  match verify (client_jwt_collection state) token, body, out with
  | Ok _, Ok (Requests_Single r), Responses_Single x =>
    ∃ reply, x = MaybeErrorResponse_from reply ∧ client_reply (multiplexer state) r reply h
  | Ok _, Ok (Requests_Multiple rs), Responses_Multiple out =>
    batch_reply (multiplexer state) rs out h
  | _, _, _ => True
  end.

Lemma handle_client_json_rpc_spec token body k :
  wp (shared RClient (Inv (multiplexer state))) (handle_client_json_rpc state token body) k
    (settles never (client_traced token body)).
Proof.
  unfold handle_client_json_rpc, client_traced.
  destruct (verify (client_jwt_collection state) token); [|done].
  destruct body as [[r|rs]|e]; [..|done].
  - eapply settles_bind; [apply process_client_request_spec|]. intros reply k1 _ Hr.
    by exists reply.
  - eapply settles_bind; [apply (process_client_requests_spec _ _ [])|].
    + constructor.
    + intros out k1 _ Hout. exact Hout.
Qed.
End routes.
