(* ===== verification/RequestProps.v ===== *)
(** From a request to a handler: dispatch by method, and decoding of newPayload. *)
From S2P Require Import Prelude Uint256 BaseFee Lru RecencyList Lighthouse Types Config.
From S2P Require Import Multiplexer Prog Logic Shared PayloadBuilder Fcu NewPayload Meta Jwt.
From S2P Require Import Main Methods Toy Isolation Replies.

(** * The error codes *)

(** every error code has its own number on the wire and is read back from it, and no
    other number is read as a code. *)
Theorem error_code_round_trip :
  (∀ c, ErrorCode_from_repr (ErrorCode_repr c) = Some c) ∧
  ∀ z c, ErrorCode_from_repr z = Some c → ErrorCode_repr c = z.
Proof.
  split; [by intros []|]. intros z c Hz. unfold ErrorCode_from_repr in Hz.
  apply bind_Some in Hz as ([i c'] & Hf & Hc).
  apply list_find_Some in Hf as (_ & <- & _). simpl in Hc. by injection Hc as ->.
Qed.

Section decoding.
Context `{ExtOk} `{!NetworkOps}.
Variable self : Statics.

(** The number of parameters of a newPayload method. *)
Definition new_payload_arity (method : string) : nat :=
  if String.eqb method ENGINE_NEW_PAYLOAD_V4 then 4
  else if String.eqb method ENGINE_NEW_PAYLOAD_V3 then 3 else 1.

(** The fork of the payload a method carries at a slot: the version of the method bounds
    it, and so does the fork of the slot. *)
Definition new_payload_fork (method : string) (fork : ForkName) : ForkName :=
  if String.eqb method ENGINE_NEW_PAYLOAD_V1 || bool_decide (fork = Bellatrix) then Bellatrix
  else if String.eqb method ENGINE_NEW_PAYLOAD_V2 || bool_decide (fork = Capella) then Capella
  else if String.eqb method ENGINE_NEW_PAYLOAD_V3 || bool_decide (fork = Deneb) then Deneb
  else Electra.

Lemma decode_payload_fork m fork v p :
  decode_payload m fork v = Ok p → jep_fork p = new_payload_fork m fork.
Proof.
  unfold decode_payload, new_payload_fork, result_map. intros Hp. by cases.
Qed.

Lemma decode_extra_params_Ok id m ps vh root reqs :
  decode_extra_params id m ps = Done (Ok (vh, root, reqs)) →
  length ps = new_payload_arity m ∧
  (is_Some vh ↔ new_payload_arity m ≠ 1) ∧ (is_Some root ↔ new_payload_arity m ≠ 1) ∧
  (is_Some reqs ↔ new_payload_arity m = 4).
Proof.
  unfold decode_extra_params, new_payload_arity, from_param, outcome_result_bind, outcome_bind,
    map_err.
  destruct (String.eqb m ENGINE_NEW_PAYLOAD_V4); [|destruct (String.eqb m ENGINE_NEW_PAYLOAD_V3)].
  1: destruct (Nat.eqb_spec (length ps) 4) as [Hl|Hl]; simpl; [|done].
  2: destruct (Nat.eqb_spec (length ps) 3) as [Hl|Hl]; simpl; [|done].
  3: destruct (Nat.eqb_spec (length ps) 1) as [Hl|Hl]; simpl; [|done].
  all: intros Hd; cases; simplify_eq; split_and!; try done; split; intros Hx; try (by destruct Hx); try (by eexists); lia.
Qed.

(** C33: a newPayload request that is decoded has the number of parameters of its method,
    the extra parameters exactly from version 3 (execution requests: 4) on, a timestamp
    that lies in a slot, and a payload of the fork that its method and the slot's fork
    select; the id is the request's. *)
Theorem decode_new_payload_shape r d :
  decode_new_payload self r = Done (Ok d) →
  ∃ params payload_json quantity slot timestamp,
    from_value (list JsonValue) (req_params r) = Ok params ∧
    length params = new_payload_arity (req_method r) ∧
    params !! 0 = Some payload_json ∧
    json_get payload_json "timestamp" = Some quantity ∧
    from_value QuantityU64 quantity = Ok timestamp ∧
    timestamp_to_slot self (value timestamp) = Some slot ∧
    jep_fork (dec_payload d) =
      new_payload_fork (req_method r) (fork_name_at_slot (spec self) slot) ∧
    (is_Some (dec_versioned_hashes d) ↔ new_payload_arity (req_method r) ≠ 1) ∧
    (is_Some (dec_parent_beacon_block_root d) ↔ new_payload_arity (req_method r) ≠ 1) ∧
    (is_Some (dec_execution_requests d) ↔ new_payload_arity (req_method r) = 4) ∧
    dec_id d = req_id r.
Proof.
  unfold decode_new_payload. intros Hd.
  destruct (parse_as (list JsonValue) r) as [[id ps]|e] eqn:Hp; simpl in Hd; [|done].
  apply parse_as_Ok in Hp as [-> Hps].
  destruct (decode_extra_params _ _ ps) as [[[[vh root] reqs]|e]|m] eqn:Hx; simpl in Hd; try done.
  apply decode_extra_params_Ok in Hx as (Hlen & Hvh & Hroot & Hreqs).
  destruct (index ps 0) as [v|] eqn:Hv; simpl in Hd; [|done].
  destruct (json_get v "timestamp") as [q|] eqn:Hq; simpl in Hd; [|done].
  destruct (from_value QuantityU64 q) as [ts|] eqn:Hts; simpl in Hd; [|done].
  destruct (timestamp_to_slot self (value ts)) as [slot|] eqn:Hs; simpl in Hd; [|done].
  destruct (decode_payload _ _ v) as [p|] eqn:Hpay; simpl in Hd; [|done]. simplify_eq. simpl.
  exists ps, v, q, slot, ts. split_and!; try done; try tauto.
  - unfold index in Hv. by destruct (ps !! 0); simplify_eq/=.
  - by eapply decode_payload_fork.
Qed.

(** decoding never panics, and what is decoded from one of the four newPayload methods
    always makes a request for the engine, which carries the decoded payload: the panics
    of the code (missing execution requests, payloads of a later fork) are out of reach. *)
Theorem decoded_payload_makes_request r :
  req_method r ∈ new_payload_methods →
  ∃ res, decode_new_payload self r = Done res ∧
    ∀ d, res = Ok d →
      ∃ npr, new_payload_request_from_parts (ep_from_json (dec_payload d))
               (dec_versioned_hashes d) (dec_parent_beacon_block_root d)
               (dec_execution_requests d) = Done npr ∧
             npr_payload npr = ep_from_json (dec_payload d).
Proof.
  intros Hm. destruct (decode_new_payload_total self r) as [res Hres]. exists res.
  split; [done|]. intros d ->. destruct (new_payload_request_total self r d Hm Hres) as [npr Hn].
  exists npr. split; [done|]. by apply new_payload_request_payload in Hn.
Qed.
End decoding.

Section dispatch.
Context `{ExtOk} `{!NetworkOps}.
Variable self : Statics.

(** the methods.  A method the program does not name gets a METHOD_NOT_FOUND with the
    request's id from both endpoints, without any event; the two endpoints treat alike
    every method but forkchoiceUpdated and newPayload; and no method is taken for two. *)
Theorem dispatch_by_method r :
  (req_method r ∉ method_names →
   process_client_request self r =
     Ret (Err (unsupported_method (req_id r) (req_method r))) ∧
   process_controller_request self r =
     Ret (Err (unsupported_method (req_id r) (req_method r)))) ∧
  (is_forkchoice_updated (req_method r) = false → is_new_payload (req_method r) = false →
   process_client_request self r = process_controller_request self r) ∧
  (is_forkchoice_updated (req_method r) = true → is_new_payload (req_method r) = false) ∧
  (is_get_payload (req_method r) = true → is_proxied (req_method r) = false).
Proof.
  split_and!.
  - rewrite method_names_split, !not_elem_of_app. intros (Hm1 & Hm2 & Hm3 & Hm4 & Hm5).
    rewrite <- is_new_payload_spec, not_true_iff_false in Hm1.
    rewrite <- is_forkchoice_updated_spec, not_true_iff_false in Hm2.
    rewrite <- is_get_payload_spec, not_true_iff_false in Hm3.
    rewrite <- is_proxied_spec, not_true_iff_false in Hm5.
    unfold meta_methods in Hm4. rewrite !not_elem_of_cons in Hm4. destruct Hm4 as (?&?&?&_).
    unfold process_client_request, process_controller_request.
    rewrite Hm1, Hm2, Hm3, Hm5. by rewrite !(proj2 (String.eqb_neq _ _)).
  - apply same_dispatch.
  - apply forkchoice_not_new_payload.
  - intros Hg. apply not_true_iff_false. intros Hp%is_proxied_spec.
    destruct (relayed_apart (req_method r)) as (_ & _ & Hg'); [|congruence].
    apply elem_of_app. by right.
Qed.
End dispatch.

Section witnesses.
Import ToyInstances.

Definition toy_decoded : DecodedPayload :=
  MkDecodedPayload (TNum 1)
    (JEP_V2 (ToyPayload 6 7006 7 1084 15000000 30000000 (u256_mk 1000000000))) None None None.

Lemma decode_new_payload_shape_witness :
  ∃ params, from_value (list JsonValue) (req_params toy_new_payload) = Ok params ∧
    length params = 1.
Proof.
  destruct (decode_new_payload_shape toy_statics toy_new_payload toy_decoded)
    as (params & _ & _ & _ & _ & Hp & Hl & _); [computes|].
  exists params. exact (conj Hp Hl).
Defined.

Lemma decoded_payload_makes_request_witness :
  ∃ res, decode_new_payload toy_statics toy_new_payload = Done res ∧
    ∀ d, res = Ok d →
      ∃ npr, new_payload_request_from_parts (ep_from_json (dec_payload d))
               (dec_versioned_hashes d) (dec_parent_beacon_block_root d)
               (dec_execution_requests d) = Done npr ∧
             npr_payload npr = ep_from_json (dec_payload d).
Proof.
  refine (decoded_payload_makes_request toy_statics toy_new_payload _).
  right. left.
Defined.

Lemma dispatch_by_method_witness :
  process_client_request toy_statics (MkRequest "2.0" "eth_mine" TNull (TNum 4)) =
    Ret (Err (unsupported_method (TNum 4) "eth_mine")).
Proof.
  refine (proj1 (proj1 (dispatch_by_method toy_statics
    (MkRequest "2.0" "eth_mine" TNull (TNum 4))) _)).
  apply (bool_decide_unpack _). vm_compute. exact I.
Defined.
End witnesses.
