(* ===== verification/Tracing.v ===== *)
(** The controller's handlers keep the invariant: what they write in the caches comes
    from the engine's answers.  With Replies.v this covers every route, and the soundness
    of the logic gives the invariant of every reachable state. *)
From S2P Require Import Prelude Uint256 BaseFee Lru Lighthouse Types Config Multiplexer.
From S2P Require Import Prog Logic Shared PayloadBuilder BuilderSpec Fcu NewPayload Meta.
From S2P Require Import Jwt Main Methods System Isolation Invariant Backed Replies.

(** * Writes *)

Section writes.
Context `{ExtOk} `{!NetworkOps}.
Variable self : Statics.

Lemma Inv_write_fcu c cs h :
  Inv self cs h → (∀ fcu st, lru_peek fcu c = Some st → backed_fcu h fcu st) →
  Inv self (set_guarded MFcu c cs) h.
Proof. by intros [] ?. Qed.

Lemma Inv_write_new_payload c cs h :
  Inv self cs h → (∀ bh e, lru_peek bh c = Some e → backed_entry h bh e) →
  Inv self (set_guarded MNewPayload c cs) h.
Proof. by intros [] ?. Qed.

Lemma Inv_write_justified c cs h :
  Inv self cs h → (∀ bh, is_Some (lru_peek bh c) → valid_fcu_with h safe_block_hash bh) →
  Inv self (set_guarded MJustified c cs) h.
Proof. by intros [] ?. Qed.

Lemma Inv_write_finalized c cs h :
  Inv self cs h → (∀ bh, is_Some (lru_peek bh c) → valid_fcu_with h finalized_block_hash bh) →
  Inv self (set_guarded MFinalized c cs) h.
Proof. by intros [] ?. Qed.

Lemma Inv_write_builder b cs h :
  Inv self cs h →
  (∀ bh info, lru_peek bh (payload_info b) = Some info → backed_info h bh info) →
  (∀ key i, lru_peek key (payload_attributes b) = Some i → promised self h key) →
  (∀ i p, lru_peek i (payloads b) = Some p → dummy self h p) →
  Inv self (set_guarded MBuilder b cs) h.
Proof. by intros [] ?. Qed.

Lemma peek_put_is_Some {K V} `{EqDecision K} (k k' : K) (v : V) (c : Cache K V) :
  is_Some (lru_peek k' (lru_put k v c)) → k' = k ∨ is_Some (lru_peek k' c).
Proof. intros [v' [[-> _]|[_ Hv]]%peek_put_Some]; [by left|right; by eauto]. Qed.

Lemma Inv_put_justified fcu cs h :
  Inv self cs h → valid_fcu_with h safe_block_hash (safe_block_hash fcu) →
  Inv self (set_guarded MJustified (lru_put (safe_block_hash fcu) tt (justified_block_cache cs)) cs) h.
Proof.
  intros HI Hv. apply Inv_write_justified; [done|].
  intros bh [->|Hbh]%peek_put_is_Some; [done|]. by apply (inv_justified _ _ _ HI).
Qed.

Lemma Inv_put_finalized fcu cs h :
  Inv self cs h → valid_fcu_with h finalized_block_hash (finalized_block_hash fcu) →
  Inv self (set_guarded MFinalized
         (lru_put (finalized_block_hash fcu) tt (finalized_block_cache cs)) cs) h.
Proof.
  intros HI Hv. apply Inv_write_finalized; [done|].
  intros bh [->|Hbh]%peek_put_is_Some; [done|]. by apply (inv_finalized _ _ _ HI).
Qed.

Lemma Inv_put_new_payload bh e cs h :
  Inv self cs h → backed_entry h bh e →
  Inv self (set_guarded MNewPayload (lru_put bh e (new_payload_cache cs)) cs) h.
Proof.
  intros HI He. apply Inv_write_new_payload; [done|].
  intros bh' e' [[-> ->]|[_ Hp]]%peek_put_Some; [done|]. by apply (inv_new_payload _ _ _ HI).
Qed.

(** The engine's answer never replaces a definite status. *)
Lemma update_fcu_cache_peek fcu st (c : Cache JsonForkchoiceStateV1 JsonPayloadStatusV1) :
  lru_peek fcu (update_fcu_cache fcu st c).2 =
    Some match lru_peek fcu c with
         | Some old => if is_definite old then old else st
         | None => st
         end.
Proof.
  unfold update_fcu_cache.
  set (ow := λ old, if is_definite old then old else st).
  pose proof (get_mut_value fcu ow c) as Hv. pose proof (peek_get_mut fcu ow fcu c) as Hp.
  destruct (lru_get_mut fcu ow c) as [o c']. simpl in *. subst o.
  destruct (lru_peek fcu c) as [old|] eqn:Ho; simpl.
  - by rewrite Hp, decide_True.
  - apply peek_put_eq.
Qed.

(** Whether the answer is stored. *)
Lemma update_fcu_cache_stored fcu st (c : Cache JsonForkchoiceStateV1 JsonPayloadStatusV1) :
  (update_fcu_cache fcu st c).1 =
    match lru_peek fcu c with Some old => negb (is_definite old) | None => true end.
Proof.
  unfold update_fcu_cache.
  pose proof (get_mut_value fcu (λ old, if is_definite old then old else st) c) as Hv.
  destruct (lru_get_mut _ _ c) as [o c']. simpl in *. subst o. by destruct (lru_peek fcu c).
Qed.

(** An answer for a state with a definite status leaves the cache as it is. *)
Lemma update_fcu_cache_same fcu st old
    (c : Cache JsonForkchoiceStateV1 JsonPayloadStatusV1) :
  lru_peek fcu c = Some old → is_definite old = true →
  lru_same (update_fcu_cache fcu st c).2 c.
Proof.
  intros Hold Hdef. unfold update_fcu_cache.
  set (ow := λ old, if is_definite old then old else st).
  pose proof (get_mut_value fcu ow c) as Hv.
  pose proof (λ fcu', peek_get_mut fcu ow fcu' c) as Hp. pose proof (lru_get_mut_cap fcu ow c) as Hcap.
  destruct (lru_get_mut fcu ow c) as [o c']. simpl in *. subst o. rewrite Hold. simpl.
  split; [done|]. intros fcu'. rewrite Hp. case_decide; [|done]. subst fcu'.
  rewrite Hold. simpl. unfold ow. by rewrite Hdef.
Qed.

Lemma update_fcu_cache_Some fcu st fcu' st'
    (c : Cache JsonForkchoiceStateV1 JsonPayloadStatusV1) :
  lru_peek fcu' (update_fcu_cache fcu st c).2 = Some st' →
  (fcu' = fcu ∧ st' = st) ∨ lru_peek fcu' c = Some st'.
Proof.
  unfold update_fcu_cache.
  set (ow := λ old, if is_definite old then old else st).
  pose proof (get_mut_value fcu ow c) as Hv. pose proof (peek_get_mut fcu ow fcu' c) as Hp.
  destruct (lru_get_mut fcu ow c) as [o c']. simpl in *. subst o.
  destruct (lru_peek fcu c) as [old|] eqn:Ho; simpl.
  - rewrite Hp. destruct (decide (fcu' = fcu)) as [->|Hne]; [|by right].
    intros [= <-]. unfold ow. destruct (is_definite old) eqn:Hd; [by right; rewrite Ho|by left].
  - intros [[-> ->]|[Hne Hc]]%peek_put_Some; [by left|].
    rewrite Hp, decide_False in Hc by done. by right.
Qed.

Lemma Inv_update_fcu fcu resp cs h :
  Inv self cs h → fcu_answer h fcu resp →
  Inv self (set_guarded MFcu
    (update_fcu_cache fcu (payload_status (jfcu_from_response resp)) (fcu_cache cs)).2 cs) h.
Proof.
  intros HI Ha. apply Inv_write_fcu; [done|].
  intros fcu' st [[-> ->]|Hp]%update_fcu_cache_Some; [by exists resp|].
  by apply (inv_fcu _ _ _ HI).
Qed.

(** The payload which [register_attributes] has built, or built earlier. *)
Lemma register_attributes_promised slot parent pa cs h i :
  Inv self cs h → timestamp_to_slot self (pa_timestamp pa) = Some slot →
  (register_attributes_locked self slot parent pa (payload_builder cs)).1 = Done (Ok i) →
  promised self h (parent, pa).
Proof.
  intros HI Hslot Hret. pose proof (register_attributes_registered self slot parent pa
    (payload_builder cs)) as Hreg. rewrite Hret in Hreg. clear Hret.
  inversion Hreg as [i' b' Hk|b1|info o b' _ _ _ Hno _ Ho
    |info p o b' _ Hinfo Hbuild]; subst; simplify_eq.
  - by apply (inv_attributes _ _ _ HI _ i).
  - destruct o as [[p|m]|m]; [by destruct (Hno p)|done..].
  - exists (extra_data (payload_builder cs)), p, slot, info.
    split_and!; [done|by apply (inv_payload_info _ _ _ HI)|by apply build_payload_built].
Qed.

(** A panic of [register_attributes] comes from building. *)
Lemma register_attributes_panics slot parent pa cs h m :
  Inv self cs h →
  (register_attributes_locked self slot parent pa (payload_builder cs)).1 = Panicked m →
  build_panics h parent.
Proof.
  intros HI Hret. pose proof (register_attributes_registered self slot parent pa
    (payload_builder cs)) as Hreg. rewrite Hret in Hreg. clear Hret.
  inversion Hreg as [i' b' Hk|b1|info o b' _ Hinfo Hbuild Hno _ Ho
    |info p o b' _ Hinfo Hbuild Hadd]; subst; simplify_eq.
  - destruct (build_payload _ _ _ _ _ _) as [[p|e]|m'] eqn:Hb; simplify_eq.
    destruct (build_payload_panics _ _ _ _ _ _ _ Hb) as [[? _]|[m' ?]]; [by left|right].
    exists info, m'. split; [by apply (inv_payload_info _ _ _ HI)|done].
  - left. destruct (u64_add _ _) eqn:Hadd; simplify_eq. by eapply u64_add_panics in Hadd as [? _].
Qed.

Lemma Inv_register_attributes slot parent pa cs h :
  Inv self cs h → timestamp_to_slot self (pa_timestamp pa) = Some slot →
  Inv self (set_guarded MBuilder
         (register_attributes_locked self slot parent pa (payload_builder cs)).2 cs) h.
Proof.
  intros HI Hslot. pose proof (register_attributes_registered self slot parent pa
    (payload_builder cs)) as Hreg.
  destruct Hreg as [i b' ? Hs|b' ? ? Hs|info o b' ? ? ? ? Hs
    |info p o b' Hnew Hparent Hbuild Hadd _ _ Hattrs [_ Hinfo] Hpay _].
  1-3: by apply Inv_same.
  assert (Hb : built_for self (backed_info h) (extra_data (payload_builder cs)) (parent, pa) p).
  { exists slot, info.
    split_and!; [done|by apply (inv_payload_info _ _ _ HI)|by apply build_payload_built]. }
  apply Inv_write_builder; [done|..].
  - intros bh info'. rewrite Hinfo. apply (inv_payload_info _ _ _ HI).
  - intros key i. unfold lru_peek. rewrite Hattrs.
    intros [[-> ->]|[_ Hold]]%alookup_push_front_Some; [by eexists _, p|].
    by apply (inv_attributes _ _ _ HI key i).
  - intros i q. rewrite Hpay. intros [[-> ->]|[_ Hq]]%peek_put_Some.
    + by eexists _, (parent, pa).
    + by apply (inv_payloads _ _ _ HI i).
Qed.

Lemma Inv_register_canonical payload cs h :
  Inv self cs h → backed_info h (ep_block_hash payload) (payload_info_of payload) →
  Inv self (set_guarded MBuilder
         (register_canonical_payload_locked payload (payload_builder cs)) cs) h.
Proof.
  intros HI Hb. unfold register_canonical_payload_locked.
  pose proof (peek_goi_Some (ep_block_hash payload) (λ _ : unit, payload_info_of payload)) as Hg.
  specialize (Hg) with (c := payload_info (payload_builder cs)).
  destruct (lru_get_or_insert _ _ _) as [v infos]. simpl in Hg.
  apply Inv_write_builder; [done|..]; simpl; [|apply (inv_attributes _ _ _ HI)|apply (inv_payloads _ _ _ HI)].
  intros bh info Hi. destruct (Hg _ _ Hi) as [(-> & _ & ->)|Hold]; [done|].
  by apply (inv_payload_info _ _ _ HI).
Qed.
End writes.

(** * The controller's handlers *)

Section controller.
Context `{ExtOk} `{!NetworkOps} `{JwtOps}.
Variable self : Statics.

Lemma controller_write m (f : guarded m → guarded m) (P : Hist → Prop) k :
  (∀ h cs, k_hist k `suffix_of` h → Inv self cs h →
     Inv self (set_guarded m (f (get_guarded m cs)) cs) h) →
  wp (shared RController (Inv self)) (with_lock m (modify m f)) k (settles P any_reply).
Proof. intros Hf. apply settles_locked. intros k' cs [Hk' _] HI. split; [by apply Hf|done]. Qed.

Lemma register_attributes_spec bh pa k :
  wp (shared RController (Inv self)) (register_attributes self bh pa) k
    (settles (λ h, build_panics h bh) (λ r h, ∀ i, r = Ok i → promised self h (bh, pa))).
Proof.
  unfold register_attributes. destruct (timestamp_to_slot _ _) as [slot|] eqn:Hslot; [|done].
  apply shared_with_lock. intros k0 Hk0.
  eapply shared_bind with
    (N := λ o k1, (∀ i, o = Done (Ok i) → promised self (k_hist k1) (bh, pa)) ∧
                   ∀ m, o = Panicked m → build_panics (k_hist k1) bh).
  - apply shared_access. intros k' cs Hk HI. split; [by eapply Inv_register_attributes|].
    split; intros; [by eapply register_attributes_promised|by eapply register_attributes_panics].
  - intros [x|m] k1 _ [Hx Hm]; [|by apply (Hm m)]. intros k2 [Hk2 _] i ->.
    eapply promised_mono; [exact Hk2|]. by apply (Hx i).
Qed.

Lemma register_canonical_payload_spec payload st (P : Hist → Prop) k :
  (st ≠ Invalid → st ≠ InvalidBlockHash →
   backed_info (k_hist k) (ep_block_hash payload) (payload_info_of payload)) →
  wp (shared RController (Inv self)) (register_canonical_payload payload st) k (settles P any_reply).
Proof.
  intros Hb. unfold register_canonical_payload. repeat case_bool_decide; try done.
  apply controller_write. intros h cs Hh HI. apply Inv_register_canonical; [done|].
  eapply backed_info_mono; [done|]. by apply Hb.
Qed.

(** The engine's answers become evidence. *)
Lemma controller_forkchoice_updated {P : Hist → Prop} fcu (Φ : result ForkchoiceUpdatedResponse
    EngineError → Hist → Prop) k :
  (∀ resp h, fcu_answer h fcu resp → Φ (Ok resp) h) → (∀ e h, Φ (Err e) h) →
  wp (shared RController (Inv self)) (trigger (EForkchoiceUpdated (ForkchoiceState_from fcu) None)) k
    (settles P Φ).
Proof.
  intros Hok Herr k' ans Hk. split; [intros cs; by apply Inv_call|].
  destruct ans as [resp|e]; simpl; [apply Hok; by left|apply Herr].
Qed.

Lemma controller_fcu_status_spec id fcu (P : Hist → Prop) k :
  wp (shared RController (Inv self)) (controller_fcu_status self id fcu) k
    (settles P (λ x h, ∀ st, x = Ok st →
       fcu_matched self h fcu st ∧ is_definite st = true ∨ backed_fcu h fcu st)).
Proof.
  eapply settles_bind.
  { eapply settles_weaken; [apply get_cached_fcu_spec|done|by intros r h Hr; exact Hr]. }
  intros [st|] k1 _ Hst.
  { destruct (Hst st eq_refl) as [Hm Hd]. intros st' [= <-]. left. auto. }
  eapply settles_bind with
    (N := λ r h, match r with Ok resp => fcu_answer h fcu resp | Err _ => True end).
  { by apply controller_forkchoice_updated. }
  intros [resp|e] k2 _ Hans; [|done].
  eapply settles_bind with (N := any_reply).
  { apply settles_locked. intros k' cs [Hk' _] HI. split; [|done].
    apply Inv_update_fcu; [done|]. destruct Hk' as [l Hl]. unfold fcu_answer in *.
    rewrite Hl. apply elem_of_app. by right. }
  intros cached k3 [Hk3 _] _. eapply settles_bind with (N := any_reply).
  2: { intros _ k4 [Hk4 _] _ st [= <-]. right.
       apply (backed_fcu_mono (k_hist k2)); [by etrans|by exists resp]. }
  destruct (cached && _) eqn:Hc; [|done].
  apply andb_true_iff in Hc as [_ Hvalid%bool_decide_eq_true].
  assert (Hev : ∀ field h, k_hist k2 `suffix_of` h → valid_fcu_with h field (field fcu)).
  { intros field h Hh. exists fcu. eexists. split; [|split; [exact Hvalid|done]].
    eapply backed_fcu_mono; [exact Hh|]. by exists resp. }
  eapply settles_bind with (N := any_reply).
  - apply controller_write. intros h cs Hh HI. apply Inv_put_justified; [done|].
    apply Hev. by etrans.
  - intros _ k4 [Hk4 _] _. apply controller_write. intros h cs Hh HI.
    apply Inv_put_finalized; [done|]. apply Hev. do 2 (etrans; [done|]). done.
Qed.

Lemma handle_controller_fcu_spec r k :
  is_forkchoice_updated (req_method r) = true →
  wp (shared RController (Inv self)) (handle_controller_fcu self r) k
    (settles (controller_panics r) (controller_fcu_reply self r)).
Proof.
  intros Hm. unfold handle_controller_fcu.
  destruct (parse_as _ r) as [[id [fcu json]]|e] eqn:Hr; [|done].
  pose proof Hr as [-> _]%parse_as_Ok. rewrite bind_result_Ok.
  fold (controller_attributes r json).
  destruct (controller_attributes r json) as [attrs|e] eqn:Ha; [rewrite bind_result_Ok|done].
  eapply settles_bind_result; [apply controller_fcu_status_spec| |done].
  intros st k1 _ Hst. specialize (Hst st eq_refl).
  eapply settles_bind_result with (N := λ x h, ∀ pid, x = Ok pid →
    (is_Some attrs ↔ is_Some pid) ∧
    id_promised self h (head_block_hash fcu) (pa_from_json <$> attrs) pid); [| |done].
  - destruct attrs as [a|]; [|by intros ? [= <-]].
    eapply settles_bind.
    { eapply settles_weaken; [apply register_attributes_spec| |by intros x h Hx; exact Hx].
      intros h Hb. split; [done|]. by exists fcu, json, a. }
    intros [i|e] k2 _ Hi; [|done]. intros pid [= <-]. split; [done|]. intros j [= <-]. eexists. split; [done|]. by eapply Hi.
  - intros pid k2 [Hk2 _] Hpid resp Hresp. destruct (Hpid pid eq_refl) as [Hsome Hid].
    exists fcu, json, attrs, st, pid. do 3 (split; [done|]). split; [|by split].
    destruct Hst as [[? ?]|?]; [left; split; [by eapply fcu_matched_mono|done]|right].
    by eapply backed_fcu_mono.
Qed.

Lemma handle_controller_new_payload_spec r k :
  is_new_payload (req_method r) = true →
  wp (shared RController (Inv self)) (handle_controller_new_payload self r) k
    (settles never (controller_new_payload_reply self r)).
Proof.
  intros Hm%is_new_payload_spec. unfold handle_controller_new_payload.
  destruct (decode_new_payload_total self r) as [[d|e] Hd];
    rewrite Hd, lift_outcome_Done, ?bind_result_Ok; [|done].
  pose proof (decode_new_payload_id self r _ Hd) as Hid. simpl in Hid. rewrite Hid.
  set (bh := ep_block_hash (ep_from_json (dec_payload d))).
  eapply settles_bind with (N := λ npr _, npr_payload npr = ep_from_json (dec_payload d)).
  { destruct (new_payload_request_total self r d Hm Hd) as [npr Hnpr]. rewrite Hnpr.
    apply settles_lift_outcome; [|done]. intros ? [= <-]. by eapply new_payload_request_payload. }
  intros npr k2 _ Hnpr. eapply settles_bind_result with
    (N := λ x h, ∀ st, x = Ok st → backed_status h bh st); [| |done].
  2: { intros st k3 _ Hst resp Hresp. exists d, st. split_and!; [done..|by apply Hst]. }
  eapply settles_bind.
  { eapply settles_weaken; [apply (get_cached_payload_status_spec self)|done|].
    by intros x h Hx; exact Hx. }
  intros [st|] k3 _ Hst.
  { intros st' [= <-]. by apply (Hst st eq_refl). }
  eapply settles_bind with (N := λ x h, ∀ a, x = Ok a →
    (RController, CallNewPayload npr (Ok a)) ∈ h).
  { intros k' ans Hk. split; [intros cs; by apply Inv_call|]. intros a ->. by left. }
  intros [a|e] k4 _ Ha; [|done]. specialize (Ha _ eq_refl).
  assert (Hev : ∀ h, k_hist k4 `suffix_of` h → (RController, CallNewPayload npr (Ok a)) ∈ h).
  { intros h [l ->]. apply elem_of_app. by right. }
  eapply settles_bind with (N := any_reply).
  - apply controller_write. intros h cs Hh HI. apply Inv_put_new_payload; [done|].
    exists npr, a. rewrite Hnpr. split_and!; [by apply Hev|done..].
  - intros _ k5 [Hk5 _] _. eapply settles_bind with (N := any_reply).
    2: { intros _ k6 [Hk6 _] _ st [= <-]. exists npr, a. rewrite Hnpr.
         split; [|done]. apply Hev. by etrans. }
    apply register_canonical_payload_spec. intros Hi1 Hi2. exists npr, a.
    rewrite Hnpr. split_and!; try done. by apply Hev.
Qed.

(** Both endpoints treat a method that does not drive the engine alike. *)
Lemma process_controller_request_spec r k :
  wp (shared RController (Inv self)) (process_controller_request self r) k
    (settles (controller_panics r) (controller_reply self r)).
Proof.
  destruct (is_forkchoice_updated (req_method r)) eqn:Hf.
  { unfold process_controller_request. rewrite Hf.
    eapply settles_weaken; [by apply handle_controller_fcu_spec|done|]. intros x h Hx.
    split_and!; [done|by rewrite Hf|apply common_driving; auto]. }
  destruct (is_new_payload (req_method r)) eqn:Hn.
  { unfold process_controller_request. rewrite Hf, Hn.
    eapply settles_weaken; [by apply handle_controller_new_payload_spec|done|]. intros x h Hx.
    split_and!; [by rewrite Hf|done|apply common_driving; auto]. }
  rewrite <- same_dispatch by done. eapply settles_weaken; [by apply common_spec|done|].
  intros x h Hx. by split_and!; rewrite ?Hf, ?Hn.
Qed.
End controller.

(** * Every route, and every reachable state *)

Section server.
Context `{ExtOk} `{!NetworkOps} `{JwtOps}.
Variable state : AppState.

(** What the replies of the controller are traced to. *)
Definition controller_traced (token : string) (body : result Request string)
    (out : result Response ErrorResponse) (h : Hist) : Prop :=
  match verify_single_token token (controller_jwt state), body with
  | Ok _, Ok r => controller_reply (multiplexer state) r out h
  | _, _ => True
  end.

Definition reply_traced (r : HttpRequest) (out : HttpReply) (h : Hist) : Prop :=
  match r, out with
  | PostRoot token body, ClientReply out => client_traced state token body out h
  | PostCanonical token body, ControllerReply out => controller_traced token body out h
  | _, _ => True
  end.

(** A request which may panic: the controller's, as said in Backed.v. *)
Definition may_panic (r : HttpRequest) (h : Hist) : Prop :=
  match r with
  | PostCanonical token body =>
    match verify_single_token token (controller_jwt state), body with
    | Ok _, Ok r => controller_panics r h
    | _, _ => False
    end
  | PostRoot _ _ | GetHealth => False
  end.

Lemma may_panic_mono r h h' : h `suffix_of` h' → may_panic r h → may_panic r h'.
Proof.
  intros Hs. destruct r; simpl; try done. destruct (verify_single_token _ _), body; try done.
  by apply controller_panics_mono.
Qed.

(** The outcome of a route. *)
Definition route_reply (r : HttpRequest) (x : exit HttpReply) (k : known) : Prop :=
  settles (may_panic r) (reply_traced r) x k.

Lemma reply_traced_mono r out h h' :
  h `suffix_of` h' → reply_traced r out h → reply_traced r out h'.
Proof.
  intros Hs. destruct r as [token body|token body|], out as [out|out|]; simpl; try done.
  - unfold client_traced. destruct (verify _ _); [|done]. destruct body as [[r|rs]|e], out; try done.
    + intros (reply & ? & ?). exists reply. split; [done|]. by eapply client_reply_mono.
    + by apply batch_reply_mono.
  - unfold controller_traced. destruct (verify_single_token _ _), body; try done.
    by apply controller_reply_mono.
Qed.

Lemma route_spec r k :
  wp (shared (role_of r) (Inv (multiplexer state))) (route state r) k (route_reply r).
Proof.
  destruct r as [token body|token body|]; simpl; [..|done].
  - eapply settles_bind; [eapply settles_weaken; [apply handle_client_json_rpc_spec|done|done]|].
    by intros out k1 _ Hout.
  - eapply settles_bind with (N := controller_traced token body); [|by intros out k1 _ Hout].
    unfold handle_controller_json_rpc, controller_traced.
    destruct (verify_single_token _ _) as [v|e] eqn:Hv; [|done].
    destruct body as [rq|e]; [|done].
    eapply settles_weaken; [apply process_controller_request_spec| |done].
    intros h Hp. simpl. by rewrite Hv.
Qed.

Lemma reachable_sound cs s :
  fresh cs → reachable state cs s →
  Inv (multiplexer state) (mem_caches (sys_mem s)) (mem_hist (sys_mem s)) ∧
  ∀ t task, sys_tasks s !! t = Some task →
    ∃ k, known_le k (mem_known (sys_mem s)) ∧
         wp (shared (role_of (task_request task)) (Inv (multiplexer state))) (task_prog task) k
            (route_reply (task_request task)).
Proof. intros Hcs. apply shared_sound; [apply route_spec|by apply Inv_fresh]. Qed.
End server.
