(* ===== verification/Calls.v ===== *)
(** Which engine calls a request may cause: one at most, for what it asks.

    An instance of the program logic whose ghost state is the list of the requests for
    which the engine has not been called yet. *)
From S2P Require Import Prelude Uint256 Lru Lighthouse Types Config Multiplexer Prog Logic.
From S2P Require Import Shared PayloadBuilder Fcu NewPayload Meta Jwt Main System Isolation.
From S2P Require Import Methods.

Section spec.
Context `{NetworkOps}.
Variable self : Statics.
Variable role : Role.

(** [c] is the call of the engine which [r] asks for on the endpoint of [role]. *)
Definition call_for (r : Request) (c : ElCall) : Prop :=
  match c with
  | CallNewPayload npr _ =>
    role = RController ∧ is_new_payload (req_method r) = true ∧
    ∃ d, decode_new_payload self r = Done (Ok d) ∧
      new_payload_request_from_parts (ep_from_json (dec_payload d)) (dec_versioned_hashes d)
        (dec_parent_beacon_block_root d) (dec_execution_requests d) = Done npr
  | CallForkchoiceUpdated st attrs _ =>
    role = RController ∧ is_forkchoice_updated (req_method r) = true ∧ attrs = None ∧
    ∃ fcu json, parse_as (JsonForkchoiceStateV1 * option JsonValue) r =
                  Ok (req_id r, (fcu, json)) ∧ st = ForkchoiceState_from fcu
  | CallChainId _ => req_method r = "eth_chainId"
  | CallCapabilities _ => req_method r = ENGINE_EXCHANGE_CAPABILITIES
  | CallRpcRequest method params _ =>
    is_proxied (req_method r) = true ∧ method = req_method r ∧ params = req_params r
  end.

Definition calls_engine {A} (e : ev A) : bool :=
  match e with
  | ENewPayload _ | EForkchoiceUpdated _ _ | EChainId _ | ECapabilities _
  | ERpcRequest _ _ _ => true
  | ELock _ | EUnlock _ | EAccess _ _ | ENow | ESleepUntil _ => false
  end.

Definition quiet_event (A : Type) (e : ev A) : Prop := calls_engine e = false.

Definition asks (r : Request) {A} (e : ev A) : Prop :=
  ∀ a c, call_of e a = Some c → call_for r c.

(** A call is made for one of the requests which are left, in their order. *)
Program Definition calls : EvSpec (list Request) := {|
  ev_spec A e left K :=
    if calls_engine e then
      ∃ skipped r rest, left = skipped ++ r :: rest ∧ asks r e ∧ ∀ a, K a rest
    else ∀ a, K a left;
|}.
Next Obligation.
  intros A e left K K' HK. simpl. destruct (calls_engine e); [|by eauto].
  intros (skipped & r & rest & Hl & Ha & Hk). exists skipped, r, rest. eauto.
Qed.

(** [p] calls the engine for [r] at most, and for none of [rest]. *)
Definition calling (r : Request) (rest : list Request) {R} (p : prog R) : Prop :=
  ∀ left, r :: rest `suffix_of` left → wp calls p left (λ _ left', rest `suffix_of` left').

Definition quiet {R} (p : prog R) : Prop := only quiet_event p.

Lemma quiet_calls {R} (p : prog R) left (Q : exit R → list Request → Prop) :
  quiet p → (∀ x, Q x left) → wp calls p left Q.
Proof.
  unfold quiet, only, always. intros Hp HQ. induction p as [r|m| |X e k IH]; simpl; [apply HQ..|].
  destruct Hp as [He Hk]. rewrite He. intros a. by apply IH.
Qed.

Lemma quiet_calling {R} r rest (p : prog R) : quiet p → calling r rest p.
Proof.
  intros Hp left Hs. apply quiet_calls; [done|]. intros x. etrans; [|exact Hs].
  by apply suffix_cons_r.
Qed.

Lemma calling_bind {A B} r rest (p : prog A) (f : A → prog B) :
  calling r rest p → (∀ a, quiet (f a)) → calling r rest (bind p f).
Proof.
  intros Hp Hf left Hs. apply wp_bind. eapply wp_mono; [by apply Hp|].
  intros [a|m|] left' Hs'; simpl; [|done..]. by apply quiet_calls.
Qed.

Lemma calling_bind_quiet {A B} r rest (p : prog A) (f : A → prog B) :
  quiet p → (∀ a, calling r rest (f a)) → calling r rest (bind p f).
Proof.
  intros Hp Hf left Hs. apply wp_bind, quiet_calls; [done|].
  assert (rest `suffix_of` left) by (etrans; [|exact Hs]; by apply suffix_cons_r).
  intros [a|m|]; simpl; [by apply Hf|done..].
Qed.

Lemma calling_bind_result {A B E} r rest (p : prog (result A E)) (f : A → prog (result B E)) :
  calling r rest p → (∀ a, quiet (f a)) → calling r rest (bind_result p f).
Proof. intros Hp Hf. apply calling_bind; [done|]. by intros [a|e]. Qed.

Lemma calling_bind_result_quiet {A B E} r rest (p : prog (result A E))
    (f : A → prog (result B E)) :
  quiet p → (∀ a, calling r rest (f a)) → calling r rest (bind_result p f).
Proof.
  intros Hp Hf. apply calling_bind_quiet; [done|]. intros [a|e]; [done|].
  by apply quiet_calling.
Qed.

Lemma calling_trigger {A} r rest (e : ev A) :
  asks r e → calls_engine e = true → calling r rest (trigger e).
Proof.
  intros Ha He left [skipped ->]. simpl. rewrite He. by exists skipped, r, rest.
Qed.
End spec.

Section handlers.
Context `{ExtOk} `{!NetworkOps} `{JwtOps}.
Variable self : Statics.

(** ** What makes no call *)

Lemma quiet_get_cached_fcu fcu d : quiet (get_cached_fcu self fcu d).
Proof. unfold get_cached_fcu. only_steps. Qed.

Lemma quiet_get_cached_payload_status h d : quiet (get_cached_payload_status h d).
Proof. unfold get_cached_payload_status. only_steps. Qed.

Lemma quiet_register_attributes h pa : quiet (register_attributes self h pa).
Proof. unfold register_attributes. only_steps. Qed.

Lemma quiet_register_canonical p st : quiet (register_canonical_payload p st).
Proof. unfold register_canonical_payload, modify. only_steps. Qed.

Lemma quiet_get_payload r : quiet (handle_get_payload r).
Proof. unfold handle_get_payload, get_payload. only_steps. Qed.

Lemma quiet_syncing r : quiet (handle_syncing r).
Proof. unfold handle_syncing. only_steps. Qed.

Lemma quiet_fcu r : quiet (handle_fcu self r).
Proof.
  unfold handle_fcu, client_fcu_status, get_existing_payload_id.
  apply only_bind_result; [done|]. intros [id [fcu attrs]]. apply only_bind.
  - apply only_bind; [apply only_poll_until; [done..|apply quiet_get_cached_fcu]|]. intros [st|]; [done|].
    apply only_bind; [apply quiet_get_cached_fcu|]. intros. only_steps.
  - intros st. only_steps.
Qed.

Lemma quiet_new_payload r : quiet (handle_new_payload self r).
Proof.
  unfold handle_new_payload, client_new_payload_status, is_recent_payload,
    highest_cached_payload_number. only_steps; apply quiet_get_cached_payload_status.
Qed.

(** ** What calls for its request *)

Section role.
Variable role : Role.
Variable r : Request.
Variable rest : list Request.

Lemma calling_chain_id :
  req_method r = "eth_chainId" → calling self role r rest (handle_chain_id r).
Proof.
  intros Hm. apply calling_bind_result_quiet; [done|]. intros [id ps].
  apply calling_bind; [|intros; only_steps]. apply calling_trigger; [|done]. by intros a c [= <-].
Qed.

Lemma calling_capabilities :
  req_method r = ENGINE_EXCHANGE_CAPABILITIES →
  calling self role r rest (handle_engine_capabilities r).
Proof.
  intros Hm. apply calling_bind_result_quiet; [done|]. intros [id [ps]].
  apply calling_bind; [|intros; only_steps]. apply calling_trigger; [|done]. by intros a c [= <-].
Qed.

Lemma calling_proxied :
  is_proxied (req_method r) = true → calling self role r rest (proxy_directly r).
Proof.
  intros Hm. apply calling_bind; [|intros; only_steps]. apply calling_trigger; [|done].
  by intros a c [= <-].
Qed.
End role.

Lemma calling_controller_fcu r rest :
  is_forkchoice_updated (req_method r) = true →
  calling self RController r rest (handle_controller_fcu self r).
Proof.
  intros Hm. unfold handle_controller_fcu.
  destruct (parse_as _ r) as [[id [fcu json]]|e] eqn:Hr; [|by apply quiet_calling].
  pose proof Hr as [-> _]%parse_as_Ok. rewrite bind_result_Ok.
  apply calling_bind_result_quiet; [done|]. intros attrs. apply calling_bind_result.
  - apply calling_bind_quiet; [apply quiet_get_cached_fcu|].
    intros [st|]; [by apply quiet_calling|]. apply calling_bind.
    + apply calling_trigger; [|done]. intros a c [= <-]. split_and!; try done.
      by exists fcu, json.
    + intros. unfold modify. only_steps.
  - intros st. apply only_bind_result; [|done]. destruct attrs; [|done].
    apply only_bind; [apply quiet_register_attributes|]. intros. only_steps.
Qed.

Lemma calling_controller_new_payload r rest :
  is_new_payload (req_method r) = true →
  calling self RController r rest (handle_controller_new_payload self r).
Proof.
  intros Hm. unfold handle_controller_new_payload.
  destruct (decode_new_payload self r) as [[d|e]|m] eqn:Hd; [|by apply quiet_calling..].
  rewrite lift_outcome_Done, bind_result_Ok.
  destruct (new_payload_request_from_parts _ _ _ _) as [npr|m] eqn:Hnpr;
    [|by apply quiet_calling].
  rewrite lift_outcome_Done, bind_Ret. apply calling_bind_result; [|done].
  apply calling_bind_quiet; [apply quiet_get_cached_payload_status|].
  intros [st|]; [by apply quiet_calling|]. apply calling_bind.
  - apply calling_trigger; [|done]. intros a c [= <-]. split_and!; [done..|]. by exists d.
  - intros [a|e]; [|done]. apply only_bind; [unfold modify; only_steps|]. intros _.
    apply only_bind; [apply quiet_register_canonical|done].
Qed.

(** ** Dispatch *)

Lemma process_client_request_calling role r rest :
  calling self role r rest (process_client_request self r).
Proof.
  unfold process_client_request.
  destruct (is_forkchoice_updated _); [apply quiet_calling, quiet_fcu|].
  destruct (is_new_payload _); [apply quiet_calling, quiet_new_payload|].
  destruct (String.eqb _ ETH_SYNCING); [apply quiet_calling, quiet_syncing|].
  destruct (String.eqb_spec (req_method r) "eth_chainId"); [by apply calling_chain_id|].
  destruct (String.eqb_spec (req_method r) ENGINE_EXCHANGE_CAPABILITIES);
    [by apply calling_capabilities|].
  destruct (is_proxied _) eqn:Hp; [by apply calling_proxied|].
  apply quiet_calling. case_match; [apply quiet_get_payload|done].
Qed.

Lemma process_controller_request_calling r rest :
  calling self RController r rest (process_controller_request self r).
Proof.
  destruct (is_forkchoice_updated (req_method r)) eqn:Hf.
  { unfold process_controller_request. rewrite Hf. by apply calling_controller_fcu. }
  destruct (is_new_payload (req_method r)) eqn:Hn.
  { unfold process_controller_request. rewrite Hf, Hn.
    by apply calling_controller_new_payload. }
  rewrite <- same_dispatch by done. apply process_client_request_calling.
Qed.

Lemma process_client_requests_calling rs acc left :
  rs `suffix_of` left →
  wp (calls self RClient) (process_client_requests self rs acc) left (λ _ _, True).
Proof.
  revert acc left. induction rs as [|r rs IH]; intros acc left Hs; [done|].
  apply wp_bind. eapply wp_mono; [by apply process_client_request_calling|].
  intros [x|m|] left' Hs'; simpl; [by apply IH|done..].
Qed.
End handlers.

Section routes.
Context `{ExtOk} `{!NetworkOps} `{JwtOps}.
Variable state : AppState.

(** The requests in a message which are let through. *)
Definition authorized (r : HttpRequest) : list Request :=
  match r with
  | PostRoot token body =>
    match verify (client_jwt_collection state) token, body with
    | Ok _, Ok (Requests_Single r) => [r]
    | Ok _, Ok (Requests_Multiple rs) => rs
    | _, _ => []
    end
  | PostCanonical token body =>
    match verify_single_token token (controller_jwt state), body with
    | Ok _, Ok r => [r]
    | _, _ => []
    end
  | GetHealth => []
  end.

(** The state of a task whose engine has not been called for the requests [left]. *)
Definition calls_at_most {R} (r : HttpRequest) (left : list Request) (p : prog R) : Prop :=
  wp (calls (multiplexer state) (role_of r)) p left (λ _ _, True).

Lemma calls_then_reply {A} r left (p : prog A) (f : A → HttpReply) :
  calls_at_most r left p → calls_at_most r left (let! x := p in Ret (f x)).
Proof.
  intros Hp. apply wp_bind. eapply wp_mono; [exact Hp|]. by intros [a|m|].
Qed.

Lemma route_calls r : calls_at_most r (authorized r) (route state r).
Proof.
  destruct r as [token body|token body|]; simpl; [apply calls_then_reply..|done].
  - unfold handle_client_json_rpc. destruct (verify _ _); [|done].
    destruct body as [[r|rs]|e]; [..|done]; apply wp_bind; (eapply wp_mono;
      [by apply process_client_request_calling || by apply process_client_requests_calling
      |by intros [x|m|]]).
  - unfold handle_controller_json_rpc. destruct (verify_single_token _ _); [|done].
    destruct body as [r|e]; [|done]. simpl. eapply wp_mono;
      [by apply process_controller_request_calling|done].
Qed.
End routes.
