(* ===== verification/Received.v ===== *)
(** Every call of the engine is paid for by a request the server has received: each call by
    a request of its own.

    The invariant keeps, for every handler, the requests for which it may still call the
    engine (the ghost state of Calls.v), and the requests the calls so far were made for; all
    of these together are among the requests received. *)
From S2P Require Import Prelude Uint256 Lru Lighthouse Types Config Multiplexer Prog Logic.
From S2P Require Import Shared PayloadBuilder Fcu NewPayload Meta Jwt Main System Isolation.
From S2P Require Import Methods Calls.

(** * Lists kept in a map *)

Section concat_map.
Context `{Countable K} {A : Type}.
Implicit Type m : gmap K (list A).

Definition map_concat m : list A := concat (map_to_list m).*2.

Lemma map_concat_insert k l m : m !! k = None → map_concat (<[k := l]> m) ≡ₚ l ++ map_concat m.
Proof. intros Hk. unfold map_concat. by rewrite map_to_list_insert. Qed.

Lemma map_concat_delete k l m : m !! k = Some l → map_concat m ≡ₚ l ++ map_concat (delete k m).
Proof.
  intros Hk. rewrite <- (insert_delete_id m k l Hk) at 1.
  by rewrite map_concat_insert by apply lookup_delete_eq.
Qed.

Lemma map_concat_update k l l' m :
  m !! k = Some l → map_concat (<[k := l']> m) ≡ₚ l' ++ map_concat (delete k m).
Proof.
  intros Hk. rewrite <- insert_delete_eq.
  by rewrite map_concat_insert by apply lookup_delete_eq.
Qed.
End concat_map.

Section received.
Context `{ExtOk} `{!NetworkOps} `{JwtOps}.
Variable state : AppState.

(** The requests of a message which are let through, and those of a whole schedule. *)
Definition message (r : HttpRequest) : list (Role * Request) :=
  (role_of r,.) <$> authorized state r.

Definition received (ls : list label) : list (Role * Request) :=
  ls ≫= λ l, match l with LReceive _ r => message r | _ => [] end.

Lemma received_snoc ls l : received (ls ++ [l]) = received ls ++ received [l].
Proof. apply bind_app. Qed.

(** A call, made on the endpoint and for the request it is paired with. *)
Definition made_for (call : Role * ElCall) (by_request : Role * Request) : Prop :=
  by_request.1 = call.1 ∧ call_for (multiplexer state) call.1 by_request.2 call.2.

(** The requests for which a handler may still call the engine. *)
Definition may_call_for (task : Task) (owed : list (Role * Request)) : Prop :=
  ∃ rs, owed = (role_of (task_request task),.) <$> rs ∧
        calls_at_most state (task_request task) rs (task_prog task).

Definition paid (ls : list label) (s : Sys) : Prop :=
  ∃ (owed : gmap nat (list (Role * Request))) made,
    map_Forall2 (λ _, may_call_for) (sys_tasks s) owed ∧
    Forall2 made_for (mem_hist (sys_mem s)) made ∧
    made ++ map_concat owed ⊆+ received ls.

Lemma may_call_lookup s owed t task :
  map_Forall2 (λ _, may_call_for) (sys_tasks s) owed → sys_tasks s !! t = Some task →
  ∃ rs, owed !! t = Some ((role_of (task_request task),.) <$> rs) ∧
        calls_at_most state (task_request task) rs (task_prog task).
Proof.
  intros Hall Ht. specialize (Hall t). rewrite Ht in Hall.
  inversion Hall as [? o (rs & -> & Hrs) Heq Ho|]. by exists rs.
Qed.

(** An event of a handler: it calls the engine for one of its requests, or not at all. *)
Lemma paid_event {A} (e : ev A) (k : A → prog HttpReply) r t ans m m' a rs :
  apply_ev e t (role_of r) ans m = Some (a, m') → calls_at_most state r rs (Vis e k) →
  ∃ rs', calls_at_most state r rs' (k a) ∧
    (mem_hist m' = mem_hist m ∧ rs' = rs ∨
     ∃ c req, mem_hist m' = (role_of r, c) :: mem_hist m ∧
       call_for (multiplexer state) (role_of r) req c ∧ req :: rs' `suffix_of` rs).
Proof.
  intros He Hcalls. pose proof (apply_ev_hist _ _ _ _ _ _ _ He) as Hhist.
  unfold calls_at_most in *. simpl in Hcalls. destruct (calls_engine e) eqn:Hce.
  - destruct Hcalls as (skipped & req & rest & -> & Hasks & Hk).
    destruct (call_of e a) as [c|] eqn:Hc; [|by destruct e].
    exists rest. split; [apply Hk|]. right. exists c, req. split; [done|]. split; [by apply (Hasks a)|by exists skipped].
  - assert (Hnone : call_of e a = None) by (by destruct e). rewrite Hnone in Hhist.
    exists rs. split; [apply Hcalls|]. by left.
Qed.

Lemma paid_step ls l s s' : paid ls s → apply_label state l s = Some s' → paid (ls ++ [l]) s'.
Proof.
  intros (owed & made & Htasks & Hmade & Hsub) Hl. unfold paid. rewrite received_snoc.
  destruct l as [t r|d|t ans|t]; simpl in Hl.
  - destruct (sys_tasks s !! t) eqn:Ht; simplify_eq.
    assert (Ho : owed !! t = None).
    { specialize (Htasks t). rewrite Ht in Htasks. by inversion Htasks. }
    exists (<[t := message r]> owed), made. split_and!; simpl.
    + apply map_Forall2_insert_2; [|done]. exists (authorized state r).
      split; [done|apply route_calls].
    + done.
    + rewrite map_concat_insert by done. rewrite app_nil_r.
      rewrite (Permutation_app_comm (message r) (map_concat owed)), (assoc_L (++)). by apply submseteq_app.
  - cases. exists owed, made. simpl. by rewrite app_nil_r.
  - apply bind_Some in Hl as (task & Ht & Hl). apply bind_Some in Hl as ([p m] & Hp & [= <-]).
    destruct (may_call_lookup s owed t task Htasks Ht) as (rs & Ho & Hcalls).
    simpl. rewrite app_nil_r.
    destruct (task_prog task) as [x|msg| |X e k] eqn:Hprog; simpl in Hp; try done.
    { injection Hp as <- <-. exists owed, made. split_and!; [|done..]. simpl.
      rewrite insert_id; [done|]. rewrite Ht, <- Hprog. by destruct task. }
    apply bind_Some in Hp as ([a m'] & He & [= <- <-]).
    destruct (paid_event e k _ _ _ _ _ _ _ He Hcalls) as (rs' & Hcalls' & Hcase).
    exists (<[t := (role_of (task_request task),.) <$> rs']> owed). simpl.
    assert (Htasks' : map_Forall2 (λ _, may_call_for)
      (<[t := MkTask (task_request task) (k a)]> (sys_tasks s))
      (<[t := (role_of (task_request task),.) <$> rs']> owed)).
    { apply map_Forall2_insert_2; [|done]. by exists rs'. }
    destruct Hcase as [[-> ->]|(c & req & -> & Hcall & skipped & ->)].
    + exists made. split_and!; [done..|]. by rewrite insert_id.
    + exists ((role_of (task_request task), req) :: made). split_and!; [done| |].
      { constructor; [by split|done]. }
      etrans; [|exact Hsub]. rewrite (map_concat_delete t _ owed Ho).
      rewrite (map_concat_update t _ _ owed Ho), fmap_app, fmap_cons.
      solve_submseteq.
  - apply bind_Some in Hl as (task & Ht & [= <-]). simpl. rewrite app_nil_r.
    destruct (may_call_lookup s owed t task Htasks Ht) as (rs & Ho & _).
    exists (delete t owed), made. split_and!; [by apply map_Forall2_delete|done|].
    etrans; [|exact Hsub]. rewrite (map_concat_delete t _ owed Ho).
    apply submseteq_skips_l, submseteq_inserts_l. done.
Qed.

Lemma paid_run_labels ls0 ls s s' :
  paid ls0 s → run_labels state ls s = Some s' → paid (ls0 ++ ls) s'.
Proof.
  revert ls0 s. induction ls as [|l ls IH]; intros ls0 s Hp; simpl.
  { intros [= <-]. by rewrite app_nil_r. }
  intros (s1 & Hl & Hrun)%bind_Some. rewrite cons_middle, (assoc_L (++)).
  eapply IH; [|exact Hrun]. by eapply paid_step.
Qed.

Lemma paid_schedule cs now ls s :
  run_labels state ls (sys_init cs now) = Some s →
  ∃ made, Forall2 made_for (mem_hist (sys_mem s)) made ∧ made ⊆+ received ls.
Proof.
  intros Hrun. destruct (paid_run_labels [] ls (sys_init cs now) s) as (owed & made & _ & Hm & Hs).
  - exists ∅, []. split_and!; [apply map_Forall2_empty|constructor|done].
  - done.
  - exists made. split; [done|]. etrans; [|exact Hs]. by apply submseteq_inserts_r.
Qed.
End received.
