(* ===== verification/Safety.v ===== *)
(** More consequences of a handler's specification for every schedule: what one step of a
    task may do to the caches, the builder and the history, and that an unfinished task
    never blocks the server. *)
From S2P Require Import Prelude Uint256 BaseFee Lru Lighthouse Types Config Multiplexer.
From S2P Require Import Prog Logic Shared PayloadBuilder Fcu NewPayload Meta Jwt Main.
From S2P Require Import System Deadlock Isolation.

Section steps.
Context `{ExtOk} `{!NetworkOps} `{JwtOps}.
Variable state : AppState.

(** The events each role may perform. *)
Definition role_event (role : Role) : ∀ A, ev A → Prop :=
  match role with
  | RClient => client_event
  | RController => controller_event (multiplexer state)
  end.

(** The reply of a route against its request. *)
Definition reply_ok (r : HttpRequest) (out : HttpReply) : Prop :=
  match r, out with
  | PostRoot token body, ClientReply out =>
    client_reply_ok (is_ok (verify (client_jwt_collection state) token)) body out
  | PostCanonical token body, ControllerReply out =>
    controller_reply_ok (is_ok (verify_single_token token (controller_jwt state))) body out
  | GetHealth, StatusOk => True
  | _, _ => False
  end.

Lemma route_always r : always (role_event (role_of r)) (route state r) (reply_ok r).
Proof.
  destruct r as [token body|token body|]; simpl; [..|done].
  - eapply any_bind; [apply handle_client_json_rpc_always|done].
  - eapply any_bind; [apply handle_controller_json_rpc_always|done].
Qed.

Definition tasks_always (s : Sys) : Prop :=
  ∀ t task, sys_tasks s !! t = Some task →
    always (role_event (role_of (task_request task))) (task_prog task)
      (reply_ok (task_request task)).

Lemma tasks_always_step s s' : tasks_always s → sys_step state s s' → tasks_always s'.
Proof.
  intros Hok [l Hl]. destruct l as [t r|d|t ans|t]; simpl in Hl; unfold tasks_always in *.
  - cases. simpl. intros t' task. destruct (decide (t' = t)) as [->|Hne].
    + rewrite lookup_insert_eq. intros [= <-]. apply route_always.
    + rewrite lookup_insert_ne by done. apply Hok.
  - by cases.
  - apply bind_Some in Hl as (task & Ht & Hl).
    apply bind_Some in Hl as ([p m] & Hp & [= <-]). simpl.
    specialize (Hok _ _ Ht) as Htask. intros t' task'. destruct (decide (t' = t)) as [->|Hne].
    + rewrite lookup_insert_eq. intros [= <-]. simpl.
      destruct (task_prog task); simpl in Hp; simplify_eq; [done|].
      apply bind_Some in Hp as ([a m'] & He & [= <- <-]). apply Htask.
    + rewrite lookup_insert_ne by done. apply Hok.
  - apply bind_Some in Hl as (task & Ht & [= <-]). simpl.
    intros t' task' [_ Ht']%lookup_delete_Some. by eapply Hok.
Qed.

Lemma reachable_tasks_always cs s : reachable state cs s → tasks_always s.
Proof.
  intros [now Hr].
  eapply (rtc_ind_r (λ s, tasks_always s)); [|intros; by eapply tasks_always_step|exact Hr].
  intros t task Ht. simpl in Ht. by rewrite lookup_empty in Ht.
Qed.

(** The engine calls a client's request may cause. *)
Definition client_call (c : ElCall) : Prop :=
  match c with
  | CallChainId _ | CallCapabilities _ => True
  | CallRpcRequest method _ _ => is_proxied method = true
  | CallNewPayload _ _ | CallForkchoiceUpdated _ _ _ => False
  end.

Lemma set_guarded_same m v cs :
  guarded_same m v (get_guarded m cs) → caches_same (set_guarded m v cs) cs.
Proof.
  intros Hv m'. destruct (decide (m' = m)) as [->|Hne].
  - by rewrite get_set_guarded_eq.
  - by rewrite get_set_guarded_ne.
Qed.

Lemma client_ev_read_only {A} (e : ev A) t ans s a s' :
  client_event A e → apply_ev e t RClient ans s = Some (a, s') →
  caches_same (mem_caches s') (mem_caches s) ∧
  (mem_hist s' = mem_hist s ∨ ∃ c, mem_hist s' = (RClient, c) :: mem_hist s ∧ client_call c).
Proof.
  intros He Hev. destruct e; simpl in *; try done; cases; simplify_eq; try (split; [done|by left]).
  - split; [by apply set_guarded_same|by left].
  - split; [done|right; by eexists].
  - split; [done|right; by eexists].
  - split; [done|right; by eexists].
Qed.

(** ** The builder, step by step *)

Lemma ev_builder_step {A} (e : ev A) t role ans s a s' :
  role_event role A e → apply_ev e t role ans s = Some (a, s') →
  builder_step (multiplexer state) (payload_builder (mem_caches s))
    (payload_builder (mem_caches s')).
Proof.
  intros He Hev.
  assert (Hsame : ∀ b, builder_step (multiplexer state) b b) by (intros b; by apply builder_reads).
  destruct e; simpl in Hev; cases; simplify_eq; simpl; try apply Hsame.
  destruct role; simpl in He; [|by apply He]. by apply (controller_read _ _ _ _ He).
Qed.

(** A step of the server is one step of its builder, and its history only grows. *)
Lemma sys_builder_step s s' :
  tasks_always s → sys_step state s s' →
  builder_step (multiplexer state) (payload_builder (mem_caches (sys_mem s)))
    (payload_builder (mem_caches (sys_mem s'))) ∧
  mem_hist (sys_mem s) `suffix_of` mem_hist (sys_mem s').
Proof.
  intros Htasks [l Hl].
  assert (Hsame : ∀ b, builder_step (multiplexer state) b b) by (intros b; by apply builder_reads).
  destruct l as [t r|d|t ans|t]; simpl in Hl.
  - cases. by split.
  - cases. by split.
  - apply bind_Some in Hl as (task & Ht & Hl).
    apply bind_Some in Hl as ([p m] & Hp & [= <-]). simpl. specialize (Htasks _ _ Ht).
    destruct (task_prog task); simpl in Hp; simplify_eq; [by split|].
    apply bind_Some in Hp as ([a m'] & He & [= <- <-]).
    destruct Htasks as [Hev _]. split; [by eapply ev_builder_step|].
    rewrite (apply_ev_hist _ _ _ _ _ _ _ He). destruct (call_of e a); [by apply suffix_cons_r|done].
  - apply bind_Some in Hl as (task & Ht & [= <-]). by split.
Qed.

(** ** Capacities *)

Definition caps_kept (cs cs' : Caches) : Prop :=
  ∀ m, guarded_caps m (get_guarded m cs') = guarded_caps m (get_guarded m cs).

Lemma ev_caps {A} (e : ev A) t role ans s a s' :
  role_event role A e → apply_ev e t role ans s = Some (a, s') →
  caps_kept (mem_caches s) (mem_caches s').
Proof.
  intros He Hev. destruct e as [m|m|m X f| | | | | | |]; simpl in Hev; cases; simplify_eq; try done.
  intros m'. destruct (decide (m' = m)) as [->|Hne];
    [|by rewrite get_set_guarded_ne]. rewrite get_set_guarded_eq.
  destruct role; simpl in He; [by apply guarded_same_caps|by apply He].
Qed.

(** No cache ever changes the number of entries it may hold. *)
Lemma reachable_caps cs s : reachable state cs s → caps_kept cs (mem_caches (sys_mem s)).
Proof.
  intros [now Hr].
  eapply (rtc_ind_r (λ s, tasks_always s ∧ caps_kept cs (mem_caches (sys_mem s)))); [| |exact Hr].
  { split; [|done]. intros t task Ht. simpl in Ht. by rewrite lookup_empty in Ht. }
  intros s1 s2 _ Hstep [Htasks Hcaps]. split; [by eapply tasks_always_step|].
  destruct Hstep as [l Hl]. destruct l as [t r|d|t ans|t]; simpl in Hl; [by cases..| |].
  - apply bind_Some in Hl as (task & Ht & Hl).
    apply bind_Some in Hl as ([p m] & Hp & [= <-]). simpl. specialize (Htasks _ _ Ht).
    destruct (task_prog task); simpl in Hp; simplify_eq; [done|].
    apply bind_Some in Hp as ([a m'] & He & [= <- <-]). destruct Htasks as [Hev _].
    intros m0. rewrite (ev_caps _ _ _ _ _ _ _ Hev He m0). apply Hcaps.
  - by apply bind_Some in Hl as (task & Ht & [= <-]).
Qed.

(** ** Progress *)

(** The answer of the engine an event waits for. *)
Definition some_answer {A} (e : ev A) (ans : Answer) : Prop :=
  match e, ans with
  | ENewPayload _, AnsNewPayload _ | EForkchoiceUpdated _ _, AnsForkchoiceUpdated _
  | EChainId _, AnsChainId _ | ECapabilities _, AnsCapabilities _
  | ERpcRequest _ _ _, AnsRpcRequest _ => True
  | ENewPayload _, _ | EForkchoiceUpdated _ _, _ | EChainId _, _ | ECapabilities _, _
  | ERpcRequest _ _ _, _ => False
  | _, _ => True
  end.

Definition waits_for {A} (e : ev A) : option mutex :=
  match e with ELock m => Some m | _ => None end.

(** An unfinished task can perform its event, once its sleep is over and the engine has
    answered, unless another task holds the mutex it locks. *)
Lemma task_runs_or_waits s t task A (e : ev A) k ans :
  sys_locks_ok s → sys_tasks s !! t = Some task → task_prog task = Vis e k →
  some_answer e ans →
  (∃ d s', (0 ≤ d)%Z ∧ run_labels state [LTick d; LRun t ans] s = Some s') ∨
  ∃ m t', waits_for e = Some m ∧ held_by s m t'.
Proof.
  intros [Htasks Hown] Ht Hp Hans. pose proof (Htasks _ _ Ht) as Hok.
  unfold locks_ok in Hok. rewrite Hp in Hok. destruct Hok as (held & Hwp & _ & Hheld).
  cbn [run_labels apply_label]. simpl.
  destruct e as [m|m|m A f| | | | | | |time]; simpl in *.
  1: { destruct (mem_locks (sys_mem s) m) as [t'|] eqn:Hm; [right; by exists m, t'|left].
       exists 0%Z. simpl. rewrite Ht. simpl. rewrite Hp. simpl. rewrite Hm. simpl.
       eexists. split; [lia|done]. }
  all: left.
  9: { exists (Z.max 0 (time - mem_clock (sys_mem s))). rewrite decide_True by lia. simpl.
       rewrite Ht. simpl. rewrite Hp. simpl. rewrite decide_True by lia. simpl.
       eexists. split; [lia|done]. }
  all: exists 0%Z; simpl; rewrite Ht; simpl; rewrite Hp; simpl.
  - destruct Hwp as (rest & -> & _). rewrite decide_True by (apply Hheld; by left).
    simpl. eexists. split; [lia|done].
  - destruct Hwp as [Hin _]. rewrite decide_True by (by apply Hheld).
    simpl. eexists. split; [lia|done].
  - destruct ans; try done. simpl. eexists. split; [lia|done].
  - destruct ans; try done. simpl. eexists. split; [lia|done].
  - destruct ans; try done. simpl. eexists. split; [lia|done].
  - destruct ans; try done. simpl. eexists. split; [lia|done].
  - destruct ans; try done. simpl. eexists. split; [lia|done].
  - simpl. eexists. split; [lia|done].
Qed.
End steps.
