(* ===== verification/Liveness.v ===== *)
(** Every request comes to an end: the server performs only finitely many events for the
    requests it has received, however they are scheduled, and it can always go on until
    all of them are finished.

    The measure is the map of the programs of the requests in flight: an event replaces one
    of them by one of its continuations, which are parts of it. *)
From S2P Require Import Prelude Uint256 Lru Lighthouse Types Config Multiplexer Prog Logic.
From S2P Require Import Shared PayloadBuilder Fcu NewPayload Meta Jwt Main System Deadlock.
From S2P Require Import Isolation Safety.

(** * Maps with an order on their values *)

Section below.
Context `{Countable K} {A : Type} (R : A → A → Prop).

(** [m'] is [m] with one value replaced by a smaller one, and possibly fewer keys. *)
Definition map_below (m' m : gmap K A) : Prop :=
  ∃ k x x', m !! k = Some x ∧ R x' x ∧ m' ⊆ <[k := x']> m.

Lemma map_below_subseteq m' m0 m : m0 ⊆ m → map_below m' m0 → map_below m' m.
Proof.
  intros Hsub (k & x & x' & Hk & Hx & Hm'). exists k, x, x'.
  split; [by eapply lookup_weaken|]. split; [done|]. etrans; [exact Hm'|]. by apply insert_mono.
Qed.

Lemma Acc_map_subseteq m0 m : Acc map_below m → m0 ⊆ m → Acc map_below m0.
Proof.
  intros Hm Hsub. constructor. intros m' Hm'. apply (Acc_inv Hm).
  by eapply map_below_subseteq.
Qed.

Lemma Acc_map_insert k x m :
  Acc R x → Acc map_below m → m !! k = None → Acc map_below (<[k := x]> m).
Proof.
  intros Hx. revert m. induction Hx as [x _ IHx]. intros m Hm.
  induction Hm as [m Hm IHm]. intros Hk. constructor. intros m' (k' & y & y' & Hk' & Hy & Hsub).
  destruct (decide (k' = k)) as [->|Hne].
  - rewrite lookup_insert_eq in Hk'. injection Hk' as <-. rewrite insert_insert_eq in Hsub.
    eapply Acc_map_subseteq; [|exact Hsub]. by apply IHx.
  - rewrite lookup_insert_ne in Hk' by done. rewrite insert_insert_ne in Hsub by done.
    eapply Acc_map_subseteq; [|exact Hsub]. apply IHm; [by exists k', y, y'|].
    by rewrite lookup_insert_ne.
Qed.

Lemma Acc_map m : map_Forall (λ _, Acc R) m → Acc map_below m.
Proof.
  induction m as [|k x m Hk IH] using map_ind; intros Hall.
  - constructor. intros m' (k & x & x' & Hk & _). by rewrite lookup_empty in Hk.
  - rewrite map_Forall_insert in Hall by done. destruct Hall. apply Acc_map_insert; auto.
Qed.
End below.

(** * Events *)

Section events.
Context `{ExtOk} `{!NetworkOps} `{JwtOps}.
Variable state : AppState.

(** The program [p'] continues [p] after one event. *)
Definition continues {R} (p' p : prog R) : Prop :=
  match p with
  | Vis e k => ∃ a, p' = k a
  | Ret _ | Panic _ | OutOfFuel => False
  end.

Lemma continues_Acc {R} (p : prog R) : Acc continues p.
Proof.
  induction p as [r|m| |X e k IH]; constructor; simpl; [done..|]. by intros p' [a ->].
Qed.

Definition in_flight (p : prog HttpReply) : bool :=
  match p with Vis _ _ => true | Ret _ | Panic _ | OutOfFuel => false end.

(** A step which receives no request and performs no event: time passes, a request is
    dropped, a panic unwinds. *)
Definition idle (s s' : Sys) : Prop :=
  ∃ l, apply_label state l s = Some s' ∧
    match l with
    | LReceive _ _ => False
    | LTick _ | LCancel _ => True
    | LRun t _ => ∃ task, sys_tasks s !! t = Some task ∧ in_flight (task_prog task) = false
    end.

(** Some request performs its next event, possibly after idle steps. *)
Definition performs (s s' : Sys) : Prop :=
  ∃ s0 t ans task, rtc idle s s0 ∧ sys_tasks s0 !! t = Some task ∧
    in_flight (task_prog task) = true ∧ apply_label state (LRun t ans) s0 = Some s'.

Definition progs (s : Sys) : gmap nat (prog HttpReply) := task_prog <$> sys_tasks s.

Lemma idle_progs s s' : idle s s' → progs s' ⊆ progs s.
Proof.
  intros (l & Hl & Hidle). unfold progs. destruct l as [t r|d|t ans|t]; simpl in Hl; [done|..].
  - cases. done.
  - destruct Hidle as (task & Ht & Hp). rewrite Ht in Hl. simpl in Hl.
    apply bind_Some in Hl as ([p m] & Happ & [= <-]). simpl.
    rewrite fmap_insert. simpl. rewrite insert_id; [done|]. rewrite lookup_fmap, Ht. simpl.
    destruct (task_prog task); simpl in *; by simplify_eq.
  - apply bind_Some in Hl as (task & _ & [= <-]). simpl. rewrite fmap_delete.
    apply delete_subseteq.
Qed.

Lemma idles_progs s s' : rtc idle s s' → progs s' ⊆ progs s.
Proof.
  induction 1 as [|s1 s2 s3 Hs _ IH]; [done|]. etrans; [exact IH|]. by apply idle_progs.
Qed.

Lemma performs_progs s s' : performs s s' → map_below continues (progs s') (progs s).
Proof.
  intros (s0 & t & ans & task & Hidle & Ht & Hp & Hl).
  eapply map_below_subseteq; [by apply idles_progs|].
  simpl in Hl. rewrite Ht in Hl. simpl in Hl. apply bind_Some in Hl as ([p m] & Happ & [= <-]).
  destruct (task_prog task) as [| | |X e k] eqn:Htask; try done. simpl in Happ.
  apply bind_Some in Happ as ([a m'] & _ & [= <- <-]).
  exists t, (Vis e k), (k a). unfold progs. simpl. split_and!.
  - by rewrite lookup_fmap, Ht, <- Htask.
  - by exists a.
  - by rewrite fmap_insert.
Qed.

(** Without new requests the server performs finitely many events. *)
Lemma performs_Acc s : Acc (λ s2 s1, performs s1 s2) s.
Proof.
  assert (Hacc : Acc (map_below continues) (progs s)).
  { apply Acc_map. intros t p _. apply continues_Acc. }
  remember (progs s) as m eqn:Hm. revert s Hm. induction Hacc as [m _ IH].
  intros s ->. constructor. intros s' Hs%performs_progs. by eapply IH.
Qed.
End events.

(** * Completion *)

Section completion.
Context `{ExtOk} `{!NetworkOps} `{JwtOps}.
Variable state : AppState.
Variable cs : Caches.

Definition all_mutexes : list mutex := [MFcu; MNewPayload; MJustified; MFinalized; MBuilder].

Lemma all_mutexes_spec m : m ∈ all_mutexes.
Proof. destruct m; set_solver. Qed.

(** How many mutexes are held. *)
Definition held_count (s : Sys) : nat :=
  length (filter (λ m, is_Some (mem_locks (sys_mem s) m)) all_mutexes).

Lemma filter_lt {A} (P Q : A → Prop) `{∀ x, Decision (P x), ∀ x, Decision (Q x)} l x :
  (∀ y, P y → Q y) → x ∈ l → Q x → ¬ P x →
  length (filter P l) < length (filter Q l).
Proof.
  intros Hall Hx HQ HP. induction l as [|y l IH]; [by apply not_elem_of_nil in Hx|].
  assert (Hle : ∀ l', length (filter P l') ≤ length (filter Q l')).
  { induction l' as [|z l' IH']; [done|]. rewrite !filter_cons.
    repeat case_decide; simpl; try lia. exfalso. auto. }
  rewrite !filter_cons. apply elem_of_cons in Hx as [<-|Hx].
  - rewrite decide_False, decide_True by done. simpl. specialize (Hle l). lia.
  - specialize (IH Hx). repeat case_decide; simpl; try lia. exfalso. auto.
Qed.

Lemma unwind_held s t ans s' task m :
  sys_tasks s !! t = Some task → in_flight (task_prog task) = false →
  apply_label state (LRun t ans) s = Some s' → held_by s m t →
  idle state s s' ∧ held_count s' < held_count s.
Proof.
  intros Ht Hp Hl Hm. split; [by exists (LRun t ans); eauto|].
  simpl in Hl. rewrite Ht in Hl. simpl in Hl. apply bind_Some in Hl as ([p mem] & Happ & [= <-]).
  destruct (task_prog task); simpl in *; try done. injection Happ as <- <-.
  unfold held_count. simpl. apply filter_lt with (x := m).
  - intros m'. unfold drop_guards. by case_decide.
  - apply all_mutexes_spec.
  - by exists t.
  - unfold drop_guards. rewrite decide_True by done. by intros [? [=]].
Qed.
(** A step of a schedule that finishes the requests at hand, [eng] being what the engine
    answers. *)
Definition going_on (eng : ∀ A, ev A → Answer) (l : label) : Prop :=
  match l with
  | LTick _ => True
  | LRun _ ans => ans = NoAnswer ∨ ∃ A (e : ev A), ans = eng A e
  | LReceive _ _ | LCancel _ => False
  end.

Definition finishes (eng : ∀ A, ev A → Answer) (s : Sys) : Prop :=
  ∃ ls s', Forall (going_on eng) ls ∧ run_labels state ls s = Some s' ∧
    ∀ t task, sys_tasks s !! t = Some task →
      ∃ p, sys_tasks s' !! t = Some (MkTask (task_request task) p) ∧ in_flight p = false.

Lemma going_on_tasks eng l s s' t task :
  going_on eng l → apply_label state l s = Some s' → sys_tasks s !! t = Some task →
  ∃ p, sys_tasks s' !! t = Some (MkTask (task_request task) p).
Proof.
  intros Hgo Hl Ht. destruct l as [| |t' ans|]; simpl in *; try done.
  - cases. simpl. rewrite Ht. exists (task_prog task). by destruct task.
  - apply bind_Some in Hl as (task' & Ht' & Hl). apply bind_Some in Hl as ([p m] & _ & [= <-]).
    simpl. destruct (decide (t' = t)) as [->|Hne].
    + rewrite lookup_insert_eq. exists p. congruence.
    + rewrite lookup_insert_ne by done. rewrite Ht. exists (task_prog task). by destruct task.
Qed.

Lemma finishes_step eng l s s1 :
  going_on eng l → apply_label state l s = Some s1 → finishes eng s1 → finishes eng s.
Proof.
  intros Hgo Hl (ls & s' & Hls & Hrun & Hfin). exists (l :: ls), s'. split; [by constructor|].
  simpl. rewrite Hl. split; [done|]. intros t task Ht.
  destruct (going_on_tasks eng l s s1 t task Hgo Hl Ht) as [p Hp].
  exact (Hfin t _ Hp).
Qed.

Lemma reachable_step l s s' :
  reachable state cs s → apply_label state l s = Some s' → reachable state cs s'.
Proof. intros [now Hr] Hl. exists now. eapply rtc_r; [done|]. by exists l. Qed.

(** From every reachable state the requests at hand can be finished, whatever the engine
    answers. *)
Lemma reachable_finishes eng s :
  (∀ A (e : ev A), some_answer e (eng A e)) → reachable state cs s → finishes eng s.
Proof.
  intros Heng. induction (performs_Acc state s) as [s _ IH].
  assert (Hnext : ∀ s1 t ans task s2, rtc (idle state) s s1 → reachable state cs s1 →
    ans = NoAnswer ∨ (∃ A (e : ev A), ans = eng A e) →
    sys_tasks s1 !! t = Some task → in_flight (task_prog task) = true →
    apply_label state (LRun t ans) s1 = Some s2 → finishes eng s1).
  { intros s1 t ans task s2 Hs Hr Hans Ht Hp Hl. eapply finishes_step; [|exact Hl|]; [done|].
    apply IH; [by exists s1, t, ans, task|]. by eapply reachable_step. }
  assert (Hidle : ∀ n s1, held_count s1 = n → rtc (idle state) s s1 →
    reachable state cs s1 → finishes eng s1); [|by eapply Hidle].
  intros n. induction (lt_wf n) as [n _ IHn]. intros s1 Hn Hs Hr.
  destruct (decide (map_Forall (λ _ task, in_flight (task_prog task) = false) (sys_tasks s1)))
    as [Hdone|(t & task & Ht & Hp)%map_not_Forall]; [| |apply _].
  { exists [], s1. split; [done|]. split; [done|]. intros t task Ht. exists (task_prog task).
    split; [by destruct task|by eapply Hdone]. }
  apply not_false_is_true in Hp. destruct (task_prog task) as [| | |X e k] eqn:Htask; try done.
  destruct (task_runs_or_waits state s1 t task X e k (eng X e)
    (reachable_locks_ok _ _ _ Hr) Ht Htask (Heng X e))
    as [(d & s2 & Hd & Hrun)|(m & t' & _ & Hm)].
  - simpl in Hrun. rewrite decide_True in Hrun by done. cbn [mbind option_bind] in Hrun.
    apply bind_Some in Hrun as (s3 & Hl & [= ->]).
    set (s1d := MkSys _ (sys_tasks s1)) in Hl.
    assert (Htick : apply_label state (LTick d) s1 = Some s1d) by (simpl; by rewrite decide_True).
    apply (finishes_step eng (LTick d) s1 s1d); [done..|].
    eapply (Hnext s1d t (eng X e) task s2); [|by eapply reachable_step|by eauto|done| |exact Hl].
    + eapply rtc_r; [exact Hs|]. by exists (LTick d).
    + by rewrite Htask.
  - destruct (holder_can_run state cs s1 m t' Hr Hm) as (m1 & t1 & s2 & Hm1 & Hl).
    pose proof Hl as Hl'. simpl in Hl'. apply bind_Some in Hl' as (task1 & Ht1 & _).
    destruct (in_flight (task_prog task1)) eqn:Hp1; [by apply (Hnext s1 t1 NoAnswer task1 s2); auto|].
    destruct (unwind_held s1 t1 NoAnswer s2 task1 m1 Ht1 Hp1 Hl Hm1) as [Hi Hc].
    apply (finishes_step eng (LRun t1 NoAnswer) s1 s2); [by left|done|].
    eapply IHn; [|reflexivity|by eapply rtc_r|by eapply reachable_step]. lia.
Qed.
End completion.
