(* ===== verification/Spec.v ===== *)
(** What the server promises: an abstract multiplexer, and that the server refines it.

    The abstract multiplexer has no caches, no mutexes, no clock and no program text.  Its
    state is the calls the engine has received with their answers and, for every request
    in flight, what has become of it.  It says when the engine may be called and which
    replies are allowed; how the server finds them is left open. *)
From S2P Require Import Prelude Uint256 BaseFee Lru Lighthouse Types Config Multiplexer.
From S2P Require Import Prog Logic Shared PayloadBuilder BuilderSpec Fcu NewPayload Meta.
From S2P Require Import Jwt Main System Isolation Invariant Backed Replies Tracing Calls Safety.

Section spec.
Context `{NetworkOps} `{JwtOps}.
Variable state : AppState.

(** A request is open, the engine having not been called yet for the requests [todo] in it;
    or it has been replied to; or its handler has panicked. *)
Inductive phase :=
| Open (todo : list Request)
| Replied (x : HttpReply)
| Failed.

Record Spec := MkSpec {
  spec_calls : Hist;
  spec_tasks : gmap nat (HttpRequest * phase);
}.

Definition spec_init : Spec := MkSpec [] ∅.

Definition set_phase (t : nat) (r : HttpRequest) (ph : phase) (a : Spec) : Spec :=
  MkSpec (spec_calls a) (<[t := (r, ph)]> (spec_tasks a)).

(** A reply answers its request, and what it says is traced to the calls so far. *)
Definition allowed_reply (r : HttpRequest) (x : HttpReply) (h : Hist) : Prop :=
  reply_ok state r x ∧ reply_traced state r x h.

Inductive spec_step : Spec → Spec → Prop :=
| spec_receive t r a :
    spec_tasks a !! t = None →
    spec_step a (set_phase t r (Open (authorized state r)) a)
| spec_call t r skipped req rest c a :
    spec_tasks a !! t = Some (r, Open (skipped ++ req :: rest)) →
    call_for (multiplexer state) (role_of r) req c →
    spec_step a (MkSpec ((role_of r, c) :: spec_calls a)
                   (<[t := (r, Open rest)]> (spec_tasks a)))
| spec_reply t r todo x a :
    spec_tasks a !! t = Some (r, Open todo) →
    allowed_reply r x (spec_calls a) →
    spec_step a (set_phase t r (Replied x) a)
| spec_fail t r todo a :
    spec_tasks a !! t = Some (r, Open todo) → may_panic state r (spec_calls a) →
    spec_step a (set_phase t r Failed a)
| spec_drop t e a :
    spec_tasks a !! t = Some e →
    spec_step a (MkSpec (spec_calls a) (delete t (spec_tasks a))).

(** ** The simulation *)

Definition phase_sim (r : HttpRequest) (p : prog HttpReply) (ph : phase) : Prop :=
  match p, ph with
  | Ret x, Replied y => x = y
  | Panic _, Failed => True
  | Vis _ _, Open todo => calls_at_most state r todo p
  | _, _ => False
  end.

Definition task_sim (task : Task) (e : HttpRequest * phase) : Prop :=
  task_request task = e.1 ∧ phase_sim e.1 (task_prog task) e.2.

Definition simulates (s : Sys) (a : Spec) : Prop :=
  spec_calls a = mem_hist (sys_mem s) ∧
  map_Forall2 (λ _, task_sim) (sys_tasks s) (spec_tasks a).

(** What can be seen of the server: the calls of the engine, the requests in flight, and
    their replies. *)
Definition observed (s : Sys) : Hist * gmap nat (HttpRequest * option (option HttpReply)) :=
  (mem_hist (sys_mem s),
   (λ task, (task_request task,
             match task_prog task with
             | Ret x => Some (Some x)
             | Panic _ => Some None
             | OutOfFuel | Vis _ _ => None
             end)) <$> sys_tasks s).

Definition spec_observed (a : Spec) : Hist * gmap nat (HttpRequest * option (option HttpReply)) :=
  (spec_calls a,
   (λ e, (e.1, match e.2 with
               | Replied x => Some (Some x)
               | Failed => Some None
               | Open _ => None
               end)) <$> spec_tasks a).

Lemma simulates_observed s a : simulates s a → observed s = spec_observed a.
Proof.
  intros [Hh Ht]. unfold observed, spec_observed. rewrite Hh. f_equal.
  apply map_eq. intros t. rewrite !lookup_fmap. specialize (Ht t).
  destruct Ht as [task [r ph] [Hr Hph]|]; [|done]. simpl in *. rewrite Hr.
  do 2 f_equal. by destruct (task_prog task), ph; simplify_eq/=.
Qed.

Lemma simulates_None s a t :
  simulates s a → sys_tasks s !! t = None → spec_tasks a !! t = None.
Proof. intros [_ Htasks] Ht. specialize (Htasks t). rewrite Ht in Htasks. by inversion Htasks. Qed.

Lemma simulates_Some s a t task :
  simulates s a → sys_tasks s !! t = Some task →
  ∃ ph, spec_tasks a !! t = Some (task_request task, ph) ∧
        phase_sim (task_request task) (task_prog task) ph.
Proof.
  intros [_ Htasks] Ht. specialize (Htasks t). rewrite Ht in Htasks.
  inversion Htasks as [? [r ph] [Hr Hph] Heq1 Heq2|]; subst. simpl in *. subst. by exists ph.
Qed.
End spec.

Section refinement.
Context `{ExtOk} `{!NetworkOps} `{JwtOps}.
Variable state : AppState.
Variable cs : Caches.
Hypothesis cs_fresh : fresh cs.

(** An open request whose handler has come to an end is replied to, or fails. *)
Lemma spec_settle s a t task todo :
  reachable state cs s → sys_tasks s !! t = Some task →
  spec_calls a = mem_hist (sys_mem s) →
  spec_tasks a !! t = Some (task_request task, Open todo) →
  calls_at_most state (task_request task) todo (task_prog task) →
  ∃ ph, rtc (spec_step state) a (set_phase t (task_request task) ph a) ∧
        phase_sim state (task_request task) (task_prog task) ph.
Proof.
  intros Hr Ht Hh Hopen Hcalls.
  destruct (reachable_sound state cs s cs_fresh Hr) as [_ Hsound].
  destruct (Hsound _ _ Ht) as (k & [Hk _] & Hwp). clear Hsound.
  pose proof (reachable_tasks_always _ _ _ Hr _ _ Ht) as Hal.
  destruct (task_prog task) as [x|m| |X e c] eqn:Hp; simpl in *.
  - exists (Replied x). split; [|done]. apply rtc_once. eapply spec_reply; [exact Hopen|].
    split; [done|]. rewrite Hh. by eapply reply_traced_mono.
  - exists Failed. split; [|done]. apply rtc_once. eapply spec_fail; [exact Hopen|].
    rewrite Hh. by eapply may_panic_mono.
  - done.
  - exists (Open todo). split; [|done]. unfold set_phase. rewrite insert_id by done.
    by destruct a.
Qed.

(** A step which makes [task] the task [t], matched by [a1] up to the end of its handler. *)
Lemma spec_advance s s' a a1 t task todo :
  reachable state cs s' → simulates state s a →
  sys_tasks s' = <[t := task]> (sys_tasks s) →
  spec_calls a1 = mem_hist (sys_mem s') →
  spec_tasks a1 = <[t := (task_request task, Open todo)]> (spec_tasks a) →
  calls_at_most state (task_request task) todo (task_prog task) →
  rtc (spec_step state) a a1 →
  ∃ a', rtc (spec_step state) a a' ∧ simulates state s' a'.
Proof.
  intros Hr' [_ Htasks] Hs' Hh1 Ha1 Hcalls Hrtc.
  destruct (spec_settle s' a1 t task todo Hr') as (ph & Hset & Hph); try done.
  { by rewrite Hs', lookup_insert_eq. }
  { by rewrite Ha1, lookup_insert_eq. }
  eexists. split; [by etrans|]. split; [exact Hh1|].
  rewrite Hs'. unfold set_phase. simpl. rewrite Ha1, insert_insert_eq.
  by apply map_Forall2_insert_2.
Qed.

(** One step of the server is at most two of the abstract one: a call and a reply. *)
Lemma spec_simulation s a s' :
  reachable state cs s → simulates state s a → sys_step state s s' →
  ∃ a', rtc (spec_step state) a a' ∧ simulates state s' a'.
Proof.
  intros Hr Hsim Hstep. pose proof Hsim as [Hh Htasks].
  assert (Hr' : reachable state cs s') by (destruct Hr as [now Hr]; exists now; by eapply rtc_r).
  pose proof (spec_advance s s' a) as Hrun.
  destruct Hstep as [l Hl]. destruct l as [t r|d|t ans|t]; simpl in Hl.
  - destruct (sys_tasks s !! t) eqn:Ht; simplify_eq.
    eapply (Hrun (set_phase t r (Open (authorized state r)) a)); simpl;
      [done..| |].
    + apply route_calls.
    + apply rtc_once, spec_receive. by eapply simulates_None.
  - cases. exists a. done.
  - apply bind_Some in Hl as (task & Ht & Hl). apply bind_Some in Hl as ([p m] & Hp & [= <-]).
    destruct (simulates_Some state s a t task Hsim Ht) as (ph & Hat & Hph). simpl in *.
    destruct (task_prog task) as [x|msg| |X e c] eqn:Hprog; simpl in *; try done.
    { destruct ph; try done. injection Hp as <- <-. exists a. split; [done|]. split; [done|].
      simpl. rewrite <- Hprog. by destruct task; rewrite insert_id. }
    apply bind_Some in Hp as ([x m'] & He & [= <- <-]). pose proof (apply_ev_hist _ _ _ _ _ _ _ He) as Hhist.
    destruct ph as [todo| |]; try done. unfold calls_at_most in Hph. simpl in Hph.
    destruct (calls_engine e) eqn:Hce.
    + destruct Hph as (skipped & req & rest & -> & Hasks & Hk).
      destruct (call_of e x) as [call|] eqn:Hcall; [|by destruct e].
      eapply (Hrun (MkSpec ((role_of (task_request task), call) :: spec_calls a) _)); simpl;
        [done..|by rewrite Hh, Hhist|done|exact (Hk x)|].
      apply rtc_once. eapply spec_call; [exact Hat|]. by apply (Hasks x).
    + assert (Hnone : call_of e x = None) by (by destruct e). rewrite Hnone in Hhist.
      eapply (Hrun a); simpl; [done..|by rewrite Hh, Hhist| |exact (Hph x)|done].
      by rewrite insert_id.
  - apply bind_Some in Hl as (task & Ht & [= <-]).
    destruct (simulates_Some state s a t task Hsim Ht) as (ph & Hat & _).
    eexists. split; [apply rtc_once; by eapply spec_drop|]. split; [done|].
    by apply map_Forall2_delete.
Qed.

Lemma reachable_simulated s :
  reachable state cs s → ∃ a, rtc (spec_step state) spec_init a ∧ simulates state s a.
Proof.
  intros [now Hr].
  assert (H' : reachable state cs s ∧
    ∃ a, rtc (spec_step state) spec_init a ∧ simulates state s a); [|by apply H'].
  eapply (rtc_ind_r (λ s, reachable state cs s ∧
    ∃ a, rtc (spec_step state) spec_init a ∧ simulates state s a)); [..|exact Hr].
  - split; [by exists now|]. exists spec_init. split; [done|]. split; [done|].
    apply map_Forall2_empty.
  - intros s1 s2 _ Hstep [Hs1 (a & Ha & Hsim)].
    destruct (spec_simulation s1 a s2 Hs1 Hsim Hstep) as (a' & Ha' & Hsim').
    split; [|exists a'; split; [by etrans|done]].
    destruct Hs1 as [now1 Hs1]. exists now1. by eapply rtc_r.
Qed.

(** Every call of the engine is what some request asks for. *)
Lemma spec_calls_asked a :
  rtc (spec_step state) spec_init a →
  Forall (λ rc, ∃ r, call_for (multiplexer state) rc.1 r rc.2) (spec_calls a).
Proof.
  intros Hr. eapply (rtc_ind_r (λ a, Forall (λ rc, ∃ r, call_for (multiplexer state) rc.1 r rc.2)
    (spec_calls a))); [| |exact Hr]; [by constructor|].
  intros a1 a2 _ Hstep Ha1. destruct Hstep; simpl in *; try done. constructor; [by exists req|done].
Qed.

Lemma reachable_calls_asked s role c :
  reachable state cs s → (role, c) ∈ mem_hist (sys_mem s) →
  ∃ r, call_for (multiplexer state) role r c.
Proof.
  intros (a & Ha & Hh & _)%reachable_simulated Hin. pose proof (spec_calls_asked a Ha) as Hall.
  rewrite Hh, Forall_forall in Hall. exact (Hall _ Hin).
Qed.
End refinement.
