(* ===== verification/Typing.v ===== *)
(** The numbers of the payloads which the engine is sent are 64-bit numbers. *)
From S2P Require Import Prelude Uint256 BaseFee Lru Lighthouse Types Config Multiplexer.
From S2P Require Import Prog Logic Shared PayloadBuilder BuilderSpec Fcu NewPayload Meta.
From S2P Require Import Jwt Main System Isolation Invariant Backed Replies Tracing Calls Safety.
From S2P Require Import Spec.

Section payloads.
Context `{ExtOk} `{!SerdeTyped} `{!NetworkOps}.
Variable self : Statics.

Lemma decode_payload_u64 m fork v j :
  decode_payload m fork v = Ok j → payload_u64 (ep_from_json j).
Proof.
  unfold decode_payload, result_map. intros Hp.
  repeat (case_match; simplify_eq/=; try done);
    eauto using de_payload_v1_u64, de_payload_v2_u64, de_payload_v3_u64, de_payload_v4_u64.
Qed.

Lemma decode_new_payload_u64 r d :
  decode_new_payload self r = Done (Ok d) → payload_u64 (ep_from_json (dec_payload d)).
Proof.
  unfold decode_new_payload. intros Hd.
  destruct (parse_as _ _) as [[id ps]|e]; simpl in Hd; [|done].
  destruct (decode_extra_params _ _ _) as [[[[a b] c]|e]|m]; simpl in Hd; try done.
  destruct (index ps 0); simpl in Hd; [|done].
  destruct (json_get _ _); simpl in Hd; [|done].
  destruct (from_value QuantityU64 _); simpl in Hd; [|done].
  destruct (timestamp_to_slot _ _); simpl in Hd; [|done].
  destruct (decode_payload _ _ _) eqn:Hp; simpl in Hd; [|done]. simplify_eq. simpl.
  by eapply decode_payload_u64.
Qed.
End payloads.

Section server.
Context `{ExtOk} `{!SerdeTyped} `{!NetworkOps} `{JwtOps}.
Variable state : AppState.

(** A payload which the engine was sent has been decoded. *)
Lemma sent_payload_u64 cs s role npr answer :
  fresh cs → reachable state cs s → (role, CallNewPayload npr answer) ∈ mem_hist (sys_mem s) →
  payload_u64 (npr_payload npr).
Proof.
  intros Hcs Hr Hin. destruct (reachable_calls_asked state cs Hcs s role _ Hr Hin)
    as (r & _ & _ & d & Hd & Hnpr).
  rewrite (new_payload_request_payload _ _ _ _ _ Hnpr). by eapply decode_new_payload_u64.
Qed.
End server.
