(* ===== verification/BuilderCoherence.v ===== *)
(** Coherence of the payload builder in every state of the server: ids, attributes and
    payloads belong together, and every payload extends a block the engine accepted. *)
From S2P Require Import Prelude Uint256 BaseFee Lru RecencyList Lighthouse Types Config.
From S2P Require Import Multiplexer Prog Logic Shared PayloadBuilder BuilderSpec Fcu NewPayload.
From S2P Require Import Meta Jwt Main Toy System Isolation Invariant Tracing Safety.

Section coherence.
Context `{ExtOk} `{!NetworkOps}.
Variable self : Statics.

Record builder_ok (known : ExecutionBlockHash → PayloadInfo → Prop) (b : PayloadBuilder) :
    Prop := MkBuilderOk {
  ok_next : is_u64 (next_payload_id b);
  (** every id in use was allocated *)
  ok_ids key i : lru_peek key (payload_attributes b) = Some i →
    ∃ n, (0 ≤ n < next_payload_id b)%Z ∧ i = to_be_bytes n;
  ok_payload_ids i p : lru_peek i (payloads b) = Some p →
    ∃ n, (0 ≤ n < next_payload_id b)%Z ∧ i = to_be_bytes n;
  (** no two attributes share an id *)
  ok_unique key1 key2 i :
    lru_peek key1 (payload_attributes b) = Some i →
    lru_peek key2 (payload_attributes b) = Some i → key1 = key2;
  (** the payload with an id is built for the attributes with that id *)
  ok_coherent key i p :
    lru_peek key (payload_attributes b) = Some i → lru_peek i (payloads b) = Some p →
    built_for self known (extra_data b) key p;
}.

Lemma builder_ok_mono (K K' : ExecutionBlockHash → PayloadInfo → Prop) b :
  (∀ bh info, K bh info → K' bh info) → builder_ok K b → builder_ok K' b.
Proof.
  intros HK [Hnx Hid Hpid Hun Hco]. split; try done. intros key i p Hk Hp.
  eapply built_for_mono; [exact HK|by eapply Hco].
Qed.

Lemma builder_ok_same K b b' : builder_same b' b → builder_ok K b → builder_ok K b'.
Proof.
  intros (Hn & [_ Ha] & _ & [_ Hp] & He) [Hnx Hid Hpid Hun Hco].
  split; rewrite ?Hn, ?He; try done.
  - intros key i. rewrite Ha. apply Hid.
  - intros i p. rewrite Hp. apply Hpid.
  - intros key1 key2 i. rewrite !Ha. apply Hun.
  - intros key i p. rewrite Ha, Hp. apply Hco.
Qed.

Lemma allocated_lt b i n :
  is_u64 (next_payload_id b) → (0 ≤ n < next_payload_id b)%Z → i = to_be_bytes n →
  i ≠ to_be_bytes (next_payload_id b).
Proof.
  unfold is_u64. intros Hb Hn -> Heq%to_be_bytes_inj; unfold is_u64; lia.
Qed.

Lemma registered_ok K slot parent pa b o b' :
  builder_ok K b → (∀ bh info, lru_peek bh (payload_info b) = Some info → K bh info) →
  (next_payload_id b + 1 < two64)%Z →
  timestamp_to_slot self (pa_timestamp pa) = Some slot →
  registered self slot parent pa b o b' →
  builder_ok K b' ∧ (next_payload_id b' ≤ next_payload_id b + 1)%Z.
Proof.
  intros Hok HK Hn Hslot Hreg.
  destruct Hreg as [i b' _ Hs|b' _ _ Hs|info o b' _ _ _ _ Hs
    |info p o b' Hnew Hinfo Hbuild Hadd Hnext Hcap Hattrs _ Hpay He];
    [(split; [by eapply builder_ok_same|destruct Hs as [-> _]; lia])..|].
  rewrite u64_add_done in Hadd by done. subst o. simpl in Hnext.
  destruct Hok as [Hnx Hid Hpid Hun Hco]. unfold is_u64 in Hnx.
  set (fresh := to_be_bytes (next_payload_id b)) in *.
  assert (Ha : ∀ key i, lru_peek key (payload_attributes b') = Some i →
    (key = (parent, pa) ∧ i = fresh) ∨
    (key ≠ (parent, pa) ∧ lru_peek key (payload_attributes b) = Some i)).
  { intros key i. unfold lru_peek. rewrite Hattrs. apply alookup_push_front_Some. }
  assert (Hp : ∀ i q, lru_peek i (payloads b') = Some q →
    (i = fresh ∧ q = p) ∨ (i ≠ fresh ∧ lru_peek i (payloads b) = Some q)).
  { intros i q. rewrite Hpay. apply peek_put_Some. }
  assert (Hold : ∀ key i, lru_peek key (payload_attributes b) = Some i → i ≠ fresh).
  { intros key i (n & Hlt & Hi)%Hid. by eapply allocated_lt. }
  split; [|lia]. split; rewrite ?Hnext.
  - unfold is_u64. lia.
  - intros key i [[-> ->]|[_ (n & Hlt & ->)%Hid]]%Ha.
    + exists (next_payload_id b). split; [lia|done].
    + exists n. split; [lia|done].
  - intros i q [[-> ->]|[_ (n & Hlt & ->)%Hpid]]%Hp.
    + exists (next_payload_id b). split; [lia|done].
    + exists n. split; [lia|done].
  - intros k1 k2 i [[-> ->]|[? Hk1]]%Ha [[-> Hi]|[? Hk2]]%Ha; [done|..].
    + by apply Hold in Hk2.
    + subst. by apply Hold in Hk1.
    + by eapply Hun.
  - intros key i q [[-> ->]|[? Hk]]%Ha [[Hi ->]|[Hi Hq]]%Hp.
    + rewrite He. exists slot, info. split_and!; [done|by apply HK|by apply build_payload_built].
    + done.
    + subst. by apply Hold in Hk.
    + rewrite He. by eapply Hco.
Qed.

(** What the requests do to the builder keeps it coherent, and allocates one id at most. *)
Lemma builder_ok_step K b b' :
  builder_ok K b → (∀ bh info, lru_peek bh (payload_info b) = Some info → K bh info) →
  (next_payload_id b + 1 < two64)%Z → builder_step self b b' →
  builder_ok K b' ∧ (next_payload_id b' ≤ next_payload_id b + 1)%Z.
Proof.
  intros Hok HK Hn Hstep. destruct Hstep as [slot parent pa b Hslot|payload b|b b' Hs].
  - by eapply registered_ok, register_attributes_registered.
  - unfold register_canonical_payload_locked. destruct (lru_get_or_insert _ _ _). simpl.
    split; [by destruct Hok|lia].
  - split; [by eapply builder_ok_same|]. destruct Hs as [-> _]. lia.
Qed.

(** ** What an id stands for *)

(** Whoever asks for the id [i] is served a payload for [key], or none; and [i] is not the
    id of other attributes. *)
Record stands_for (known : ExecutionBlockHash → PayloadInfo → Prop)
    (key : ExecutionBlockHash * PayloadAttributes) (i : PayloadId) (b : PayloadBuilder) :
    Prop := MkStandsFor {
  stands_allocated : ∃ n, (0 ≤ n < next_payload_id b)%Z ∧ i = to_be_bytes n;
  stands_key key' : lru_peek key' (payload_attributes b) = Some i → key' = key;
  stands_payload p : lru_peek i (payloads b) = Some p →
    built_for self known (extra_data b) key p;
}.

Lemma builder_ok_stands K key i b :
  builder_ok K b → lru_peek key (payload_attributes b) = Some i → stands_for K key i b.
Proof.
  intros [_ Hid _ Hun Hco] Hk. split.
  - by apply (Hid key).
  - intros key' Hk'. by eapply Hun.
  - intros p Hp. by apply (Hco key i).
Qed.

Lemma stands_for_mono (K K' : ExecutionBlockHash → PayloadInfo → Prop) key i b :
  (∀ bh info, K bh info → K' bh info) → stands_for K key i b → stands_for K' key i b.
Proof.
  intros HK [Ha Hk Hp]. split; [done..|]. intros p Hpay.
  eapply built_for_mono; [exact HK|by apply Hp].
Qed.

Lemma stands_for_same K key i b b' :
  builder_same b' b → stands_for K key i b → stands_for K key i b'.
Proof.
  intros (Hn & [_ Ha] & _ & [_ Hp] & He) [Hal Hk Hpay]. split; rewrite ?Hn, ?He.
  - done.
  - intros key'. rewrite Ha. apply Hk.
  - intros p. rewrite Hp. apply Hpay.
Qed.

Lemma stands_for_step K key i b b' :
  is_u64 (next_payload_id b) → (next_payload_id b + 1 < two64)%Z →
  builder_step self b b' → stands_for K key i b → stands_for K key i b'.
Proof.
  intros Hn Hlt Hstep Hs. destruct Hstep as [slot parent pa b _|payload b|b b' Hsame].
  - pose proof (register_attributes_registered self slot parent pa b) as Hreg.
    destruct Hreg as [j b' _ Hb|b' _ _ Hb|info o b' _ _ _ _ Hb
      |info p o b' _ _ _ Hadd Hnext _ Hattrs _ Hpay He]; [by eapply stands_for_same..|].
    rewrite u64_add_done in Hadd by done. subst o. simpl in Hnext.
    destruct Hs as [(n & Hal & Hi) Hk Hp].
    pose proof (allocated_lt b i n Hn Hal Hi) as Hfresh. split; rewrite ?Hnext, ?He.
    + exists n. split; [lia|done].
    + intros key'. unfold lru_peek. rewrite Hattrs.
      intros [[_ ->]|[_ Hk']]%alookup_push_front_Some; [done|by apply Hk].
    + intros q. rewrite Hpay. intros [[-> _]|[_ Hq]]%peek_put_Some; [done|by apply Hp].
  - unfold register_canonical_payload_locked. destruct (lru_get_or_insert _ _ _).
    destruct Hs. by split.
  - by eapply stands_for_same.
Qed.

(** The attributes known after a step were known before, or they have just been given an id
    together with a payload built for them. *)
Lemma builder_step_known K b b' key i :
  (∀ bh info, lru_peek bh (payload_info b) = Some info → K bh info) → builder_step self b b' →
  lru_peek key (payload_attributes b') = Some i →
  lru_peek key (payload_attributes b) = Some i ∨
  ∃ p, lru_peek i (payloads b') = Some p ∧ built_for self K (extra_data b') key p.
Proof.
  intros HK Hstep Hk. destruct Hstep as [slot parent pa b Hslot|payload b|b b' Hsame].
  - pose proof (register_attributes_registered self slot parent pa b) as Hreg.
    destruct Hreg as [j b' _ Hb|b' _ _ Hb|info o b' _ _ _ _ Hb
      |info p o b' _ Hinfo Hbuild _ _ _ Hattrs _ Hpay He];
      [left; destruct Hb as (_ & [_ Ha] & _); by rewrite <- Ha..|].
    unfold lru_peek in Hk. rewrite Hattrs in Hk.
    apply alookup_push_front_Some in Hk as [[-> ->]|[_ Hk]]; [right|by left].
    exists p. rewrite Hpay, He. split; [apply peek_put_eq|]. exists slot, info.
    split_and!; [done|by apply HK|by apply build_payload_built].
  - left. unfold register_canonical_payload_locked in Hk.
    by destruct (lru_get_or_insert _ _ _).
  - left. destruct Hsame as (_ & [_ Ha] & _). by rewrite <- Ha.
Qed.
End coherence.

Section server.
Context `{ExtOk} `{!NetworkOps} `{JwtOps}.
Variable state : AppState.

Lemma builder_ok_nsteps cs now n s :
  fresh cs → next_payload_id (payload_builder cs) = 0%Z →
  nsteps (sys_step state) n (sys_init cs now) s → (Z.of_nat n < two64)%Z →
  let b := payload_builder (mem_caches (sys_mem s)) in
  builder_ok (multiplexer state) (backed_info (mem_hist (sys_mem s))) b ∧
  (next_payload_id b ≤ Z.of_nat n)%Z.
Proof.
  intros Hcs Hzero. revert s. induction n as [|n IH]; intros s Hn Hlt b.
  - inversion Hn; subst. simpl in b. split; [|subst b; lia]. destruct Hcs.
    split; unfold b; rewrite ?Hzero; [unfold is_u64, two64; lia|intros *; by rewrite ?fresh_attributes, ?fresh_payloads..].
  - apply nsteps_inv_r in Hn as (s1 & Hn & Hstep).
    destruct (IH s1 Hn) as [Hok Hnext]; [lia|].
    assert (Hr : reachable state cs s1) by (exists now; by eapply rtc_nsteps_2).
    destruct (reachable_sound state cs s1 Hcs Hr) as [HI _].
    destruct (sys_builder_step state s1 s) as [Hb Hh];
      [by eapply reachable_tasks_always|done|].
    destruct (builder_ok_step (multiplexer state) (backed_info (mem_hist (sys_mem s)))
      (payload_builder (mem_caches (sys_mem s1))) b) as [Hok' Hnext']; [| |lia|exact Hb|].
    + eapply builder_ok_mono; [|exact Hok]. intros bh info. by apply backed_info_mono.
    + intros bh info Hp. eapply backed_info_mono; [exact Hh|]. by eapply inv_payload_info.
    + split; [exact Hok'|lia].
Qed.

(** ** What the ids which are handed out stand for *)

(** On the way of the [n] steps to [s] a payload was built for [key], a parent and the
    attributes of its child, and stored under [i], the id given to [key]. *)
Definition issued (cs : Caches) (now : Z) (n : nat) (s : Sys)
    (key : ExecutionBlockHash * PayloadAttributes) (i : PayloadId) : Prop :=
  ∃ m k s0 p, m + k = n ∧ nsteps (sys_step state) m (sys_init cs now) s0 ∧
    nsteps (sys_step state) k s0 s ∧
    let b := payload_builder (mem_caches (sys_mem s0)) in
    lru_peek key (payload_attributes b) = Some i ∧ lru_peek i (payloads b) = Some p ∧
    built_for (multiplexer state) (backed_info (mem_hist (sys_mem s0))) (extra_data b) key p.

(** As long as the counter of ids has not wrapped around, [i] belongs to [key] in [s]: a
    payload which [s] serves under [i] was built for [key], and no other attributes are
    answered with [i]. *)
Definition still_means (cs : Caches) (n : nat) (s : Sys)
    (key : ExecutionBlockHash * PayloadAttributes) (i : PayloadId) : Prop :=
  next_payload_id (payload_builder cs) = 0%Z → (Z.of_nat n < two64)%Z →
  let b := payload_builder (mem_caches (sys_mem s)) in
  (∀ p, lru_peek i (payloads b) = Some p →
     built_for (multiplexer state) (backed_info (mem_hist (sys_mem s))) (extra_data b) key p) ∧
  ∀ key', lru_peek key' (payload_attributes b) = Some i → key' = key.

Lemma nsteps_reachable cs now n s :
  nsteps (sys_step state) n (sys_init cs now) s → reachable state cs s.
Proof. intros Hn. exists now. by eapply rtc_nsteps_2. Qed.

Lemma known_issued cs now n s key i :
  fresh cs → nsteps (sys_step state) n (sys_init cs now) s →
  lru_peek key (payload_attributes (payload_builder (mem_caches (sys_mem s)))) = Some i →
  issued cs now n s key i.
Proof.
  intros Hcs. revert s. induction n as [|n IH]; intros s Hn Hk.
  { inversion Hn; subst. destruct Hcs. simpl in Hk. by rewrite fresh_attributes in Hk. }
  pose proof Hn as (s1 & Hn1 & Hstep)%nsteps_inv_r.
  pose proof (nsteps_reachable _ _ _ _ Hn1) as Hr.
  destruct (reachable_sound state cs s1 Hcs Hr) as [HI _].
  destruct (sys_builder_step state s1 s) as [Hb Hh]; [by eapply reachable_tasks_always|done|].
  assert (HK : ∀ bh info, lru_peek bh (payload_info (payload_builder (mem_caches (sys_mem s1)))) =
      Some info → backed_info (mem_hist (sys_mem s)) bh info).
  { intros bh info Hi. eapply backed_info_mono; [exact Hh|]. by eapply inv_payload_info. }
  destruct (builder_step_known _ _ _ _ key i HK Hb Hk) as [Hold|(p & Hp & Hbuilt)].
  - destruct (IH s1 Hn1 Hold) as (m & k & s0 & p & <- & Hm & Hs & Hrest).
    exists m, (S k), s0, p. split_and!; [lia|done|by eapply nsteps_r|apply Hrest..].
  - exists (S n), 0, s, p. split_and!; [lia|done|constructor|done..].
Qed.

Lemma issued_still_means cs now n s key i :
  fresh cs → issued cs now n s key i → still_means cs n s key i.
Proof.
  intros Hcs (m & k & s0 & p & <- & Hm & Hk & Hkey & _) Hzero Hlt.
  assert (Hstands : stands_for (multiplexer state) (backed_info (mem_hist (sys_mem s))) key i
    (payload_builder (mem_caches (sys_mem s)))); [|by destruct Hstands].
  revert s Hk Hlt. induction k as [|k IH]; intros s Hk Hlt.
  - inversion Hk; subst. destruct (builder_ok_nsteps cs now m s Hcs Hzero Hm) as [Hok _]; [lia|].
    by apply builder_ok_stands.
  - apply nsteps_inv_r in Hk as (s1 & Hk & Hstep).
    pose proof (nsteps_trans _ _ _ _ _ Hm Hk) as Hn.
    destruct (builder_ok_nsteps cs now (m + k) s1 Hcs Hzero Hn) as [[Hnx _ _ _ _] Hle]; [lia|].
    pose proof (nsteps_reachable _ _ _ _ Hn) as Hr.
    destruct (sys_builder_step state s1 s) as [Hb Hh]; [by eapply reachable_tasks_always|done|].
    eapply stands_for_step; [exact Hnx|lia|exact Hb|].
    eapply stands_for_mono; [|apply IH; [done|lia]]. intros bh info. by apply backed_info_mono.
Qed.
End server.
