(* ===== verification/Ids.v ===== *)
(** Where payload ids and panics come from: the replies and panics of the
    forkchoiceUpdated handlers, traced to states of the payload builder. *)
From S2P Require Import Prelude Uint256 BaseFee Lru Lighthouse Types Config Multiplexer.
From S2P Require Import Prog Logic Shared PayloadBuilder BuilderSpec Fcu NewPayload Meta.
From S2P Require Import Jwt Main System Seen Isolation Invariant Backed Replies Tracing Safety.
From S2P Require Import BuilderCoherence.

Section handlers.
Context `{ExtOk} `{!NetworkOps} `{JwtOps}.
Variable self : Statics.

(** The id [pid] of a reply is what the builder had, in a state which was seen, for the
    attributes of the request on its head block. *)
Definition id_seen (seen : list PayloadBuilder) (head : ExecutionBlockHash)
    (attrs : option PayloadAttributes) (pid : option TransparentJsonPayloadId) : Prop :=
  ∀ i, pid = Some (MkTransparentJsonPayloadId i) → ∃ pa b, attrs = Some pa ∧ b ∈ seen ∧
    lru_peek (head, pa) (payload_attributes b) = Some i.

(** Building a child of [head] fails in the builder [b]: its counter of ids, or the number of
    the head block, is exhausted and the addition is checked; or the base fee cannot be
    computed. *)
Definition build_fails (head : ExecutionBlockHash) (b : PayloadBuilder) : Prop :=
  ∃ info, lru_peek head (payload_info b) = Some info ∧
    (overflow_checks = true ∧
       (two64 ≤ info_block_number info + 1 ∨ two64 ≤ next_payload_id b + 1)%Z ∨
     ∃ m, expected_base_fee_per_gas (info_base_fee_per_gas info) (info_gas_used info)
            (info_gas_limit info) = Panicked m).

(** ** The builder's operations *)

Lemma get_existing_payload_id_sees bh pa seen :
  wp seeing (get_existing_payload_id bh pa) seen
    (λ x seen', ∀ i, x = Returned (Ok i) → ∃ b, b ∈ seen' ∧
       lru_peek (bh, pa) (payload_attributes b) = Some i).
Proof.
  apply wp_bind, seeing_with_lock, seeing_access. intros b. simpl. unfold get_existing_payload_id_locked.
  pose proof (get_value (bh, pa) (payload_attributes b)) as Hv.
  pose proof (peek_get (bh, pa) (bh, pa) (payload_attributes b)) as Hp.
  destruct (lru_get _ _) as [[j|] c]; simpl in *; intros i [= ->].
  eexists. split; [by left|]. simpl. by rewrite Hp.
Qed.

Lemma register_attributes_panic_fails slot parent pa b m :
  (register_attributes_locked self slot parent pa b).1 = Panicked m →
  build_fails parent (register_attributes_locked self slot parent pa b).2.
Proof.
  intros Hret. pose proof (register_attributes_registered self slot parent pa b) as Hreg.
  rewrite Hret in Hreg. clear Hret.
  inversion Hreg as [|b1|info o b' _ Hinfo Hbuild _ (Hn & _ & [_ Hi] & _) Ho
    |info p o b' _ Hinfo _ Hadd Hnext _ _ [_ Hi] _ _ Ho]; subst; simplify_eq;
    exists info; rewrite Hi, Hinfo; (split; [done|]).
  - destruct (build_payload _ _ _ _ _ _) as [[p|e]|m'] eqn:Hb; simplify_eq.
    destruct (build_payload_panics _ _ _ _ _ _ _ Hb) as [[? ?]|?]; [left; auto|by right].
  - destruct (u64_add (next_payload_id b) 1) as [x|m'] eqn:Hadd; simplify_eq.
    apply u64_add_panics in Hadd as [? ?]. left. rewrite Hnext. auto.
Qed.

Lemma register_attributes_sees bh pa seen :
  wp seeing (register_attributes self bh pa) seen
    (λ x seen',
       (∀ i, x = Returned (Ok i) → ∃ b, b ∈ seen' ∧
          lru_peek (bh, pa) (payload_attributes b) = Some i) ∧
       ∀ m, x = Unwound m → ∃ b, b ∈ seen' ∧ build_fails bh b).
Proof.
  unfold register_attributes. destruct (timestamp_to_slot _ _) as [slot|]; [|done].
  apply seeing_with_lock, wp_bind, seeing_access. intros b. cbn [then_post see].
  pose proof (register_attributes_panic_fails slot bh pa b) as Hpanic.
  pose proof (register_attributes_registered self slot bh pa b) as Hreg.
  destruct (register_attributes_locked self slot bh pa b) as [o b']. cbn [fst snd] in *.
  destruct o as [res|m]; simpl.
  - split; [|done]. intros i [= ->]. exists b'. split; [by left|].
    by eapply registered_id.
  - split; [done|]. intros m' [= <-]. exists b'. split; [by left|]. by apply (Hpanic m).
Qed.

(** ** The handlers, with the ids in their replies *)

Definition client_fcu_seen (r : Request) (x : exit (result Response ErrorResponse))
    (s : known * list PayloadBuilder) : Prop :=
  ∀ resp, x = Returned (Ok resp) →
    ∃ fcu attrs st pid,
      parse_as (JsonForkchoiceStateV1 * option JsonPayloadAttributesV2) r =
        Ok (req_id r, (fcu, attrs)) ∧
      Response_new (req_id r) {| payload_status := st; payload_id := pid |} = Ok resp ∧
      (st = synthetic_syncing ∨ fcu_matched self (k_hist s.1) fcu st) ∧
      id_seen s.2 (head_block_hash fcu) ((λ a, pa_from_json (JPA_V2 a)) <$> attrs) pid.

Lemma handle_fcu_watched role r k seen :
  wp (watching (shared role (Inv self))) (handle_fcu self r) (k, seen) (client_fcu_seen r).
Proof.
  unfold handle_fcu. destruct (parse_as _ r) as [[id [fcu attrs]]|e] eqn:Hp; [|done].
  pose proof Hp as [-> _]%parse_as_Ok. rewrite bind_result_Ok. apply wp_bind.
  eapply wp_mono; [apply wp_unwatched, client_fcu_status_spec|].
  intros [st|m|] [k1 seen1] Hst; [|done..]. simpl in Hst. cbn [then_post]. apply wp_bind.
  assert (Hend : ∀ pid k2 seen2, known_le k1 k2 →
    id_seen seen2 (head_block_hash fcu) ((λ a, pa_from_json (JPA_V2 a)) <$> attrs) pid →
    client_fcu_seen r (Returned (Response_new (req_id r)
      {| payload_status := st; payload_id := pid |})) (k2, seen2)).
  { intros pid k2 seen2 [Hk _] Hid resp [= Hresp]. exists fcu, attrs, st, pid.
    split_and!; [done..| |exact Hid]. destruct Hst as [?|?]; [by left|right].
    by eapply fcu_matched_mono. }
  destruct attrs as [a|]; [|by apply Hend].
  apply wp_bind. eapply wp_mono.
  { apply wp_watching; [apply shared_known_le, get_existing_payload_id_spec|
                        apply get_existing_payload_id_sees]. }
  intros [[i|e]|m|] [k2 seen2] [[Hk Hx] Hi]; try done; cbn [then_post wp]; apply Hend; try done.
  intros j [= <-]. destruct (Hi i eq_refl) as (b & Hb & Hpeek). by exists (pa_from_json (JPA_V2 a)), b.
Qed.

Definition controller_fcu_seen (r : Request) (x : exit (result Response ErrorResponse))
    (s : known * list PayloadBuilder) : Prop :=
  (∀ resp, x = Returned (Ok resp) →
    ∃ fcu json attrs st pid,
      parse_as (JsonForkchoiceStateV1 * option JsonValue) r = Ok (req_id r, (fcu, json)) ∧
      controller_attributes r json = Ok attrs ∧
      Response_new (req_id r) {| payload_status := st; payload_id := pid |} = Ok resp ∧
      (fcu_matched self (k_hist s.1) fcu st ∧ is_definite st = true ∨
       backed_fcu (k_hist s.1) fcu st) ∧
      (is_Some attrs ↔ is_Some pid) ∧
      id_seen s.2 (head_block_hash fcu) (pa_from_json <$> attrs) pid) ∧
  ∀ m, x = Unwound m →
    ∃ fcu json a b,
      parse_as (JsonForkchoiceStateV1 * option JsonValue) r = Ok (req_id r, (fcu, json)) ∧
      controller_attributes r json = Ok (Some a) ∧
      b ∈ s.2 ∧ build_fails (head_block_hash fcu) b.

Lemma handle_controller_fcu_watched r k seen :
  wp (watching (shared RController (Inv self))) (handle_controller_fcu self r) (k, seen)
    (controller_fcu_seen r).
Proof.
  unfold handle_controller_fcu. destruct (parse_as _ r) as [[id [fcu json]]|e] eqn:Hp; [|done].
  pose proof Hp as [-> _]%parse_as_Ok. rewrite bind_result_Ok.
  fold (controller_attributes r json).
  destruct (controller_attributes r json) as [attrs|e] eqn:Ha; [rewrite bind_result_Ok|done].
  apply wp_bind. eapply wp_mono;
    [apply wp_unwatched, (controller_fcu_status_spec self (req_id r) fcu never)|].
  intros [[st|e]|m|] [k1 seen1] Hst; [|done..]. specialize (Hst st eq_refl).
  cbn [then_post]. apply wp_bind.
  assert (Hend : ∀ pid k2 seen2, known_le k1 k2 → (is_Some attrs ↔ is_Some pid) →
    id_seen seen2 (head_block_hash fcu) (pa_from_json <$> attrs) pid →
    controller_fcu_seen r (Returned (Response_new (req_id r)
      {| payload_status := st; payload_id := pid |})) (k2, seen2)).
  { intros pid k2 seen2 [Hk _] Hsome Hid. split; [|done]. intros resp [= Hresp].
    exists fcu, json, attrs, st, pid. split_and!; [done..| |done|exact Hid].
    destruct Hst as [[? ?]|?]; [left; split; [by eapply fcu_matched_mono|done]|right].
    by eapply backed_fcu_mono. }
  destruct attrs as [a|]; [|by apply Hend; [|split; intros []|]].
  apply wp_bind. eapply wp_mono.
  { apply wp_watching; [apply shared_known_le, register_attributes_spec|
                        apply register_attributes_sees]. }
  intros [[i|e]|m|] [k2 seen2] [[Hk Hx] [Hi Hm]]; cbn [then_post wp]; [|done| |done].
  - apply Hend; [done|done|]. intros j [= <-].
    destruct (Hi i eq_refl) as (b & Hb & Hpeek). by exists (pa_from_json a), b.
  - split; [done|]. intros m' _. destruct (Hm m eq_refl) as (b & Hb & Hf).
    by exists fcu, json, a, b.
Qed.
End handlers.

(** * The routes *)

Section routes.
Context `{ExtOk} `{!NetworkOps} `{JwtOps}.
Variable state : AppState.

(** What a single forkchoiceUpdated request is replied on either endpoint, and what follows
    from a panic of the controller's. *)
Definition route_seen (r : HttpRequest) (x : exit HttpReply) (s : known * list PayloadBuilder) :
    Prop :=
  match r with
  | PostRoot token (Ok (Requests_Single r)) =>
    ∀ v resp, verify (client_jwt_collection state) token = Ok v →
      is_forkchoice_updated (req_method r) = true →
      x = Returned (ClientReply (Responses_Single (MER_Ok resp))) →
      client_fcu_seen (multiplexer state) r (Returned (Ok resp)) s
  | PostCanonical token (Ok r) =>
    ∀ v, verify_single_token token (controller_jwt state) = Ok v →
      is_forkchoice_updated (req_method r) = true →
      match x with
      | Returned (ControllerReply out) =>
        controller_fcu_seen (multiplexer state) r (Returned out) s
      | Unwound m => controller_fcu_seen (multiplexer state) r (Unwound m) s
      | _ => True
      end
  | _ => True
  end.

Lemma route_watched r k :
  wp (watching (shared (role_of r) (Inv (multiplexer state)))) (route state r) (k, [])
    (route_seen r).
Proof.
  assert (Hother : (∀ x s, route_seen r x s) →
    wp (watching (shared (role_of r) (Inv (multiplexer state)))) (route state r) (k, [])
      (route_seen r)).
  { intros Hr. eapply wp_mono; [apply wp_unwatched, route_spec|]. intros x s _. apply Hr. }
  destruct r as [token [[r|rs]|e]|token [r|e]|]; try (by apply Hother).
  - destruct (verify (client_jwt_collection state) token) as [v|e] eqn:Hv.
    2: { apply Hother. intros x s v'. rewrite Hv. done. }
    destruct (is_forkchoice_updated (req_method r)) eqn:Hm.
    2: { apply Hother. intros x s v' resp _. rewrite Hm. done. }
    clear Hother. simpl. unfold handle_client_json_rpc. rewrite Hv.
    unfold process_client_request. rewrite Hm. apply wp_bind, wp_bind.
    eapply wp_mono; [apply handle_fcu_watched|].
    intros [out|m|] s Hx v' resp _ _ [= Hout].
    by destruct out as [resp'|e]; simplify_eq/=.
  - destruct (verify_single_token token (controller_jwt state)) as [v|e] eqn:Hv.
    2: { apply Hother. intros x s v'. rewrite Hv. done. }
    destruct (is_forkchoice_updated (req_method r)) eqn:Hm.
    2: { apply Hother. intros x s v' _. rewrite Hm. done. }
    clear Hother. cbn [route]. unfold handle_controller_json_rpc. rewrite Hv.
    cbn [map_err]. rewrite bind_result_Ok. unfold process_controller_request.
    rewrite Hm. apply wp_bind.
    eapply wp_mono; [apply handle_controller_fcu_watched|].
    by intros [out|m|] s Hx v' _ _.
Qed.

(** ** Every state *)

Lemma seen_reply cs now n s t task :
  fresh cs → nsteps (sys_step state) n (sys_init cs now) s → sys_tasks s !! t = Some task →
  ∃ k seen, known_le k (mem_known (sys_mem s)) ∧ Forall (past state cs now n s) seen ∧
    wp (watching (shared (role_of (task_request task)) (Inv (multiplexer state))))
      (task_prog task) (k, seen) (route_seen (task_request task)).
Proof.
  intros Hcs Hn Ht.
  exact (watching_sound state (Inv (multiplexer state)) route_seen route_watched cs now n s
    (Inv_fresh _ cs Hcs) Hn t task Ht).
Qed.

Lemma past_issued cs now n s b key i :
  fresh cs → past state cs now n s b → lru_peek key (payload_attributes b) = Some i →
  issued state cs now n s key i.
Proof.
  intros Hcs (m & k & s0 & <- & Hm & Hk & <-) Hkey.
  destruct (known_issued state cs now m s0 key i Hcs Hm Hkey)
    as (m1 & k1 & s1 & p & <- & Hm1 & Hk1 & Hrest).
  exists m1, (k1 + k), s1, p. split_and!; [lia|done|by eapply nsteps_trans|apply Hrest..].
Qed.

(** The ids of a reply are issued for the attributes of its request. *)
Lemma id_seen_issued cs now n s seen head attrs pid :
  fresh cs → Forall (past state cs now n s) seen → id_seen seen head attrs pid →
  ∀ i, pid = Some (MkTransparentJsonPayloadId i) → ∃ pa, attrs = Some pa ∧
    issued state cs now n s (head, pa) i ∧ still_means state cs n s (head, pa) i.
Proof.
  intros Hcs Hseen Hid i Hi. destruct (Hid i Hi) as (pa & b & -> & Hb & Hkey). exists pa.
  rewrite Forall_forall in Hseen. pose proof (past_issued _ _ _ _ _ _ _ Hcs (Hseen b Hb) Hkey).
  split; [done|]. split; [done|]. by eapply issued_still_means.
Qed.

(** ** Panics *)

(** With overflow checks an exhausted counter of ids stays as it is. *)
Lemma counter_stuck b b' :
  overflow_checks = true → (two64 ≤ next_payload_id b + 1)%Z →
  builder_step (multiplexer state) b b' → next_payload_id b' = next_payload_id b.
Proof.
  intros Hchecks Hmax Hstep. destruct Hstep as [slot parent pa b _|payload b|b b' (Hn & _)].
  - pose proof (register_attributes_registered (multiplexer state) slot parent pa b) as Hreg.
    destruct Hreg as [i b' _ (Hn & _)|b' _ _ (Hn & _)|info o b' _ _ _ _ (Hn & _)
      |info p o b' _ _ _ Hadd Hnext _ _ _ _ _]; [done..|].
    unfold u64_add in Hadd. rewrite Hchecks in Hadd.
    destruct (Z.ltb_spec (next_payload_id b + 1) two64); [lia|]. by subst o.
  - unfold register_canonical_payload_locked. by destruct (lru_get_or_insert _ _ _).
  - done.
Qed.

Lemma past_suffix cs now n s k s0 :
  nsteps (sys_step state) n (sys_init cs now) s0 → nsteps (sys_step state) k s0 s →
  mem_hist (sys_mem s0) `suffix_of` mem_hist (sys_mem s) ∧
  (overflow_checks = true →
   (two64 ≤ next_payload_id (payload_builder (mem_caches (sys_mem s0))) + 1)%Z →
   next_payload_id (payload_builder (mem_caches (sys_mem s))) =
   next_payload_id (payload_builder (mem_caches (sys_mem s0)))).
Proof.
  intros Hn. revert s. induction k as [|k IH]; intros s Hk; [by inversion Hk; subst|].
  apply nsteps_inv_r in Hk as (s1 & Hk & Hstep). destruct (IH s1 Hk) as [Hh Hstuck].
  pose proof (nsteps_reachable state _ _ _ _ (nsteps_trans _ _ _ _ _ Hn Hk)) as Hr.
  destruct (sys_builder_step state s1 s) as [Hb Hh']; [by eapply reachable_tasks_always|done|].
  split; [by etrans|]. intros Hc Hmax. rewrite <- (Hstuck Hc Hmax).
  apply counter_stuck; [done| |done]. by rewrite (Hstuck Hc Hmax).
Qed.

(** A panic of the controller's forkchoiceUpdated is a failed build on its head block, which
    the engine has answered and not rejected. *)
Lemma panic_traced cs now n s t token v r m :
  fresh cs → nsteps (sys_step state) n (sys_init cs now) s →
  sys_tasks s !! t = Some (MkTask (PostCanonical token (Ok r)) (Panic m)) →
  verify_single_token token (controller_jwt state) = Ok v →
  is_forkchoice_updated (req_method r) = true →
  ∃ fcu json a info,
    parse_as (JsonForkchoiceStateV1 * option JsonValue) r = Ok (req_id r, (fcu, json)) ∧
    controller_attributes r json = Ok (Some a) ∧
    backed_info (mem_hist (sys_mem s)) (head_block_hash fcu) info ∧
    (overflow_checks = true ∧
       (two64 ≤ info_block_number info + 1 ∨
        two64 ≤ next_payload_id (payload_builder (mem_caches (sys_mem s))) + 1)%Z ∨
     ∃ m, expected_base_fee_per_gas (info_base_fee_per_gas info) (info_gas_used info)
            (info_gas_limit info) = Panicked m).
Proof.
  intros Hcs Hn Ht Hv Hf.
  destruct (seen_reply cs now n s t _ Hcs Hn Ht) as (k & seen & _ & Hseen & Hwp).
  destruct (proj2 (Hwp v Hv Hf) m eq_refl) as (fcu & json & a & b & Hp & Ha & Hb & Hfail).
  rewrite Forall_forall in Hseen. destruct (Hseen b Hb) as (m0 & k0 & s0 & <- & Hm & Hk & <-).
  destruct Hfail as (info & Hinfo & Hwhy). exists fcu, json, a, info. split_and!; [done..| |].
  - destruct (reachable_sound state cs s0 Hcs (nsteps_reachable state _ _ _ _ Hm)) as [HI _].
    eapply backed_info_mono; [eapply (past_suffix cs now m0 s k0 s0); done|].
    by eapply inv_payload_info.
  - destruct Hwhy as [[Hc [Hmax|Hmax]]|Hfee]; [left; auto| |by right].
    left. split; [done|]. right.
    rewrite (proj2 (past_suffix cs now m0 s k0 s0 Hm Hk) Hc Hmax). done.
Qed.
End routes.
