(* ===== verification/Timing.v ===== *)
(** How long a request waits: the time its own sleeps take, when locks and the engine cost
    none.  Only a client's newPayload and forkchoiceUpdated ever wait, up to the
    configured bound and one polling interval; the controller never does. *)
From S2P Require Import Prelude Uint256 BaseFee Lru RecencyList Lighthouse Types Config.
From S2P Require Import Multiplexer Prog Logic Shared PayloadBuilder BuilderSpec Fcu NewPayload.
From S2P Require Import Meta Jwt Main Methods Toy Isolation.

Definition no_sleep `{Ext} (A : Type) (e : ev A) : Prop :=
  match e with ESleepUntil _ => False | _ => True end.

Section timing.
Context `{ExtOk} `{!NetworkOps}.
Variable env : Env.
Hypothesis no_latency : ∀ t, env_latency env t = 0%Z.

(** The clock when a program has ended. *)
Definition clock_after {R} (p : prog R) (w : World) : Z := w_clock (run env p w).2.

(** [p] ends at most [d] nanoseconds after it was started, and not before. *)
Definition takes {R} (d : Z) (p : prog R) : Prop :=
  ∀ w, (w_clock w ≤ clock_after p w ≤ w_clock w + d)%Z.

Lemma takes_weaken {R} d d' (p : prog R) : (d ≤ d')%Z → takes d p → takes d' p.
Proof. intros Hd Hp w. specialize (Hp w). lia. Qed.

Lemma clock_bind {A B} (p : prog A) (f : A → prog B) w :
  clock_after (bind p f) w =
    match (run env p w).1 with
    | Returned a => clock_after (f a) (run env p w).2
    | Unwound _ | Exhausted => clock_after p w
    end.
Proof.
  unfold clock_after. revert w. induction p as [a|m| |X e k IH]; intros w; simpl; [done..|].
  destruct (handle_ev env e w) as [x w']. apply IH.
Qed.

Lemma clock_Ret {R} (r : R) w : clock_after (Ret r) w = w_clock w.
Proof. done. Qed.

Lemma clock_tick w : w_clock (tick env w) = w_clock w.
Proof. unfold tick. simpl. rewrite no_latency. lia. Qed.

Lemma run_now w : run env (trigger ENow) w = (Returned (w_clock w), tick env w).
Proof. done. Qed.

Lemma takes_bind {A B} d1 d2 (p : prog A) (f : A → prog B) :
  takes d1 p → (∀ a, takes d2 (f a)) → (0 ≤ d2)%Z → takes (d1 + d2) (bind p f).
Proof.
  intros Hp Hf Hd w. rewrite clock_bind. specialize (Hp w).
  destruct (run env p w).1 as [a|m|]; [|lia..]. specialize (Hf a (run env p w).2).
  unfold clock_after in *. lia.
Qed.

(** A program without sleeps takes no time. *)
Lemma takes_no_sleep {R} (p : prog R) (Φ : R → Prop) : always no_sleep p Φ → takes 0 p.
Proof.
  intros Hp w. unfold clock_after.
  assert (w_clock (run env p w).2 = w_clock w) as ->; [|lia]. revert w.
  unfold always in Hp. induction p as [r|m| |X e k IH]; intros w; simpl in *; [done..|].
  destruct Hp as [He Hk]. destruct (handle_ev env e w) as [x w'] eqn:Hev.
  rewrite (IH x) by apply Hk. unfold tick. simpl. rewrite no_latency.
  assert (w_clock w' = w_clock w) as ->; [|lia].
  destruct e; simpl in Hev; try done; try (case_match); by simplify_eq/=.
Qed.

Lemma takes_sleep ms : (0 ≤ ms)%Z → takes (ms * 1000000) (sleep_millis ms).
Proof. intros Hms w. unfold clock_after. simpl. rewrite !no_latency. simpl. lia. Qed.

(** The loop stops at the first round which begins after the wait. *)
Lemma poll_loop_clock {A} (poll : prog (option A)) start wait fuel w :
  takes 0 poll →
  (w_clock w ≤ clock_after (poll_loop fuel start wait poll) w ≤
   Z.max (w_clock w) (start + (wait + 50) * 1000000))%Z.
Proof.
  intros Hpoll. revert w. induction fuel as [|fuel IH]; intros w; [unfold clock_after; simpl; lia|].
  cbn [poll_loop]. rewrite clock_bind, run_now. cbn [fst snd].
  pose proof (clock_tick w) as Htick.
  destruct (Z.ltb_spec (elapsed_millis start (w_clock w)) wait) as [Hlt|Hge];
    [|rewrite clock_Ret; lia].
  assert (Hnow : (w_clock w < start + wait * 1000000)%Z)
    by (unfold elapsed_millis in Hlt; div_lia).
  rewrite clock_bind. pose proof (Hpoll (tick env w)) as Hp.
  destruct (run env poll (tick env w)) as [x w1] eqn:Hrun. unfold clock_after in Hp.
  rewrite Hrun in Hp. cbn [fst snd] in *.
  destruct x as [[a|]|m|]; [rewrite clock_Ret; lia| |unfold clock_after; rewrite Hrun; simpl; lia..].
  rewrite clock_bind. pose proof (takes_sleep 50 ltac:(lia) w1) as Hs. unfold clock_after in Hs.
  destruct (run env (sleep_millis 50) w1) as [y w2] eqn:Hsleep. cbn [fst snd] in *.
  destruct y as [[]|m|]; [|discriminate..]. specialize (IH w2). lia.
Qed.

Lemma takes_poll_until {A} (poll : prog (option A)) wait :
  (0 ≤ wait)%Z → takes 0 poll → takes ((wait + 50) * 1000000) (poll_until wait poll).
Proof.
  intros Hw Hpoll w. unfold poll_until. rewrite clock_bind, run_now. cbn [fst snd].
  pose proof (clock_tick w).
  pose proof (poll_loop_clock poll (w_clock w) wait (poll_fuel wait) (tick env w) Hpoll). lia.
Qed.
End timing.

(** ** The handlers *)

Section handlers.
Context `{ExtOk} `{!NetworkOps} `{JwtOps}.
Variable self : Statics.

Definition instant {R} (p : prog R) : Prop := only no_sleep p.

Lemma instant_get_cached_fcu fcu d : instant (get_cached_fcu self fcu d).
Proof. unfold get_cached_fcu, instant, access. only_steps. Qed.

Lemma instant_get_cached_payload_status h d : instant (get_cached_payload_status h d).
Proof. unfold get_cached_payload_status, instant, access. only_steps. Qed.

Lemma instant_is_recent n : instant (is_recent_payload self n).
Proof. unfold is_recent_payload, highest_cached_payload_number, instant, access. only_steps. Qed.

Lemma instant_register_attributes h pa : instant (register_attributes self h pa).
Proof. unfold register_attributes, instant, access. only_steps. Qed.

Lemma instant_register_canonical p st : instant (register_canonical_payload p st).
Proof. unfold register_canonical_payload, modify, instant, access. only_steps. Qed.

Lemma instant_get_existing_payload_id h pa : instant (get_existing_payload_id h pa).
Proof. unfold get_existing_payload_id, instant, access. only_steps. Qed.

Lemma instant_controller_fcu r : instant (handle_controller_fcu self r).
Proof.
  unfold handle_controller_fcu, controller_fcu_status, modify, access.
  apply only_bind_result; [done|]. intros [id [fcu json]].
  apply only_bind_result; [done|]. intros attrs. apply only_bind_result.
  - apply only_bind; [apply instant_get_cached_fcu|]. intros. only_steps.
  - intros st. apply only_bind_result; [|done]. destruct attrs; [|done].
    apply only_bind; [apply instant_register_attributes|]. intros. only_steps.
Qed.

Lemma instant_controller_new_payload r : instant (handle_controller_new_payload self r).
Proof.
  unfold handle_controller_new_payload, controller_new_payload_status, modify, access.
  apply only_bind_result; [apply only_lift_outcome|]. intros d.
  apply only_bind; [apply only_lift_outcome|]. intros npr.
  apply only_bind_result; [|done].
  apply only_bind; [apply instant_get_cached_payload_status|]. intros [st|]; [done|].
  apply only_bind; [by apply only_trigger|]. intros [st|e]; [|done].
  apply only_bind; [only_steps|]. intros _.
  apply only_bind; [apply instant_register_canonical|done].
Qed.

(** The methods which both endpoints handle alike. *)
Lemma instant_common r :
  is_forkchoice_updated (req_method r) = false → is_new_payload (req_method r) = false →
  instant (process_client_request self r).
Proof.
  intros Hf Hn. unfold process_client_request. rewrite Hf, Hn.
  unfold handle_syncing, handle_chain_id, handle_engine_capabilities, proxy_directly,
    handle_get_payload, get_payload, access, instant.
  only_steps.
Qed.

Lemma instant_controller r : instant (process_controller_request self r).
Proof.
  destruct (is_forkchoice_updated (req_method r)) eqn:Hf.
  { unfold process_controller_request. rewrite Hf. apply instant_controller_fcu. }
  destruct (is_new_payload (req_method r)) eqn:Hn.
  { unfold process_controller_request. rewrite Hf, Hn. apply instant_controller_new_payload. }
  rewrite <- same_dispatch by done. by apply instant_common.
Qed.

(** How long a client's request may wait, in nanoseconds. *)
Definition wait_bound (r : Request) : Z :=
  if is_forkchoice_updated (req_method r) then (fcu_wait_millis (config self) + 50) * 1000000
  else if is_new_payload (req_method r) then
    (new_payload_wait_millis (config self) + 50) * 1000000
  else 0.

Variable env : Env.
Hypothesis no_latency : ∀ t, env_latency env t = 0%Z.
Hypothesis fcu_wait : (0 ≤ fcu_wait_millis (config self))%Z.
Hypothesis new_payload_wait : (0 ≤ new_payload_wait_millis (config self))%Z.

Lemma instant_takes {R} (p : prog R) : instant p → takes env 0 p.
Proof. by apply takes_no_sleep. Qed.

(** A wait followed by steps that take no time. *)
Lemma takes_then_instant {A B} d (p : prog A) (f : A → prog B) :
  takes env d p → (∀ a, instant (f a)) → takes env d (bind p f).
Proof.
  intros Hp Hf. replace d with (d + 0)%Z by lia. apply takes_bind; [done| |lia].
  intros a. by apply instant_takes.
Qed.

Lemma takes_after_instant {A B} d (p : prog A) (f : A → prog B) :
  instant p → (∀ a, takes env d (f a)) → (0 ≤ d)%Z → takes env d (bind p f).
Proof.
  intros Hp Hf Hd. replace d with (0 + d)%Z by lia. by apply takes_bind; [apply instant_takes|..].
Qed.

Lemma handle_fcu_takes r :
  takes env ((fcu_wait_millis (config self) + 50) * 1000000) (handle_fcu self r).
Proof.
  unfold handle_fcu. destruct (parse_as _ r) as [[id [fcu attrs]]|e].
  2: { eapply takes_weaken; [|by apply instant_takes]. lia. }
  rewrite bind_result_Ok. apply takes_then_instant.
  - apply takes_then_instant.
    + apply takes_poll_until; [done..|]. apply instant_takes, instant_get_cached_fcu.
    + intros [st|]; [done|]. apply only_bind; [apply instant_get_cached_fcu|].
      intros. only_steps.
  - intros st. apply only_bind; [|done]. destruct attrs; [|done].
    apply only_bind; [apply instant_get_existing_payload_id|]. intros. only_steps.
Qed.

Lemma handle_new_payload_takes r :
  takes env ((new_payload_wait_millis (config self) + 50) * 1000000)
    (handle_new_payload self r).
Proof.
  unfold handle_new_payload. apply takes_after_instant; [apply only_lift_outcome| |lia].
  intros [d|e].
  2: { eapply takes_weaken; [|by apply instant_takes]. lia. }
  apply takes_after_instant; [apply only_lift_outcome| |lia]. intros npr.
  destruct (verify_payload_block_hash npr).
  2: { eapply takes_weaken; [|by apply instant_takes]. lia. }
  apply takes_then_instant; [|by intros [st|e]].
  apply takes_after_instant; [apply instant_is_recent| |lia]. intros recent.
  apply takes_then_instant.
  - destruct recent; [|eapply takes_weaken; [|by apply instant_takes]; lia].
    apply takes_poll_until; [done..|]. apply instant_takes, instant_get_cached_payload_status.
  - intros [st|]; [done|]. apply only_bind; [apply instant_get_cached_payload_status|].
    intros. only_steps.
Qed.

Lemma process_client_request_takes r : takes env (wait_bound r) (process_client_request self r).
Proof.
  unfold wait_bound. destruct (is_forkchoice_updated (req_method r)) eqn:Hf.
  { unfold process_client_request. rewrite Hf. apply handle_fcu_takes. }
  destruct (is_new_payload (req_method r)) eqn:Hn.
  { unfold process_client_request. rewrite Hf, Hn. apply handle_new_payload_takes. }
  by apply instant_takes, instant_common.
Qed.

Lemma wait_bound_nonneg r : (0 ≤ wait_bound r)%Z.
Proof. unfold wait_bound. repeat case_match; lia. Qed.

Lemma process_client_requests_takes rs acc :
  takes env (foldr Z.add 0%Z (wait_bound <$> rs)) (process_client_requests self rs acc).
Proof.
  revert acc. induction rs as [|r rs IH]; intros acc; simpl.
  { by apply instant_takes. }
  apply takes_bind; [apply process_client_request_takes|intros; apply IH|].
  clear IH. induction rs as [|r' rs IH]; simpl; [done|]. pose proof (wait_bound_nonneg r'). lia.
Qed.
End handlers.

(** * The property *)

Section property.
Context `{ExtOk} `{!NetworkOps} `{JwtOps}.

(** C14: a client waits no longer than configured: as far as its own sleeps go, a forkchoiceUpdated
    is replied to within [fcu_wait_millis] and one polling interval of 50 ms, a newPayload
    within [new_payload_wait_millis] and one interval, a batch within the sum, and every
    other request at once.  The controller never waits. *)
Theorem waits_bounded self env w r rs :
  (∀ t, env_latency env t = 0%Z) →
  (0 ≤ fcu_wait_millis (config self))%Z → (0 ≤ new_payload_wait_millis (config self))%Z →
  let finished {R} (p : prog R) := w_clock (run env p w).2 in
  (w_clock w ≤ finished (process_client_request self r) ≤ w_clock w +
     (if is_forkchoice_updated (req_method r)
      then (fcu_wait_millis (config self) + 50) * 1000000
      else if is_new_payload (req_method r)
      then (new_payload_wait_millis (config self) + 50) * 1000000 else 0))%Z ∧
  (w_clock w ≤ finished (process_client_requests self rs []) ≤
   w_clock w + foldr Z.add 0 (wait_bound self <$> rs))%Z ∧
  finished (process_controller_request self r) = w_clock w.
Proof.
  intros Hlat Hf Hn finished. split_and!.
  - exact (proj1 (process_client_request_takes self env Hlat Hf Hn r w)).
  - exact (proj2 (process_client_request_takes self env Hlat Hf Hn r w)).
  - exact (proj1 (process_client_requests_takes self env Hlat Hf Hn rs [] w)).
  - exact (proj2 (process_client_requests_takes self env Hlat Hf Hn rs [] w)).
  - pose proof (instant_takes env Hlat _ (instant_controller self r) w) as Hc.
    unfold clock_after in Hc. unfold finished. lia.
Qed.
End property.

Section witness.
Import ToyInstances.

Lemma waits_bounded_witness :
  (0 ≤ w_clock (run toy_env (process_client_request toy_statics toy_fcu) toy_world).2
     ≤ (fcu_wait_millis toy_config + 50) * 1000000)%Z.
Proof.
  exact (proj1 (waits_bounded toy_statics toy_env toy_world toy_fcu [] (λ t, eq_refl)
    ltac:(done) ltac:(done))).
Defined.
End witness.
