(* ===== verification/ServerProps.v ===== *)
(** What holds in every state of the server, under every schedule of its requests, every
    answer of the engine and every passage of time. *)
From S2P Require Import Prelude Uint256 BaseFee Lru RecencyList Lighthouse Types Config.
From S2P Require Import Multiplexer Prog Logic Shared PayloadBuilder BuilderSpec Fcu NewPayload.
From S2P Require Import Meta Jwt Main Methods Toy System Deadlock Isolation Invariant Backed.
From S2P Require Import Replies Tracing Calls Received Safety Liveness Spec Typing.
From S2P Require Import BuilderCoherence Ids.

(** * A concrete schedule *)

Section schedules.
Import ToyInstances.

(** The state a schedule leads to; [sys_init] if it cannot be executed. *)
Definition toy_after (ls : list label) : Sys :=
  default (sys_init toy_caches 0) (run_labels toy_state ls (sys_init toy_caches 0)).

Definition executable (ls : list label) : bool :=
  match run_labels toy_state ls (sys_init toy_caches 0) with Some _ => true | None => false end.

Lemma toy_after_nsteps ls :
  executable ls = true →
  nsteps (sys_step toy_state) (length ls) (sys_init toy_caches 0) (toy_after ls).
Proof.
  unfold executable, toy_after. intros Hex.
  destruct (run_labels toy_state ls (sys_init toy_caches 0)) as [s|] eqn:Hrun; [|done].
  by apply run_labels_nsteps.
Qed.

Lemma toy_after_reachable ls :
  executable ls = true → reachable toy_state toy_caches (toy_after ls).
Proof. intros Hex. exists 0%Z. by eapply rtc_nsteps_2, toy_after_nsteps. Qed.

Lemma toy_fresh : fresh toy_caches.
Proof. by split. Qed.

Definition toy_decoded : DecodedPayload :=
  match decode_new_payload toy_statics toy_new_payload with
  | Done (Ok d) => d
  | _ => MkDecodedPayload TNull (JEP_V5 0%Z) None None None
  end.

(** The controller sends block 7 and makes it the head, the engine accepts both; then a
    client asks for the same. *)
Definition toy_schedule : list label :=
  LReceive 0 (toy_controller toy_new_payload) :: turns 0 (AnsNewPayload (Ok Valid)) 10 ++
  LReceive 1 (toy_controller toy_fcu) :: turns 1 (AnsForkchoiceUpdated (Ok Valid)) 13.

Definition toy_schedule_np : list label :=
  toy_schedule ++ LReceive 2 (toy_client toy_new_payload) :: turns 2 NoAnswer 8.
Definition toy_schedule_batch : list label :=
  toy_schedule ++
  LReceive 2 (PostRoot "alpha" (Ok (Requests_Multiple [toy_new_payload; toy_fcu]))) ::
  turns 2 NoAnswer 19.

Definition toy_np_response : Response :=
  MkResponse "2.0" (TNum 1) (TObj [("status", TNum 0)]).
Definition toy_fcu_response : Response :=
  MkResponse "2.0" (TNum 2) (TObj [("status", TNum 0); ("payloadId", TNull)]).

(** The controller asks for a child of block 7, then a client asks for the same. *)
Definition toy_fcu_build : Request :=
  MkRequest "2.0" "engine_forkchoiceUpdatedV2"
    (TArr [TArr [TNum 7006; TNum 5004; TNum 3002]; TObj [("timestamp", TNum 1096)]]) (TNum 2).
Definition toy_schedule_build : list label :=
  LReceive 0 (toy_controller toy_new_payload) :: turns 0 (AnsNewPayload (Ok Valid)) 10 ++
  LReceive 1 (toy_controller toy_fcu_build) :: turns 1 (AnsForkchoiceUpdated (Ok Valid)) 16.
Definition toy_schedule_id : list label :=
  toy_schedule_build ++ LReceive 2 (toy_client toy_fcu_build) :: turns 2 NoAnswer 14.

Definition toy_build_response : Response :=
  MkResponse "2.0" (TNum 2)
    (TObj [("status", TNum 0); ("payloadId", TArr (TNum <$> to_be_bytes 0))]).
End schedules.

(** * Replies are traced to the engine *)

Section traced.
Context `{ExtOk} `{!NetworkOps} `{JwtOps}.
Variable state : AppState.

(** A finished task against its specification. *)
Lemma finished_reply cs s t r x :
  fresh cs → reachable state cs s → sys_tasks s !! t = Some (MkTask r (Ret x)) →
  ∃ k, known_le k (mem_known (sys_mem s)) ∧ route_reply state r (Returned x) k.
Proof.
  intros Hcs Hr Ht. destruct (reachable_sound state cs s Hcs Hr) as [_ Htasks].
  destruct (Htasks _ _ Ht) as (k & Hk & Hwp). by exists k.
Qed.

(** C3: the server refines the abstract multiplexer of Spec.v, in which the engine is called at
    most once for each authorized request, only with what that request asks for and in
    the order of a batch, newPayload and forkchoiceUpdated only for the controller and
    without attributes; a reply answers its request and is traced to the calls so far; only
    the controller's requests may fail; an unauthenticated message causes no call.  Every
    step of the server is matched by steps of the abstract one which leave the same calls,
    requests and replies to be seen. *)
Theorem server_refines_spec cs :
  fresh cs →
  ∃ R : Sys → Spec → Prop,
    (∀ now, R (sys_init cs now) spec_init) ∧
    (∀ s a, R s a → observed s = spec_observed a) ∧
    (∀ s a s', R s a → sys_step state s s' → ∃ a', rtc (spec_step state) a a' ∧ R s' a').
Proof.
  intros Hcs. exists (λ s a, reachable state cs s ∧ simulates state s a). split_and!.
  - intros now. split; [by exists now|]. split; [done|]. apply map_Forall2_empty.
  - intros s a [_ Hs]. by eapply simulates_observed.
  - intros s a s' [Hr Hs] Hstep.
    destruct (spec_simulation state cs Hcs s a s' Hr Hs Hstep) as (a' & Ha & Hs').
    exists a'. split_and!; [done| |done]. destruct Hr as [now Hr]. exists now. by eapply rtc_r.
Qed.

(** C1: a client which is told a status for a payload is told what the execution engine
    answered the controller for the payload of that block hash, or a SYNCING without a
    latest valid hash for a payload with the right versioned hashes; in both cases the
    payload has the block hash it claims.  Clients of all kinds, controllers and the
    engine may run interleaved in any way in between. *)
Theorem client_new_payload_traced cs s t token v r resp :
  fresh cs → reachable state cs s →
  sys_tasks s !! t = Some (MkTask (PostRoot token (Ok (Requests_Single r)))
                             (Ret (ClientReply (Responses_Single (MER_Ok resp))))) →
  verify (client_jwt_collection state) token = Ok v →
  is_forkchoice_updated (req_method r) = false → is_new_payload (req_method r) = true →
  ∃ d npr st, decode_new_payload (multiplexer state) r = Done (Ok d) ∧
    new_payload_request_from_parts (ep_from_json (dec_payload d)) (dec_versioned_hashes d)
      (dec_parent_beacon_block_root d) (dec_execution_requests d) = Done npr ∧
    is_ok (verify_payload_block_hash npr) = true ∧
    Response_new (req_id r) st = Ok resp ∧
    (st = MkJsonPayloadStatusV1 Syncing None None ∧ is_ok (verify_versioned_hashes npr) = true ∨
     ∃ npr' answer,
       (RController, CallNewPayload npr' (Ok answer)) ∈ mem_hist (sys_mem s) ∧
       ep_block_hash (npr_payload npr') = ep_block_hash (ep_from_json (dec_payload d)) ∧
       st = jps_from_status answer).
Proof.
  intros Hcs Hr Ht Hv Hf Hn.
  destruct (finished_reply _ _ _ _ _ Hcs Hr Ht) as (k & [Hk _] & Hreply).
  simpl in Hreply. unfold client_traced in Hreply. rewrite Hv in Hreply.
  destruct Hreply as ([resp'|e] & Heq & _ & Hnp & _); simplify_eq/=.
  destruct (Hnp Hf Hn _ eq_refl) as (d & npr & st & Hd & Hnpr & Hv' & Hst & Hb).
  exists d, npr, st.
  split_and!; [done..|]. destruct Hb as [Hb|Hb]; [by left|right].
  by eapply backed_status_mono.
Qed.

(** C2: a client which is told a status for a forkchoice state is told what the engine
    answered the controller, for the same state (exact matching), for a state with the same
    head (head-only matching), or for one with the same head while VALID answers of the
    engine named its safe and finalized blocks (loose matching); or a SYNCING without a
    latest valid hash.  A payload id in the reply is the one under which the builder has
    stored a payload which it built for the attributes of the request on its head block; and
    as long as the counter of ids has not wrapped around, nothing else is served under it. *)
Theorem client_fcu_traced cs now n s t token v r resp :
  fresh cs → nsteps (sys_step state) n (sys_init cs now) s →
  sys_tasks s !! t = Some (MkTask (PostRoot token (Ok (Requests_Single r)))
                             (Ret (ClientReply (Responses_Single (MER_Ok resp))))) →
  verify (client_jwt_collection state) token = Ok v →
  is_forkchoice_updated (req_method r) = true →
  ∃ fcu attrs st pid,
    parse_as (JsonForkchoiceStateV1 * option JsonPayloadAttributesV2) r =
      Ok (req_id r, (fcu, attrs)) ∧
    Response_new (req_id r) {| payload_status := st; payload_id := pid |} = Ok resp ∧
    (st = MkJsonPayloadStatusV1 Syncing None None ∨
     fcu_matched (multiplexer state) (mem_hist (sys_mem s)) fcu st) ∧
    ∀ i, pid = Some (MkTransparentJsonPayloadId i) →
      ∃ pa, (λ a, pa_from_json (JPA_V2 a)) <$> attrs = Some pa ∧
        issued state cs now n s (head_block_hash fcu, pa) i ∧
        still_means state cs n s (head_block_hash fcu, pa) i.
Proof.
  intros Hcs Hn Ht Hv Hf.
  destruct (seen_reply state cs now n s t _ Hcs Hn Ht) as (k & seen & [Hk _] & Hseen & Hwp).
  destruct (Hwp v resp Hv Hf eq_refl resp eq_refl) as (fcu & attrs & st & pid & Hp & Hst & Hb & Hid).
  exists fcu, attrs, st, pid. split_and!; [done..| |by eapply id_seen_issued].
  destruct Hb as [Hb|Hb]; [by left|right]. by eapply fcu_matched_mono.
Qed.

(** C4: a batch of an authenticated client is answered request by request, in order; every
    newPayload and forkchoiceUpdated among them is traced to the engine's answers to the
    controller, and every relayed method to its answer to a call for it. *)
Theorem client_batch_traced cs s t token v rs out :
  fresh cs → reachable state cs s →
  sys_tasks s !! t = Some (MkTask (PostRoot token (Ok (Requests_Multiple rs)))
                             (Ret (ClientReply (Responses_Multiple out)))) →
  verify (client_jwt_collection state) token = Ok v →
  Forall2 (λ r x, ∃ reply, x = MaybeErrorResponse_from reply ∧
                           client_reply (multiplexer state) r reply (mem_hist (sys_mem s))) rs out.
Proof.
  intros Hcs Hr Ht Hv. destruct (finished_reply _ _ _ _ _ Hcs Hr Ht) as (k & [Hk _] & Hreply).
  simpl in Hreply. unfold client_traced in Hreply. rewrite Hv in Hreply.
  by eapply batch_reply_mono.
Qed.

(** C6: the methods which only relay, on both endpoints: a proxied method is answered with
    what the engine answered to a call of this endpoint with the same method and parameters,
    its result unchanged under the id of the request and its error as a parse error; the
    chain id and the capabilities are those the engine gave, and nobody is told that the
    node is syncing. *)
Theorem relayed_replies_traced cs s t r :
  fresh cs → reachable state cs s →
  (∀ token v x,
     sys_tasks s !! t = Some (MkTask (PostRoot token (Ok (Requests_Single r)))
                                (Ret (ClientReply (Responses_Single x)))) →
     verify (client_jwt_collection state) token = Ok v →
     ∃ reply, x = MaybeErrorResponse_from reply ∧
              relayed RClient r reply (mem_hist (sys_mem s))) ∧
  (∀ token v reply,
     sys_tasks s !! t = Some (MkTask (PostCanonical token (Ok r)) (Ret (ControllerReply reply))) →
     verify_single_token token (controller_jwt state) = Ok v →
     relayed RController r reply (mem_hist (sys_mem s))).
Proof.
  intros Hcs Hr. split.
  - intros token v x Ht Hv. destruct (finished_reply _ _ _ _ _ Hcs Hr Ht) as (k & [Hk _] & Hx).
    simpl in Hx. unfold client_traced in Hx. rewrite Hv in Hx.
    destruct Hx as (reply & -> & _ & _ & Hrel & _). exists reply. split; [done|].
    by eapply relayed_mono.
  - intros token v x Ht Hv. destruct (finished_reply _ _ _ _ _ Hcs Hr Ht) as (k & [Hk _] & Hx).
    simpl in Hx. unfold controller_traced in Hx. rewrite Hv in Hx. destruct Hx as (_ & _ & Hrel & _).
    by eapply relayed_mono.
Qed.

(** C5: what the controller itself is told comes from the engine, too, and never from a
    synthetic status: a newPayload is answered with an answer to a newPayload for the same
    block, a forkchoiceUpdated with an answer for its state or with a definite cached one
    that matches it.  A forkchoiceUpdated which succeeds carries a payload id exactly if it
    has attributes: the id under which the builder has stored a payload which it built for
    them on the head block; and as long as the counter of ids has not wrapped around, nothing
    else is served under it. *)
Theorem controller_replies_traced cs now n s t token v r resp :
  fresh cs → nsteps (sys_step state) n (sys_init cs now) s →
  sys_tasks s !! t = Some (MkTask (PostCanonical token (Ok r)) (Ret (ControllerReply (Ok resp)))) →
  verify_single_token token (controller_jwt state) = Ok v →
  (is_new_payload (req_method r) = true →
   ∃ d npr answer, decode_new_payload (multiplexer state) r = Done (Ok d) ∧
     (RController, CallNewPayload npr (Ok answer)) ∈ mem_hist (sys_mem s) ∧
     ep_block_hash (npr_payload npr) = ep_block_hash (ep_from_json (dec_payload d)) ∧
     Response_new (req_id r) (jps_from_status answer) = Ok resp) ∧
  (is_forkchoice_updated (req_method r) = true →
   ∃ fcu json attrs st pid,
     parse_as (JsonForkchoiceStateV1 * option JsonValue) r = Ok (req_id r, (fcu, json)) ∧
     controller_attributes r json = Ok attrs ∧
     Response_new (req_id r) {| payload_status := st; payload_id := pid |} = Ok resp ∧
     (fcu_matched (multiplexer state) (mem_hist (sys_mem s)) fcu st ∧ is_definite st = true ∨
      backed_fcu (mem_hist (sys_mem s)) fcu st) ∧
     (is_Some attrs ↔ is_Some pid) ∧
     ∀ i, pid = Some (MkTransparentJsonPayloadId i) →
       ∃ pa, pa_from_json <$> attrs = Some pa ∧
         issued state cs now n s (head_block_hash fcu, pa) i ∧
         still_means state cs n s (head_block_hash fcu, pa) i).
Proof.
  intros Hcs Hn Ht Hv. pose proof (nsteps_reachable state _ _ _ _ Hn) as Hr. split.
  - intros Hm. destruct (finished_reply _ _ _ _ _ Hcs Hr Ht) as (k & [Hk _] & Hx).
    simpl in Hx. unfold controller_traced in Hx. rewrite Hv in Hx.
    destruct (controller_reply_mono _ _ _ _ _ Hk Hx) as (_ & Hnp & _).
    destruct (is_forkchoice_updated (req_method r)) eqn:Hf.
    { by rewrite (forkchoice_not_new_payload _ Hf) in Hm. }
    destruct (Hnp eq_refl Hm _ eq_refl) as (d & st & Hd & Hresp & npr & answer & Hin & Hbh & ->).
    by exists d, npr, answer.
  - intros Hf. destruct (seen_reply state cs now n s t _ Hcs Hn Ht)
      as (k & seen & [Hk _] & Hseen & Hwp).
    destruct (proj1 (Hwp v Hv Hf) resp eq_refl)
      as (fcu & json & attrs & st & pid & Hp & Ha & Hresp & Hst & Hsome & Hid).
    exists fcu, json, attrs, st, pid. split_and!; [done..| |done|by eapply id_seen_issued].
    destruct Hst as [[? ?]|?]; [left; split; [by eapply fcu_matched_mono|done]|right].
    by eapply backed_fcu_mono.
Qed.

(** C7: in every reachable state every entry of the caches is an answer the engine gave to the
    controller for that very key: a payload status and a number for its block hash, a forkchoice status
    for its state, and a justified (finalized) block was the safe (finalized) block of a
    forkchoice state the engine called VALID.  The payload builder extends only blocks whose
    payload the engine answered the controller with a status other than INVALID and
    INVALID_BLOCK_HASH, what it knows of such a block is what that payload says, and it
    holds only ids and payloads made for such blocks. *)
Theorem caches_traced cs s :
  fresh cs → reachable state cs s →
  let c := mem_caches (sys_mem s) in
  let b := payload_builder c in
  let h := mem_hist (sys_mem s) in
  (∀ bh e, lru_peek bh (new_payload_cache c) = Some e → backed_entry h bh e) ∧
  (∀ fcu st, lru_peek fcu (fcu_cache c) = Some st → backed_fcu h fcu st) ∧
  (∀ bh, lru_contains bh (justified_block_cache c) = true → valid_fcu_with h safe_block_hash bh) ∧
  (∀ bh, lru_contains bh (finalized_block_cache c) = true →
         valid_fcu_with h finalized_block_hash bh) ∧
  (∀ bh info, lru_peek bh (payload_info b) = Some info → backed_info h bh info) ∧
  (∀ key i, lru_peek key (payload_attributes b) = Some i →
     ∃ extra p, built_for (multiplexer state) (backed_info h) extra key p) ∧
  (∀ i p, lru_peek i (payloads b) = Some p →
     ∃ extra key, built_for (multiplexer state) (backed_info h) extra key p).
Proof.
  intros Hcs Hr. destruct (reachable_sound state cs s Hcs Hr) as [HI _]. split_and!.
  - apply (inv_new_payload _ _ _ HI).
  - apply (inv_fcu _ _ _ HI).
  - intros bh Hc%contains_peek. by apply (inv_justified _ _ _ HI).
  - intros bh Hc%contains_peek. by apply (inv_finalized _ _ _ HI).
  - apply (inv_payload_info _ _ _ HI).
  - apply (inv_attributes _ _ _ HI).
  - apply (inv_payloads _ _ _ HI).
Qed.

(** C12: every request comes to an end.  However the requests at hand are scheduled, whatever
    the engine answers and whichever connections are lost, the server performs only finitely
    many further events for them; and it can always go on, the engine answering anything,
    until every one of them has its reply or has panicked. *)
Theorem requests_finish cs s (eng : ∀ A, ev A → Answer) :
  fresh cs → reachable state cs s → (∀ A (e : ev A), some_answer e (eng A e)) →
  Acc (λ s2 s1, performs state s1 s2) s ∧
  ∃ ls s', Forall (going_on eng) ls ∧ run_labels state ls s = Some s' ∧
    ∀ t task, sys_tasks s !! t = Some task →
      ∃ p, sys_tasks s' !! t = Some (MkTask (task_request task) p) ∧
           ((∃ x, p = Ret x) ∨ ∃ m, p = Panic m).
Proof.
  intros Hcs Hr Heng. split; [apply performs_Acc|].
  destruct (reachable_finishes state cs eng s Heng Hr) as (ls & s' & Hls & Hrun & Hfin).
  exists ls, s'. split; [done|]. split; [done|]. intros t task Ht.
  destruct (Hfin t task Ht) as (p & Hp & Hdone). exists p. split; [done|].
  assert (Hr' : reachable state cs s').
  { destruct Hr as [now Hr]. exists now. etrans; [exact Hr|].
    eapply rtc_nsteps_2, run_labels_nsteps, Hrun. }
  destruct (reachable_sound state cs s' Hcs Hr') as [_ Htasks].
  destruct (Htasks _ _ Hp) as (k & _ & Hwp). destruct p; simpl in *; try done; eauto.
Qed.

(** C13: no polling loop of a request ever spends its bound on the number of rounds: the
    deadline ends it first, whatever the clock and the other requests do. *)
Theorem polling_ends_by_deadline cs s t task :
  fresh cs → reachable state cs s → sys_tasks s !! t = Some task → task_prog task ≠ OutOfFuel.
Proof.
  intros Hcs Hr Ht Hp. destruct (reachable_sound state cs s Hcs Hr) as [_ Htasks].
  destruct (Htasks _ _ Ht) as (k & _ & Hwp). by rewrite Hp in Hwp.
Qed.

(** C8: a handler panics only when the controller asks for a payload on a block which cannot
    have a child: a client's request never panics, nor does the controller's newPayload,
    whatever is sent and answered.  A forkchoiceUpdated with attributes does only if the
    engine answered a newPayload for its head block with a status other than INVALID and
    INVALID_BLOCK_HASH, and that payload used gas although its gas limit is below 2; or, if
    overflow is checked, its number is the largest one, or all payload ids are used up. *)
Theorem panics_only_on_build `{!SerdeTyped} cs now n s t task m :
  fresh cs → nsteps (sys_step state) n (sys_init cs now) s →
  sys_tasks s !! t = Some task → task_prog task = Panic m →
  ∃ token v r fcu json a npr answer,
    task_request task = PostCanonical token (Ok r) ∧
    verify_single_token token (controller_jwt state) = Ok v ∧
    is_forkchoice_updated (req_method r) = true ∧
    parse_as (JsonForkchoiceStateV1 * option JsonValue) r = Ok (req_id r, (fcu, json)) ∧
    controller_attributes r json = Ok (Some a) ∧
    (RController, CallNewPayload npr (Ok answer)) ∈ mem_hist (sys_mem s) ∧
    ep_block_hash (npr_payload npr) = head_block_hash fcu ∧
    status (jps_from_status answer) ≠ Invalid ∧
    status (jps_from_status answer) ≠ InvalidBlockHash ∧
    ((ep_gas_limit (npr_payload npr) < 2 ∧ 0 < ep_gas_used (npr_payload npr))%Z ∨
     overflow_checks = true ∧
     (ep_block_number (npr_payload npr) = 2 ^ 64 - 1 ∨
      2 ^ 64 - 1 ≤ next_payload_id (payload_builder (mem_caches (sys_mem s))))%Z).
Proof.
  intros Hcs Hn Ht Hp. pose proof (nsteps_reachable state _ _ _ _ Hn) as Hr.
  destruct (reachable_sound state cs s Hcs Hr) as [_ Htasks].
  destruct (Htasks _ _ Ht) as (k & _ & Hwp). rewrite Hp in Hwp. simpl in Hwp.
  destruct task as [[token body|token body|] p]; simpl in *; [done| |done].
  destruct (verify_single_token _ _) as [v|e] eqn:Hv; [|done]. destruct body as [r|e]; [|done].
  destruct Hwp as (Hm & _). subst p.
  destruct (panic_traced state cs now n s t token v r m Hcs Hn Ht Hv Hm)
    as (fcu & json & a & info & Hparse & Ha & Hinfo & Hwhy).
  destruct Hinfo as (npr & answer & Hin & Hbh & -> & Hi1 & Hi2).
  exists token, v, r, fcu, json, a, npr, answer. split_and!; try done.
  destruct (sent_payload_u64 state cs s _ _ _ Hcs Hr Hin) as (Hnum & Hu & Hl).
  destruct Hwhy as [[Hc Hmax]|Hfee]; [right|left].
  - split; [done|]. unfold is_u64, two64 in *. destruct Hmax; [left|right]; simpl in *; lia.
  - by apply (expected_base_fee_panics_iff (ep_base_fee_per_gas (npr_payload npr)) _ _ Hu Hl).
Qed.

(** C9: every call the engine receives is paid for by a request the server has let through,
    each by one of its own: newPayload and forkchoiceUpdated by a request of the controller,
    with the decoded payload and the state of that request and never with payload
    attributes; the chain id, the capabilities and the proxied methods by a request on the
    same endpoint, with its method and parameters.  So the engine never gets more calls than
    there were requests, and none for a client's newPayload or forkchoiceUpdated. *)
Theorem engine_calls_allowed cs now ls s :
  run_labels state ls (sys_init cs now) = Some s →
  ∃ asked : list (Role * Request), asked ⊆+ received state ls ∧
    Forall2 (λ '(role, c) '(role', r),
      role' = role ∧
      match c with
      | CallNewPayload npr _ =>
        role = RController ∧ is_new_payload (req_method r) = true ∧
        ∃ d, decode_new_payload (multiplexer state) r = Done (Ok d) ∧
          new_payload_request_from_parts (ep_from_json (dec_payload d)) (dec_versioned_hashes d)
            (dec_parent_beacon_block_root d) (dec_execution_requests d) = Done npr
      | CallForkchoiceUpdated st attrs _ =>
        role = RController ∧ is_forkchoice_updated (req_method r) = true ∧ attrs = None ∧
        ∃ fcu json, parse_as (JsonForkchoiceStateV1 * option JsonValue) r =
                      Ok (req_id r, (fcu, json)) ∧ st = ForkchoiceState_from fcu
      | CallRpcRequest method params _ =>
        is_proxied (req_method r) = true ∧ method = req_method r ∧ params = req_params r
      | CallChainId _ => req_method r = "eth_chainId"
      | CallCapabilities _ => req_method r = ENGINE_EXCHANGE_CAPABILITIES
      end) (mem_hist (sys_mem s)) asked.
Proof.
  intros Hrun. destruct (paid_schedule state cs now ls s Hrun) as (asked & Hmade & Hsub).
  exists asked. split; [done|]. eapply Forall2_impl; [exact Hmade|].
  intros [role c] [role' r] [Hrole Hcall]. by split.
Qed.

(** C10: a step of a client's request leaves the content of every cache as it is, and calls
    the engine for nothing but its chain id, its capabilities and the proxied methods. *)
Theorem client_steps_read_only cs s t task ans s' :
  reachable state cs s → sys_tasks s !! t = Some task →
  role_of (task_request task) = RClient → apply_label state (LRun t ans) s = Some s' →
  caches_same (mem_caches (sys_mem s')) (mem_caches (sys_mem s)) ∧
  (mem_hist (sys_mem s') = mem_hist (sys_mem s) ∨
   ∃ c, mem_hist (sys_mem s') = (RClient, c) :: mem_hist (sys_mem s) ∧ client_call c).
Proof.
  intros Hr Ht Hrole Hl. pose proof (reachable_tasks_always _ _ _ Hr _ _ Ht) as Hal.
  simpl in Hl. rewrite Ht in Hl. simpl in Hl.
  apply bind_Some in Hl as ([p m] & Hp & [= <-]). simpl. rewrite Hrole in *.
  destruct (task_prog task) as [x|msg| |X e k]; simpl in Hp; simplify_eq.
  - split; [done|by left].
  - apply bind_Some in Hp as ([a m'] & He & [= <- <-]).
    destruct Hal as [Hev _]. by eapply client_ev_read_only.
Qed.

(** C11: no deadlock.  A request which has not finished performs its next event as soon as
    its sleep is over and the engine has answered it; or it waits for a mutex, and then the
    holder of some mutex can step at once, without the engine and without time passing. *)
Theorem no_deadlock cs s t task A (e : ev A) k ans :
  reachable state cs s → sys_tasks s !! t = Some task → task_prog task = Vis e k →
  some_answer e ans →
  (∃ d s', (0 ≤ d)%Z ∧ run_labels state [LTick d; LRun t ans] s = Some s') ∨
  (∃ m t1, waits_for e = Some m ∧ held_by s m t1) ∧
  (∃ m' t' s', held_by s m' t' ∧ apply_label state (LRun t' NoAnswer) s = Some s').
Proof.
  intros Hr Ht Hp Hans.
  destruct (task_runs_or_waits state _ _ _ _ _ _ _ (reachable_locks_ok _ _ _ Hr) Ht Hp Hans)
    as [Hrun|(m & t1 & Hw & Hheld)]; [by left|right].
  split; [by exists m, t1|]. by eapply holder_can_run.
Qed.

(** C21: a reply answers its request.  A client gets one reply to a single request, and to a
    batch one reply for each of its requests in order; the controller gets one to its
    request.  Each carries the protocol version and the id of the request it answers.  A
    refused token or body gets one parse error with id 0 on both endpoints. *)
Theorem replies_answer cs s t r x :
  reachable state cs s → sys_tasks s !! t = Some (MkTask r (Ret x)) →
  match r with
  | PostRoot token body =>
    ∃ out, x = ClientReply out ∧
      match (if is_ok (verify (client_jwt_collection state) token) then body
             else Err "unauthenticated"), out with
      | Ok (Requests_Single r), Responses_Single x =>
        ∃ reply, x = MaybeErrorResponse_from reply ∧ answers (req_id r) reply
      | Ok (Requests_Multiple rs), Responses_Multiple out =>
        Forall2 (λ r x, ∃ reply, x = MaybeErrorResponse_from reply ∧ answers (req_id r) reply)
          rs out
      | Err _, Responses_Single (MER_Err e) =>
        answers (json_number 0) (Err e) ∧ code (err_error e) = ParseError
      | _, _ => False
      end
  | PostCanonical token body =>
    ∃ out, x = ControllerReply out ∧
      match (if is_ok (verify_single_token token (controller_jwt state)) then body
             else Err "unauthenticated"), out with
      | Ok r, _ => answers (req_id r) out
      | Err _, Err e => answers (json_number 0) (Err e) ∧ code (err_error e) = ParseError
      | Err _, Ok _ => False
      end
  | GetHealth => x = StatusOk
  end.
Proof.
  intros Hr Ht. pose proof (reachable_tasks_always _ _ _ Hr _ _ Ht) as Hal. simpl in Hal.
  unfold always in Hal. simpl in Hal.
  destruct r as [token body|token body|], x as [out|out|]; try done; exists out.
  - by split.
  - simpl in Hal. split; [done|]. unfold controller_reply_ok in Hal. by destruct (is_ok _), body, out.
Qed.
End traced.

(** * The properties on the concrete schedules *)

Section witnesses.
Import ToyInstances.

Lemma server_refines_spec_witness :
  ∃ R : Sys → Spec → Prop,
    (∀ now, R (sys_init toy_caches now) spec_init) ∧
    (∀ s a, R s a → observed s = spec_observed a) ∧
    (∀ s a s', R s a → sys_step toy_state s s' → ∃ a', rtc (spec_step toy_state) a a' ∧ R s' a').
Proof. exact (server_refines_spec toy_state toy_caches toy_fresh). Defined.

Lemma client_new_payload_traced_witness :
  ∃ d npr st, decode_new_payload toy_statics toy_new_payload = Done (Ok d) ∧
    new_payload_request_from_parts (ep_from_json (dec_payload d)) (dec_versioned_hashes d)
      (dec_parent_beacon_block_root d) (dec_execution_requests d) = Done npr ∧
    is_ok (verify_payload_block_hash npr) = true ∧
    Response_new (T := JsonPayloadStatusV1) (TNum 1) st = Ok toy_np_response ∧
    (st = MkJsonPayloadStatusV1 Syncing None None ∧ is_ok (verify_versioned_hashes npr) = true ∨
     ∃ npr' answer,
       (RController, CallNewPayload npr' (Ok answer))
         ∈ mem_hist (sys_mem (toy_after toy_schedule_np)) ∧
       ep_block_hash (npr_payload npr') = ep_block_hash (ep_from_json (dec_payload d)) ∧
       st = jps_from_status answer).
Proof.
  apply (client_new_payload_traced toy_state toy_caches (toy_after toy_schedule_np) 2
           "alice:alpha" (Some "alice", "alpha") toy_new_payload toy_np_response).
  - exact toy_fresh.
  - apply toy_after_reachable. computes.
  - computes.
  - computes.
  - computes.
  - computes.
Defined.

Lemma client_fcu_traced_witness :
  ∃ fcu attrs st pid,
    parse_as (JsonForkchoiceStateV1 * option JsonPayloadAttributesV2) toy_fcu_build =
      Ok (TNum 2, (fcu, attrs)) ∧
    Response_new (T := JsonForkchoiceUpdatedV1Response) (TNum 2)
      {| payload_status := st; payload_id := pid |} = Ok toy_build_response ∧
    (st = MkJsonPayloadStatusV1 Syncing None None ∨
     fcu_matched toy_statics (mem_hist (sys_mem (toy_after toy_schedule_id))) fcu st) ∧
    ∀ i, pid = Some (MkTransparentJsonPayloadId i) →
      ∃ pa, (λ a, pa_from_json (JPA_V2 a)) <$> attrs = Some pa ∧
        issued toy_state toy_caches 0 (length toy_schedule_id) (toy_after toy_schedule_id)
          (head_block_hash fcu, pa) i ∧
        still_means toy_state toy_caches (length toy_schedule_id) (toy_after toy_schedule_id)
          (head_block_hash fcu, pa) i.
Proof.
  apply (client_fcu_traced toy_state toy_caches 0 (length toy_schedule_id)
           (toy_after toy_schedule_id) 2
           "alice:alpha" (Some "alice", "alpha") toy_fcu_build toy_build_response).
  - exact toy_fresh.
  - apply toy_after_nsteps. computes.
  - computes.
  - computes.
  - computes.
Defined.

Lemma client_batch_traced_witness :
  Forall2 (λ r x, ∃ reply, x = MaybeErrorResponse_from reply ∧
             client_reply toy_statics r reply
               (mem_hist (sys_mem (toy_after toy_schedule_batch))))
    [toy_new_payload; toy_fcu] [MER_Ok toy_np_response; MER_Ok toy_fcu_response].
Proof.
  apply (client_batch_traced toy_state toy_caches (toy_after toy_schedule_batch) 2
           "alpha" (None, "alpha")).
  - exact toy_fresh.
  - apply toy_after_reachable. computes.
  - computes.
  - computes.
Defined.

(** A client asks for the block number, and the engine answers 7. *)
Definition toy_block_number : Request := MkRequest "2.0" "eth_blockNumber" (TArr []) (TNum 5).
Definition toy_schedule_proxied : list label :=
  [LReceive 0 (toy_client toy_block_number); LRun 0 (AnsRpcRequest (Ok (TNum 7)))].

Lemma relayed_replies_traced_witness :
  ∃ reply, MER_Ok (MkResponse "2.0" (TNum 5) (TNum 7)) = MaybeErrorResponse_from reply ∧
    relayed RClient toy_block_number reply
      [(RClient, CallRpcRequest "eth_blockNumber" (TArr []) (Ok (TNum 7)))].
Proof.
  assert (Hr : reachable toy_state toy_caches (toy_after toy_schedule_proxied))
    by (apply toy_after_reachable; computes).
  refine (proj1 (relayed_replies_traced toy_state toy_caches (toy_after toy_schedule_proxied) 0
    toy_block_number toy_fresh Hr) "alice:alpha" (Some "alice", "alpha") _ _ _); computes.
Defined.

Lemma caches_traced_witness :
  lru_contains 5004%Z (justified_block_cache (mem_caches (sys_mem (toy_after toy_schedule)))) =
    true ∧
  valid_fcu_with (mem_hist (sys_mem (toy_after toy_schedule))) safe_block_hash 5004%Z.
Proof.
  assert (Hc : lru_contains 5004%Z
    (justified_block_cache (mem_caches (sys_mem (toy_after toy_schedule)))) = true) by computes.
  assert (Hr : reachable toy_state toy_caches (toy_after toy_schedule))
    by (apply toy_after_reachable; computes).
  split; [exact Hc|].
  destruct (caches_traced toy_state toy_caches (toy_after toy_schedule) toy_fresh Hr)
    as (_ & _ & Hj & _).
  exact (Hj 5004%Z Hc).
Defined.

Lemma controller_replies_traced_witness :
  ∃ fcu json attrs st pid,
    parse_as (JsonForkchoiceStateV1 * option JsonValue) toy_fcu_build =
      Ok (TNum 2, (fcu, json)) ∧
    controller_attributes toy_fcu_build json = Ok attrs ∧
    Response_new (T := JsonForkchoiceUpdatedV1Response) (TNum 2)
      {| payload_status := st; payload_id := pid |} = Ok toy_build_response ∧
    (fcu_matched toy_statics (mem_hist (sys_mem (toy_after toy_schedule_build))) fcu st ∧
       is_definite st = true ∨
     backed_fcu (mem_hist (sys_mem (toy_after toy_schedule_build))) fcu st) ∧
    (is_Some attrs ↔ is_Some pid) ∧
    ∀ i, pid = Some (MkTransparentJsonPayloadId i) →
      ∃ pa, pa_from_json <$> attrs = Some pa ∧
        issued toy_state toy_caches 0 (length toy_schedule_build) (toy_after toy_schedule_build)
          (head_block_hash fcu, pa) i ∧
        still_means toy_state toy_caches (length toy_schedule_build)
          (toy_after toy_schedule_build) (head_block_hash fcu, pa) i.
Proof.
  refine (proj2 (controller_replies_traced toy_state toy_caches 0 (length toy_schedule_build)
    (toy_after toy_schedule_build) 1 "controller" (None, "controller") toy_fcu_build
    toy_build_response toy_fresh _ _ _) eq_refl).
  - apply toy_after_nsteps. computes.
  - computes.
  - computes.
Defined.

(** A client polls for block 7 until its deadline while nothing happens. *)
Definition toy_schedule_poll : list label :=
  [LReceive 0 (toy_client toy_fcu); LRun 0 NoAnswer; LRun 0 NoAnswer; LRun 0 NoAnswer;
   LRun 0 NoAnswer; LRun 0 NoAnswer; LRun 0 NoAnswer; LTick 2000000000; LRun 0 NoAnswer;
   LRun 0 NoAnswer; LRun 0 NoAnswer; LRun 0 NoAnswer; LRun 0 NoAnswer].

Definition toy_syncing_response : Response :=
  MkResponse "2.0" (TNum 2) (TObj [("status", TNum 4); ("payloadId", TNull)]).

Definition toy_polled : Task :=
  MkTask (toy_client toy_fcu) (Ret (ClientReply (Responses_Single (MER_Ok toy_syncing_response)))).

(** An engine which answers everything with an error. *)
Definition toy_offline (A : Type) (e : ev A) : Answer :=
  match e with
  | ENewPayload _ => AnsNewPayload (Err "offline")
  | EForkchoiceUpdated _ _ => AnsForkchoiceUpdated (Err "offline")
  | EChainId _ => AnsChainId (Err "offline")
  | ECapabilities _ => AnsCapabilities (Err "offline")
  | ERpcRequest _ _ _ => AnsRpcRequest (Err "offline")
  | _ => NoAnswer
  end.

Lemma requests_finish_witness :
  let s := toy_after [LReceive 0 (toy_client toy_fcu); LReceive 1 (toy_controller toy_fcu)] in
  ∃ ls s', Forall (going_on toy_offline) ls ∧ run_labels toy_state ls s = Some s' ∧
    ∃ p, sys_tasks s' !! 0 = Some (MkTask (toy_client toy_fcu) p) ∧
         ((∃ x, p = Ret x) ∨ ∃ m, p = Panic m).
Proof.
  intros s.
  assert (Hr : reachable toy_state toy_caches s) by (apply toy_after_reachable; computes).
  destruct (requests_finish toy_state toy_caches s toy_offline toy_fresh Hr)
    as (_ & ls & s' & Hls & Hrun & Hfin); [by intros A []|].
  exists ls, s'. split; [exact Hls|]. split; [exact Hrun|].
  exact (Hfin 0 (MkTask (toy_client toy_fcu) (route toy_state (toy_client toy_fcu)))
           ltac:(reflexivity)).
Defined.

Lemma polling_ends_by_deadline_witness : task_prog toy_polled ≠ OutOfFuel.
Proof.
  apply (polling_ends_by_deadline toy_state toy_caches (toy_after toy_schedule_poll) 0).
  - exact toy_fresh.
  - apply toy_after_reachable. computes.
  - computes.
Defined.

(** The controller sends a block without a gas limit, then asks for its child. *)
Definition toy_no_gas : Request :=
  MkRequest "2.0" "engine_newPayloadV2"
    (TArr [TObj [("hash", TNum 7006); ("parent", TNum 6); ("number", TNum 7);
                 ("timestamp", TNum 1084); ("gasLimit", TNum 0)]]) (TNum 1).
Definition toy_schedule_panic : list label :=
  LReceive 0 (toy_controller toy_no_gas) :: turns 0 (AnsNewPayload (Ok Valid)) 10 ++
  LReceive 1 (toy_controller toy_fcu_build) :: turns 1 (AnsForkchoiceUpdated (Ok Valid)) 15.

Definition toy_panicked : Task :=
  MkTask (toy_controller toy_fcu_build) (Panic "attempt to divide by zero").

Lemma panics_only_on_build_witness :
  ∃ token v r fcu json a npr answer,
    task_request toy_panicked = PostCanonical token (Ok r) ∧
    verify_single_token token (controller_jwt toy_state) = Ok v ∧
    is_forkchoice_updated (req_method r) = true ∧
    parse_as (JsonForkchoiceStateV1 * option JsonValue) r = Ok (req_id r, (fcu, json)) ∧
    controller_attributes r json = Ok (Some a) ∧
    (RController, CallNewPayload npr (Ok answer))
      ∈ mem_hist (sys_mem (toy_after toy_schedule_panic)) ∧
    ep_block_hash (npr_payload npr) = head_block_hash fcu ∧
    status (jps_from_status answer) ≠ Invalid ∧
    status (jps_from_status answer) ≠ InvalidBlockHash ∧
    ((ep_gas_limit (npr_payload npr) < 2 ∧ 0 < ep_gas_used (npr_payload npr))%Z ∨
     overflow_checks = true ∧
     (ep_block_number (npr_payload npr) = 2 ^ 64 - 1 ∨
      2 ^ 64 - 1 ≤ next_payload_id (payload_builder
        (mem_caches (sys_mem (toy_after toy_schedule_panic)))))%Z).
Proof.
  apply (panics_only_on_build toy_state toy_caches 0 (length toy_schedule_panic)
           (toy_after toy_schedule_panic) 1 toy_panicked "attempt to divide by zero").
  - exact toy_fresh.
  - apply toy_after_nsteps. computes.
  - computes.
  - reflexivity.
Defined.

(** The two calls of the engine in [toy_schedule] are paid for by the two requests. *)
Lemma engine_calls_allowed_witness :
  ∃ asked, asked ⊆+ [(RController, toy_new_payload); (RController, toy_fcu)] ∧
    length asked = 2.
Proof.
  assert (Hrun : executable toy_schedule = true) by computes.
  unfold executable in Hrun.
  destruct (run_labels toy_state toy_schedule (sys_init toy_caches 0)) as [s|] eqn:Hs;
    [|discriminate].
  destruct (engine_calls_allowed toy_state toy_caches 0 toy_schedule s Hs)
    as (asked & Hsub & Hcalls).
  exists asked. split.
  - assert (Hrec : received toy_state toy_schedule =
      [(RController, toy_new_payload); (RController, toy_fcu)]) by reflexivity.
    by rewrite Hrec in Hsub.
  - apply Forall2_length in Hcalls. etrans; [symmetry; exact Hcalls|].
    assert (Hlen : length (mem_hist (sys_mem (toy_after toy_schedule))) = 2) by computes.
    unfold toy_after in Hlen. by rewrite Hs in Hlen.
Defined.

Definition toy_before_read : Sys :=
  toy_after (toy_schedule ++ LReceive 2 (toy_client toy_new_payload) :: turns 2 NoAnswer 1).

(** The client reads the newPayload cache. *)
Lemma client_steps_read_only_witness :
  ∃ s', apply_label toy_state (LRun 2 NoAnswer) toy_before_read = Some s' ∧
    caches_same (mem_caches (sys_mem s')) (mem_caches (sys_mem toy_before_read)) ∧
    (mem_hist (sys_mem s') = mem_hist (sys_mem toy_before_read) ∨
     ∃ c, mem_hist (sys_mem s') = (RClient, c) :: mem_hist (sys_mem toy_before_read) ∧
          client_call c).
Proof.
  assert (Hr : reachable toy_state toy_caches toy_before_read)
    by (apply toy_after_reachable; computes).
  destruct (sys_tasks toy_before_read !! 2) as [task|] eqn:Ht.
  2: { assert (Hn : match sys_tasks toy_before_read !! 2 with Some _ => true | None => false end
         = true) by computes.
       rewrite Ht in Hn. discriminate. }
  destruct (apply_label toy_state (LRun 2 NoAnswer) toy_before_read) as [s'|] eqn:Hs.
  2: { assert (Hn : match apply_label toy_state (LRun 2 NoAnswer) toy_before_read with
         | Some _ => true | None => false end = true) by computes.
       rewrite Hs in Hn. discriminate. }
  exists s'. split; [reflexivity|].
  assert (Hrole : match sys_tasks toy_before_read !! 2 with
    | Some task => role_of (task_request task) | None => RController end = RClient) by computes.
  rewrite Ht in Hrole.
  exact (client_steps_read_only toy_state toy_caches toy_before_read 2 task NoAnswer s'
           Hr Ht Hrole Hs).
Defined.

Lemma no_deadlock_witness :
  ∃ A (e : ev A) ans, some_answer e ans ∧
    ((∃ d s', (0 ≤ d)%Z ∧ run_labels toy_state [LTick d; LRun 0 ans]
                (toy_after [LReceive 0 (toy_client toy_chain_id)]) = Some s') ∨
     (∃ m t1, waits_for e = Some m ∧
        held_by (toy_after [LReceive 0 (toy_client toy_chain_id)]) m t1) ∧
     (∃ m' t' s', held_by (toy_after [LReceive 0 (toy_client toy_chain_id)]) m' t' ∧
        apply_label toy_state (LRun t' NoAnswer)
          (toy_after [LReceive 0 (toy_client toy_chain_id)]) = Some s')).
Proof.
  eexists _, (EChainId (H := toy_ext) (secs 1)), (AnsChainId (H := toy_ext) (Ok 1%Z)).
  split; [exact I|].
  eapply (no_deadlock toy_state toy_caches (toy_after [LReceive 0 (toy_client toy_chain_id)]) 0
            (MkTask (toy_client toy_chain_id) (route toy_state (toy_client toy_chain_id)))).
  - apply toy_after_reachable. computes.
  - reflexivity.
  - cbn [task_prog]. reflexivity.
  - exact I.
Defined.

Lemma replies_answer_witness :
  (∃ out, ClientReply (Responses_Single (MER_Ok toy_syncing_response)) = ClientReply out ∧
     match out with
     | Responses_Single x =>
       ∃ reply, x = MaybeErrorResponse_from reply ∧ answers (TNum 2) reply
     | _ => False
     end) ∧
  (∃ out, ControllerReply (Ok toy_np_response) = ControllerReply out ∧ answers (TNum 1) out).
Proof.
  assert (Hpoll : reachable toy_state toy_caches (toy_after toy_schedule_poll))
    by (apply toy_after_reachable; computes).
  assert (Hr : reachable toy_state toy_caches (toy_after toy_schedule))
    by (apply toy_after_reachable; computes).
  split.
  - refine (replies_answer toy_state toy_caches (toy_after toy_schedule_poll) 0
              (toy_client toy_fcu) _ Hpoll _). computes.
  - refine (replies_answer toy_state toy_caches (toy_after toy_schedule) 0
              (toy_controller toy_new_payload) _ Hr _). computes.
Defined.
End witnesses.
