(* ===== verification/AloneSpecs.v ===== *)
(** The status part of every handler, run alone: what it returns, what it stores and which
    calls it makes, as rules of the logic of Alone.v. *)
From S2P Require Import Prelude Uint256 BaseFee Lru Lighthouse Types Config.
From S2P Require Import Multiplexer Prog Logic Shared PayloadBuilder BuilderSpec Fcu NewPayload.
From S2P Require Import Alone Meta Jwt Main Isolation Invariant Backed Replies Tracing.

(** * One request at a time *)

Section alone.
Context `{ExtOk} `{!NetworkOps}.
Variable self : Statics.
Variable env : Env.

(** The engine is asked: one more call in the history. *)
Lemma alone_new_payload r w (Q : exit (result PayloadStatusV1 EngineError) → World → Prop) :
  (∀ w', w_caches w' = w_caches w →
     w_calls w' = CallNewPayload r (env_new_payload env (w_calls w) r) :: w_calls w →
     Q (Returned (env_new_payload env (w_calls w) r)) w') →
  wp (alone env) (trigger (ENewPayload r)) w Q.
Proof. intros HQ. by apply HQ. Qed.

Lemma alone_forkchoice_updated s attrs w
    (Q : exit (result ForkchoiceUpdatedResponse EngineError) → World → Prop) :
  (∀ w', w_caches w' = w_caches w →
     w_calls w' =
       CallForkchoiceUpdated s attrs (env_forkchoice_updated env (w_calls w) s attrs) :: w_calls w →
     Q (Returned (env_forkchoice_updated env (w_calls w) s attrs)) w') →
  wp (alone env) (trigger (EForkchoiceUpdated s attrs)) w Q.
Proof. intros HQ. by apply HQ. Qed.

Lemma alone_modify m (f : guarded m → guarded m) w (Q : exit unit → World → Prop) :
  (∀ w', w_caches w' = set_guarded m (f (get_guarded m (w_caches w))) (w_caches w) →
     w_calls w' = w_calls w → Q (Returned tt) w') →
  wp (alone env) (with_lock m (modify m f)) w Q.
Proof. intros HQ. apply alone_locked. intros w' (Hc & Hk & _). by apply HQ. Qed.

(** ** The controller's forkchoiceUpdated *)

(** The caches once the engine has answered [st] for [fcu]. *)
Definition store_fcu (fcu : JsonForkchoiceStateV1) (st : JsonPayloadStatusV1) (cs : Caches) :
    Caches :=
  let r := update_fcu_cache fcu st (fcu_cache cs) in
  let cs := set_guarded MFcu r.2 cs in
  if r.1 && bool_decide (status st = Valid) then
    let cs := set_guarded MJustified
                (lru_put (safe_block_hash fcu) tt (justified_block_cache cs)) cs in
    set_guarded MFinalized (lru_put (finalized_block_hash fcu) tt (finalized_block_cache cs)) cs
  else cs.

Lemma alone_controller_fcu_status id fcu w
    (Q : exit (result JsonPayloadStatusV1 ErrorResponse) → World → Prop) :
  (∀ w', let r := cached_fcu self fcu true (w_caches w) in
     match r.1 with
     | Some st => w_caches w' = r.2 → w_calls w' = w_calls w → Q (Returned (Ok st)) w'
     | None =>
       let s := ForkchoiceState_from fcu in
       let ans := env_forkchoice_updated env (w_calls w) s None in
       w_calls w' = CallForkchoiceUpdated s None ans :: w_calls w →
       match ans with
       | Ok resp =>
         let st := payload_status (jfcu_from_response resp) in
         w_caches w' = store_fcu fcu st r.2 → Q (Returned (Ok st)) w'
       | Err _ =>
         w_caches w' = r.2 →
         Q (Returned (Err (invalid_request id "forkchoice update failed: see eleel logs"))) w'
       end
     end) →
  wp (alone env) (controller_fcu_status self id fcu) w Q.
Proof.
  intros HQ. apply wp_bind, alone_get_cached_fcu. intros w1 (Hc1 & Hk1 & _). cbn [then_post].
  cbv zeta in HQ. destruct (cached_fcu self fcu true (w_caches w)) as [[st|] cs]; cbn [fst snd] in *.
  { by apply HQ. }
  apply wp_bind, alone_forkchoice_updated. intros w2 Hc2 Hk2. cbn [then_post].
  rewrite Hk1 in Hk2 |- *.
  destruct (env_forkchoice_updated env (w_calls w) (ForkchoiceState_from fcu) None)
    as [resp|e]; [|by apply HQ; congruence].
  apply wp_bind, alone_locked. intros w3 (Hc3 & Hk3 & _). cbn [then_post].
  rewrite Hc2, Hc1 in Hc3 |- *. unfold store_fcu in HQ. cbn [get_guarded] in *.
  set (r := update_fcu_cache fcu (payload_status (jfcu_from_response resp)) (fcu_cache cs)) in *.
  clearbody r. destruct r as [stored c]. cbn [fst snd] in *.
  destruct (stored && bool_decide (status (payload_status (jfcu_from_response resp)) = Valid)).
  - apply wp_bind, wp_bind, alone_modify. intros w4 Hc4 Hk4. cbn [then_post].
    apply alone_modify. intros w5 Hc5 Hk5. apply HQ; [congruence|].
    rewrite Hc5, Hc4, Hc3. done.
  - apply HQ; congruence.
Qed.

(** A VALID answer for a state without a definite status is found from then on, whatever
    the matching mode: its entry comes first, and its blocks are known. *)
Lemma store_fcu_found fcu st cs d :
  (∀ o, lru_peek fcu (fcu_cache cs) = Some o → is_definite o = false) → status st = Valid →
  (cached_fcu self fcu d (store_fcu fcu st cs)).1 = Some st.
Proof.
  intros Hold Hvalid. unfold store_fcu.
  destruct (update_fcu_cache_first fcu st (fcu_cache cs)) as [l Hl].
  rewrite update_fcu_cache_stored.
  destruct (lru_peek fcu (fcu_cache cs)) as [o|]; [rewrite (Hold o eq_refl) in *|];
    rewrite bool_decide_eq_true_2 by done; simpl;
    unfold cached_fcu, just_and_fin_cached; simpl;
    rewrite (lookup_fcu_first self fcu st l _ Hl); unfold is_definite; rewrite Hvalid;
    (replace (match fcu_matching (config self) with
              | Exact | HeadOnly => true
              | Loose => _
              end) with true; [by destruct d|]);
    (destruct (fcu_matching _); [done| |done]); symmetry; apply andb_true_iff;
    split; apply contains_peek; rewrite peek_put_eq; eauto.
Qed.

(** ** The client's forkchoiceUpdated: found at once, or never waited for *)

Lemma alone_client_fcu_status_found fcu st w (Q : exit JsonPayloadStatusV1 → World → Prop) :
  (∀ d, (cached_fcu self fcu d (w_caches w)).1 = Some st) →
  (∀ w', payload_builder (w_caches w') = payload_builder (w_caches w) →
     w_calls w' = w_calls w → Q (Returned st) w') →
  wp (alone env) (client_fcu_status self fcu) w Q.
Proof.
  intros Hst HQ. apply wp_bind, alone_poll_until. intros w1 (Hc1 & Hk1 & _). split.
  - cbn [then_post]. apply wp_bind, alone_get_cached_fcu. intros w2 (Hc2 & Hk2 & _).
    cbn [then_post]. rewrite Hc1, Hst. apply HQ; [by rewrite Hc2, Hc1|congruence].
  - apply alone_get_cached_fcu. intros w2 (Hc2 & Hk2 & _). rewrite Hc1, Hst. simpl.
    apply HQ; [by rewrite Hc2, Hc1|congruence].
Qed.

(** ** newPayload *)

(** The caches once the engine has answered [st] for [ep]. *)
Definition store_new_payload (ep : ExecutionPayload) (st : JsonPayloadStatusV1) (cs : Caches) :
    Caches :=
  let cs := set_guarded MNewPayload
              (lru_put (ep_block_hash ep) (MkNewPayloadCacheEntry st (ep_block_number ep))
                 (new_payload_cache cs)) cs in
  if bool_decide (status st = Invalid) || bool_decide (status st = InvalidBlockHash) then cs
  else set_guarded MBuilder (register_canonical_payload_locked ep (payload_builder cs)) cs.

Lemma store_new_payload_peek ep st cs :
  lru_peek (ep_block_hash ep) (new_payload_cache (store_new_payload ep st cs)) =
    Some (MkNewPayloadCacheEntry st (ep_block_number ep)).
Proof. unfold store_new_payload. destruct (_ || _); simpl; apply peek_put_eq. Qed.

Lemma alone_controller_new_payload_status id ep npr w
    (Q : exit (result JsonPayloadStatusV1 ErrorResponse) → World → Prop) :
  (∀ w', let r := cached_status (ep_block_hash ep) true (w_caches w) in
     match r.1 with
     | Some st => w_caches w' = r.2 → w_calls w' = w_calls w → Q (Returned (Ok st)) w'
     | None =>
       let ans := env_new_payload env (w_calls w) npr in
       w_calls w' = CallNewPayload npr ans :: w_calls w →
       match ans with
       | Ok a =>
         let st := jps_from_status a in
         w_caches w' = store_new_payload ep st r.2 →
         Q (Returned (Ok st)) w'
       | Err _ =>
         w_caches w' = r.2 →
         Q (Returned (Err (invalid_request id "payload verification failed: see eleel logs"))) w'
       end
     end) →
  wp (alone env) (controller_new_payload_status id ep npr) w Q.
Proof.
  intros HQ. apply wp_bind, alone_get_cached_status. intros w1 (Hc1 & Hk1 & _).
  cbn [then_post]. cbv zeta in HQ.
  destruct (cached_status (ep_block_hash ep) true (w_caches w)) as [[st|] cs]; cbn [fst snd] in *.
  { by apply HQ. }
  apply wp_bind, alone_new_payload. intros w2 Hc2 Hk2. cbn [then_post].
  rewrite Hk1 in Hk2 |- *.
  destruct (env_new_payload env (w_calls w) npr) as [a|e]; [|by apply HQ; congruence].
  apply wp_bind, alone_modify. intros w3 Hc3 Hk3. cbn [then_post].
  apply wp_bind. unfold register_canonical_payload. unfold store_new_payload in HQ.
  destruct (_ || _); cbn [then_post wp].
  - apply HQ; [congruence|]. rewrite Hc3, Hc2, Hc1. done.
  - apply alone_modify. intros w4 Hc4 Hk4. apply HQ; [congruence|].
    rewrite Hc4, Hc3, Hc2, Hc1. done.
Qed.

Lemma alone_is_recent n w (Q : exit bool → World → Prop) :
  (∀ w', later w (w_caches w) w' →
     Q (Returned (u64_saturating_sub (highest_block_number (new_payload_cache (w_caches w)))
                    (new_payload_wait_cutoff (config self)) <=? n)%Z) w') →
  wp (alone env) (is_recent_payload self n) w Q.
Proof. intros HQ. apply wp_bind, alone_test. intros w1 Hw1. by apply HQ. Qed.

Lemma alone_client_new_payload_found id bh n npr st w
    (Q : exit (result JsonPayloadStatusV1 ErrorResponse) → World → Prop) :
  (∀ d, (cached_status bh d (w_caches w)).1 = Some st) →
  (∀ w', w_calls w' = w_calls w → Q (Returned (Ok st)) w') →
  wp (alone env) (client_new_payload_status self id bh n npr) w Q.
Proof.
  intros Hst HQ. apply wp_bind, alone_is_recent. intros w1 (Hc1 & Hk1 & _). cbn [then_post].
  apply wp_bind.
  assert (Hget : ∀ w2, w_caches w2 = w_caches w → w_calls w2 = w_calls w →
    wp (alone env) (get_cached_payload_status bh false) w2
      (then_post (λ o w3, wp (alone env)
         (match o with
          | Some st => Ret (Ok st)
          | None => match verify_versioned_hashes npr with
                    | Ok _ => Ret (Ok synthetic_syncing)
                    | Err _ => Ret (Err (invalid_request id "incorrect versioned hashes"))
                    end
          end) w3 Q) Q)).
  { intros w2 Hc2 Hk2. apply alone_get_cached_status. intros w3 (_ & Hk3 & _).
    rewrite Hc2, Hst. simpl. apply HQ. congruence. }
  destruct (_ <=? n)%Z.
  - apply alone_poll_until. intros w2 (Hc2 & Hk2 & _). split.
    + cbn [then_post]. apply wp_bind. apply Hget; congruence.
    + apply alone_get_cached_status. intros w3 (_ & Hk3 & _). rewrite Hc2, Hc1, Hst. simpl.
      apply HQ. congruence.
  - cbn [then_post wp]. apply wp_bind. by apply Hget.
Qed.
End alone.

(** ** The payload builder *)

Section builder.
Context `{NetworkOps}.
Variable self : Statics.
Variable env : Env.

(** [register_attributes] is its locked part, applied to the builder. *)
Lemma alone_register_attributes slot parent pa w
    (Q : exit (result PayloadId string) → World → Prop) :
  timestamp_to_slot self (pa_timestamp pa) = Some slot →
  let r := register_attributes_locked self slot parent pa (payload_builder (w_caches w)) in
  (∀ w', w_caches w' = set_guarded MBuilder r.2 (w_caches w) → w_calls w' = w_calls w →
     Q (match r.1 with Done res => Returned res | Panicked m => Unwound m end) w') →
  wp (alone env) (register_attributes self parent pa) w Q.
Proof.
  intros Hslot r HQ. unfold register_attributes. rewrite Hslot.
  apply alone_with_lock. intros w1 (Hc1 & Hk1 & _). apply wp_bind, alone_access.
  rewrite Hc1. cbn [get_guarded then_post]. fold r. intros w2 (Hc2 & Hk2 & _).
  clearbody r. destruct r as [[res|m] b']; simpl in *; [intros w3 (Hc3 & Hk3 & _)|];
    apply HQ; congruence.
Qed.

(** [register_attributes] is its locked part, applied to the builder. *)
Lemma run_register_attributes w slot parent pa :
  timestamp_to_slot self (pa_timestamp pa) = Some slot →
  let r := register_attributes_locked self slot parent pa (payload_builder (w_caches w)) in
  (run env (register_attributes self parent pa) w).1 =
    match r.1 with Done res => Returned res | Panicked m => Unwound m end ∧
  w_caches (run env (register_attributes self parent pa) w).2 = set_guarded MBuilder r.2 (w_caches w) ∧
  w_calls (run env (register_attributes self parent pa) w).2 = w_calls w.
Proof.
  intros Hslot r.
  assert (Hwp : wp (alone env) (register_attributes self parent pa) w
    (λ x w', x = match r.1 with Done res => Returned res | Panicked m => Unwound m end ∧
             w_caches w' = set_guarded MBuilder r.2 (w_caches w) ∧ w_calls w' = w_calls w)).
  { by apply (alone_register_attributes slot). }
  by apply alone_run in Hwp.
Qed.

Lemma run_get_payload w i :
  let r := get_payload_locked i (payload_builder (w_caches w)) in
  (run env (get_payload i) w).1 = Returned (ok_or ("unknown payload ID: " +:+ pretty (from_be_bytes i)) r.1) ∧
  w_caches (run env (get_payload i) w).2 = set_guarded MBuilder r.2 (w_caches w) ∧
  w_calls (run env (get_payload i) w).2 = w_calls w.
Proof.
  intros r. assert (Hwp : wp (alone env) (get_payload i) w
    (λ x w', x = Returned (ok_or ("unknown payload ID: " +:+ pretty (from_be_bytes i)) r.1) ∧
      w_caches w' = set_guarded MBuilder r.2 (w_caches w) ∧ w_calls w' = w_calls w)).
  { apply wp_bind, alone_locked. intros w1 (Hc1 & Hk1 & _). by split_and!. }
  by apply alone_run in Hwp.
Qed.
End builder.

(** The maximum over the cache. *)
Section maximum.
Context `{NetworkOps}.

Lemma foldl_max_le ns (acc b : Z) : (foldl Z.max acc ns ≤ b ↔ acc ≤ b ∧ ∀ n, n ∈ ns → n ≤ b)%Z.
Proof.
  revert acc. induction ns as [|n ns IH]; intros acc; simpl.
  - split; [|by intros []]. intros Hacc. split; [done|]. by intros n ?%not_elem_of_nil.
  - rewrite IH. setoid_rewrite elem_of_cons. split.
    + intros [Hm Hall]. split; [lia|]. intros m [->|Hin]; [lia|by apply Hall].
    + intros [Hacc Hall]. split; [|by auto]. specialize (Hall n (or_introl eq_refl)). lia.
Qed.

Lemma highest_block_number_le (c : Cache ExecutionBlockHash NewPayloadCacheEntry) b :
  (0 ≤ b)%Z →
  (highest_block_number c ≤ b)%Z ↔ ∀ kv, kv ∈ lru_iter c → (entry_block_number kv.2 ≤ b)%Z.
Proof.
  intros Hb. unfold highest_block_number.
  destruct (lru_iter c) as [|[k e] l]; simpl.
  { split; [|done]. by intros _ kv ?%not_elem_of_nil. }
  rewrite foldl_max_le. setoid_rewrite elem_of_cons. setoid_rewrite list_elem_of_fmap. split.
  - intros [Hm Hall] kv [->|Hin]; [done|]. apply Hall. by exists kv.
  - intros Hall. split; [by apply (Hall (k, e)); left|]. intros n (kv & -> & Hin).
    apply Hall. by right.
Qed.
End maximum.

(** ** Waiting in vain *)

Section waiting.
Context `{ExtOk} `{!NetworkOps}.
Variable self : Statics.
Variable env : Env.

(** A loop whose rounds keep [J] ends, with what a round has found or at its deadline. *)
Lemma alone_poll_loop_J {A} (J : World → Prop) (poll : prog (option A)) start wait
    (Q : exit (option A) → World → Prop) :
  (∀ w w', J w → later w (w_caches w) w' → J w') →
  (∀ w t, J w → J (MkWorld (env_others env t (w_caches w)) t (w_calls w))) →
  (∀ w, J w → wp (alone env) poll w
                (λ x w', ∃ o, x = Returned o ∧ J w' ∧ (w_clock w ≤ w_clock w')%Z ∧
                   ∀ a, o = Some a → Q (Returned (Some a)) w')) →
  (∀ w, J w → Q (Returned None) w) →
  ∀ fuel d w, J w → 0 < fuel → (0 ≤ d)%Z → (start + 50000000 * d ≤ w_clock w)%Z →
    (wait ≤ 50 * (d + Z.of_nat fuel - 1))%Z →
    wp (alone env) (poll_loop fuel start wait poll) w Q.
Proof.
  intros Hlater Hothers Hpoll HQ. induction fuel as [|fuel IH]; intros d w HJ Hf Hd Hs Hw; [lia|].
  cbn [poll_loop]. apply wp_bind, alone_now. intros w1 Hw1. cbn [then_post].
  pose proof (Hlater _ _ HJ Hw1) as HJ1. destruct Hw1 as (_ & _ & Ht1).
  destruct (Z.ltb_spec (elapsed_millis start (w_clock w)) wait) as [Hlt|Hge]; [|by apply HQ].
  unfold elapsed_millis in Hlt.
  apply wp_bind. eapply wp_mono; [by apply Hpoll|]. intros x w2 (o & -> & HJ2 & Ht2 & Ho).
  destruct o as [a|]; [by apply Ho|]. cbn [then_post]. apply wp_bind. unfold sleep_millis. apply wp_bind, alone_now.
  intros w3 Hw3. pose proof (Hlater _ _ HJ2 Hw3) as HJ3. destruct Hw3 as (_ & _ & Ht3).
  cbn [then_post].
  assert (50 * d ≤ Z.max 0 (w_clock w - start) / 1000000)%Z
    by (apply Z.div_le_lower_bound; lia).
  simpl. match goal with |- wp _ _ ?w4 _ => set (w4' := w4) end.
  apply IH with (d := (d + 1)%Z); try lia.
  - eapply Hlater; [by apply Hothers|apply later_tick].
  - unfold w4', tick. simpl. lia.
Qed.

Lemma alone_poll_until_J {A} (J : World → Prop) (poll : prog (option A)) wait w
    (Q : exit (option A) → World → Prop) :
  (∀ w w', J w → later w (w_caches w) w' → J w') →
  (∀ w t, J w → J (MkWorld (env_others env t (w_caches w)) t (w_calls w))) →
  (∀ w, J w → wp (alone env) poll w
                (λ x w', ∃ o, x = Returned o ∧ J w' ∧ (w_clock w ≤ w_clock w')%Z ∧
                   ∀ a, o = Some a → Q (Returned (Some a)) w')) →
  (∀ w, J w → Q (Returned None) w) →
  J w → wp (alone env) (poll_until wait poll) w Q.
Proof.
  intros Hlater Hothers Hpoll HQ HJ. apply wp_bind, alone_now. intros w1 Hw1. cbn [then_post].
  apply alone_poll_loop_J with (J := J) (d := 0%Z); try done; unfold poll_fuel.
  - by eapply Hlater.
  - lia.
  - destruct Hw1 as (_ & _ & ?). lia.
  - destruct (Z.le_gt_cases wait 0); [lia|].
    rewrite !Nat2Z.inj_succ, Z2Nat.id by (apply Z.div_pos; lia). div_lia.
Qed.

(** What a client is told of a payload of which the cache holds [o]. *)
Definition told_status (id : JsonValue) (npr : NewPayloadRequest)
    (o : option NewPayloadCacheEntry) : result JsonPayloadStatusV1 ErrorResponse :=
  match o with
  | Some e => Ok (entry_status e)
  | None =>
    match verify_versioned_hashes npr with
    | Ok _ => Ok synthetic_syncing
    | Err _ => Err (invalid_request id "incorrect versioned hashes")
    end
  end.

Lemma alone_get_cached_status_stable bh d o w :
  lru_peek bh (new_payload_cache (w_caches w)) = o →
  wp (alone env) (get_cached_payload_status bh d) w
    (λ x w', x = Returned (o ← o; if negb d || is_definite (entry_status o)
                                  then Some (entry_status o) else None) ∧
             lru_peek bh (new_payload_cache (w_caches w')) = o ∧ w_calls w' = w_calls w ∧
             (w_clock w ≤ w_clock w')%Z).
Proof.
  intros Ho. apply alone_get_cached_status. intros w' (Hc & Hk & Ht).
  rewrite cached_status_value, Ho. split_and!; [by destruct o|..|done|done].
  rewrite Hc. unfold cached_status, get_cached_payload_status_locked.
  pose proof (peek_get bh bh (new_payload_cache (w_caches w))) as Hp.
  destruct (lru_get _ _). simpl in *. congruence.
Qed.

(** A payload so recent that a client waits for a definite status. *)
Definition recent_payload (n : Z) (cs : Caches) : Prop :=
  (u64_saturating_sub (highest_block_number (new_payload_cache cs))
     (new_payload_wait_cutoff (config self)) ≤ n)%Z.

(** While the other requests leave the entry of the block alone, the client is told it;
    they have no time to change it unless the payload is recent. *)
Lemma alone_client_new_payload_stable id bh n npr o w
    (Q : exit (result JsonPayloadStatusV1 ErrorResponse) → World → Prop) :
  (recent_payload n (w_caches w) →
   ∀ t cs, lru_peek bh (new_payload_cache cs) = o →
           lru_peek bh (new_payload_cache (env_others env t cs)) = o) →
  lru_peek bh (new_payload_cache (w_caches w)) = o →
  (∀ w', w_calls w' = w_calls w → Q (Returned (told_status id npr o)) w') →
  wp (alone env) (client_new_payload_status self id bh n npr) w Q.
Proof.
  intros Hothers Ho HQ. apply wp_bind, alone_is_recent. intros w1 (Hc1 & Hk1 & _).
  cbn [then_post]. apply wp_bind.
  set (J := λ w', lru_peek bh (new_payload_cache (w_caches w')) = o ∧ w_calls w' = w_calls w).
  assert (HJ1 : J w1) by (split; [by rewrite Hc1|done]).
  assert (Hend : ∀ w2, J w2 →
    wp (alone env)
      (let! cached := get_cached_payload_status bh false in
       match cached with
       | Some st => Ret (Ok st)
       | None => match verify_versioned_hashes npr with
                 | Ok _ => Ret (Ok synthetic_syncing)
                 | Err _ => Ret (Err (invalid_request id "incorrect versioned hashes"))
                 end
       end) w2 Q).
  { intros w2 [Ho2 Hk2]. apply wp_bind.
    eapply wp_mono; [by apply alone_get_cached_status_stable|].
    intros x w3 (-> & _ & Hk3 & _). cbn [then_post]. unfold told_status in HQ.
    destruct o as [e|]; [apply HQ; congruence|].
    destruct (verify_versioned_hashes npr); apply HQ; congruence. }
  destruct (Z.leb_spec (u64_saturating_sub (highest_block_number (new_payload_cache (w_caches w)))
    (new_payload_wait_cutoff (config self))) n) as [Hrecent|_]; [|by apply Hend].
  specialize (Hothers Hrecent). apply alone_poll_until_J with (J := J); try done.
  - intros w2 w3 [Ho2 Hk2] (Hc3 & Hk3 & _). split; [by rewrite Hc3|congruence].
  - intros w2 t [Ho2 Hk2]. split; [by apply Hothers|done].
  - intros w2 [Ho2 Hk2]. eapply wp_mono; [by apply alone_get_cached_status_stable|].
    intros x w3 (-> & Ho3 & Hk3 & Ht3). eexists.
    split_and!; [done|split; [done|congruence]|done|].
    intros st Hst. destruct o as [e|]; [simpl in Hst|done].
    case_match; simplify_eq. apply HQ. congruence.
Qed.

(** Looking a state up does not change what is found. *)
Lemma cached_fcu_again fcu d d' cs :
  (cached_fcu self fcu d (cached_fcu self fcu d' cs).2).1 = (cached_fcu self fcu d cs).1.
Proof.
  unfold cached_fcu, lookup_fcu, just_and_fin_cached.
  destruct (fcu_matching (config self)); try (by destruct (find_head fcu _)).
  simpl. rewrite !get_value, peek_get. done.
Qed.

Lemma cached_fcu_any fcu st cs :
  (cached_fcu self fcu true cs).1 = Some st → (cached_fcu self fcu false cs).1 = Some st.
Proof.
  unfold cached_fcu. simpl. intros Hst. destruct (lookup_fcu self fcu _).1 as [s|]; [|done].
  by destruct (just_and_fin_cached _ _ _), (is_definite s).
Qed.

(** While the other requests leave what is found for the state alone, the client is told it;
    with what its reads leave of the builder. *)
Lemma alone_client_fcu_stable (J : Caches → Prop) fcu o w (Q : exit JsonPayloadStatusV1 → World → Prop) :
  (∀ c cs, J cs → J (set_guarded MFcu c cs)) →
  let found cs := J cs ∧ (cached_fcu self fcu false cs).1 = o ∧
                  ∀ st, (cached_fcu self fcu true cs).1 = Some st → o = Some st in
  (∀ t cs, found cs → found (env_others env t cs)) →
  J (w_caches w) → (cached_fcu self fcu false (w_caches w)).1 = o →
  (∀ w', J (w_caches w') → w_calls w' = w_calls w →
     Q (Returned (default synthetic_syncing o)) w') →
  wp (alone env) (client_fcu_status self fcu) w Q.
Proof.
  intros HJ found Hothers HJw Ho HQ.
  assert (Hfound : ∀ d cs, found cs → found (cached_fcu self fcu d cs).2).
  { intros d cs (HJc & Hf & Ht). split; [by apply HJ|]. split; [by rewrite cached_fcu_again|].
    intros st. rewrite cached_fcu_again. apply Ht. }
  set (J' := λ w', found (w_caches w') ∧ w_calls w' = w_calls w).
  apply wp_bind. apply alone_poll_until_J with (J := J').
  - intros w1 w2 [Hf Hk] (Hc2 & Hk2 & _). split; [by rewrite Hc2|congruence].
  - intros w1 t [Hf Hk]. split; [by apply Hothers|done].
  - intros w1 [Hf Hk]. apply alone_get_cached_fcu. intros w2 (Hc2 & Hk2 & Ht2).
    eexists. split; [done|]. split; [split; [rewrite Hc2; by apply Hfound|congruence]|].
    split; [done|]. intros st Hst. cbn [then_post wp].
    destruct Hf as (HJ1 & _ & Hdef). rewrite (Hdef st Hst) in HQ.
    apply HQ; [rewrite Hc2; by apply HJ|congruence].
  - intros w1 [(HJ1 & Hf & _) Hk]. cbn [then_post]. apply wp_bind, alone_get_cached_fcu.
    intros w2 (Hc2 & Hk2 & _). cbn [then_post]. rewrite Hf.
    destruct o as [st|]; apply HQ; try congruence; rewrite Hc2; by apply HJ.
  - split; [|done]. split; [done|]. split; [done|]. intros st Hst%cached_fcu_any. congruence.
Qed.

(** The id which the builder has for some attributes. *)
Definition known_id (bh : ExecutionBlockHash) (pa : PayloadAttributes) (cs : Caches) :
    option PayloadId :=
  lru_peek (bh, pa) (payload_attributes (payload_builder cs)).

Lemma alone_get_existing_id bh pa w (Q : exit (result PayloadId string) → World → Prop) :
  (∀ w', w_calls w' = w_calls w →
     Q (Returned (ok_or ("no payload ID known for parent " +:+ debug_block_hash bh)
                    (known_id bh pa (w_caches w)))) w') →
  wp (alone env) (get_existing_payload_id bh pa) w Q.
Proof.
  intros HQ. apply wp_bind, alone_locked. intros w' (_ & Hk & _). cbn [then_post get_guarded].
  unfold get_existing_payload_id_locked, known_id in *.
  pose proof (get_value (bh, pa) (payload_attributes (payload_builder (w_caches w)))) as Hv.
  destruct (lru_get _ _) as [o c]. simpl in *. subst o. by apply HQ.
Qed.
End waiting.
