(* ===== verification/Eviction.v ===== *)
(** How an id outlives its payload: attributes that are asked for again stay in the cache of
    ids, while the payload moves towards the end of its cache with every other payload
    that is built. *)
From S2P Require Import Prelude Uint256 BaseFee Lru RecencyList Lighthouse Types Config.
From S2P Require Import Multiplexer Prog Logic Shared PayloadBuilder BuilderSpec Fcu NewPayload.
From S2P Require Import Alone Meta Jwt Main BuilderCoherence AloneSpecs.

Section eviction.
Context `{ExtOk} `{!NetworkOps}.
Variable self : Statics.
Variables (parent : ExecutionBlockHash) (pa : PayloadAttributes) (i : PayloadId)
          (info : PayloadInfo) (extra : VariableList Z).

(** Attributes of a child which can be built and have not been asked for. *)
Definition buildable (b : PayloadBuilder) (a : PayloadAttributes) : Prop :=
  lru_peek (parent, a) (payload_attributes b) = None ∧
  ∃ slot p, timestamp_to_slot self (pa_timestamp a) = Some slot ∧
    build_payload self extra slot parent a info = Done (Ok p).

(** [m] payloads have been built since the one of [pa] was, and those of [rest] are to be. *)
Record refreshing (m : nat) (rest : list PayloadAttributes) (b : PayloadBuilder) : Prop := {
  rf_ok : builder_ok self (λ _ _, True) b;
  rf_next : (next_payload_id b + Z.of_nat (length rest) < two64)%Z;
  rf_known : lru_peek (parent, pa) (payload_attributes b) = Some i;
  rf_info : lru_peek parent (payload_info b) = Some info;
  rf_extra : extra_data b = extra;
  rf_ids_cap : 2 ≤ Pos.to_nat (lru_cap (payload_attributes b));
  rf_cap : Pos.to_nat (lru_cap (payloads b)) ≤ m + length rest;
  rf_nodup : NoDup rest;
  rf_buildable : Forall (buildable b) rest;
  rf_behind : i ∉ (take m (lru_iter (payloads b))).*1;
}.

Lemma register_known slot b :
  lru_peek (parent, pa) (payload_attributes b) = Some i →
  register_attributes_locked self slot parent pa b =
    (Done (Ok i), MkPayloadBuilder (next_payload_id b)
                    (lru_get (parent, pa) (payload_attributes b)).2
                    (payload_info b) (payloads b) (extra_data b)).
Proof.
  intros Hk. unfold register_attributes_locked.
  pose proof (get_value (parent, pa) (payload_attributes b)) as Hv.
  destruct (lru_get _ _) as [o c]. simpl in *. subst o. by rewrite Hk.
Qed.

(** Asking for the known attributes and then for new ones is a round. *)
Lemma refreshing_round m a rest b slot slot_a :
  refreshing m (a :: rest) b →
  timestamp_to_slot self (pa_timestamp a) = Some slot_a →
  refreshing (S m) rest (register_attributes_locked self slot_a parent a
                           (register_attributes_locked self slot parent pa b).2).2.
Proof.
  intros [Hok Hnext Hk Hinfo Hextra Hids Hcap Hnd Hall Hbehind] Hslot.
  apply NoDup_cons in Hnd as [Ha Hnd]. apply Forall_cons in Hall as [Hfirst Hall].
  destruct Hfirst as [Hnew (slot' & p & Hslot' & Hbuild)].
  assert (slot' = slot_a) as -> by congruence. simpl in Hnext, Hcap.
  rewrite register_known by done. simpl. set (b1 := MkPayloadBuilder _ _ _ _ _).
  assert (Hsame : builder_same b1 b) by (by split_and!; try apply get_same).
  assert (Hok1 : builder_ok self (λ _ _, True) b1) by (by eapply builder_ok_same).
  pose proof (register_attributes_registered self slot_a parent a b1) as Hreg.
  assert (Hb1 : lru_peek (parent, a) (payload_attributes b1) = None)
    by (destruct Hsame as (_ & [_ Hs] & _); by rewrite Hs).
  destruct (registered_ok self _ _ _ _ _ _ _ Hok1 (λ _ _ _, Logic.I) ltac:(simpl; lia) Hslot Hreg)
    as [Hok2 Hnext2].
  inversion Hreg as [j b2 Hj|b2 _ Hi|o1 o2 b2 _ Hi Ho Hno|o1 q o2 b2 _ Hi Ho Hadd Hn2 Hc2 Hit2
    [_ Hin2] Hp2 He2]; subst; simpl in *; try congruence.
clear Hreg.
  destruct (ok_ids _ _ _ Hok _ _ Hk) as (n & Hn & Hi_n).
  pose proof (allocated_lt b i n (ok_next _ _ _ Hok) Hn Hi_n) as Hfresh.
  rewrite u64_add_done in Hn2 by (destruct (ok_next _ _ _ Hok); lia).
  generalize dependent (register_attributes_locked self slot_a parent a b1).2. intros b2 **.
  rewrite lru_get_cap, lru_get_iter in Hit2. rewrite lru_get_cap in Hc2.
  split; try done.
  - lia.
  - unfold lru_peek. rewrite Hit2. apply alookup_push_front_touch; [done| |done].
    intros [=]. subst. congruence.
  - by rewrite Hin2.
  - congruence.
  - by rewrite Hc2.
  - rewrite Hp2, lru_put_cap. lia.
  - rewrite Forall_forall in Hall |- *. intros a' Ha'. destruct (Hall a' Ha') as [Hnew' Hex].
    split; [|done]. unfold lru_peek. rewrite Hit2.
    destruct (alookup (parent, a') (push_front _ _ _ _)) as [j|] eqn:Hj; [|done].
    apply alookup_push_front_Some in Hj as [[[= ->] _]|[_ Hj]]; [done|].
    rewrite alookup_touch in Hj. unfold lru_peek in Hnew'. congruence.
  - rewrite Hp2, lru_put_iter. apply absent_push_front; [|done..].
    destruct (lru_peek (to_be_bytes (next_payload_id b)) (payloads b)) as [old|] eqn:Hold; [|done].
    destruct (ok_payload_ids _ _ _ Hok _ _ Hold) as (n' & Hn' & Heq).
    by destruct (allocated_lt b _ _ (ok_next _ _ _ Hok) Hn' Heq).
Qed.

(** The controller asks for the attributes [pa] again, and then for the attributes [a]. *)
Definition asked_again (env : Env) (w : World) (a : PayloadAttributes) : World :=
  let ask pa w := (run env (register_attributes self parent pa) w).2 in
  ask a (ask pa w).

Lemma refreshing_rounds env slot :
  timestamp_to_slot self (pa_timestamp pa) = Some slot →
  ∀ others w m, refreshing m others (payload_builder (w_caches w)) →
    refreshing (m + length others) []
      (payload_builder (w_caches (foldl (asked_again env) w others))).
Proof.
  intros Hslot others. induction others as [|a others IH]; intros w m Hr; simpl.
  { by rewrite Nat.add_0_r. }
  rewrite <- Nat.add_succ_comm. apply IH. unfold asked_again.
  pose proof (rf_buildable _ _ _ Hr) as [[_ (slot_a & _ & Hslot_a & _)] _]%Forall_cons.
  destruct (run_register_attributes self env (run env (register_attributes self parent pa) w).2
    slot_a parent a Hslot_a) as (_ & -> & _).
  destruct (run_register_attributes self env w slot parent pa Hslot) as (_ & -> & _).
  by apply refreshing_round.
Qed.

(** After as many rounds as the cache of payloads is large the payload is gone. *)
Lemma refreshing_gone m b :
  refreshing m [] b → lru_peek i (payloads b) = None.
Proof.
  intros [_ _ _ _ _ _ Hcap _ _ Hbehind]. simpl in Hcap.
  pose proof (lru_iter_bounded (payloads b)). rewrite take_ge in Hbehind by lia.
  by apply alookup_None.
Qed.
End eviction.
