(* ===== verification/Overlap.v ===== *)
(** What overlapping requests of the controller can do to each other: of two newPayload
    requests for one block, the answer the engine gave first may be stored last. *)
From S2P Require Import Prelude Uint256 BaseFee Lru RecencyList Lighthouse Types Config.
From S2P Require Import Multiplexer Prog Logic Shared PayloadBuilder Fcu NewPayload.
From S2P Require Import Alone Meta Jwt Main Methods Toy System Isolation Invariant Backed Replies.
From S2P Require Import Tracing Safety AloneSpecs ServerProps.

(** * Running a handler to its next point *)

Section turns.
Context `{ExtOk} `{!NetworkOps} `{JwtOps}.
Variable state : AppState.

Definition all_free (s : Sys) : Prop := ∀ m, mem_locks (sys_mem s) m = None.

(** The handler [t] advances to the program [p]; the others stay where they are, no lock is
    held any more, and the history and the caches are [h] and [cs]. *)
Record advances (t : nat) (task : Task) (h : Hist) (cs : Caches) (s s' : Sys) : Prop :=
  MkAdvances {
  adv_steps : rtc (sys_step state) s s';
  adv_free : all_free s';
  adv_hist : mem_hist (sys_mem s') = h;
  adv_caches : mem_caches (sys_mem s') = cs;
  adv_tasks : sys_tasks s' = <[t := task]> (sys_tasks s);
}.

Lemma step_vis {A} (e : ev A) (k : A → prog HttpReply) t req ans a m s :
  sys_tasks s !! t = Some (MkTask req (Vis e k)) →
  apply_ev e t (role_of req) ans (sys_mem s) = Some (a, m) →
  sys_step state s (MkSys m (<[t := MkTask req (k a)]> (sys_tasks s))).
Proof. intros Ht He. exists (LRun t ans). simpl. rewrite Ht. simpl. by rewrite He. Qed.

Lemma set_lock_eq m o locks : set_lock m o locks m = o.
Proof. unfold set_lock. by rewrite decide_True. Qed.

(** A section under a free lock takes three turns. *)
Lemma advance_locked {A} m (f : guarded m → A * guarded m) (k : A → prog HttpReply) t req s :
  all_free s →
  sys_tasks s !! t =
    Some (MkTask req (Vis (ELock m) (λ _, Vis (EAccess m f) (λ x, Vis (EUnlock m) (λ _, k x))))) →
  let r := f (get_guarded m (mem_caches (sys_mem s))) in
  ∃ s', advances t (MkTask req (k r.1)) (mem_hist (sys_mem s))
          (set_guarded m r.2 (mem_caches (sys_mem s))) s s'.
Proof.
  intros Hfree Ht r. destruct s as [[cs locks now h] tasks]. unfold all_free in *. simpl in *.
  eexists. split.
  - eapply rtc_l; [eapply (step_vis _ _ t req NoAnswer); [exact Ht|simpl; by rewrite Hfree]|].
    eapply rtc_l.
    { eapply (step_vis _ _ t req NoAnswer); [simpl; by rewrite lookup_insert_eq|simpl].
      by rewrite set_lock_eq, decide_True. }
    eapply rtc_l; [|reflexivity].
    eapply (step_vis _ _ t req NoAnswer); [simpl; by rewrite lookup_insert_eq|simpl].
    by rewrite set_lock_eq, decide_True.
  - intros m'. simpl. unfold set_lock. by repeat case_decide.
  - done.
  - done.
  - simpl. by rewrite !insert_insert_eq.
Qed.

Lemma advance_new_payload npr a (k : result PayloadStatusV1 EngineError → prog HttpReply)
    t req s :
  all_free s → sys_tasks s !! t = Some (MkTask req (Vis (ENewPayload npr) k)) →
  ∃ s', advances t (MkTask req (k a))
          ((role_of req, CallNewPayload npr a) :: mem_hist (sys_mem s))
          (mem_caches (sys_mem s)) s s'.
Proof.
  intros Hfree Ht. eexists. split.
  - eapply rtc_l; [|reflexivity]. by eapply (step_vis _ _ t req (AnsNewPayload a) _ _ _ Ht).
  - exact Hfree.
  - done.
  - done.
  - done.
Qed.

(** * A newPayload request of the controller, turn by turn *)

Variables (token : string) (r : Request) (v : VerifiedToken) (req : HttpRequest).
Variables (d : DecodedPayload) (ep : ExecutionPayload) (npr : NewPayloadRequest).
Hypothesis Hreq : req = PostCanonical token (Ok r).
Hypothesis Hverify : verify_single_token token (controller_jwt state) = Ok v.
Hypothesis Hmethod : is_new_payload (req_method r) = true.
Hypothesis Hdecode : decode_new_payload (multiplexer state) r = Done (Ok d).
Hypothesis Hep : ep_from_json (dec_payload d) = ep.
Hypothesis Hnpr : new_payload_request_from_parts ep (dec_versioned_hashes d)
  (dec_parent_beacon_block_root d) (dec_execution_requests d) = Done npr.

(** The handler, and what is left of it before the call of the engine, and after it. *)
Definition replying (p : prog (result JsonPayloadStatusV1 ErrorResponse)) : prog HttpReply :=
  let! x := (let!? st := p in Ret (Response_new (req_id r) st)) in Ret (ControllerReply x).

Definition entry (a : PayloadStatusV1) : NewPayloadCacheEntry :=
  {| entry_status := jps_from_status a; entry_block_number := ep_block_number ep |}.

Definition stores (a : PayloadStatusV1) : prog (result JsonPayloadStatusV1 ErrorResponse) :=
  let! _ := with_lock MNewPayload (modify MNewPayload (lru_put (ep_block_hash ep) (entry a))) in
  let! _ := register_canonical_payload ep (status (jps_from_status a)) in
  Ret (Ok (jps_from_status a)).

Definition calls_engine : prog (result JsonPayloadStatusV1 ErrorResponse) :=
  let! answer := trigger (ENewPayload npr) in
  match answer with
  | Ok a => stores a
  | Err e => Ret (Err (invalid_request (req_id r) "payload verification failed: see eleel logs"))
  end.

Lemma route_replying :
  route state req =
    replying (controller_new_payload_status (req_id r) ep npr).
Proof.
  assert (Hid : dec_id d = req_id r)
    by exact (decode_new_payload_id (multiplexer state) r _ Hdecode).
  rewrite Hreq. cbn [route]. unfold handle_controller_json_rpc. rewrite Hverify. cbn [map_err].
  rewrite bind_result_Ok. unfold process_controller_request.
  destruct (is_forkchoice_updated (req_method r)) eqn:Hf.
  { apply forkchoice_not_new_payload in Hf. congruence. }
  rewrite Hmethod. unfold handle_controller_new_payload.
  rewrite Hdecode, lift_outcome_Done, bind_result_Ok.
  by rewrite Hep, Hnpr, lift_outcome_Done, bind_Ret, Hid.
Qed.

(** The entry of the block does not answer the controller. *)
Definition no_definite (cs : Caches) : Prop :=
  ∀ e, lru_peek (ep_block_hash ep) (new_payload_cache cs) = Some e →
    is_definite (entry_status e) = false.

Lemma advance_lookup t s :
  all_free s → no_definite (mem_caches (sys_mem s)) →
  sys_tasks s !! t = Some (MkTask req (route state req)) →
  ∃ cs s', advances t (MkTask req (replying calls_engine)) (mem_hist (sys_mem s)) cs
                     s s' ∧
    caches_same cs (mem_caches (sys_mem s)).
Proof.
  intros Hfree Hno Ht. rewrite route_replying in Ht.
  destruct (advance_locked MNewPayload (get_cached_payload_status_locked (ep_block_hash ep) true)
    (λ cached, replying match cached with Some st => Ret (Ok st) | None => calls_engine end)
    t req s Hfree Ht) as (s' & Hadv).
  revert Hadv. unfold get_cached_payload_status_locked. cbn [get_guarded].
  pose proof (get_value (ep_block_hash ep) (new_payload_cache (mem_caches (sys_mem s)))) as Hv.
  pose proof (get_same (ep_block_hash ep) (new_payload_cache (mem_caches (sys_mem s)))) as Hsame.
  destruct (lru_get _ _) as [o c]. cbn [fst snd] in *. intros Hadv.
  assert (Hnone : match o with
    | Some e => if negb true || is_definite (entry_status e) then Some (entry_status e) else None
    | None => None
    end = None).
  { destruct o as [e|]; [|done]. by rewrite (Hno e (eq_sym Hv)). }
  rewrite Hnone in Hadv. exists (set_guarded MNewPayload c (mem_caches (sys_mem s))), s'.
  split; [exact Hadv|by apply set_guarded_same].
Qed.

Lemma advance_call t a s :
  all_free s → sys_tasks s !! t = Some (MkTask req (replying calls_engine)) →
  ∃ s', advances t (MkTask req (replying (stores a)))
    ((RController, CallNewPayload npr (Ok a)) :: mem_hist (sys_mem s)) (mem_caches (sys_mem s)) s s'.
Proof.
  intros Hfree Ht. replace RController with (role_of req) by (by rewrite Hreq).
  exact (advance_new_payload npr (Ok a) (λ answer, replying match answer with
    | Ok a => stores a
    | Err e => Ret (Err (invalid_request (req_id r) "payload verification failed: see eleel logs"))
    end) t req s Hfree Ht).
Qed.

(** The answer is stored, and the request answered with it. *)
Lemma advance_store t a s :
  all_free s → sys_tasks s !! t = Some (MkTask req (replying (stores a))) →
  ∃ cs s',
    advances t
      (MkTask req (Ret (ControllerReply (Response_new (req_id r) (jps_from_status a)))))
      (mem_hist (sys_mem s)) cs s s' ∧
    lru_peek (ep_block_hash ep) (new_payload_cache cs) = Some (entry a).
Proof.
  intros Hfree Ht.
  destruct (advance_locked MNewPayload (λ c, (tt, lru_put (ep_block_hash ep) (entry a) c))
    (λ _, replying (let! _ := register_canonical_payload ep (status (jps_from_status a)) in
                    Ret (Ok (jps_from_status a)))) t req s Hfree Ht) as (s1 & Hadv).
  destruct Hadv as [Hsteps Hfree1 Hh Hcs Htasks]. cbn [fst snd] in *.
  pose proof (f_equal (lookup t) Htasks) as Ht1. rewrite lookup_insert_eq in Ht1.
  unfold register_canonical_payload in Ht1. destruct (_ || _) eqn:Hinvalid.
  - eexists _, s1. split; [split; [exact Hsteps|exact Hfree1|exact Hh|reflexivity|]|].
    + rewrite Htasks. unfold register_canonical_payload. by rewrite Hinvalid.
    + rewrite Hcs. apply peek_put_eq.
  - destruct (advance_locked MBuilder (λ b, (tt, register_canonical_payload_locked ep b))
      (λ _, replying (Ret (Ok (jps_from_status a)))) t req s1 Hfree1 Ht1) as (s2 & Hadv2).
    destruct Hadv2 as [Hsteps2 Hfree2 Hh2 Hcs2 Htasks2].
    eexists _, s2. split; [split; [by etrans|exact Hfree2|congruence|reflexivity|]|].
    + rewrite Htasks2, Htasks. apply insert_insert_eq.
    + rewrite Hcs2, Hcs. apply peek_put_eq.
Qed.
End turns.

(** * Two overlapping requests *)

Section properties.
Context `{ExtOk} `{!NetworkOps} `{!JwtOps}.
Variable state : AppState.

(** C39: a late answer overwrites a later one.  From whichever state in which no lock is held and
    no definite status of the block is cached: if the controller sends a newPayload request
    for the block twice, the server can come to a state in which the engine has answered
    [a0] and then [a1], both requests are answered, each with the engine's answer to it, and
    the entry of the block, from which clients are answered, is [a0], the older answer.
    So a definite [a1] can be lost to a SYNCING [a0]. *)
Theorem late_answer_overwrites s t0 t1 token v r d a0 a1 :
  (∀ m, mem_locks (sys_mem s) m = None) →
  sys_tasks s !! t0 = None → sys_tasks s !! t1 = None → t0 ≠ t1 →
  verify_single_token token (controller_jwt state) = Ok v →
  is_new_payload (req_method r) = true →
  decode_new_payload (multiplexer state) r = Done (Ok d) →
  let ep := ep_from_json (dec_payload d) in
  (∀ e, lru_peek (ep_block_hash ep) (new_payload_cache (mem_caches (sys_mem s))) = Some e →
     is_definite (entry_status e) = false) →
  let answered a := MkTask (PostCanonical token (Ok r))
    (Ret (ControllerReply (Response_new (req_id r) (jps_from_status a)))) in
  ∃ npr s',
    new_payload_request_from_parts ep (dec_versioned_hashes d)
      (dec_parent_beacon_block_root d) (dec_execution_requests d) = Done npr ∧
    rtc (sys_step state) s s' ∧
    mem_hist (sys_mem s') = (RController, CallNewPayload npr (Ok a1)) ::
                            (RController, CallNewPayload npr (Ok a0)) :: mem_hist (sys_mem s) ∧
    sys_tasks s' = <[t0 := answered a0]> (<[t1 := answered a1]> (sys_tasks s)) ∧
    lru_peek (ep_block_hash ep) (new_payload_cache (mem_caches (sys_mem s'))) =
      Some {| entry_status := jps_from_status a0; entry_block_number := ep_block_number ep |}.
Proof.
  intros Hfree Ht0 Ht1 Hne Hv Hm Hd ep Hno answered.
  destruct (new_payload_request_total (multiplexer state) r d) as [npr Hnpr];
    [by apply is_new_payload_spec|done|].
  set (req := PostCanonical token (Ok r)) in *.
  set (start := MkTask req (route state req)).
  set (s0 := MkSys (sys_mem s) (<[t1 := start]> (<[t0 := start]> (sys_tasks s)))).
  assert (Hs0 : rtc (sys_step state) s s0).
  { eapply rtc_l; [exists (LReceive t0 req); simpl; by rewrite Ht0|].
    eapply rtc_l; [|reflexivity]. exists (LReceive t1 req). simpl.
    by rewrite lookup_insert_ne, Ht1 by done. }
  destruct (advance_lookup state token r v req d ep npr eq_refl Hv Hm Hd eq_refl Hnpr t0 s0 Hfree Hno)
    as (cs1 & s1 & [Hs1 Hf1 Hh1 Hc1 Hk1] & Hsame1); [simpl; simplify_map_eq; done|].
  destruct (advance_call state token r req ep npr eq_refl t0 a0 s1 Hf1)
    as (s2 & [Hs2 Hf2 Hh2 Hc2 Hk2]); [rewrite Hk1; by simplify_map_eq|].
  destruct (advance_lookup state token r v req d ep npr eq_refl Hv Hm Hd eq_refl Hnpr t1 s2 Hf2)
    as (cs3 & s3 & [Hs3 Hf3 Hh3 Hc3 Hk3] & _).
  { intros e. rewrite Hc2, Hc1. pose proof (Hsame1 MNewPayload) as [_ Hp]. cbn in Hp.
    rewrite Hp. apply Hno. }
  { rewrite Hk2, Hk1. simpl. by simplify_map_eq. }
  destruct (advance_call state token r req ep npr eq_refl t1 a1 s3 Hf3)
    as (s4 & [Hs4 Hf4 Hh4 Hc4 Hk4]); [rewrite Hk3; by simplify_map_eq|].
  destruct (advance_store state r req ep t1 a1 s4 Hf4)
    as (cs5 & s5 & [Hs5 Hf5 Hh5 Hc5 Hk5] & _); [rewrite Hk4; by simplify_map_eq|].
  destruct (advance_store state r req ep t0 a0 s5 Hf5)
    as (cs6 & s6 & [Hs6 Hf6 Hh6 Hc6 Hk6] & Hentry);
    [rewrite Hk5, Hk4, Hk3, Hk2; by simplify_map_eq|].
  exists npr, s6. split_and!; [done|..].
  - do 6 (etrans; [eassumption|]). done.
  - rewrite Hh6, Hh5, Hh4, Hh3, Hh2, Hh1. done.
  - rewrite Hk6, Hk5, Hk4, Hk3, Hk2, Hk1. simpl. unfold answered.
    apply map_eq. intros t.
    destruct (decide (t0 = t)), (decide (t1 = t)); subst; by simplify_map_eq.
  - by rewrite Hc6.
Qed.
End properties.

(** * On a concrete server *)

Section witnesses.
Import ToyInstances.
#[local] Open Scope Z_scope.

Lemma late_answer_overwrites_witness :
  ∃ s, reachable toy_state toy_caches s ∧
    mem_hist (sys_mem s) = [(RController, CallNewPayload toy_npr (Ok Valid));
                            (RController, CallNewPayload toy_npr (Ok Syncing))] ∧
    lru_peek 7006 (new_payload_cache (mem_caches (sys_mem s))) =
      Some {| entry_status := MkJsonPayloadStatusV1 Syncing None None; entry_block_number := 7 |}.
Proof.
  assert (Hd : decode_new_payload toy_statics toy_new_payload = Done (Ok toy_decoded)) by computes.
  assert (Hn : new_payload_request_from_parts (ep_from_json (dec_payload toy_decoded))
    (dec_versioned_hashes toy_decoded) (dec_parent_beacon_block_root toy_decoded)
    (dec_execution_requests toy_decoded) = Done toy_npr) by computes.
  assert (Hv : verify_single_token "controller" (controller_jwt toy_state) =
    Ok (None, "controller")) by computes.
  assert (Hno : ∀ e, lru_peek 7006 (new_payload_cache toy_caches) = Some e →
    is_definite (entry_status e) = false) by (intros e He; discriminate (He : None = Some e)).
  destruct (late_answer_overwrites toy_state (sys_init toy_caches 0) 0 1 "controller"
    (None, "controller") toy_new_payload toy_decoded Syncing Valid (λ _, eq_refl) eq_refl eq_refl
    ltac:(done) Hv eq_refl Hd Hno) as (npr & s & Hnpr & Hs & Hh & _ & He).
  pose proof (eq_trans (eq_sym Hn) Hnpr) as Heq. injection Heq as <-.
  exists s. split; [by exists 0|]. split; [exact Hh|exact He].
Defined.
End witnesses.
