(* ===== verification/BuilderProps.v ===== *)
(** The payload builder: registering attributes, building and serving payloads. *)
From S2P Require Import Prelude Uint256 BaseFee Lru RecencyList Lighthouse Types Config.
From S2P Require Import Multiplexer Prog Logic Shared PayloadBuilder BuilderSpec Fcu NewPayload.
From S2P Require Import Alone Meta Jwt Main Toy System Isolation Invariant Backed Replies Tracing.
From S2P Require Import BuilderCoherence Eviction ServerProps AloneSpecs.

Section run.
Context `{NetworkOps}.
Variable self : Statics.

Lemma run_get_existing_payload_id env w parent pa :
  let r := get_existing_payload_id_locked (parent, pa) (payload_builder (w_caches w)) in
  (run env (get_existing_payload_id parent pa) w).1 = Returned (ok_or ("no payload ID known for parent " +:+ debug_block_hash parent) r.1) ∧
  w_caches (run env (get_existing_payload_id parent pa) w).2 = set_guarded MBuilder r.2 (w_caches w) ∧
  w_calls (run env (get_existing_payload_id parent pa) w).2 = w_calls w.
Proof.
  intros r. assert (Hwp : wp (alone env) (get_existing_payload_id parent pa) w
    (λ x w', x = Returned (ok_or ("no payload ID known for parent " +:+ debug_block_hash parent)
                             r.1) ∧
      w_caches w' = set_guarded MBuilder r.2 (w_caches w) ∧ w_calls w' = w_calls w)).
  { apply wp_bind, alone_locked. intros w1 (Hc1 & Hk1 & _). by split_and!. }
  by apply alone_run in Hwp.
Qed.

Context `{!ExtOk}.

Lemma get_payload_value i b : (get_payload_locked i b).1 = lru_peek i (payloads b).
Proof.
  unfold get_payload_locked. pose proof (get_value i (payloads b)).
  by destruct (lru_get i (payloads b)).
Qed.

Lemma get_existing_value key b :
  (get_existing_payload_id_locked key b).1 = lru_peek key (payload_attributes b).
Proof.
  unfold get_existing_payload_id_locked. pose proof (get_value key (payload_attributes b)).
  by destruct (lru_get key (payload_attributes b)).
Qed.

Lemma peek_first {K V} `{EqDecision K} (k : K) (v : V) (c : Cache K V) cap l :
  lru_iter c = push_front (Pos.to_nat cap) k v l → lru_peek k c = Some v.
Proof.
  unfold lru_peek. intros ->. apply alookup_push_front_eq. lia.
Qed.

End run.

(** * Properties *)

Section properties.
Context `{ExtOk} `{!NetworkOps}.
Variable self : Statics.

(** C22: run on its own, [register_attributes] implements its abstract specification: for a
    timestamp of a slot the reply and the builder afterwards are related by [registered]
    (known attributes, unknown parent, payload refused, or payload built under a fresh id),
    no other cache changes and the engine is not called; a timestamp before genesis is an
    error and changes nothing. *)
Theorem register_attributes_refines env w parent pa :
  match timestamp_to_slot self (pa_timestamp pa) with
  | Some slot =>
    ∃ o b', registered self slot parent pa (payload_builder (w_caches w)) o b' ∧
      (run env (register_attributes self parent pa) w).1 =
        match o with Done res => Returned res | Panicked m => Unwound m end ∧
      w_caches (run env (register_attributes self parent pa) w).2 =
        set_guarded MBuilder b' (w_caches w) ∧
      w_calls (run env (register_attributes self parent pa) w).2 = w_calls w
  | None =>
    run env (register_attributes self parent pa) w =
      (Returned (Err ("invalid timestamp " +:+ pretty (pa_timestamp pa))), w)
  end.
Proof.
  destruct (timestamp_to_slot self (pa_timestamp pa)) as [slot|] eqn:Hslot.
  - pose proof (run_register_attributes self env w slot parent pa Hslot) as Hrun.
    pose proof (register_attributes_registered self slot parent pa
      (payload_builder (w_caches w))) as Hreg.
    eexists _, _. split; [exact Hreg|exact Hrun].
  - unfold register_attributes. by rewrite Hslot.
Qed.

(** C23: what is built.  For a parent with a usable gas limit and a block number below the
    maximum, a payload is built exactly for the forks from Bellatrix to Electra, with
    withdrawals from Capella on; it is an empty child of the parent with the fields the
    attributes ask for, the base fee of EIP-1559 and the hash of its own content. *)
Theorem build_payload_branches extra slot parent pa info :
  is_u64 (info_gas_limit info) → (2 ≤ info_gas_limit info)%Z →
  (info_block_number info + 1 < two64)%Z →
  let result := build_payload self extra slot parent pa info in
  match fork_name_at_slot (spec self) slot with
  | Base | Altair => ∃ m, result = Done (Err m)
  | Fulu => result = Done (Err "Fulu not supported")
  | Bellatrix => ∃ p, result = Done (Ok p) ∧ built self extra slot parent pa info p
  | Capella | Deneb | Electra =>
    match pa_withdrawals pa with
    | None => result = Done (Err "no withdrawals")
    | Some _ => ∃ p, result = Done (Ok p) ∧ built self extra slot parent pa info p
    end
  end.
Proof.
  intros Hl Hl2 Hn result.
  assert (Hbuilt : ∀ p, result = Done (Ok p) → built self extra slot parent pa info p)
    by (intros p; by apply build_payload_built).
  assert (Hex : (∃ p, result = Done (Ok p)) →
    ∃ p, result = Done (Ok p) ∧ built self extra slot parent pa info p) by naive_solver.
  destruct no_transactions as (txs & Htxs & _).
  destruct (expected_base_fee_total (info_base_fee_per_gas info) (info_gas_used info)
    (info_gas_limit info) Hl Hl2) as [fee Hfee].
  unfold result, build_payload in *. rewrite u64_add_done, Htxs, Hfee in * by done. simpl in *.
  destruct (fork_name_at_slot (spec self) slot); simpl in *; eauto;
    try (destruct (pa_withdrawals pa); simpl in *; eauto);
    destruct (calculate_execution_block_hash _ _ _); simpl in *; eauto.
Qed.

(** an id that was just given out is worth its name: after [register_attributes] has
    built a payload, [get_payload] with the id returns that payload, built for the
    attributes on the parent the builder knew, a client asking for the same attributes
    gets the id, and so does the controller asking again. *)
Theorem register_then_get env w parent pa i :
  lru_peek (parent, pa) (payload_attributes (payload_builder (w_caches w))) = None →
  (run env (register_attributes self parent pa) w).1 = Returned (Ok i) →
  let w' := (run env (register_attributes self parent pa) w).2 in
  (∃ p slot info, timestamp_to_slot self (pa_timestamp pa) = Some slot ∧
     lru_peek parent (payload_info (payload_builder (w_caches w))) = Some info ∧
     built self (extra_data (payload_builder (w_caches w))) slot parent pa info p ∧
     (run env (get_payload i) w').1 = Returned (Ok p)) ∧
  (run env (get_existing_payload_id parent pa) w').1 = Returned (Ok i) ∧
  (run env (register_attributes self parent pa) w').1 = Returned (Ok i).
Proof.
  intros Hnew Hret w'.
  destruct (timestamp_to_slot self (pa_timestamp pa)) as [slot|] eqn:Hslot.
  2: { unfold register_attributes in Hret. by rewrite Hslot in Hret. }
  destruct (run_register_attributes self env w slot parent pa Hslot) as (Hx & Hc & _).
  pose proof (register_attributes_registered self slot parent pa
    (payload_builder (w_caches w))) as Hreg.
  fold w' in Hc. rewrite Hret in Hx. clearbody w'.
  set (r := register_attributes_locked self slot parent pa (payload_builder (w_caches w))) in *.
  assert (Hb : payload_builder (w_caches w') = r.2) by (by rewrite Hc).
  destruct (run_get_payload env w' i) as (-> & _ & _).
  destruct (run_get_existing_payload_id env w' parent pa) as (-> & _ & _).
  destruct (run_register_attributes self env w' slot parent pa Hslot) as (-> & _ & _).
  pose proof (register_attributes_registered self slot parent pa
    (payload_builder (w_caches w'))) as Hreg2.
  rewrite get_payload_value, get_existing_value, Hb in *. clearbody r.
  destruct r as [o b']. simpl in *.
  inversion Hreg as [i' b1 Hk|b1|info o' b1 _ _ _ Hno _|info p o' b1 _ Hinfo Hbuild Hadd _ _
    Hattrs _ Hpay _]; subst; simplify_eq.
  - destruct o' as [[p|m]|m]; [by destruct (Hno p)|done..].
  - destruct (u64_add _ _); simplify_eq.
    assert (Hk : lru_peek (parent, pa) (payload_attributes (payload_builder (w_caches w'))) =
      Some (to_be_bytes (next_payload_id (payload_builder (w_caches w)))))
      by (by eapply peek_first).
    split_and!.
    + exists p, slot, info. split_and!; [done..|by apply build_payload_built|].
      rewrite Hpay. by rewrite peek_put_eq.
    + by rewrite Hk.
    + inversion Hreg2; congruence.
Qed.

(** C25: a payload whose status is INVALID or INVALID_BLOCK_HASH is not registered, and nothing
    changes.  Any other is a known parent afterwards, the most recently used one, with the
    information of the first payload seen under its hash; of the parents known before, all
    stay in their order, except that the least recently used one goes if a new parent
    comes and there is no room.  Nothing else of the builder changes, no other cache does,
    and the engine is not called. *)
Theorem register_canonical_effect env w payload st :
  let b := payload_builder (w_caches w) in
  let w' := (run env (register_canonical_payload payload st) w).2 in
  let b' := payload_builder (w_caches w') in
  let others := filter (λ parent, parent.1 ≠ ep_block_hash payload) (lru_iter (payload_info b)) in
  (run env (register_canonical_payload payload st) w).1 = Returned tt ∧
  w_calls w' = w_calls w ∧
  if bool_decide (st = Invalid ∨ st = InvalidBlockHash) then w_caches w' = w_caches w
  else
    lru_iter (payload_info b') =
      match lru_peek (ep_block_hash payload) (payload_info b) with
      | Some info => (ep_block_hash payload, info) :: others
      | None => take (Pos.to_nat (lru_cap (payload_info b)))
                  ((ep_block_hash payload, payload_info_of payload) :: others)
      end ∧
    lru_cap (payload_info b') = lru_cap (payload_info b) ∧
    (next_payload_id b', payload_attributes b', payloads b', extra_data b') =
      (next_payload_id b, payload_attributes b, payloads b, extra_data b) ∧
    ∀ m, m ≠ MBuilder → get_guarded m (w_caches w') = get_guarded m (w_caches w).
Proof.
  intros b w' b' others.
  assert (Hwp : wp (alone env) (register_canonical_payload payload st) w
    (λ x w1, x = Returned tt ∧ w_calls w1 = w_calls w ∧
       w_caches w1 = if bool_decide (st = Invalid ∨ st = InvalidBlockHash) then w_caches w
                     else set_guarded MBuilder (register_canonical_payload_locked payload b)
                            (w_caches w))).
  { unfold register_canonical_payload.
    destruct (bool_decide (st = Invalid) || bool_decide (st = InvalidBlockHash)) eqn:Hst.
    - simpl. split_and!; [done..|]. rewrite bool_decide_eq_true_2; [done|].
      apply orb_true_iff in Hst as [?%bool_decide_eq_true|?%bool_decide_eq_true]; auto.
    - apply alone_locked. intros w1 (Hc & Hk & _). split_and!; [done..|].
      apply orb_false_iff in Hst as [?%bool_decide_eq_false ?%bool_decide_eq_false].
      rewrite bool_decide_eq_false_2 by naive_solver. exact Hc. }
  apply alone_run in Hwp. destruct Hwp as (-> & Hk & Hc). fold w' in Hk, Hc.
  split_and!; [done..|]. unfold b'. rewrite Hc.
  destruct (bool_decide (st = Invalid ∨ st = InvalidBlockHash)); [done|].
  split_and!.
  1-3: simpl; unfold register_canonical_payload_locked;
    pose proof (lru_goi_iter (ep_block_hash payload) (λ _ : unit, payload_info_of payload)
      (payload_info b)) as Hiter;
    pose proof (lru_goi_cap (ep_block_hash payload) (λ _ : unit, payload_info_of payload)
      (payload_info b)) as Hcap;
    destruct (lru_get_or_insert _ _ _) as [v infos]; simpl in *.
  - rewrite Hiter. unfold lru_peek, touch. by destruct (alookup _ _).
  - done.
  - done.
  - intros m Hm. by rewrite get_set_guarded_ne.
Qed.

(** a slot is found for every timestamp from genesis on, and it is the slot the
    timestamp lies in; there is none before genesis or for slots without length. *)
Theorem timestamp_to_slot_bounds ts :
  is_u64 ts → is_u64 (genesis_time self) → is_u64 (seconds_per_slot (spec self)) →
  match timestamp_to_slot self ts with
  | Some slot =>
    is_u64 (slot_value slot) ∧
    (genesis_time self + slot_value slot * seconds_per_slot (spec self) ≤ ts <
     genesis_time self + (slot_value slot + 1) * seconds_per_slot (spec self))%Z
  | None => (ts < genesis_time self)%Z ∨ seconds_per_slot (spec self) = 0%Z
  end.
Proof.
  intros Hts Hg Hs. unfold timestamp_to_slot.
  destruct (u64_checked_sub ts (genesis_time self)) as [d|] eqn:Hd; simpl.
  2: { unfold u64_checked_sub in Hd. destruct (Z.leb_spec (genesis_time self) ts); [done|].
       by left. }
  pose proof (u64_checked_sub_range _ _ _ Hts Hg Hd) as Hdr.
  destruct (u64_checked_div d (seconds_per_slot (spec self))) as [q|] eqn:Hq; simpl.
  2: { unfold u64_checked_div in Hq. destruct (Z.eqb_spec (seconds_per_slot (spec self)) 0);
       [by right|done]. }
  split; [exact (u64_checked_div_range _ _ _ Hdr Hs Hq)|]. simpl.
  unfold u64_checked_sub, u64_checked_div, is_u64 in *. cases.
  pose proof (Z.div_mod (ts - genesis_time self) (seconds_per_slot (spec self))).
  pose proof (Z.mod_pos_bound (ts - genesis_time self) (seconds_per_slot (spec self))). nia.
Qed.

(** A new builder is empty whatever the configured extra data: text which
    is too long is cut at the protocol's bound, and nothing panics. *)
Theorem PayloadBuilder_new_total size text :
  ∃ b, PayloadBuilder_new size text = Done b ∧ next_payload_id b = 0%Z ∧
    vl_contents (extra_data b) = take (Z.to_nat MaxExtraDataBytes) (as_bytes text) ∧
    (lru_iter (payload_attributes b), lru_iter (payload_info b), lru_iter (payloads b)) =
      ([], [], []) ∧
    (lru_cap (payload_attributes b), lru_cap (payload_info b), lru_cap (payloads b)) =
      (size, size, size).
Proof.
  pose proof MaxExtraDataBytes_nonneg as Hmax. unfold PayloadBuilder_new.
  set (bytes := as_bytes text). set (len := Z.min (Z.of_nat (length bytes)) MaxExtraDataBytes).
  destruct (vl_new_ok MaxExtraDataBytes (take (Z.to_nat len) bytes)) as (v & -> & Hv).
  { rewrite length_take. lia. }
  simpl. eexists. split; [done|]. simpl.
  rewrite Hv, !lru_iter_new, !lru_cap_new. split_and!; try done.
  - destruct (Z.le_gt_cases (Z.of_nat (length bytes)) MaxExtraDataBytes).
    + rewrite !take_ge by lia. done.
    + by replace len with MaxExtraDataBytes by lia.
Qed.
End properties.

Section server.
Context `{ExtOk} `{!NetworkOps} `{JwtOps}.
Variable state : AppState.

(** C24: the builder is coherent after every schedule (of less than [2^64] steps) of a server
    that has just started: no two attributes share an id, and the payload stored under the
    id of some attributes was built for exactly those attributes, on a block whose payload
    the engine answered the controller with a status other than INVALID. *)
Theorem builder_always_coherent cs now n s :
  fresh cs → next_payload_id (payload_builder cs) = 0%Z →
  nsteps (sys_step state) n (sys_init cs now) s → (Z.of_nat n < two64)%Z →
  let b := payload_builder (mem_caches (sys_mem s)) in
  (∀ key1 key2 i, lru_peek key1 (payload_attributes b) = Some i →
     lru_peek key2 (payload_attributes b) = Some i → key1 = key2) ∧
  (∀ parent pa i p, lru_peek (parent, pa) (payload_attributes b) = Some i →
     lru_peek i (payloads b) = Some p →
     ∃ slot info, timestamp_to_slot (multiplexer state) (pa_timestamp pa) = Some slot ∧
       backed_info (mem_hist (sys_mem s)) parent info ∧
       built (multiplexer state) (extra_data b) slot parent pa info p).
Proof.
  intros Hcs Hzero Hn Hlt b.
  destruct (builder_ok_nsteps state cs now n s Hcs Hzero Hn Hlt) as [[_ _ _ Hun Hco] _].
  split; [exact Hun|]. intros parent pa i p. apply (Hco (parent, pa)).
Qed.

(** C15: a getPayload which either endpoint answers with a payload is answered with one the
    builder made for some attributes: an empty block with a base fee by EIP-1559, in the
    structure of its fork, that extends a block whose payload the engine answered the
    controller with a status other than INVALID and INVALID_BLOCK_HASH, and that carries
    on from the number, the state root and the gas of that very payload. *)
Theorem get_payload_traced cs s t req r resp :
  fresh cs → reachable state cs s → is_get_payload (req_method r) = true →
  (∃ token v, verify (client_jwt_collection state) token = Ok v ∧
     req = PostRoot token (Ok (Requests_Single r)) ∧
     sys_tasks s !! t = Some (MkTask req (Ret (ClientReply (Responses_Single (MER_Ok resp)))))) ∨
  (∃ token v, verify_single_token token (controller_jwt state) = Ok v ∧
     req = PostCanonical token (Ok r) ∧
     sys_tasks s !! t = Some (MkTask req (Ret (ControllerReply (Ok resp))))) →
  ∃ i p response extra slot pa npr answer,
    parse_as (tuple1 TransparentJsonPayloadId) r =
      Ok (req_id r, Tuple1 (MkTransparentJsonPayloadId i)) ∧
    get_payload_response (jep_from_payload p) = Done response ∧
    Response_new (req_id r) response = Ok resp ∧
    (RController, CallNewPayload npr (Ok answer)) ∈ mem_hist (sys_mem s) ∧
    status (jps_from_status answer) ≠ Invalid ∧
    status (jps_from_status answer) ≠ InvalidBlockHash ∧
    timestamp_to_slot (multiplexer state) (pa_timestamp pa) = Some slot ∧
    built (multiplexer state) extra slot (ep_block_hash (npr_payload npr)) pa
      (payload_info_of (npr_payload npr)) p.
Proof.
  intros Hcs Hr Hm Htask.
  assert (Hget : get_payload_reply (multiplexer state) r (Ok resp) (mem_hist (sys_mem s))).
  { destruct Htask as [(token & v & Hv & -> & Ht)|(token & v & Hv & -> & Ht)];
      destruct (finished_reply _ _ _ _ _ _ Hcs Hr Ht) as (k & [Hk _] & Hx); simpl in Hx.
    - unfold client_traced in Hx. rewrite Hv in Hx.
      destruct Hx as ([x|e] & Heq & _ & _ & Hx); simplify_eq/=.
      by apply (common_reply_mono _ _ _ _ _ _ Hk Hx).
    - unfold controller_traced in Hx. rewrite Hv in Hx.
      destruct Hx as (_ & _ & Hx). by apply (common_reply_mono _ _ _ _ _ _ Hk Hx). }
  destruct (Hget _ eq_refl) as (i & p & response & Hi & Hd & Hresp & Hnew).
  destruct Hd as (extra & [parent pa] & slot & info & Hslot & Hinfo & Hb).
  destruct Hinfo as (npr & answer & Hin & Hparent & Hpi & Hst1 & Hst2). simpl in *. subst.
  exists i, p, response, extra, slot, pa, npr, answer. by split_and!.
Qed.

(** C38: an id can outlive its payload.  In whichever state the server has reached (in less
    than [2^64] steps, with room for two ids): if some attributes have an id and their parent
    is known, and the controller asks for them again and again while it asks for as many
    new attributes of the same parent, for which payloads can be built, as the cache of
    payloads has places, then the attributes are still answered with their id, and
    [get_payload] does not know it.  (Asking for known attributes refreshes the id in the
    one cache, but not the payload in the other.) *)
Theorem known_id_without_payload cs now n s env parent pa i info others clock :
  fresh cs → next_payload_id (payload_builder cs) = 0%Z →
  nsteps (sys_step state) n (sys_init cs now) s →
  (Z.of_nat (n + length others) < two64)%Z →
  let b := payload_builder (mem_caches (sys_mem s)) in
  lru_peek (parent, pa) (payload_attributes b) = Some i →
  lru_peek parent (payload_info b) = Some info →
  2 ≤ Pos.to_nat (lru_cap (payload_attributes b)) →
  Pos.to_nat (lru_cap (payloads b)) ≤ length others →
  NoDup others →
  (∀ a, a ∈ others → lru_peek (parent, a) (payload_attributes b) = None ∧
     ∃ slot p, timestamp_to_slot (multiplexer state) (pa_timestamp a) = Some slot ∧
       build_payload (multiplexer state) (extra_data b) slot parent a info = Done (Ok p)) →
  let w' := foldl (asked_again (multiplexer state) parent pa env) (MkWorld (mem_caches (sys_mem s)) clock []) others in
  (run env (register_attributes (multiplexer state) parent pa) w').1 = Returned (Ok i) ∧
  (run env (get_payload i) w').1 =
    Returned (Err ("unknown payload ID: " +:+ pretty (from_be_bytes i))).
Proof.
  intros Hcs Hzero Hn Hlt b Hk Hinfo Hids Hcap Hnd Hall w'.
  destruct (known_issued state cs now n s (parent, pa) i Hcs Hn Hk)
    as (_ & _ & _ & p & _ & _ & _ & _ & _ & slot & _ & Hslot & _).
  destruct (builder_ok_nsteps state cs now n s Hcs Hzero Hn) as [Hok Hnext]; [lia|].
  assert (Hstart : refreshing (multiplexer state) parent pa i info (extra_data b) 0 others b).
  { split; try done.
    - by eapply builder_ok_mono; [|exact Hok].
    - fold b in Hnext. lia.
    - by apply Forall_forall.
    - apply not_elem_of_nil. }
  pose proof (refreshing_rounds (multiplexer state) parent pa i info (extra_data b) env slot Hslot
    others (MkWorld (mem_caches (sys_mem s)) clock []) 0 Hstart) as Hend. fold w' in Hend.
  destruct (run_register_attributes (multiplexer state) env w' slot parent pa Hslot) as (-> & _).
  destruct (run_get_payload env w' i) as (-> & _).
  rewrite get_payload_value, (refreshing_gone _ _ _ _ _ _ _ _ Hend).
  by rewrite (register_known _ _ _ _ _ _ (rf_known _ _ _ _ _ _ _ _ _ Hend)).
Qed.
End server.

(** * The properties on a concrete builder *)

Section witnesses.
Import ToyInstances.
#[local] Open Scope Z_scope.

(** Block 7 is a known parent. *)
Definition toy_parent_builder : PayloadBuilder :=
  register_canonical_payload_locked toy_parent toy_builder.

Definition toy_parent_world : World :=
  MkWorld (set_guarded MBuilder toy_parent_builder toy_caches) 0 [].

Definition toy_pa : toy_attributes := ToyAttributes 1096 5 6 [] None.

Lemma register_attributes_refines_witness :
  ∃ o b', registered toy_statics (Slot_new 8) 7006 toy_pa toy_parent_builder o b' ∧
    (run toy_env (register_attributes toy_statics 7006 toy_pa) toy_parent_world).1 =
      match o with Done res => Returned res | Panicked m => Unwound m end ∧
    w_caches (run toy_env (register_attributes toy_statics 7006 toy_pa) toy_parent_world).2 =
      set_guarded MBuilder b' (w_caches toy_parent_world) ∧
    w_calls (run toy_env (register_attributes toy_statics 7006 toy_pa) toy_parent_world).2 = [].
Proof. exact (register_attributes_refines toy_statics toy_env toy_parent_world 7006 toy_pa). Defined.

Lemma build_payload_branches_witness :
  ∃ p, build_payload toy_statics [] (Slot_new 8) 7006 toy_pa (payload_info_of toy_parent) =
         Done (Ok p) ∧
       built toy_statics [] (Slot_new 8) 7006 toy_pa (payload_info_of toy_parent) p.
Proof.
  refine (build_payload_branches toy_statics [] (Slot_new 8) 7006 toy_pa
            (payload_info_of toy_parent) _ _ _); [split|..]; done.
Defined.

Lemma register_then_get_witness :
  let w' := (run toy_env (register_attributes toy_statics 7006 toy_pa) toy_parent_world).2 in
  (∃ p slot info, timestamp_to_slot toy_statics (pa_timestamp toy_pa) = Some slot ∧
     lru_peek 7006 (payload_info toy_parent_builder) = Some info ∧
     built toy_statics (extra_data toy_parent_builder) slot 7006 toy_pa info p ∧
     (run toy_env (get_payload [0; 0; 0; 0; 0; 0; 0; 0]) w').1 = Returned (Ok p)) ∧
  (run toy_env (get_existing_payload_id 7006 toy_pa) w').1 =
    Returned (Ok [0; 0; 0; 0; 0; 0; 0; 0]) ∧
  (run toy_env (register_attributes toy_statics 7006 toy_pa) w').1 =
    Returned (Ok [0; 0; 0; 0; 0; 0; 0; 0]).
Proof.
  refine (register_then_get toy_statics toy_env toy_parent_world 7006 toy_pa
            [0; 0; 0; 0; 0; 0; 0; 0] _ _).
  - computes.
  - computes.
Defined.

(** The controller sends block 7, makes it the head and asks for a child. *)
Lemma builder_always_coherent_witness :
  let s := toy_after toy_schedule_build in
  let b := payload_builder (mem_caches (sys_mem s)) in
  ∃ p, lru_peek (to_be_bytes 0) (payloads b) = Some p ∧
    ∃ slot info, timestamp_to_slot toy_statics 1096 = Some slot ∧
      backed_info (mem_hist (sys_mem s)) 7006 info ∧
      built toy_statics (extra_data b) slot 7006 toy_pa info p.
Proof.
  assert (Hn : nsteps (sys_step toy_state) 28 (sys_init toy_caches 0)
                 (toy_after toy_schedule_build)).
  { apply (toy_after_nsteps toy_schedule_build). computes. }
  assert (Hp : is_Some (lru_peek (to_be_bytes 0)
    (payloads (payload_builder (mem_caches (sys_mem (toy_after toy_schedule_build))))))).
  { apply (bool_decide_unpack _). vm_compute. exact I. }
  destruct Hp as [p Hp]. intros s b. exists p. split; [exact Hp|].
  refine (proj2 (builder_always_coherent toy_state toy_caches 0 28 s toy_fresh eq_refl Hn _)
    7006 toy_pa (to_be_bytes 0) p _ Hp).
  - reflexivity.
  - computes.
Defined.

(** A client fetches the block of the first id. *)
Definition toy_get_payload : Request := MkRequest "2.0" "engine_getPayloadV2" 
  (TArr [TArr (TNum <$> to_be_bytes 0)]) (TNum 4).
Definition toy_schedule_get : list label :=
  toy_schedule_build ++ LReceive 2 (toy_client toy_get_payload) :: turns 2 NoAnswer 3.

Definition toy_get_response : Response :=
  MkResponse "2.0" (TNum 4)
    (TObj [("hash", TNum 8006); ("parent", TNum 7006); ("number", TNum 8);
           ("timestamp", TNum 1096); ("baseFee", TNum 1000000000)]).

Lemma get_payload_traced_witness :
  ∃ i p response extra slot pa npr answer,
    parse_as (tuple1 TransparentJsonPayloadId) toy_get_payload =
      Ok (TNum 4, Tuple1 (MkTransparentJsonPayloadId i)) ∧
    get_payload_response (jep_from_payload p) = Done response ∧
    Response_new (TNum 4) response = Ok toy_get_response ∧
    (RController, CallNewPayload npr (Ok answer))
      ∈ mem_hist (sys_mem (toy_after toy_schedule_get)) ∧
    status (jps_from_status answer) ≠ Invalid ∧
    status (jps_from_status answer) ≠ InvalidBlockHash ∧
    timestamp_to_slot toy_statics (pa_timestamp pa) = Some slot ∧
    built toy_statics extra slot (ep_block_hash (npr_payload npr)) pa
      (payload_info_of (npr_payload npr)) p.
Proof.
  apply (get_payload_traced toy_state toy_caches (toy_after toy_schedule_get) 2
           (toy_client toy_get_payload) toy_get_payload toy_get_response).
  - exact toy_fresh.
  - apply toy_after_reachable. computes.
  - reflexivity.
  - left. exists "alice:alpha", (Some "alice", "alpha").
    split; [computes|split; [reflexivity|computes]].
Defined.

Lemma register_canonical_effect_witness :
  let w' := (run toy_env (register_canonical_payload toy_parent Valid) toy_world).2 in
  lru_iter (payload_info (payload_builder (w_caches w'))) = [(7006, payload_info_of toy_parent)].
Proof.
  destruct (register_canonical_effect toy_env toy_world toy_parent Valid) as (_ & _ & Hx).
  rewrite bool_decide_eq_false_2 in Hx by (by intros []). destruct Hx as [Hx _].
  cbv zeta. rewrite Hx. computes.
Defined.

Lemma timestamp_to_slot_bounds_witness :
  match timestamp_to_slot toy_statics 1096 with
  | Some slot => is_u64 (slot_value slot) ∧
      1000 + slot_value slot * 12 ≤ 1096 < 1000 + (slot_value slot + 1) * 12
  | None => 1096 < 1000 ∨ 12 = 0
  end.
Proof. refine (timestamp_to_slot_bounds toy_statics 1096 _ _ _); split; done. Defined.

Lemma PayloadBuilder_new_total_witness :
  ∃ b, PayloadBuilder_new 8 "Eleel" = Done b ∧
    next_payload_id b = 0 ∧ vl_contents (extra_data b) = as_bytes "Eleel" ∧
    (lru_iter (payload_attributes b), lru_iter (payload_info b), lru_iter (payloads b)) =
      ([], [], []) ∧
    (lru_cap (payload_attributes b), lru_cap (payload_info b), lru_cap (payloads b)) =
      (8%positive, 8%positive, 8%positive).
Proof. exact (PayloadBuilder_new_total 8 "Eleel"). Defined.

(** ** An id without a payload

    A builder with caches of size two, after the schedule in which the controller makes
    block 7 the head and asks for a child; it then asks for two others. *)

Definition toy_small_caches : Caches :=
  set_guarded MBuilder (MkPayloadBuilder 0 (lru_new 2) (lru_new 2) (lru_new 2) (extra_data toy_builder))
    toy_caches.

Definition toy_small : Sys :=
  default (sys_init toy_small_caches 0)
    (run_labels toy_state toy_schedule_build (sys_init toy_small_caches 0)).

Lemma toy_small_nsteps : nsteps (sys_step toy_state) 28 (sys_init toy_small_caches 0) toy_small.
Proof.
  assert (Hex : match run_labels toy_state toy_schedule_build (sys_init toy_small_caches 0) with
                | Some _ => true | None => false end = true) by computes.
  unfold toy_small.
  destruct (run_labels toy_state toy_schedule_build (sys_init toy_small_caches 0)) as [s|] eqn:Hrun;
    [|done].
  exact (run_labels_nsteps toy_state toy_schedule_build _ s Hrun).
Qed.

(** A child of block 7 can be built for the attributes [a]. *)
Definition toy_buildable (a : toy_attributes) : bool :=
  let b := payload_builder (mem_caches (sys_mem toy_small)) in
  match lru_peek (7006, a) (payload_attributes b), timestamp_to_slot toy_statics (pa_timestamp a) with
  | None, Some slot =>
    match build_payload toy_statics (extra_data b) slot 7006 a (payload_info_of toy_parent) with
    | Done (Ok _) => true
    | _ => false
    end
  | _, _ => false
  end.

Lemma toy_buildable_spec a :
  toy_buildable a = true →
  let b := payload_builder (mem_caches (sys_mem toy_small)) in
  lru_peek (7006, a) (payload_attributes b) = None ∧
  ∃ slot p, timestamp_to_slot toy_statics (pa_timestamp a) = Some slot ∧
    build_payload toy_statics (extra_data b) slot 7006 a (payload_info_of toy_parent) =
      Done (Ok p).
Proof.
  unfold toy_buildable. set (b := payload_builder _). cbv zeta. intros Ha.
  destruct (lru_peek _ _); [done|]. destruct (timestamp_to_slot _ _) as [slot|]; [|done].
  destruct (build_payload _ _ slot _ _ _) as [[p|]|] eqn:Hp; [|done..].
  split; [done|]. by exists slot, p.
Qed.

Lemma known_id_without_payload_witness :
  let others := [ToyAttributes 1108 5 6 [] None; ToyAttributes 1120 5 6 [] None] in
  let w' := foldl (asked_again toy_statics 7006 toy_pa toy_env)
              (MkWorld (mem_caches (sys_mem toy_small)) 0 []) others in
  (run toy_env (register_attributes toy_statics 7006 toy_pa) w').1 =
    Returned (Ok (to_be_bytes 0)) ∧
  (run toy_env (get_payload (to_be_bytes 0)) w').1 = Returned (Err "unknown payload ID: 0").
Proof.
  refine (known_id_without_payload toy_state toy_small_caches 0 28 toy_small toy_env 7006 toy_pa
    (to_be_bytes 0) (payload_info_of toy_parent) _ 0 _ eq_refl toy_small_nsteps _ _ _ _ _ _ _).
  - by split.
  - reflexivity.
  - computes.
  - computes.
  - apply Nat.leb_le. computes.
  - apply Nat.leb_le. computes.
  - apply NoDup_cons. split; [by intros ?%list_elem_of_singleton|apply NoDup_singleton].
  - intros a [->| ->%list_elem_of_singleton]%elem_of_cons; apply toy_buildable_spec; computes.
Defined.
End witnesses.
