(* ===== verification/HandlerProps.v ===== *)
(** Whole handlers, from the request to the response, on every branch. *)
From S2P Require Import Prelude Uint256 BaseFee Lru RecencyList Lighthouse Types Config.
From S2P Require Import Multiplexer Prog Logic Shared PayloadBuilder BuilderSpec Fcu NewPayload.
From S2P Require Import Alone Meta Jwt Main Methods Toy System Isolation Invariant Backed Replies.
From S2P Require Import Tracing AloneSpecs ServerProps BuilderProps.

Section properties.
Context `{ExtOk} `{!NetworkOps}.
Variable self : Statics.

(** The controller's newPayload, when no definite status is cached. *)
Definition controller_asks_engine (env : Env) (w : World) (npr : NewPayloadRequest)
    (ep : ExecutionPayload) (id : JsonValue) (cs : Caches)
    (x : exit (result Response ErrorResponse)) (w' : World) : Prop :=
  let ans := env_new_payload env (w_calls w) npr in
  w_calls w' = CallNewPayload npr ans :: w_calls w ∧
  match ans with
  | Ok a =>
    x = Returned (Response_new id (jps_from_status a)) ∧
    w_caches w' = store_new_payload ep (jps_from_status a) cs
  | Err _ =>
    x = Returned (Err (invalid_request id "payload verification failed: see eleel logs")) ∧
    w_caches w' = cs
  end.


(** C18: the whole of a client's forkchoiceUpdated.  A request that cannot be parsed gets a
    parse error.  Otherwise, if what the cache yields for the state, and the builder, do not
    change while the client waits, the reply carries the status which the cache yields,
    definite or not, or SYNCING; and, for a request with attributes, the id which the builder
    has for them on the head block, if it has one. *)
Theorem handle_fcu_functional env w r :
  let x := (run env (handle_fcu self r) w).1 in
  (∀ e, parse_as (JsonForkchoiceStateV1 * option JsonPayloadAttributesV2) r = Err e →
     x = Returned (Err e)) ∧
  ∀ fcu attrs,
    parse_as (JsonForkchoiceStateV1 * option JsonPayloadAttributesV2) r =
      Ok (req_id r, (fcu, attrs)) →
    let found cs := (cached_fcu self fcu false cs).1 in
    let stable cs :=
      payload_builder cs = payload_builder (w_caches w) ∧ found cs = found (w_caches w) ∧
      ∀ st, (cached_fcu self fcu true cs).1 = Some st → found (w_caches w) = Some st in
    (∀ t cs, stable cs → stable (env_others env t cs)) →
    w_calls (run env (handle_fcu self r) w).2 = w_calls w ∧
    x = Returned (Response_new (req_id r) {|
      payload_status := default synthetic_syncing (found (w_caches w));
      payload_id :=
        a ← attrs;
        MkTransparentJsonPayloadId <$>
          lru_peek (head_block_hash fcu, pa_from_json (JPA_V2 a))
            (payload_attributes (payload_builder (w_caches w)));
    |}).
Proof.
  intros x. split; [intros e Hp; unfold x, handle_fcu; by rewrite Hp|].
  intros fcu attrs Hp found stable Hothers. unfold x, handle_fcu. rewrite Hp, bind_result_Ok.
  match goal with |- context [run env ?p w] => set (prg := p) end.
  assert (Hwp : wp (alone env) prg w (λ x w', w_calls w' = w_calls w ∧
    x = Returned (Response_new (req_id r) {|
      payload_status := default synthetic_syncing (cached_fcu self fcu false (w_caches w)).1;
      payload_id := a ← attrs;
        MkTransparentJsonPayloadId <$>
          known_id (head_block_hash fcu) (pa_from_json (JPA_V2 a)) (w_caches w) |}))).
  { unfold prg. apply wp_bind,
      (alone_client_fcu_stable self env
         (λ cs, payload_builder cs = payload_builder (w_caches w)) fcu
         (cached_fcu self fcu false (w_caches w)).1);
      [done|exact Hothers|done|done|].
    intros w1 Hb1 Hk1. cbn [then_post]. apply wp_bind. destruct attrs as [a|]; [|by split].
    apply wp_bind, alone_get_existing_id. intros w2 Hk2.
    assert (known_id (head_block_hash fcu) (pa_from_json (JPA_V2 a)) (w_caches w1) =
            known_id (head_block_hash fcu) (pa_from_json (JPA_V2 a)) (w_caches w)) as ->
      by (unfold known_id; by rewrite Hb1).
    simpl. destruct (known_id _ _ _); simpl; (split; [congruence|done]). }
  by apply alone_run in Hwp.
Qed.

(** C20: the whole of the controller's newPayload.  A definite cached status is the reply, and
    the engine is not called.  Otherwise the engine is called once, with the request as it
    was decoded; its answer is the reply and replaces the entry of the block, whose payload
    becomes a known parent unless it is called INVALID.  An error of the engine is
    reported, and one of the decoder without a call; neither stores anything.  The handler
    never panics. *)
Theorem handle_controller_new_payload_functional env w r :
  is_new_payload (req_method r) = true →
  let x := (run env (handle_controller_new_payload self r) w).1 in
  let w' := (run env (handle_controller_new_payload self r) w).2 in
  match decode_new_payload self r with
  | Panicked _ => False
  | Done (Err e) => x = Returned (Err e) ∧ w' = w
  | Done (Ok d) =>
    let ep := ep_from_json (dec_payload d) in
    ∃ npr cs,
      new_payload_request_from_parts ep (dec_versioned_hashes d)
        (dec_parent_beacon_block_root d) (dec_execution_requests d) = Done npr ∧
      caches_same cs (w_caches w) ∧
      match lru_peek (ep_block_hash ep) (new_payload_cache (w_caches w)) with
      | Some e =>
        if is_definite (entry_status e) then
          x = Returned (Response_new (req_id r) (entry_status e)) ∧
          w_calls w' = w_calls w ∧ w_caches w' = cs
        else controller_asks_engine env w npr ep (req_id r) cs x w'
      | None => controller_asks_engine env w npr ep (req_id r) cs x w'
      end
  end.
Proof.
  intros Hm x w'. destruct (decode_new_payload_total self r) as [[d|e] Hd]; rewrite Hd.
  2: { unfold x, w', handle_controller_new_payload. by rewrite Hd. }
  intros ep. destruct (new_payload_request_total self r d) as [npr Hnpr];
    [by apply is_new_payload_spec|done|].
  pose proof (decode_new_payload_id self r _ Hd) as Hid. simpl in Hid.
  set (seen := cached_status (ep_block_hash ep) true (w_caches w)).
  exists npr, seen.2. split; [done|]. split.
  { intros m. unfold seen, cached_status. cbn [snd].
    destruct (decide (m = MNewPayload)) as [->|Hne]; [|by rewrite get_set_guarded_ne].
    rewrite get_set_guarded_eq. unfold get_cached_payload_status_locked. cbn [get_guarded].
    pose proof (get_same (ep_block_hash ep) (new_payload_cache (w_caches w))).
    by destruct (lru_get _ _). }
  assert (Hwp : wp (alone env) (handle_controller_new_payload self r) w (λ x w',
    match seen.1 with
    | Some st => x = Returned (Response_new (req_id r) st) ∧ w_calls w' = w_calls w ∧
                 w_caches w' = seen.2
    | None => controller_asks_engine env w npr ep (req_id r) seen.2 x w'
    end)).
  { unfold handle_controller_new_payload.
    rewrite Hd, lift_outcome_Done, bind_result_Ok, Hnpr, lift_outcome_Done, bind_Ret, Hid.
    apply wp_bind, alone_controller_new_payload_status. intros w1. cbv zeta. fold ep. fold seen.
    unfold controller_asks_engine. destruct seen.1 as [st|]; [by cbn|].
    intros Hk. destruct (env_new_payload env (w_calls w) npr); intros Hc; by cbn. }
  apply alone_run in Hwp. fold x w' in Hwp. unfold seen in Hwp at 1.
  rewrite cached_status_value in Hwp.
  destruct (lru_peek _ _) as [e|]; [|exact Hwp].
  cbn [negb orb] in Hwp. destruct (is_definite (entry_status e)); exact Hwp.
Qed.

(** The end of the controller's forkchoiceUpdated, with the status [st] and the caches [cs]:
    the attributes are registered, if there are any, and the reply is composed. *)
Definition registers_and_replies (r : Request) (fcu : JsonForkchoiceStateV1)
    (attrs : option JsonPayloadAttributes) (st : JsonPayloadStatusV1) (cs : Caches)
    (x : exit (result Response ErrorResponse)) (w' : World) : Prop :=
  let reply pid := Response_new (req_id r) {| payload_status := st; payload_id := pid |} in
  match pa_from_json <$> attrs with
  | None => x = Returned (reply None) ∧ w_caches w' = cs
  | Some pa =>
    match timestamp_to_slot self (pa_timestamp pa) with
    | None =>
      x = Returned (Err (invalid_payload_attributes (req_id r)
            ("invalid timestamp " +:+ pretty (pa_timestamp pa)))) ∧ w_caches w' = cs
    | Some slot =>
      ∃ o b, registered self slot (head_block_hash fcu) pa (payload_builder cs) o b ∧
        w_caches w' = set_guarded MBuilder b cs ∧
        x = match o with
            | Done (Ok i) => Returned (reply (Some (MkTransparentJsonPayloadId i)))
            | Done (Err m) => Returned (Err (invalid_payload_attributes (req_id r) m))
            | Panicked m => Unwound m
            end
    end
  end.

Lemma alone_registers_and_replies env r fcu attrs st w :
  wp (alone env)
    (let!? payload_id :=
       match attrs with
       | Some payload_attributes =>
         let! registered :=
           register_attributes self (head_block_hash fcu) (pa_from_json payload_attributes) in
         match registered with
         | Ok payload_id => Ret (Ok (Some (MkTransparentJsonPayloadId payload_id)))
         | Err message => Ret (Err (invalid_payload_attributes (req_id r) message))
         end
       | None => Ret (Ok None)
       end in
     Ret (Response_new (req_id r) {| payload_status := st; payload_id := payload_id |})) w
    (λ x w', registers_and_replies r fcu attrs st (w_caches w) x w' ∧ w_calls w' = w_calls w).
Proof.
  unfold registers_and_replies. destruct attrs as [a|]; [|done]. cbn [fmap option_fmap option_map].
  destruct (timestamp_to_slot self (pa_timestamp (pa_from_json a))) as [slot|] eqn:Hslot.
  2: { unfold register_attributes. by rewrite Hslot. }
  apply wp_bind, wp_bind, (alone_register_attributes self env slot); [done|].
  pose proof (register_attributes_registered self slot (head_block_hash fcu) (pa_from_json a)
    (payload_builder (w_caches w))) as Hreg.
  destruct (register_attributes_locked _ _ _ _ _) as [o b]. cbn [fst snd] in *.
  intros w' Hc Hk. destruct o as [[i|m]|m]; cbn [then_post wp];
    (split; [by eexists _, _|done]).
Qed.

(** What the controller's forkchoiceUpdated does once the request and its attributes are
    parsed. *)
Definition controller_updates (env : Env) (w : World) (r : Request) (fcu : JsonForkchoiceStateV1)
    (attrs : option JsonPayloadAttributes) (x : exit (result Response ErrorResponse))
    (w' : World) : Prop :=
  let seen := cached_fcu self fcu true (w_caches w) in
  let state := ForkchoiceState_from fcu in
  let ans := env_forkchoice_updated env (w_calls w) state None in
  match seen.1 with
  | Some st => w_calls w' = w_calls w ∧ registers_and_replies r fcu attrs st seen.2 x w'
  | None =>
    w_calls w' = CallForkchoiceUpdated state None ans :: w_calls w ∧
    match ans with
    | Err _ =>
      x = Returned (Err (invalid_request (req_id r)
            "forkchoice update failed: see eleel logs")) ∧ w_caches w' = seen.2
    | Ok answer =>
      let st := payload_status (jfcu_from_response answer) in
      registers_and_replies r fcu attrs st (store_fcu fcu st seen.2) x w'
    end
  end.

Lemma run_controller_updates env w r fcu json attrs :
  parse_as (JsonForkchoiceStateV1 * option JsonValue) r = Ok (req_id r, (fcu, json)) →
  controller_attributes r json = Ok attrs →
  controller_updates env w r fcu attrs (run env (handle_controller_fcu self r) w).1
    (run env (handle_controller_fcu self r) w).2.
Proof.
  intros Hparse Hattrs.
  assert (Hwp : wp (alone env) (handle_controller_fcu self r) w
    (controller_updates env w r fcu attrs)); [|by apply alone_run in Hwp].
  unfold handle_controller_fcu, controller_attributes, controller_updates in *.
  rewrite Hparse, bind_result_Ok, Hattrs, bind_result_Ok.
  apply wp_bind, alone_controller_fcu_status. intros w1. cbv zeta.
  destruct (cached_fcu self fcu true (w_caches w)).1 as [st|];
    [intros Hc1 Hk1|
     intros Hk1; destruct (env_forkchoice_updated _ _ _ _) as [answer|e]; intros Hc1];
    [| |by cbn [then_post wp]].
  all: cbn [then_post]; rewrite <- Hc1, <- Hk1.
  all: eapply wp_mono; [apply alone_registers_and_replies|]; intros x' w2 [Hx Hk]; by split.
Qed.


(** The controller's forkchoiceUpdated with attributes of version 2, when the engine is asked:
    what it returns is the engine's status and the id which the builder then has. *)
Lemma controller_fcu_registers env w r fcu json a answer resp :
  req_method r = ENGINE_FORKCHOICE_UPDATED_V2 →
  parse_as (JsonForkchoiceStateV1 * option JsonValue) r = Ok (req_id r, (fcu, Some json)) →
  from_value JsonPayloadAttributesV2 json = Ok a →
  (cached_fcu self fcu true (w_caches w)).1 = None →
  env_forkchoice_updated env (w_calls w) (ForkchoiceState_from fcu) None = Ok answer →
  (run env (handle_controller_fcu self r) w).1 = Returned (Ok resp) →
  let st := payload_status (jfcu_from_response answer) in
  let w' := (run env (handle_controller_fcu self r) w).2 in
  ∃ i b,
    Response_new (req_id r)
      {| payload_status := st; payload_id := Some (MkTransparentJsonPayloadId i) |} = Ok resp ∧
    known_id (head_block_hash fcu) (pa_from_json (JPA_V2 a)) (w_caches w') = Some i ∧
    w_caches w' =
      set_guarded MBuilder b (store_fcu fcu st (cached_fcu self fcu true (w_caches w)).2).
Proof.
  intros Hm Hctrl Hjson Hmiss Hans Hret st w'.
  assert (Hattrs : controller_attributes r (Some json) = Ok (Some (JPA_V2 a))).
  { unfold controller_attributes. rewrite Hm, String.eqb_refl. unfold parse_attributes. simpl.
    by rewrite Hjson. }
  pose proof (run_controller_updates env w r fcu (Some json) _ Hctrl Hattrs) as Hup.
  unfold controller_updates in Hup. rewrite Hmiss, Hans in Hup. destruct Hup as [_ Hup].
  fold st in Hup. unfold registers_and_replies in Hup.
  cbn [fmap option_fmap option_map] in Hup. rewrite Hret in Hup.
  destruct (timestamp_to_slot _ _) as [slot|]; [|by destruct Hup].
  destruct Hup as (o & b & Hreg & Hc & Hx). exists (match o with Done (Ok i) => i | _ => [] end), b.
  destruct o as [[i|m]|m]; [|done..]. injection Hx as Hx.
  split; [done|]. split; [|done]. fold w' in Hc. unfold known_id. rewrite Hc.
  by apply (registered_id self slot _ _ _ _ _ Hreg).
Qed.

(** C16: a client that repeats the controller's forkchoiceUpdated gets the controller's reply,
    payload id included: if the engine answers VALID to a state without a definite status
    and the controller's request, with attributes of version 2, succeeds, then the same
    request of a client succeeds at once with the same response, and the engine is not
    called for it. *)
Theorem client_repeats_controller_fcu env env' w r fcu json a answer resp :
  req_method r = ENGINE_FORKCHOICE_UPDATED_V2 →
  parse_as (JsonForkchoiceStateV1 * option JsonValue) r = Ok (req_id r, (fcu, Some json)) →
  from_value JsonPayloadAttributesV2 json = Ok a →
  parse_as (JsonForkchoiceStateV1 * option JsonPayloadAttributesV2) r =
    Ok (req_id r, (fcu, Some a)) →
  (cached_fcu self fcu true (w_caches w)).1 = None →
  (∀ o, lru_peek fcu (fcu_cache (w_caches w)) = Some o → is_definite o = false) →
  env_forkchoice_updated env (w_calls w) (ForkchoiceState_from fcu) None = Ok answer →
  status (payload_status (jfcu_from_response answer)) = Valid →
  (run env (handle_controller_fcu self r) w).1 = Returned (Ok resp) →
  let w' := (run env (handle_controller_fcu self r) w).2 in
  (run env' (handle_fcu self r) w').1 = Returned (Ok resp) ∧
  w_calls (run env' (handle_fcu self r) w').2 = w_calls w'.
Proof.
  intros Hm Hctrl Hjson Hclient Hmiss Hold Hans Hvalid Hret w'.
  destruct (controller_fcu_registers env w r fcu json a answer resp)
    as (i & b & Hresp & Hi & Hcs); try done. fold w' in Hi, Hcs. clearbody w'. clear Hret.
  assert (Hfound : wp (alone env') (handle_fcu self r) w'
    (λ x w1, x = Returned (Ok resp) ∧ w_calls w1 = w_calls w')).
  { unfold handle_fcu. rewrite Hclient, bind_result_Ok. apply wp_bind,
      alone_client_fcu_status_found with (st := payload_status (jfcu_from_response answer)).
    { intros d. rewrite Hcs. destruct (lookup_fcu_same self fcu (fcu_cache (w_caches w)))
        as [_ Hpeek]. apply store_fcu_found; [|done].
      intros o. simpl. rewrite Hpeek. apply Hold. }
    intros w1 Hb1 Hk1. cbn [then_post]. apply wp_bind, wp_bind, alone_get_existing_id.
    intros w2 Hk2. unfold known_id in *. rewrite Hb1, Hi. simpl.
    split; [by f_equal|congruence]. }
  by apply alone_run in Hfound.
Qed.
End properties.

(** * The properties on concrete requests *)

Section witnesses.
Import ToyInstances.



Lemma handle_fcu_functional_witness :
  (run toy_env (handle_fcu toy_statics toy_fcu) toy_world).1 =
    Returned (Ok toy_syncing_response).
Proof.
  destruct (proj2 (handle_fcu_functional toy_statics toy_env toy_world toy_fcu) toy_fcu_state None)
    as [_ Hx]; [computes|by intros t cs Hcs; exact Hcs|]. rewrite Hx. computes.
Defined.


Lemma handle_controller_new_payload_functional_witness :
  (run toy_env (handle_controller_new_payload toy_statics toy_new_payload) toy_world).1 =
    Returned (Ok toy_np_response).
Proof.
  assert (Hd : decode_new_payload toy_statics toy_new_payload = Done (Ok toy_decoded)) by computes.
  pose proof (handle_controller_new_payload_functional toy_statics toy_env toy_world
    toy_new_payload eq_refl) as Hx. cbv zeta in Hx. rewrite Hd in Hx.
  destruct Hx as (npr & cs & _ & _ & Hx).
  assert (Hp : lru_peek (ep_block_hash (ep_from_json (dec_payload toy_decoded)))
    (new_payload_cache (w_caches toy_world)) = None) by computes.
  destruct (lru_peek _ _) as [e|] eqn:He in Hx.
  - pose proof (eq_trans (eq_sym Hp) He) as Heq. discriminate Heq.
  - destruct Hx as (_ & Hx & _). rewrite Hx. computes.
Defined.

(** The controller asks for a child of block 7, which it has sent before. *)
Definition toy_sent_world : World :=
  (run toy_env (handle_controller_new_payload toy_statics toy_new_payload) toy_world).2.

Lemma client_repeats_controller_fcu_witness :
  (run toy_env (handle_fcu toy_statics toy_fcu_build)
     (run toy_env (handle_controller_fcu toy_statics toy_fcu_build) toy_sent_world).2).1 =
    Returned (Ok toy_build_response).
Proof.
  refine (proj1 (client_repeats_controller_fcu toy_statics toy_env toy_env toy_sent_world
    toy_fcu_build toy_fcu_state (TObj [("timestamp", TNum 1096)])
    (ToyAttributes 1096 5 6 [] None) Valid toy_build_response _ _ _ _ _ _ _ _ _)).
  all: try computes.
  assert (Hp : lru_peek toy_fcu_state (fcu_cache (w_caches toy_sent_world)) = None) by computes.
  intros o Ho. pose proof (eq_trans (eq_sym Hp) Ho) as Heq. discriminate Heq.
Defined.
End witnesses.
