(* ===== verification/CacheProps.v ===== *)
(** What a single request does with the caches: when the engine is asked, what is stored,
    and what a client then sees. *)
From S2P Require Import Prelude Uint256 BaseFee Lru RecencyList Lighthouse Types Config.
From S2P Require Import Multiplexer Prog Logic Shared PayloadBuilder BuilderSpec Fcu NewPayload.
From S2P Require Import Alone Meta Jwt Main Toy Isolation Invariant Backed Replies Tracing.
From S2P Require Import Safety AloneSpecs.

(** * Properties *)

Section properties.
Context `{ExtOk} `{!NetworkOps}.
Variable self : Statics.

(** a status the controller asks for again is answered from the cache when it is
    definite: neither handler calls the engine. *)
Theorem controller_answers_from_cache env w id fcu ep npr st st' :
  (cached_fcu self fcu true (w_caches w)).1 = Some st →
  (cached_status (ep_block_hash ep) true (w_caches w)).1 = Some st' →
  (run env (controller_fcu_status self id fcu) w).1 = Returned (Ok st) ∧
  w_calls (run env (controller_fcu_status self id fcu) w).2 = w_calls w ∧
  is_definite st = true ∧
  (run env (controller_new_payload_status id ep npr) w).1 = Returned (Ok st') ∧
  w_calls (run env (controller_new_payload_status id ep npr) w).2 = w_calls w ∧
  is_definite st' = true.
Proof.
  intros Hst Hst'.
  assert (Hf : wp (alone env) (controller_fcu_status self id fcu) w
    (λ x w', x = Returned (Ok st) ∧ w_calls w' = w_calls w)).
  { apply alone_controller_fcu_status. intros w'. cbv zeta. by rewrite Hst. }
  assert (Hn : wp (alone env) (controller_new_payload_status id ep npr) w
    (λ x w', x = Returned (Ok st') ∧ w_calls w' = w_calls w)).
  { apply (alone_controller_new_payload_status env). intros w'. cbv zeta. by rewrite Hst'. }
  apply alone_run in Hf as [-> ->]. apply alone_run in Hn as [-> ->].
  rewrite cached_status_value in Hst'. unfold cached_fcu in Hst. simpl in *.
  split_and!; try done.
  - destruct (lookup_fcu self fcu _).1 as [s|]; [|done].
    destruct (just_and_fin_cached _ _ _), (is_definite s) eqn:Hd; by simplify_eq/=.
  - destruct (lru_peek _ _) as [e|]; [|done].
    destruct (is_definite (entry_status e)) eqn:Hd; by simplify_eq/=.
Qed.

(** the controller's forkchoiceUpdated on a miss: the engine is called once, with the
    same state and no attributes, and the reply is its answer.  The cache then holds that
    answer unless it already held a definite one; if the answer was stored and is VALID,
    the safe and finalized blocks are known from then on.  An error of the engine is
    reported and stores nothing. *)
Theorem controller_fcu_miss env w id fcu :
  (cached_fcu self fcu true (w_caches w)).1 = None →
  let s := ForkchoiceState_from fcu in
  let ans := env_forkchoice_updated env (w_calls w) s None in
  let w' := (run env (controller_fcu_status self id fcu) w).2 in
  w_calls w' = CallForkchoiceUpdated s None ans :: w_calls w ∧
  match ans with
  | Err _ =>
    (run env (controller_fcu_status self id fcu) w).1 =
      Returned (Err (invalid_request id "forkchoice update failed: see eleel logs")) ∧
    caches_same (w_caches w') (w_caches w)
  | Ok resp =>
    let st := payload_status (jfcu_from_response resp) in
    let old := lru_peek fcu (fcu_cache (w_caches w)) in
    (run env (controller_fcu_status self id fcu) w).1 = Returned (Ok st) ∧
    lru_peek fcu (fcu_cache (w_caches w')) =
      Some match old with
           | Some old => if is_definite old then old else st
           | None => st
           end ∧
    ((∀ o, old = Some o → is_definite o = false) → status st = Valid →
     lru_contains (safe_block_hash fcu) (justified_block_cache (w_caches w')) = true ∧
     lru_contains (finalized_block_hash fcu) (finalized_block_cache (w_caches w')) = true)
  end.
Proof.
  intros Hmiss s ans w'.
  assert (Hwp : wp (alone env) (controller_fcu_status self id fcu) w
    (λ x w', w_calls w' = CallForkchoiceUpdated s None ans :: w_calls w ∧
       match ans with
       | Err _ => x = Returned (Err (invalid_request id "forkchoice update failed: see eleel logs")) ∧
                  w_caches w' = (cached_fcu self fcu true (w_caches w)).2
       | Ok resp => let st := payload_status (jfcu_from_response resp) in
                    x = Returned (Ok st) ∧
                    w_caches w' = store_fcu fcu st (cached_fcu self fcu true (w_caches w)).2
       end)).
  { apply alone_controller_fcu_status. intros w1. cbv zeta. rewrite Hmiss. fold s. fold ans.
    intros Hk. by destruct ans. }
  apply alone_run in Hwp. fold w' in Hwp. destruct Hwp as [Hk Hres]. split; [done|].
  unfold cached_fcu in Hres. cbn [snd] in Hres.
  pose proof (lookup_fcu_same self fcu (fcu_cache (w_caches w))) as Hsame.
  set (c := (lookup_fcu self fcu (fcu_cache (w_caches w))).2) in *.
  destruct ans as [resp|e]; destruct Hres as [-> Hc].
  2: { split; [done|]. rewrite Hc. intros m. destruct (decide (m = MFcu)) as [->|Hne]; [done|].
       by rewrite get_set_guarded_ne. }
  set (st := payload_status (jfcu_from_response resp)) in *. cbv zeta. split; [done|].
  destruct Hsame as [_ Hpeek]. rewrite Hc. unfold store_fcu. cbn [get_guarded fcu_cache set_guarded].
  pose proof (update_fcu_cache_peek fcu st c) as Hupd. rewrite Hpeek in Hupd.
  assert (Hflag : (∀ o, lru_peek fcu (fcu_cache (w_caches w)) = Some o → is_definite o = false) →
    (update_fcu_cache fcu st c).1 = true).
  { intros Hold. rewrite update_fcu_cache_stored, Hpeek.
    destruct (lru_peek fcu (fcu_cache (w_caches w))) as [o|]; [|done]. by rewrite (Hold o). }
  split.
  - by destruct (_ && _).
  - intros Hold Hvalid. rewrite (Hflag Hold), bool_decide_eq_true_2 by done. simpl.
    split; apply contains_peek; rewrite peek_put_eq; eauto.
Qed.

(** what the controller has just made the head is what clients are told, in every
    matching mode: if the engine answers VALID to a state which had no definite status, a
    client's forkchoiceUpdated with the same state gets that answer at once, and the engine
    is not called again. *)
Theorem client_sees_controller_fcu env env' w id fcu resp :
  (cached_fcu self fcu true (w_caches w)).1 = None →
  (∀ o, lru_peek fcu (fcu_cache (w_caches w)) = Some o → is_definite o = false) →
  env_forkchoice_updated env (w_calls w) (ForkchoiceState_from fcu) None = Ok resp →
  let st := payload_status (jfcu_from_response resp) in
  status st = Valid →
  let w' := (run env (controller_fcu_status self id fcu) w).2 in
  (run env' (client_fcu_status self fcu) w').1 = Returned st ∧
  w_calls (run env' (client_fcu_status self fcu) w').2 = w_calls w'.
Proof.
  intros Hmiss Hold Hans st Hvalid w'.
  assert (Hwp : wp (alone env) (controller_fcu_status self id fcu) w
    (λ x w', w_caches w' = store_fcu fcu st (cached_fcu self fcu true (w_caches w)).2)).
  { apply alone_controller_fcu_status. intros w1. cbv zeta. by rewrite Hmiss, Hans. }
  apply alone_run in Hwp. fold w' in Hwp. clearbody w'.
  assert (Hfound : wp (alone env') (client_fcu_status self fcu) w'
    (λ x w1, x = Returned st ∧ w_calls w1 = w_calls w')).
  { apply alone_client_fcu_status_found with (st := st); [|done]. intros d. rewrite Hwp.
    destruct (lookup_fcu_same self fcu (fcu_cache (w_caches w))) as [_ Hpeek].
    apply store_fcu_found; [|done]. intros o. simpl. rewrite Hpeek. apply Hold. }
  by apply alone_run in Hfound.
Qed.

(** the same for payloads: on a miss the engine is called once with the controller's
    payload, and a definite answer is what a client with that block hash gets from then on,
    whatever the age of the block and without another call. *)
Theorem client_sees_controller_new_payload env env' w id ep npr a id' n npr' :
  (cached_status (ep_block_hash ep) true (w_caches w)).1 = None →
  env_new_payload env (w_calls w) npr = Ok a →
  let st := jps_from_status a in
  is_definite st = true →
  let w' := (run env (controller_new_payload_status id ep npr) w).2 in
  let client := client_new_payload_status self id' (ep_block_hash ep) n npr' in
  (run env (controller_new_payload_status id ep npr) w).1 = Returned (Ok st) ∧
  w_calls w' = CallNewPayload npr (Ok a) :: w_calls w ∧
  (run env' client w').1 = Returned (Ok st) ∧
  w_calls (run env' client w').2 = w_calls w'.
Proof.
  intros Hmiss Hans st Hdef w' client.
  assert (Hwp : wp (alone env) (controller_new_payload_status id ep npr) w
    (λ x w', x = Returned (Ok st) ∧ w_calls w' = CallNewPayload npr (Ok a) :: w_calls w ∧
       lru_peek (ep_block_hash ep) (new_payload_cache (w_caches w')) =
         Some (MkNewPayloadCacheEntry st (ep_block_number ep)))).
  { apply (alone_controller_new_payload_status env). intros w1. cbv zeta. rewrite Hmiss, Hans.
    intros Hk Hc. split_and!; [done..|]. by rewrite Hc, store_new_payload_peek. }
  apply alone_run in Hwp as (-> & Hk & Hpeek). fold w' in Hk, Hpeek. clearbody w'.
  assert (Hfound : wp (alone env') client w'
    (λ x w1, x = Returned (Ok st) ∧ w_calls w1 = w_calls w')).
  { apply alone_client_new_payload_found with (st := st); [|done]. intros d.
    rewrite cached_status_value, Hpeek. simpl. rewrite Hdef. by destruct d. }
  apply alone_run in Hfound as [Hx Hk']. by split_and!.
Qed.

(** a client that asks for a block nobody has heard of, and of which nothing is heard
    while it waits, is told SYNCING, or that its versioned hashes are wrong; the wait ends
    and the engine is not called. *)
Theorem client_unknown_is_syncing env w id bh n npr :
  (∀ t cs, lru_peek bh (new_payload_cache cs) = None →
           lru_peek bh (new_payload_cache (env_others env t cs)) = None) →
  lru_peek bh (new_payload_cache (w_caches w)) = None →
  (run env (client_new_payload_status self id bh n npr) w).1 =
    Returned (match verify_versioned_hashes npr with
              | Ok _ => Ok synthetic_syncing
              | Err _ => Err (invalid_request id "incorrect versioned hashes")
              end) ∧
  w_calls (run env (client_new_payload_status self id bh n npr) w).2 = w_calls w.
Proof.
  intros Hothers Hno.
  assert (Hwp : wp (alone env) (client_new_payload_status self id bh n npr) w
    (λ x w', x = Returned (match verify_versioned_hashes npr with
              | Ok _ => Ok synthetic_syncing
              | Err _ => Err (invalid_request id "incorrect versioned hashes")
              end) ∧ w_calls w' = w_calls w)).
  { by apply alone_client_new_payload_stable with (o := None). }
  by apply alone_run in Hwp.
Qed.

(** the engine's answer to a forkchoice state replaces an indefinite status and never a
    definite one, it reports which of the two happened, and it touches no other state
    (except that the least recently used one may make room). *)
Theorem update_fcu_cache_keeps_definite fcu st
    (c : Cache JsonForkchoiceStateV1 JsonPayloadStatusV1) :
  let r := update_fcu_cache fcu st c in
  (∀ old, lru_peek fcu c = Some old → is_definite old = true →
     r.1 = false ∧ ∀ fcu', lru_peek fcu' r.2 = lru_peek fcu' c) ∧
  ((∀ old, lru_peek fcu c = Some old → is_definite old = false) →
     r.1 = true ∧ lru_peek fcu r.2 = Some st ∧
     ∀ fcu' st', fcu' ≠ fcu → lru_peek fcu' r.2 = Some st' → lru_peek fcu' c = Some st').
Proof.
  intros r. split.
  - intros old Hold Hdef. unfold r. rewrite update_fcu_cache_stored, Hold, Hdef.
    split; [done|]. intros fcu'. unfold update_fcu_cache.
    set (ow := λ old, if is_definite old then old else st).
    pose proof (get_mut_value fcu ow c) as Hv. pose proof (peek_get_mut fcu ow fcu' c) as Hp.
    destruct (lru_get_mut fcu ow c) as [o c']. simpl in *. subst o.
    rewrite Hold in *. simpl in *. rewrite Hp. case_decide as Hk; [|done]. subst. rewrite Hold.
    unfold ow. by rewrite Hdef.
  - intros Hold. unfold r. rewrite update_fcu_cache_stored, update_fcu_cache_peek. split_and!.
    + destruct (lru_peek fcu c) as [o|]; [|done]. by rewrite (Hold o).
    + destruct (lru_peek fcu c) as [o|]; [|done]. by rewrite (Hold o).
    + intros fcu' st' Hne [[-> _]|Hc]%update_fcu_cache_Some; [done|exact Hc].
Qed.

(** C28: a payload is recent when its block number is at most the configured cutoff behind
    every cached payload. *)
Theorem is_recent_payload_spec env w n :
  is_u64 n → is_u64 (new_payload_wait_cutoff (config self)) →
  ∃ recent, (run env (is_recent_payload self n) w).1 = Returned recent ∧
    (recent = true ↔ ∀ bh e, lru_peek bh (new_payload_cache (w_caches w)) = Some e →
       (entry_block_number e ≤ n + new_payload_wait_cutoff (config self))%Z).
Proof.
  intros [Hn _] [Hc _]. eexists. split.
  { assert (Hwp : wp (alone env) (is_recent_payload self n) w
      (λ x w', x = Returned (u64_saturating_sub
         (highest_block_number (new_payload_cache (w_caches w)))
         (new_payload_wait_cutoff (config self)) <=? n)%Z)) by (by apply alone_is_recent).
    by apply alone_run in Hwp. }
  unfold u64_saturating_sub. rewrite Z.leb_le.
  transitivity (highest_block_number (new_payload_cache (w_caches w)) ≤
    n + new_payload_wait_cutoff (config self))%Z; [lia|].
  rewrite highest_block_number_le by lia. split.
  - intros Hall bh e Hp. apply (Hall (bh, e)). by apply lru_elem_peek.
  - intros Hall [bh e] Hin. apply (Hall bh). by apply lru_elem_peek.
Qed.
End properties.

(** * Two limits of what clients find *)

Section findings.
Context `{ExtOk} `{!NetworkOps}.

(** All attributes the builder knows were registered in version 3. *)
Definition v3_only (cs : Caches) : Prop :=
  ∀ key i, lru_peek key (payload_attributes (payload_builder cs)) = Some i →
    ∃ b, key.2 = pa_from_json (JPA_V3 b).

Lemma alone_existing_id_V3 env w bh a (Q : exit (result PayloadId string) → World → Prop) :
  v3_only (w_caches w) →
  (∀ e w', Q (Returned (Err e)) w') →
  wp (alone env) (get_existing_payload_id bh (pa_from_json (JPA_V2 a))) w Q.
Proof.
  intros Hv3 HQ. apply wp_bind, alone_locked. intros w' _. cbn [then_post get_guarded].
  unfold get_existing_payload_id_locked.
  pose proof (get_value (bh, pa_from_json (JPA_V2 a))
    (payload_attributes (payload_builder (w_caches w)))) as Hv.
  destruct (lru_get _ _) as [o c]. simpl in *. subst o.
  destruct (lru_peek _ _) as [i|] eqn:Hp; [|apply HQ].
  destruct (Hv3 _ _ Hp) as [b Hb]. by apply pa_from_json_V2_V3 in Hb.
Qed.

(** The lookups of a client leave the builder alone. *)
Lemma alone_get_cached_fcu_V3 self env fcu d w
    (Q : exit (option JsonPayloadStatusV1) → World → Prop) :
  v3_only (w_caches w) →
  (∀ o w', v3_only (w_caches w') → (w_clock w ≤ w_clock w')%Z → Q (Returned o) w') →
  wp (alone env) (get_cached_fcu self fcu d) w Q.
Proof.
  intros Hv3 HQ. apply alone_get_cached_fcu. intros w' (Hc & _ & Ht). apply HQ; [|done].
  unfold v3_only. by rewrite Hc.
Qed.

Lemma alone_client_fcu_status_V3 self env fcu w (Q : exit JsonPayloadStatusV1 → World → Prop) :
  (∀ t cs, v3_only cs → v3_only (env_others env t cs)) →
  v3_only (w_caches w) → (∀ st w', v3_only (w_caches w') → Q (Returned st) w') →
  wp (alone env) (client_fcu_status self fcu) w Q.
Proof.
  intros Hothers Hv3 HQ. apply wp_bind.
  apply alone_poll_until_J with (J := λ w', v3_only (w_caches w')); [..|exact Hv3].
  - intros w1 w2 HJ (-> & _ & _). exact HJ.
  - intros w1 t HJ. by apply Hothers.
  - intros w1 HJ. apply alone_get_cached_fcu_V3; [done|]. intros o w2 HJ2 Ht. exists o.
    split_and!; try done. intros st ->. by apply HQ.
  - intros w1 HJ. cbn [then_post]. apply wp_bind, alone_get_cached_fcu_V3; [done|].
    intros [st|] w2 HJ2 _; by apply HQ.
Qed.

(** C36: a client's attributes are read as version 2 whatever the method.  As long as the
    controller registers attributes of version 3 only, no client's forkchoiceUpdated is
    answered with a payload id, whichever attributes it asks for. *)
Theorem client_never_finds_V3_attributes self env w r fcu attrs :
  parse_as (JsonForkchoiceStateV1 * option JsonPayloadAttributesV2) r =
    Ok (req_id r, (fcu, attrs)) →
  (∀ t cs, v3_only cs → v3_only (env_others env t cs)) → v3_only (w_caches w) →
  ∃ st, (run env (handle_fcu self r) w).1 =
    Returned (Response_new (req_id r) {| payload_status := st; payload_id := None |}).
Proof.
  intros Hp Hothers Hv3.
  assert (Hwp : wp (alone env) (handle_fcu self r) w (λ x _, ∃ st,
    x = Returned (Response_new (req_id r) {| payload_status := st; payload_id := None |}))).
  { unfold handle_fcu. rewrite Hp, bind_result_Ok. apply wp_bind, alone_client_fcu_status_V3;
      [done..|]. intros st w1 Hv1. cbn [then_post]. apply wp_bind.
    destruct attrs as [a|]; [|by exists st].
    apply wp_bind, alone_existing_id_V3; [done|]. intros e w2. by exists st. }
  by apply alone_run in Hwp.
Qed.

(** C37: with loose matching, a state whose definite status is still cached while its safe
    block is not known any more is asked of the engine again by the controller; and
    whatever the engine answers, VALID included, every cache is left with the content it had:
    the cached status stays, and the safe block stays unknown.  So a client with this
    state still finds nothing, and the controller's next request goes to the engine again. *)
Theorem loose_match_not_restored self env w id fcu old :
  fcu_matching (config self) = Loose →
  lru_peek fcu (fcu_cache (w_caches w)) = Some old → is_definite old = true →
  lru_contains (safe_block_hash fcu) (justified_block_cache (w_caches w)) = false →
  let w' := (run env (controller_fcu_status self id fcu) w).2 in
  (∃ ans, w_calls w' = CallForkchoiceUpdated (ForkchoiceState_from fcu) None ans :: w_calls w) ∧
  caches_same (w_caches w') (w_caches w) ∧
  lru_peek fcu (fcu_cache (w_caches w')) = Some old ∧
  lru_contains (safe_block_hash fcu) (justified_block_cache (w_caches w')) = false ∧
  ∀ d, (cached_fcu self fcu d (w_caches w')).1 = None.
Proof.
  intros Hloose Hold Hdef Hsafe w'.
  assert (Hmiss : ∀ d cs, lru_contains (safe_block_hash fcu) (justified_block_cache cs) = false →
    (cached_fcu self fcu d cs).1 = None).
  { intros d cs Hj. unfold cached_fcu, just_and_fin_cached. rewrite Hloose, Hj.
    simpl. by case_match. }
  assert (Hwp : wp (alone env) (controller_fcu_status self id fcu) w
    (λ _ w', (∃ ans, w_calls w' =
                CallForkchoiceUpdated (ForkchoiceState_from fcu) None ans :: w_calls w) ∧
             caches_same (w_caches w') (w_caches w))).
  { assert (Hread : (cached_fcu self fcu true (w_caches w)).2 = w_caches w).
    { unfold cached_fcu, lookup_fcu. rewrite Hloose. by destruct (w_caches w). }
    apply alone_controller_fcu_status. intros w1. cbv zeta. rewrite Hmiss, Hread by done.
    intros Hk. destruct (env_forkchoice_updated _ _ _ _) as [resp|e]; intros Hc;
      (split; [by eexists|]); rewrite Hc; [|done].
    unfold store_fcu. rewrite update_fcu_cache_stored. cbn [get_guarded set_guarded fcu_cache].
    rewrite Hold, Hdef. cbn [negb andb]. apply (set_guarded_same MFcu).
    by apply (update_fcu_cache_same fcu _ old). }
  apply alone_run in Hwp as [Hk Hsame]. fold w' in Hk, Hsame.
  destruct (Hsame MFcu) as [_ Hf]. pose proof (Hsame MJustified) as Hj. cbn [get_guarded] in *.
  assert (Hgone : lru_contains (safe_block_hash fcu) (justified_block_cache (w_caches w')) = false)
    by (by rewrite Hj).
  split_and!; [done|done|by rewrite Hf|done|]. intros d. by apply Hmiss.
Qed.
End findings.

(** * The properties on concrete requests *)

Section witnesses.
Import ToyInstances.
#[local] Open Scope Z_scope.

(** The controller has made block 7 the head, then sent its payload. *)
Definition toy_head_world : World :=
  (run toy_env (controller_fcu_status toy_statics (TNum 0) toy_fcu_state) toy_world).2.
Definition toy_known_world : World :=
  (run toy_env (controller_new_payload_status (TNum 0) toy_parent toy_npr) toy_head_world).2.

Lemma controller_answers_from_cache_witness :
  (run toy_env (controller_fcu_status toy_statics (TNum 0) toy_fcu_state) toy_known_world).1 =
    Returned (Ok (MkJsonPayloadStatusV1 Valid None None)) ∧
  w_calls (run toy_env (controller_fcu_status toy_statics (TNum 0) toy_fcu_state)
             toy_known_world).2 = w_calls toy_known_world.
Proof.
  destruct (controller_answers_from_cache toy_statics toy_env toy_known_world (TNum 0)
    toy_fcu_state toy_parent toy_npr (MkJsonPayloadStatusV1 Valid None None)
    (MkJsonPayloadStatusV1 Valid None None)) as (Hx & Hk & _).
  - computes.
  - computes.
  - exact (conj Hx Hk).
Defined.

Lemma controller_fcu_miss_witness :
  w_calls toy_head_world =
    [CallForkchoiceUpdated (ForkchoiceState_from toy_fcu_state) None (Ok Valid)] ∧
  lru_contains 5004 (justified_block_cache (w_caches toy_head_world)) = true.
Proof.
  assert (Hmiss : (cached_fcu toy_statics toy_fcu_state true (w_caches toy_world)).1 = None)
    by computes.
  destruct (controller_fcu_miss toy_statics toy_env toy_world (TNum 0) toy_fcu_state Hmiss)
    as (Hk & _ & _ & Hblocks).
  split; [exact Hk|]. refine (proj1 (Hblocks _ _)).
  - intros o Ho. discriminate (Ho : None = Some o).
  - reflexivity.
Defined.

Lemma client_sees_controller_fcu_witness :
  (run toy_env (client_fcu_status toy_statics toy_fcu_state) toy_head_world).1 =
    Returned (MkJsonPayloadStatusV1 Valid None None) ∧
  w_calls (run toy_env (client_fcu_status toy_statics toy_fcu_state) toy_head_world).2 =
    w_calls toy_head_world.
Proof.
  refine (client_sees_controller_fcu toy_statics toy_env toy_env toy_world (TNum 0)
            toy_fcu_state Valid _ _ _ _).
  - computes.
  - intros o Ho. discriminate (Ho : None = Some o).
  - reflexivity.
  - reflexivity.
Defined.

Lemma client_sees_controller_new_payload_witness :
  let w' := (run toy_env (controller_new_payload_status (TNum 0) toy_parent toy_npr) toy_world).2 in
  let client := client_new_payload_status toy_statics (TNum 1) 7006 7 toy_npr in
  (run toy_env (controller_new_payload_status (TNum 0) toy_parent toy_npr) toy_world).1 =
    Returned (Ok (MkJsonPayloadStatusV1 Valid None None)) ∧
  w_calls w' = [CallNewPayload toy_npr (Ok Valid)] ∧
  (run toy_env client w').1 = Returned (Ok (MkJsonPayloadStatusV1 Valid None None)) ∧
  w_calls (run toy_env client w').2 = w_calls w'.
Proof.
  refine (client_sees_controller_new_payload toy_statics toy_env toy_env toy_world (TNum 0)
            toy_parent toy_npr Valid (TNum 1) 7 toy_npr _ _ _).
  - computes.
  - reflexivity.
  - reflexivity.
Defined.

Lemma client_unknown_is_syncing_witness :
  (run toy_env (client_new_payload_status toy_statics (TNum 1) 7006 7 toy_npr) toy_world).1 =
    Returned (Ok synthetic_syncing) ∧
  w_calls (run toy_env (client_new_payload_status toy_statics (TNum 1) 7006 7 toy_npr)
             toy_world).2 = [].
Proof.
  refine (client_unknown_is_syncing toy_statics toy_env toy_world (TNum 1) 7006 7 toy_npr _ _).
  - intros t cs Hcs. exact Hcs.
  - computes.
Defined.

Lemma update_fcu_cache_keeps_definite_witness :
  (update_fcu_cache toy_fcu_state synthetic_syncing (fcu_cache (w_caches toy_head_world))).1 =
    false.
Proof.
  refine (proj1 (proj1 (update_fcu_cache_keeps_definite toy_fcu_state synthetic_syncing
    (fcu_cache (w_caches toy_head_world))) (MkJsonPayloadStatusV1 Valid None None) _ _)).
  - computes.
  - reflexivity.
Defined.

Lemma is_recent_payload_spec_witness :
  ∃ recent, (run toy_env (is_recent_payload toy_statics 3) toy_known_world).1 = Returned recent ∧
    (recent = true ↔ ∀ bh e,
       lru_peek bh (new_payload_cache (w_caches toy_known_world)) = Some e →
       entry_block_number e ≤ 3 + 64).
Proof. refine (is_recent_payload_spec toy_statics toy_env toy_known_world 3 _ _); split; done. Defined.

(** The controller has registered attributes of version 3 for a child of block 7; a client
    asks for the same. *)
Definition toy_v3_attributes : toy_attributes := ToyAttributes 1096 5 6 [] (Some 9).
Definition toy_v3_world : World :=
  MkWorld (set_guarded MBuilder
    (register_attributes_locked toy_statics (Slot_new 8) 7006 toy_v3_attributes
       (register_canonical_payload_locked toy_parent toy_builder)).2 toy_caches) 0 [].
Definition toy_fcu_v3 : Request :=
  MkRequest "2.0" "engine_forkchoiceUpdatedV3"
    (TArr [TArr [TNum 7006; TNum 5004; TNum 3002];
           TObj [("timestamp", TNum 1096); ("root", TNum 9)]]) (TNum 2).

Lemma client_never_finds_V3_attributes_witness :
  ∃ st, (run toy_env (handle_fcu toy_statics toy_fcu_v3) toy_v3_world).1 =
    Returned (Response_new (T := JsonForkchoiceUpdatedV1Response) (TNum 2)
                {| payload_status := st; payload_id := None |}).
Proof.
  refine (client_never_finds_V3_attributes toy_statics toy_env toy_v3_world toy_fcu_v3
    toy_fcu_state (Some (ToyAttributes 1096 5 6 [] (Some 9))) _ _ _).
  - computes.
  - intros t cs Hcs. exact Hcs.
  - assert (Hiter : lru_iter (payload_attributes (payload_builder (w_caches toy_v3_world))) =
                    [((7006, toy_v3_attributes), to_be_bytes 0)]) by computes.
    intros key i Hp. apply lru_elem_peek in Hp. rewrite Hiter in Hp.
    apply list_elem_of_singleton in Hp. injection Hp as -> _.
    exists toy_v3_attributes. reflexivity.
Defined.

(** The safe block of the head is not known any more. *)
Definition toy_evicted_world : World :=
  MkWorld (set_guarded MJustified (lru_new 4) (w_caches toy_head_world)) 0 [].

Lemma loose_match_not_restored_witness :
  (cached_fcu toy_statics toy_fcu_state false
     (w_caches (run toy_env (controller_fcu_status toy_statics (TNum 0) toy_fcu_state)
                  toy_evicted_world).2)).1 = None.
Proof.
  refine (proj2 (proj2 (proj2 (proj2 (loose_match_not_restored toy_statics toy_env
    toy_evicted_world (TNum 0) toy_fcu_state (MkJsonPayloadStatusV1 Valid None None)
    _ _ _ _)))) false).
  - reflexivity.
  - computes.
  - reflexivity.
  - computes.
Defined.
End witnesses.
