(* ===== verification/StartupProps.v ===== *)
(** Configuration and start-up: what the server begins with. *)
From S2P Require Import Prelude Uint256 BaseFee Lru RecencyList Lighthouse Types Config.
From S2P Require Import Multiplexer Prog Logic Shared PayloadBuilder Fcu NewPayload Meta Jwt.
From S2P Require Import Main Toy System Isolation Invariant Safety ServerProps.

(** the matching modes are read back from the names they are shown with, and from no
    other name; every mode is offered on the command line. *)
Theorem fcu_matching_round_trip :
  (∀ m, m ∈ FcuMatching_value_variants ∧
        FcuMatching_from_str (FcuMatching_into_str m) = Some m ∧
        fst <$> FcuMatching_to_possible_value m = Some (FcuMatching_into_str m)) ∧
  ∀ s m, FcuMatching_from_str s = Some m → FcuMatching_into_str m = s.
Proof.
  split; [intros []; split_and!; try done; set_solver|].
  intros s m Hs. unfold FcuMatching_from_str in Hs.
  apply bind_Some in Hs as ([i m'] & Hf & Hm).
  apply list_find_Some in Hf as (_ & <- & _). simpl in Hm. by injection Hm as ->.
Qed.

Section startup.
Context `{ExtOk} `{!NetworkOps} `{EngineOps}.

Lemma NonZeroUsize_new_Some n p : NonZeroUsize_new n = Some p ↔ n = Zpos p.
Proof. destruct n; simpl; naive_solver. Qed.

Lemma PayloadBuilder_new_Done size text : ∃ b, PayloadBuilder_new size text = Done b ∧
  payload_attributes b = lru_new size ∧ payload_info b = lru_new size ∧ payloads b = lru_new size ∧
  next_payload_id b = 0%Z.
Proof.
  unfold PayloadBuilder_new. pose proof MaxExtraDataBytes_nonneg.
  set (bytes := as_bytes text). set (len := Z.min (Z.of_nat (length bytes)) MaxExtraDataBytes).
  destruct (vl_new_ok MaxExtraDataBytes (take (Z.to_nat len) bytes)) as (v & -> & _).
  { rewrite length_take. lia. }
  by eexists.
Qed.

(** The sizes which [Multiplexer::new] insists on. *)
Definition sizes_ok (config : Config) : Prop :=
  (0 < fcu_cache_size config)%Z ∧ (0 < new_payload_cache_size config)%Z ∧
  (0 < justified_block_cache_size config)%Z ∧ (0 < payload_builder_cache_size config)%Z.

(** [Multiplexer::new] never panics; it fails when a cache size is zero, and what it
    returns has empty caches of the configured sizes (the finalized cache has the size
    configured for the justified one), the first payload id, and the configuration it was
    given. *)
Lemma Multiplexer_new_fresh config :
  (∃ res, Multiplexer_new config = Done res) ∧
  ∀ m, Multiplexer_new config = Done (Ok m) →
    sizes_ok config ∧ fresh (caches m) ∧ Multiplexer.config (statics m) = config ∧
    next_payload_id (payload_builder (caches m)) = 0%Z ∧
    Zpos (lru_cap (fcu_cache (caches m))) = fcu_cache_size config ∧
    Zpos (lru_cap (new_payload_cache (caches m))) = new_payload_cache_size config ∧
    Zpos (lru_cap (justified_block_cache (caches m))) = justified_block_cache_size config ∧
    Zpos (lru_cap (finalized_block_cache (caches m))) = justified_block_cache_size config ∧
    Forall (λ cap, Zpos cap = payload_builder_cache_size config)
      (guarded_caps MBuilder (payload_builder (caches m))).
Proof.
  unfold Multiplexer_new. destruct (new_engine config); [|split; [eauto|done]].
  destruct (NonZeroUsize_new (fcu_cache_size config)) as [p1|] eqn:H1'; [|split; [eauto|done]].
  destruct (NonZeroUsize_new (new_payload_cache_size config)) as [p2|] eqn:H2';
    [|split; [eauto|done]].
  destruct (NonZeroUsize_new (justified_block_cache_size config)) as [p3|] eqn:H3';
    [|split; [eauto|done]].
  destruct (NonZeroUsize_new (payload_builder_cache_size config)) as [p4|] eqn:H4';
    [|split; [eauto|done]].
  apply NonZeroUsize_new_Some in H1', H2', H3', H4'.
  destruct (PayloadBuilder_new_Done p4 (payload_builder_extra_data config))
    as (b & -> & Ha & Hi & Hp & Hn).
  simpl. split; [eauto|]. intros m Hm.
  destruct (network_chain_spec _); simpl in Hm; [|done].
  destruct (network_genesis_time _) as [[g|]|]; simpl in Hm; try done. injection Hm as <-. simpl.
  rewrite Hn, !lru_cap_new. unfold sizes_ok. split_and!; try done; try lia.
  2: { rewrite Ha, Hi, Hp, !lru_cap_new. by repeat constructor. }
  split; simpl; intros k; rewrite ?Ha, ?Hi, ?Hp; apply peek_new.
Qed.

Context `{JwtOps}.

(** What a server that starts is made of. *)
Lemma main_Done config server :
  main config = Done server →
  jwt_secret_from_path (controller_jwt_secret config) = Ok (controller_jwt (server_state server)) ∧
  load (client_jwt_secrets config) = Ok (client_jwt_collection (server_state server)) ∧
  ∃ m, Multiplexer_new config = Done (Ok m) ∧
    multiplexer (server_state server) = statics m ∧ server_caches server = caches m.
Proof.
  unfold main. intros Hmain.
  destruct (jwt_secret_from_path _) as [secret|e]; simpl in Hmain; [|done].
  destruct (load _) as [keys|e]; simpl in Hmain; [|done].
  destruct (Multiplexer_new config) as [[m|e]|msg]; simpl in Hmain; [|done..].
  destruct (u64_mul _ _); simpl in Hmain; simplify_eq/=. split_and!; try done. by exists m.
Qed.

(** C34: a server that starts has read both kinds of secrets, serves its configuration, and
    begins with empty caches, all of a positive size: the state from which the properties of
    every reachable state are stated.  The cache of finalized blocks has the size that is
    configured for the justified ones.  Start-up fails, by a panic, when a cache size is
    zero. *)
Theorem main_starts config :
  (∀ server, main config = Done server →
    jwt_secret_from_path (controller_jwt_secret config) = Ok (controller_jwt (server_state server)) ∧
    load (client_jwt_secrets config) = Ok (client_jwt_collection (server_state server)) ∧
    Multiplexer.config (multiplexer (server_state server)) = config ∧
    fresh (server_caches server) ∧
    next_payload_id (payload_builder (server_caches server)) = 0%Z ∧
    Zpos (lru_cap (fcu_cache (server_caches server))) = fcu_cache_size config ∧
    Zpos (lru_cap (new_payload_cache (server_caches server))) = new_payload_cache_size config ∧
    Zpos (lru_cap (justified_block_cache (server_caches server))) =
      justified_block_cache_size config ∧
    Zpos (lru_cap (finalized_block_cache (server_caches server))) =
      justified_block_cache_size config) ∧
  (¬ sizes_ok config → ∃ m, main config = Panicked m).
Proof.
  destruct (Multiplexer_new_fresh config) as [[res Hres] Hm]. split.
  - intros server (Hj & Hl & m & Hnew & Hstatics & Hcaches)%main_Done.
    rewrite Hstatics, Hcaches. destruct (Hm m Hnew) as (_ & Hf & Hc & Hn & ? & ? & ? & ? & _).
    by split_and!.
  - intros Hno. destruct (main config) as [server|msg] eqn:Hmain; [|eauto].
    apply main_Done in Hmain as (_ & _ & m & Hnew & _). by destruct (Hm m Hnew).
Qed.

(** C35: the memory of the server is bounded by its configuration: whatever requests it has
    received, no cache holds more entries than the size configured for it, the cache of
    finalized blocks no more than that of justified ones and each of the three caches of the
    payload builder no more than the builder's size. *)
Theorem caches_bounded config server s :
  main config = Done server → reachable (server_state server) (server_caches server) s →
  let c := mem_caches (sys_mem s) in
  let b := payload_builder c in
  (Z.of_nat (length (lru_iter (fcu_cache c))) ≤ fcu_cache_size config ∧
   Z.of_nat (length (lru_iter (new_payload_cache c))) ≤ new_payload_cache_size config ∧
   Z.of_nat (length (lru_iter (justified_block_cache c))) ≤ justified_block_cache_size config ∧
   Z.of_nat (length (lru_iter (finalized_block_cache c))) ≤ justified_block_cache_size config ∧
   Z.of_nat (length (lru_iter (payload_attributes b))) ≤ payload_builder_cache_size config ∧
   Z.of_nat (length (lru_iter (payload_info b))) ≤ payload_builder_cache_size config ∧
   Z.of_nat (length (lru_iter (payloads b))) ≤ payload_builder_cache_size config)%Z.
Proof.
  intros Hmain Hr c b. apply reachable_caps in Hr.
  apply main_Done in Hmain as (_ & _ & m & Hnew & _ & Hcaches). rewrite Hcaches in Hr.
  destruct (proj2 (Multiplexer_new_fresh config) m Hnew)
    as (_ & _ & _ & _ & <- & <- & <- & Hfin & Hb). rewrite <- Hfin.
  pose proof (Hr MBuilder) as Hb'. pose proof (Hr MFcu) as H1'. pose proof (Hr MNewPayload) as H2'.
  pose proof (Hr MJustified) as H3'. pose proof (Hr MFinalized) as H4'. simpl in *.
  fold c b in Hb', H1', H2', H3', H4'. rewrite <- Hb', !Forall_cons in Hb.
  destruct Hb as (Hb1 & Hb2 & Hb3 & _). simplify_eq.
  rewrite <- Hb1 at 1. rewrite <- Hb2 at 1. rewrite <- Hb3 at 1.
  pose proof (lru_iter_bounded (fcu_cache c)). pose proof (lru_iter_bounded (new_payload_cache c)).
  pose proof (lru_iter_bounded (justified_block_cache c)).
  pose proof (lru_iter_bounded (finalized_block_cache c)).
  pose proof (lru_iter_bounded (payload_attributes b)). pose proof (lru_iter_bounded (payload_info b)).
  pose proof (lru_iter_bounded (payloads b)).
  split_and!; lia.
Qed.
End startup.

Section witnesses.
Import ToyInstances.

Lemma main_starts_witness :
  (∃ body_limit, main toy_config = Done (MkServer toy_state toy_caches body_limit)) ∧
  fresh toy_caches ∧ Zpos (lru_cap (finalized_block_cache toy_caches)) = 4%Z.
Proof.
  assert (Hmain : main toy_config = Done (MkServer toy_state toy_caches 134217728)) by computes.
  destruct (proj1 (main_starts toy_config) _ Hmain) as (_ & _ & _ & Hf & _ & _ & _ & _ & Hc).
  split; [by eexists|]. exact (conj Hf Hc).
Defined.

Lemma caches_bounded_witness :
  (Z.of_nat (length (lru_iter (fcu_cache (mem_caches (sys_mem (toy_after toy_schedule)))))) ≤ 64)%Z.
Proof.
  assert (Hmain : main toy_config = Done (MkServer toy_state toy_caches 134217728)) by computes.
  assert (Hr : reachable toy_state toy_caches (toy_after toy_schedule))
    by (apply toy_after_reachable; computes).
  exact (proj1 (caches_bounded toy_config _ _ Hmain Hr)).
Defined.
End witnesses.
